(* ===== verification/_CoqProject ===== *)
-Q . S2P
Prelude.v
Tasks.v
Text.v
Float.v
FloatText.v
Net.v
IndexMap.v
Protocol.v
Model.v
Transform.v
Runtime.v
RuntimeSpec.v
Fixtures.v
RuntimeInv.v
RuntimeLaws.v
RuntimeUpdates.v
Media.v
Codec.v
Recording.v
RecordingSpec.v
RecordingProps.v
Export.v
Transport.v
WebRtc.v
Server.v
ServerRuntime.v
Lifecycle.v
LifecycleProps.v
ServerVideo.v
ServerLoop.v
ServerTasks.v
Stream.v
ServerSpec.v
ServerSessions.v
ServerPeer.v
ServerControl.v
ServerTake.v
Pipeline.v
ServerSteps.v
ServerCore.v
ServerPool.v
VideoPool.v
ServerFixtures.v
LifecycleFixtures.v
PoolFixtures.v
VideoFixtures.v
StreamFixtures.v
PipelineFixtures.v
Discovery.v
Client.v
Quic.v
Cli.v
Console.v
Simulate.v
SimulateProps.v
Display.v
SimulateOutput.v
SimulateOutputProps.v
Main.v
SwiftSdk.v
SwiftProps.v
ClientFixtures.v
OutputFixtures.v
Testkit.v
Legacy.v
PyValues.v
PythonSdk.v
PythonFixtures.v
UnitTest.v
CoreTests.v
MediaTests.v
RecordingTests.v
ServerTests.v
Hyphenated.v
ClientTests.v
