(* ===== verification/Prelude.v ===== *)
(** * MotionStage: a verification development

    MotionStage lets devices (phones, trackers, controllers) drive the
    attributes of a scene over the network, and records the result. This
    library models its Rust crates as executable definitions and proves what
    makes them correct. Paths below are under [src/crates/], those of the
    legacy server under [src/].

    ** The program and its model

    - [motionstage-protocol/src/lib.rs] ([Protocol.v]): the vocabulary of
      client and server: versions, roles, features, the session state machine
      [can_transition_to], the control messages.
    - [motionstage-core/src/model.rs] ([Model.v]): attribute values, scenes,
      mappings, leases. [motionstage-core/src/runtime.rs] ([Transform.v]: the
      free functions, that is masks, relative composition and filters;
      [Runtime.v]: the methods of [RuntimeCore]). A mapping binds an output of
      a device to an attribute; a batch of updates flows through [apply_updates]
      into the current values.
    - [motionstage-media/src/lib.rs] ([Media.v]): negotiation of video streams,
      frame endpoints, the signaling hub.
    - [motionstage-recording/src/lib.rs] ([Codec.v], [Recording.v]): the writer,
      the [CMTRK1]/[CMTRK2] file, its reader and its index.
    - [motionstage-transport-quic/src/lib.rs]: [Transport.v] (versioned
      envelopes, the length-prefixed control channel, motion datagrams),
      [Stream.v] (the control stream as it arrives in pieces, read by a receive
      that [tokio::select!] polls and drops) and [Quic.v] (endpoints and their
      configuration, the accept loop with the two halves of an accept).
    - [motionstage-webrtc/src/lib.rs] ([WebRtc.v]): the calls made on a peer.
    - [motionstage-server/src/lib.rs]: [Server.v] (state, sessions,
      registration), [ServerRuntime.v] (the methods that drive the runtime,
      takes, scheduler rounds, start and stop), [ServerVideo.v] (video and
      signaling), [ServerLoop.v] ([handle_quic_peer]: handshake and control
      loop of one connection). The server owns one [RuntimeCore], one
      [SignalingHub], the sessions, the video peers and at most one take.
      What awaits is there a second time, cut at its awaits: [ServerTasks.v]
      (video calls and the handler of a connection, over [Tasks.v]) and
      [Lifecycle.v] (start and stop with the channels and the loops they spawn).
    - [motionstage-export-chan/src/lib.rs], [motionstage-export-usd/src/lib.rs]
      ([Export.v]): the two text formats of a recording that was read.
    - [motionstage-discovery/src/lib.rs] ([Discovery.v]): advertising a server
      over mDNS, browsing, and what is read off a resolved service.
    - [motionstage-cli/src/simulate.rs]: [Cli.v] (arguments, the choice of a
      server, the commands of the prompt) and [Simulate.v] (the simulated device:
      its connection, its samples, its event loop, the server it may embed), and
      [SimulateOutput.v] the same functions with what they print, on the
      programs that print of [Console.v].
      [Main.v] is [motionstage-cli/src/main.rs], which runs it, or a server.
    - [motionstage-sdk-swift/src/lib.rs] ([SwiftSdk.v]): a client behind a C
      interface. Both clients stand on [Client.v], the client's end of a
      connection, and meet the server's handshake there ([meet]).
    - [motionstage-sdk-python/src/lib.rs]: [PyValues.v] (scene specifications
      and values as Python objects) and [PythonSdk.v] (the methods of
      [MotionStageServer], a server inside a Python process).
    - [motionstage-testkit/src/lib.rs] ([Testkit.v]): the harness of the tests.
    - The errors of all crates, as [thiserror] displays them ([Display.v]).
    - The [mod tests] of every crate: [UnitTest.v] (what a test may say),
      [CoreTests.v], [MediaTests.v], [RecordingTests.v], [ServerTests.v] and
      [ClientTests.v]. Each test is a program over the models of what it tests.
    - [legacy/motionstage_old/src] ([Legacy.v]): the earlier server, its
      registry of clients and its WebSocket session. No member of the workspace
      uses it.
    - Of the standard library: [Float.v] and [FloatText.v] (IEEE floats, their
      shortest decimal text and its parser), [Text.v] (strings), [Net.v] (socket
      addresses, sorting).

    ** How the code is read

    - A [&mut self] method that returns a [Result] is a [prog S E A]: it maps
      the state to the state afterwards, also after an error, and a [res]:
      [Ok], [Err] or [Panicked]. [?] is the monadic bind, a method of a field
      is [zoom], a [match] on a [Result] is [attempt].
    - Integers are [Z] with the wrap-around, saturation or truncation of their
      width written out; floats are the IEEE formats of [Float.v] with NaN and
      signed zero; strings are their UTF-8 bytes; [BTreeMap], [HashMap] and
      [HashSet] are [gmap] and [gset]; [IndexMap] is the interface of
      [IndexMap.v], an insertion-ordered map with the laws of that crate's
      documentation and an association list as an instance.
    - Time and fresh identifiers are arguments: [now] is what the clock reads
      and [id] what [Uuid::now_v7()] draws.
    - Third-party code is a class with the behaviour the program relies on:
      [Bincode] (decoding inverts encoding), [FileSystem] (a write that
      succeeds appends), [WebRtcCrate] (no laws), [UuidFormat] and [UuidText]
      (parsing inverts printing), [Network] (no laws; [Quic.quic_bind] is its
      binding), [QuicCrates] (no laws), [StreamReader] (a read takes bytes in
      order and is ready when it has enough), [RemoteAddresses] (equality),
      [MdnsCrate] (a service
      description has what it was built from, its full name when the name has
      nothing to escape), [PyObjects] (what [pyo3] extracts
      from the objects it makes), [ErrorText], [ErrorChain], [DebugText],
      [StrDebug], [ConsoleText] and [UuidErrorText] (texts, no laws; of the first
      two [Display.v] has the program's own), [Directories] and [Sine] (no laws).
      The instances of [RecordingProps.v], [Fixtures.v], [ServerFixtures.v],
      [StreamFixtures.v], [Discovery.v], [ClientFixtures.v] and
      [PythonFixtures.v] show that each with laws can be implemented, and
      [Hyphenated.v] has the text of identifiers that the program meets.
    - A client's connection is the list of what will arrive and the list of what
      becomes of its sends; theorems quantify over both, or take for the arrivals
      what the server's handshake sends. The simulator's [select!] is a list of
      events in any order, and the other tasks of an embedded server are runs of
      [server_op] between them.
    - A server method holds the write lock while it runs and is one step;
      the theorems of [ServerSessions.v] and [ServerTake.v] quantify over all
      sequences of such steps ([server_op], which leaves out only start and stop
      of the server itself), hence over all interleavings of clients.
    - Code that awaits in the middle is a [task] ([Tasks.v]): a tree of atomic
      steps, each of which runs under one lock, is one call of a crate or one
      send. Alone a task does what the sequential definition does
      ([handler_alone], [start_alone]). A pool is the shared state with any
      number of tasks, any of which takes the next step; connections may be
      added at any time, and everything else the server can do is a step of the
      environment. What a task keeps to is a rely/guarantee specification
      ([meets]), and [pool_sound] puts the specifications of all tasks together.
      The waiting for a lock is not a step and what arrives on a connection is a
      finite list, so pools say what holds in every state that is reached, not
      that connections make progress.
    - A future that is polled and dropped, the receive of a message or an accept,
      is a value that holds what it has done so far ([RecvFuture],
      [AcceptFuture]), and [tokio::select!] tries its branches in the order that
      the event says.
    - Fuel: the frame loops of the reader get the length of the file plus one,
      and every round that goes on consumes four bytes ([reading_terminates]
      proves that the fuel never runs out); [trim] and [split_whitespace] get the
      length of the string, and every step removes a byte; the loops that wait
      for a reply ([await_mode], [drain_messages]) get the number of arrivals
      plus one, and each round uses one up; [FloatText.v] gets 1200 digits, more
      than the decimal expansion of any [f64] has.

    ** The theorems

    - [RuntimeSpec.v], [RuntimeInv.v]: the scenes of every runtime are the ones
      that were loaded, with other values, and what was loaded well typed stays
      so; attributes keep one owner, recording freezes the bindings.
    - [RuntimeLaws.v], [RuntimeUpdates.v]: creation of mappings and masks, the
      scheduler, all that a batch changes, updates through a mask, absence of
      drift, baselines.
    - [Transform.v]: masked and relative composition, clamping, which filters
      panic. All vector targets compose relatively; [apply_mapping_transform] is
      what the remaining types take.
    - [RecordingSpec.v], [RecordingProps.v]: contents, round trip, index,
      truncation and termination for recordings.
    - [Transport.v], [Media.v]: round trips of the wire formats, agreement of
      the two version checks, negotiation, refinement of the signaling hub by
      one list of messages. [Stream.v]: messages come through however their bytes
      are cut, unless a receive is dropped with bytes in it, which cannot happen
      when every message arrives in one piece. [Quic.v]: the accept loop hands
      over connections in order.
    - [Export.v]: both formats keep every sample apart when names have no
      separators, as readers show that take the exported text back to the samples.
    - [Discovery.v], [Cli.v]: host labels and names survive, what decides a
      search for a server by name, which endpoint is taken.
    - [SimulateProps.v]: how a simulated client and the server end a handshake,
      what a simulator keeps however it is driven, what it leaves behind.
      [SimulateOutputProps.v]: the simulator that prints is the simulator, and
      what it keeps to itself and sends is what it prints.
      [SwiftProps.v]: the C interface refines a machine with two states; a
      connection and a change of mode agree with the server.
    - [PyValues.v], [PythonSdk.v]: scenes from scripts are well formed, values
      and modes come back as they were, mappings from scripts are those of the
      server. [Testkit.v]: the harness reaches the state of the handshake, and
      a soak counts its samples.
    - [ServerSpec.v], [ServerSessions.v]: the life of sessions, unique names,
      capacity, registration. [ServerPeer.v]: whom the handshake admits.
      [ServerControl.v]: what needs the operator role, how the loop ends.
      [ServerTake.v]: a take on disk is complete. [Pipeline.v]: what a client
      packs into a datagram ends up in the exported file.
    - [LifecycleProps.v]: start and stop come to an end and leave none of the
      loops running (the handlers of connections are spawned detached and are
      not waited for). [ServerSteps.v]: the steps of a connection, unique names
      among interleaved connections. [ServerCore.v]: the server drives its
      runtime through the methods of the runtime only. [ServerPool.v]:
      connections of different devices do not disturb each other's sessions.
      [VideoPool.v]: racing calls get one video peer while the session is open.
    - [Legacy.v]: the registry of the earlier server and its WebSocket session.
    - [core_tests_pass], [media_tests_pass], [recording_tests_pass],
      [server_tests_pass], [crate_tests_pass] and [client_tests_pass], in the
      files of the tests: the models pass the tests of the code they model.
    - [Fixtures.v], [ServerFixtures.v]: concrete stages and servers, the
      instances of the theorems, and the runs that show where the code leaves
      gaps ([update_mapping_steals_target], [scheduler_cuts_reclaim_grace],
      [admission_gaps], [connection_gaps], [recording_gaps]). [ClientFixtures.v],
      [OutputFixtures.v] and [PythonFixtures.v] do the same for the clients,
      the prompt and the scripts
      ([swift_status_gap], [python_gaps]); further gaps are [export_gaps],
      [discovery_gives_up], [failed_record_stop_sticks],
      [pending_pong_spoils_mode] and [sample_clock_stalls], and, of what happens
      when tasks meet, [orphaned_loops] ([LifecycleFixtures.v]),
      [one_device_two_connections] ([PoolFixtures.v]), [video_races]
      ([VideoFixtures.v]), [dropped_receive] ([StreamFixtures.v]) and
      [stalled_handshakes] ([Quic.v]). [PipelineFixtures.v] follows one sample
      to the file.

    ** Not modelled

    Sockets, cryptography and the protocol of QUIC itself, which are [quinn] and
    [rustls]; the end of a spawned task by a panic (the rounds of the scheduler
    do not panic, [rounds_never_panic]); what goes to the log of [tracing], and
    the time in front of a printed line; the parsing of arguments by clap; the
    time a call waits, for a lock or for the network; overflow of [usize]
    lengths in memory; a host that runs frame callbacks later than at once; the
    ports a legacy helper looks for, and how [actix] ends the earlier server;
    Python iterators that do not end and objects that change while they are read.

    This file holds what all components share: results, stateful methods and
    what they leave alone, machine integers, strings. *)

From stdpp Require Export base tactics option list list_numbers gmap sets strings pretty vector fin fin_maps fin_map_dom.
From Stdlib Require Export ZArith Lia.

Local Open Scope Z_scope.

Create HintDb motion discriminated.

(** * Results: [Result<A, E>] of the source, with panics made visible. *)

(** [Panicked] is the outcome of a computation that unwinds: an [assert!] of
    the standard library, an [expect] on [None], a slice index out of range. *)
Inductive res (E A : Type) : Type :=
  | Ok (a : A)
  | Err (e : E)
  | Panicked.
Arguments Ok {E A} a.
Arguments Err {E A} e.
Arguments Panicked {E A}.

#[export] Instance res_eq_dec {E A} `{EqDecision E, EqDecision A} : EqDecision (res E A).
Proof. solve_decision. Defined.

#[export] Instance res_ret {E} : MRet (res E) := λ A a, Ok a.
#[export] Instance res_bind {E} : MBind (res E) := λ A B f m,
  match m with Ok a => f a | Err e => Err e | Panicked => Panicked end.
#[export] Instance res_fmap {E} : FMap (res E) := λ A B f m,
  match m with Ok a => Ok (f a) | Err e => Err e | Panicked => Panicked end.

(** [Option::ok_or] and [Result::map_err]. *)
Definition ok_or {E A} (o : option A) (e : E) : res E A :=
  match o with Some a => Ok a | None => Err e end.

Definition map_err {E F A} (f : E → F) (r : res E A) : res F A :=
  match r with Ok a => Ok a | Err e => Err (f e) | Panicked => Panicked end.

Definition is_ok {E A} (r : res E A) : bool :=
  match r with Ok _ => true | _ => false end.

(** A [for] loop whose body may leave the function with [?]. *)
Fixpoint res_foldl {E A B} (f : B → A → res E B) (b : B) (l : list A) : res E B :=
  match l with
  | [] => Ok b
  | x :: l => b' ← f b x; res_foldl f b' l
  end.

(** * Stateful methods: [&mut self] methods that return a [Result].

    The state is threaded through errors and panics as well: what a method
    wrote to [self] before it failed stays written. *)
Definition prog (S E A : Type) : Type := S → S * res E A.

#[export] Instance prog_ret {S E} : MRet (prog S E) := λ A a s, (s, Ok a).
#[export] Instance prog_bind {S E} : MBind (prog S E) := λ A B f m s,
  match m s with
  | (s', Ok a) => f a s'
  | (s', Err e) => (s', Err e)
  | (s', Panicked) => (s', Panicked)
  end.

Definition get {S E} : prog S E S := λ s, (s, Ok s).
Definition put {S E} (s : S) : prog S E () := λ _, (s, Ok ()).
Definition modify {S E} (f : S → S) : prog S E () := λ s, (f s, Ok ()).
Definition throw {S E A} (e : E) : prog S E A := λ s, (s, Err e).
Definition lift {S E A} (r : res E A) : prog S E A := λ s, (s, r).

(** Leave with an error when a guard of the source fires. *)
Definition fail_if {S E} (b : bool) (e : E) : prog S E () := if b then throw e else mret ().

(** A [for] loop over a mutable accumulator in a stateful method. *)
Fixpoint prog_foldl {S E A B} (f : B → A → prog S E B) (b : B) (l : list A) : prog S E B :=
  match l with
  | [] => mret b
  | x :: l => b' ← f b x; prog_foldl f b' l
  end.

(** Run a method of a component [T] that is a field of [S]
    ([self.field.method(..).map_err(g)]). *)
Definition zoom {S T E F A} (view : S → T) (set : T → S → S) (g : E → F)
    (m : prog T E A) : prog S F A := λ s,
  match m (view s) with
  | (t, r) => (set t s, map_err g r)
  end.

(** Run [m] and hand its [Result] to the caller ([match m() { .. }]). *)
Definition attempt {S E F A} (m : prog S E A) : prog S F (res E A) := λ s,
  match m s with
  | (s', Panicked) => (s', Panicked)
  | (s', r) => (s', Ok r)
  end.

(** Read off state and result of a run. *)
Abbreviation exec m s := (fst (m s)) (only parsing).
Abbreviation result m s := (snd (m s)) (only parsing).

Section prog_lemmas.
Context {S E A B : Type}.
Implicit Types (m : prog S E A) (f : A → prog S E B) (s : S).

Lemma prog_bind_ok m f s s' a : m s = (s', Ok a) → (m ≫= f) s = f a s'.
Proof. unfold mbind, prog_bind. by intros ->. Qed.

Lemma prog_bind_inv_ok m f s s'' b :
  (m ≫= f) s = (s'', Ok b) → ∃ s' a, m s = (s', Ok a) ∧ f a s' = (s'', Ok b).
Proof.
  unfold mbind, prog_bind. destruct (m s) as [s' [a|e|]] eqn:?; naive_solver.
Qed.

Lemma prog_bind_err m f s s' e : m s = (s', Err e) → (m ≫= f) s = (s', Err e).
Proof. unfold mbind, prog_bind. by intros ->. Qed.

Lemma attempt_ok {F} m s s' a : m s = (s', Ok a) → attempt (F:=F) m s = (s', Ok (Ok a)).
Proof. unfold attempt. by intros ->. Qed.

Lemma attempt_err {F} m s s' e : m s = (s', Err e) → attempt (F:=F) m s = (s', Ok (Err e)).
Proof. unfold attempt. by intros ->. Qed.

Lemma prog_bind_ext m f g s : (∀ a s', f a s' = g a s') → (m ≫= f) s = (m ≫= g) s.
Proof. intros Hfg. unfold mbind, prog_bind. by destruct (m s) as [s' [a| |]]. Qed.

Lemma prog_bind_assoc {C} m f (g : B → prog S E C) s :
  ((m ≫= f) ≫= g) s = (m ≫= (λ a, f a ≫= g)) s.
Proof. unfold mbind, prog_bind. by destruct (m s) as [? [| |]]. Qed.
End prog_lemmas.

Lemma fail_if_inv {S E} b (e : E) (s s' : S) u : fail_if b e s = (s', Ok u) → s' = s ∧ b = false.
Proof. unfold fail_if, throw, mret, prog_ret. destruct b; [done|]. by intros [= <-]. Qed.

Lemma lift_inv {S E A} (r : res E A) (s s' : S) a : lift r s = (s', Ok a) → s' = s ∧ r = Ok a.
Proof. unfold lift. by intros [= <- ->]. Qed.

Section res_lemmas.
Context {E : Type}.

Lemma res_bind_ok {A B} (m : res E A) (f : A → res E B) b :
  m ≫= f = Ok b ↔ ∃ a, m = Ok a ∧ f a = Ok b.
Proof. unfold mbind, res_bind. destruct m; naive_solver. Qed.

Lemma res_fmap_ok {A B} (f : A → B) (m : res E A) b :
  f <$> m = Ok b ↔ ∃ a, m = Ok a ∧ f a = b.
Proof. unfold fmap, res_fmap. destruct m; naive_solver. Qed.

Lemma ok_or_ok {A} (o : option A) (e : E) a : ok_or o e = Ok a ↔ o = Some a.
Proof. destruct o; naive_solver. Qed.

Lemma res_foldl_app {A B} (f : B → A → res E B) b l1 l2 :
  res_foldl f b (l1 ++ l2) = b' ← res_foldl f b l1; res_foldl f b' l2.
Proof. revert b. induction l1 as [|x l1 IH]; intros b; simpl; [done|]. by destruct (f b x); simpl. Qed.

(** The loop rule: an invariant of the accumulator holds after the loop. *)
Lemma res_foldl_inv {A B} (P : B → Prop) (f : B → A → res E B) b l b' :
  P b →
  (∀ b x b1, x ∈ l → P b → f b x = Ok b1 → P b1) →
  res_foldl f b l = Ok b' → P b'.
Proof.
  revert b. induction l as [|x l IH]; simpl; intros b Hb Hstep Hok; [naive_solver|].
  apply res_bind_ok in Hok as (b1 & Hf & Hl).
  eapply IH, Hl; [|set_solver]. eapply Hstep, Hf; set_solver.
Qed.

(** Total correctness of the loop: it ends in [Ok] when every body does. *)
Lemma res_foldl_total {A B} (P : B → Prop) (f : B → A → res E B) b l :
  P b →
  (∀ b x, x ∈ l → P b → ∃ b1, f b x = Ok b1 ∧ P b1) →
  ∃ b', res_foldl f b l = Ok b' ∧ P b'.
Proof.
  revert b. induction l as [|x l IH]; simpl; intros b Hb Hstep; [eauto|].
  destruct (Hstep b x) as (b1 & Hf & Hb1); [set_solver|done|].
  destruct (IH b1 Hb1) as (b' & Hl & Hb'); [set_solver|].
  exists b'. split; [|done]. apply res_bind_ok. eauto.
Qed.
End res_lemmas.

(** [prog_foldl] keeps an invariant of the state, whatever the outcome. *)
Lemma prog_foldl_inv {S E A B} (P : S → Prop) (f : B → A → prog S E B) b l s :
  P s → (∀ b x s, x ∈ l → P s → P (exec (f b x) s)) → P (exec (prog_foldl f b l) s).
Proof.
  revert b s. induction l as [|x l IH]; intros b s Hs Hstep; simpl; [done|].
  unfold mbind, prog_bind. specialize (Hstep b x s) as Hf.
  destruct (f b x s) as [s' [b'| |]]; simpl in *; [|set_solver..].
  apply IH; [set_solver|]. intros. apply Hstep; set_solver.
Qed.

(** ** What a stateful method leaves alone

    [keeps g v m]: started where [g] reads [v], [m] ends where [g] reads [v],
    whatever it returns. *)
Definition keeps {S E A C} (g : S → C) (v : C) (m : prog S E A) : Prop :=
  ∀ s, g s = v → g (exec m s) = v.

Section keeps.
Context {S E C : Type} (g : S → C) (v : C).

Lemma keeps_bind {A B} (m : prog S E A) (f : A → prog S E B) :
  keeps g v m → (∀ a, keeps g v (f a)) → keeps g v (m ≫= f).
Proof.
  intros Hm Hf s Hs. unfold mbind, prog_bind. specialize (Hm s Hs).
  destruct (m s) as [s' [a| |]]; simpl in *; [by apply Hf|done..].
Qed.

(** The state that was read still has [v], so writing it back is fine. *)
Lemma keeps_get_bind {A} (f : S → prog S E A) :
  (∀ s, g s = v → keeps g v (f s)) → keeps g v (get ≫= f).
Proof. intros Hf s Hs. by apply Hf. Qed.

Lemma keeps_put (s : S) : g s = v → keeps (E:=E) g v (put s).
Proof. by intros ? ? _. Qed.
Lemma keeps_modify (f : S → S) : (∀ s, g (f s) = g s) → keeps (E:=E) g v (modify f).
Proof. intros Hf s <-. apply Hf. Qed.
Lemma keeps_lift {A} (r : res E A) : keeps g v (lift r).
Proof. by intros s. Qed.
Lemma keeps_mret {A} (a : A) : keeps (E:=E) g v (mret a).
Proof. by intros s. Qed.
Lemma keeps_throw {A} (e : E) : keeps (A:=A) g v (throw e).
Proof. by intros s. Qed.
Lemma keeps_fail_if b (e : E) : keeps g v (fail_if b e).
Proof. by destruct b; intros s. Qed.
Lemma keeps_zoom {T F A} view set (e : F → E) (m : prog T F A) :
  (∀ t s, g (set t s) = g s) → keeps g v (zoom view set e m).
Proof. intros Hs s <-. unfold zoom. destruct (m (view s)). apply Hs. Qed.
Lemma keeps_attempt {F A} (m : prog S F A) : keeps g v m → keeps (E:=E) g v (attempt m).
Proof. intros Hm s Hs. unfold attempt. specialize (Hm s Hs). by destruct (m s) as [? [| |]]. Qed.
Lemma keeps_foldl {A B} (f : B → A → prog S E B) b l :
  (∀ b x, keeps g v (f b x)) → keeps g v (prog_foldl f b l).
Proof. intros Hf. revert b. induction l as [|x l IH]; intros b; [by intros s|]. by apply keeps_bind. Qed.
End keeps.

#[export] Hint Resolve keeps_lift keeps_mret keeps_throw keeps_fail_if : motion.

(** Walk through a method, splitting on what it matches on. *)
Ltac keeps_step :=
  lazymatch goal with
  | |- keeps _ _ (mbind _ get) => apply keeps_get_bind; intros
  | |- keeps _ _ (mbind _ _) => apply keeps_bind; [|intros]
  | |- keeps _ _ (mret _) => apply keeps_mret
  | |- keeps _ _ (lift _) => apply keeps_lift
  | |- keeps _ _ (throw _) => apply keeps_throw
  | |- keeps _ _ (fail_if _ _) => apply keeps_fail_if
  | |- keeps _ _ (put _) => apply keeps_put; done
  | |- keeps _ _ (modify _) => apply keeps_modify; intros; repeat case_match; done
  | |- keeps _ _ (zoom _ _ _ _) => apply keeps_zoom; intros; done
  | |- keeps _ _ (attempt _) => apply keeps_attempt
  | |- keeps _ _ (match ?x with _ => _ end) => destruct x eqn:?
  end.
Ltac keeps_walk := repeat first [keeps_step | solve [auto with motion nocore]].

(** Unfold one layer of a stateful method and split on its guards. *)
Ltac unfold_prog :=
  unfold mbind, prog_bind, mret, prog_ret, get, put, modify, throw, lift, fail_if, zoom, attempt in *.
Ltac run_prog :=
  unfold_prog; cbn in *;
  repeat (case_match; simplify_eq/=).
Ltac inv_res :=
  repeat match goal with
  | H : (_ ≫= _) = Ok _ |- _ => apply res_bind_ok in H as (? & ? & ?)
  | H : _ <$> _ = Ok _ |- _ => apply res_fmap_ok in H as (? & ? & ?)
  | H : ok_or _ _ = Ok _ |- _ => apply ok_or_ok in H
  | H : Ok _ = Ok _ |- _ => injection H as H
  | H : Err _ = Ok _ |- _ => discriminate H
  | H : Panicked = Ok _ |- _ => discriminate H
  end.

(** * Machine integers *)

(** [u64] and [u32] values are kept as [Z]; [+=] wraps (release profile). *)
Definition u16_max : Z := 2 ^ 16 - 1.
Definition u32_max : Z := 2 ^ 32 - 1.
Definition u64_max : Z := 2 ^ 64 - 1.
Definition wrap32 (z : Z) : Z := z mod 2 ^ 32.
Definition wrap64 (z : Z) : Z := z mod 2 ^ 64.
(** [u64::saturating_sub]. *)
Definition u64_saturating_sub (a b : Z) : Z := Z.max 0 (a - b).
(** [i32::saturating_add]. *)
Definition i32_min : Z := - 2 ^ 31.
Definition i32_max : Z := 2 ^ 31 - 1.
Definition in_i32 (z : Z) : Prop := i32_min ≤ z ≤ i32_max.
Definition i32_saturate (z : Z) : Z := Z.max i32_min (Z.min i32_max z).
Definition i32_saturating_add (a b : Z) : Z := i32_saturate (a + b).

#[export] Instance in_i32_dec z : Decision (in_i32 z).
Proof. unfold in_i32. apply _. Defined.

Lemma i32_saturate_range z : in_i32 (i32_saturate z).
Proof. unfold in_i32, i32_saturate, i32_min, i32_max. lia. Qed.
Lemma i32_saturate_id z : in_i32 z → i32_saturate z = z.
Proof. unfold in_i32, i32_saturate, i32_min, i32_max. lia. Qed.
#[export] Hint Resolve i32_saturate_range : motion.

(** * Strings

    A [String] of the source is a Rocq [string], read as the sequence of its
    UTF-8 bytes. *)

(** [str::strip_prefix]. *)
Fixpoint strip_prefix (p s : string) : option string :=
  match p, s with
  | EmptyString, _ => Some s
  | String c p, String d s => if decide (c = d) then strip_prefix p s else None
  | _, EmptyString => None
  end.

Lemma string_app_cons c s t : String c s +:+ t = String c (s +:+ t).
Proof. reflexivity. Qed.

Lemma strip_prefix_app p s : strip_prefix p (p +:+ s) = Some s.
Proof. induction p as [|c p IH]; [done|]. rewrite string_app_cons. simpl. by rewrite decide_True. Qed.

Lemma strip_prefix_some p s t : strip_prefix p s = Some t ↔ s = p +:+ t.
Proof.
  split; [|intros ->; apply strip_prefix_app].
  revert s. induction p as [|c p IH]; intros [|d s]; simpl; try naive_solver.
  intros H. case_decide; [|done]. subst. by apply IH in H as ->.
Qed.

Lemma string_app_assoc (a b c : string) : a +:+ (b +:+ c) = (a +:+ b) +:+ c.
Proof. induction a as [|x a IH]; [done|]. by rewrite !string_app_cons, IH. Qed.

Lemma string_app_inv_head (p a b : string) : p +:+ a = p +:+ b → a = b.
Proof. induction p as [|c p IH]; [done|]. rewrite !string_app_cons. intros [= H]. by apply IH. Qed.

Lemma string_app_nonempty (p a : string) : (1 ≤ String.length p)%nat → p +:+ a ≠ a.
Proof.
  intros Hp H. apply (f_equal String.length) in H.
  assert (String.length (p +:+ a) = (String.length p + String.length a)%nat) as Hl.
  { clear. induction p as [|c p IH]; [done|]. rewrite string_app_cons. cbn. by rewrite IH. }
  lia.
Qed.

(** The UTF-8 encodings of the characters of Unicode property [White_Space],
    the ones [str::trim] removes. *)
Definition bytes (l : list nat) : list Ascii.ascii := Ascii.ascii_of_nat <$> l.
Definition white_space : list (list Ascii.ascii) :=
  bytes <$>
    ([[9]; [10]; [11]; [12]; [13]; [32];
      [194; 133]; [194; 160]; [225; 154; 128]] ++
     ((λ k, [226; 128; k]) <$> [128; 129; 130; 131; 132; 133; 134; 135; 136; 137; 138; 168; 169; 175]) ++
     [[226; 129; 159]; [227; 128; 128]])%nat.

Fixpoint strip_list (p l : list Ascii.ascii) : option (list Ascii.ascii) :=
  match p, l with
  | [], _ => Some l
  | c :: p, d :: l => if decide (c = d) then strip_list p l else None
  | _, [] => None
  end.

Fixpoint strip_first (ps : list (list Ascii.ascii)) (l : list Ascii.ascii) :
    option (list Ascii.ascii) :=
  match ps with
  | [] => None
  | p :: ps => match strip_list p l with Some l' => Some l' | None => strip_first ps l end
  end.

(** Every step removes at least one byte, so the length is enough fuel. *)
Fixpoint trim_start_fuel (ps : list (list Ascii.ascii)) (fuel : nat) (l : list Ascii.ascii) :
    list Ascii.ascii :=
  match fuel with
  | O => l
  | S fuel =>
      match strip_first ps l with
      | Some l' => trim_start_fuel ps fuel l'
      | None => l
      end
  end.

Definition trim_bytes (l : list Ascii.ascii) : list Ascii.ascii :=
  let l1 := trim_start_fuel white_space (length l) l in
  reverse (trim_start_fuel (reverse <$> white_space) (length l1) (reverse l1)).

(** [str::trim]. *)
Definition trim (s : string) : string :=
  String.string_of_list_ascii (trim_bytes (String.list_ascii_of_string s)).

(** [str::is_empty]. *)
Definition is_empty (s : string) : bool := match s with EmptyString => true | _ => false end.

Example trim_both : trim "  ipad	 " = "ipad".
Proof. reflexivity. Qed.
Example trim_blank : is_empty (trim "   ") = true.
Proof. reflexivity. Qed.

(** Decimal rendering of a [usize]. *)
Definition show_nat (n : nat) : string := pretty (N.of_nat n).

(** * Lists: [Iterator::find] and [Iterator::any]. *)

Lemma find_ext {A} (p q : A → bool) (l : list A) :
  (∀ x, x ∈ l → p x = q x) → find p l = find q l.
Proof.
  induction l as [|x l IH]; intros H; simpl; [done|].
  rewrite (H x) by set_solver. case_match; [done|]. apply IH. set_solver.
Qed.

Lemma find_elem {A} (p : A → bool) (l : list A) x :
  find p l = Some x → x ∈ l ∧ p x = true.
Proof. intros H. apply find_some in H. by rewrite list_elem_of_In. Qed.

Lemma find_none_iff {A} (p : A → bool) (l : list A) :
  find p l = None ↔ ∀ x, x ∈ l → p x = false.
Proof.
  split.
  - intros H x Hx. eapply find_none; [done|]. by apply list_elem_of_In.
  - induction l as [|x l IH]; intros H; simpl; [done|].
    rewrite (H x) by set_solver. apply IH. set_solver.
Qed.

Lemma find_is_some {A} (p : A → bool) (l : list A) x :
  x ∈ l → p x = true → is_Some (find p l).
Proof.
  intros Hx Hp. destruct (find p l) eqn:H; [eauto|].
  rewrite find_none_iff in H. naive_solver congruence.
Qed.

#[export] Hint Resolve find_elem : motion.

(** * Identifiers

    [uuid::Uuid] is a 128-bit value compared by its bits.  Fresh identifiers
    ([Uuid::now_v7()]) and the text form ([Display]) come from the [uuid]
    crate and are parameters of the models. *)
Definition Uuid : Type := N.
#[export] Instance Uuid_eq_dec : EqDecision Uuid.
Proof. unfold Uuid. apply _. Defined.
#[export] Instance Uuid_countable : Countable Uuid.
Proof. unfold Uuid. apply _. Defined.

(** The text form of an identifier. *)
Class UuidFormat := uuid_to_string : Uuid → string.

(** [s] begins with the text of a device and a dot. *)
Definition device_prefix `{UuidFormat} (device_id : Uuid) : string :=
  uuid_to_string device_id +:+ ".".
