(* ===== verification/Tasks.v ===== *)
(** Code that runs concurrently: tasks cut at their [.await]s.

    A task is a tree of atomic steps over a state. A step that gives nothing is
    blocked, as the joining of a task that still runs. Tasks run alone ([run]),
    or in a pool where any of them may take the next step ([pool_step]). What a
    task keeps to whatever the others do is said by [meets], a
    rely/guarantee specification; [pool_sound] puts such specifications
    together. *)

From S2P Require Import Prelude.
From stdpp Require Import relations.

Create HintDb tasks discriminated.

(** The outcome of polling a future: what is left of it, or what it gives. *)
Inductive Poll (F A : Type) := Pending (f : F) | Ready (a : A).
Arguments Pending {F A} f.
Arguments Ready {F A} a.

Inductive task (S E A : Type) : Type :=
  | Done (r : res E A)
  | Atomic {X : Type} (m : S → option (S * X)) (k : X → task S E A).
Arguments Done {S E A} r.
Arguments Atomic {S E A X} m k.

#[export] Instance task_ret {S E} : MRet (task S E) := λ A a, Done (Ok a).
#[export] Instance task_bind {S E} : MBind (task S E) := λ A B f,
  fix bind t :=
    match t with
    | Done (Ok a) => f a
    | Done (Err e) => Done (Err e)
    | Done Panicked => Done Panicked
    | Atomic m k => Atomic m (λ x, bind (k x))
    end.

(** A method that runs without an [.await] or under one lock. *)
Definition atomic {S E A} (m : prog S E A) : task S E A := Atomic (λ s, Some (m s)) Done.

(** A step that waits until [f] gives a result. *)
Definition wait {S E A} (f : S → option A) : task S E A :=
  Atomic (λ s, pair s <$> f s) (λ a, Done (Ok a)).

(** [attempt] on tasks: hand the [Result] to the caller. *)
Fixpoint attempt_task {S E F A} (t : task S E A) : task S F (res E A) :=
  match t with
  | Done Panicked => Done Panicked
  | Done r => Done (Ok r)
  | Atomic m k => Atomic m (λ x, attempt_task (k x))
  end.

(** [zoom] on tasks: a task of a part of the state. *)
Fixpoint zoom_task {S T E F A} (view : S → T) (set : T → S → S) (g : E → F)
    (t : task T E A) : task S F A :=
  match t with
  | Done r => Done (map_err g r)
  | Atomic m k =>
      Atomic (λ s, '(t', x) ← m (view s); Some (set t' s, x)) (λ x, zoom_task view set g (k x))
  end.

(** The first step of a task. *)
Definition task_step {S E A} (t : task S E A) (s : S) : option (S * task S E A) :=
  match t with
  | Done _ => None
  | Atomic m k => '(s', x) ← m s; Some (s', k x)
  end.

(** The task alone, from its first step to its end. *)
Fixpoint run {S E A} (t : task S E A) (s : S) : option (S * res E A) :=
  match t with
  | Done r => Some (s, r)
  | Atomic m k => '(s', x) ← m s; run (k x) s'
  end.

(** ** Running alone *)

(** Undisturbed, [t] does what [m] does. *)
Definition runs {S E A} (t : task S E A) (m : prog S E A) : Prop := ∀ s, run t s = Some (m s).

Section runs.
Context {S E : Type}.

Lemma run_bind {A B} (t : task S E A) (f : A → task S E B) s :
  run (t ≫= f) s =
    match run t s with
    | Some (s', Ok a) => run (f a) s'
    | Some (s', Err e) => Some (s', Err e)
    | Some (s', Panicked) => Some (s', Panicked)
    | None => None
    end.
Proof.
  revert s. induction t as [[a|e|]|X m k IH]; intros s; [done..|].
  cbn. destruct (m s) as [[s' x]|]; [apply IH|done].
Qed.

Lemma runs_ext {A} (t : task S E A) (m m' : prog S E A) :
  runs t m → (∀ s, m s = m' s) → runs t m'.
Proof. intros Ht Hm s. by rewrite <-Hm. Qed.

Lemma runs_atomic {A} (m : prog S E A) : runs (atomic m) m.
Proof. intros s. cbn. by destruct (m s). Qed.

Lemma runs_done {A} (r : res E A) : runs (Done r) (lift r : prog S E A).
Proof. by intros s. Qed.

Lemma runs_ret {A} (a : A) : runs (mret a : task S E A) (mret a).
Proof. by intros s. Qed.

Lemma runs_bind {A B} (t : task S E A) m (f : A → task S E B) g :
  runs t m → (∀ a, runs (f a) (g a)) → runs (t ≫= f) (m ≫= g).
Proof.
  intros Ht Hf s. rewrite run_bind, Ht. unfold mbind, prog_bind.
  destruct (m s) as [s' [a|e|]]; [apply Hf|done..].
Qed.

Lemma run_attempt {F A} (t : task S F A) s :
  run (attempt_task t : task S E (res F A)) s =
    match run t s with
    | Some (s', Panicked) => Some (s', Panicked)
    | Some (s', r) => Some (s', Ok r)
    | None => None
    end.
Proof.
  revert s. induction t as [[a|e|]|X m k IH]; intros s; [done..|].
  cbn. destruct (m s) as [[s' x]|]; [apply IH|done].
Qed.

Lemma runs_attempt {F A} (t : task S F A) m :
  runs t m → runs (attempt_task t : task S E (res F A)) (attempt m).
Proof. intros Ht s. rewrite run_attempt, Ht. unfold attempt. by destruct (m s) as [s' [a|e|]]. Qed.

Lemma run_zoom {T F A} view set (g : F → E) (t : task T F A) (s : S) :
  (∀ t s, view (set t s) = t) → (∀ t t' s, set t (set t' s) = set t s) →
  set (view s) s = s →
  run (zoom_task view set g t) s = '(t', r) ← run t (view s); Some (set t' s, map_err g r).
Proof.
  intros Hv Hs. revert s. induction t as [r|X m k IH]; intros s Hid; cbn; [by rewrite Hid|].
  destruct (m (view s)) as [[t' x]|]; [|done]. cbn. rewrite IH by by rewrite Hv. rewrite Hv.
  destruct (run (k x) t') as [[t'' r]|]; [|done]. cbn. by rewrite Hs.
Qed.

Lemma runs_zoom {T F A} view set (g : F → E) (t : task T F A) m :
  (∀ t s, view (set t s) = t) → (∀ t t' s, set t (set t' s) = set t s) →
  (∀ s : S, set (view s) s = s) →
  runs t m → runs (zoom_task view set g t) (zoom view set g m).
Proof.
  intros Hv Hs Hid Ht s. rewrite run_zoom, Ht by done. unfold zoom. by destruct (m (view s)).
Qed.
End runs.

#[export] Hint Resolve runs_atomic runs_ret runs_done : tasks.

(** ** Rely and guarantee

    [meets R G t Q s]: whatever the others do within [R] between its steps,
    each step of [t] stays within [G], and [t] ends in [Q]. *)
Fixpoint meets {S E A} (R G : relation S) (t : task S E A) (Q : res E A → S → Prop) (s : S) : Prop :=
  ∀ s', R s s' →
  match t with
  | Done r => Q r s'
  | Atomic m k => ∀ s'' x, m s' = Some (s'', x) → G s' s'' ∧ meets R G (k x) Q s''
  end.

Section meets.
Context {S E : Type} (R G : relation S) `{!PreOrder R}.

Lemma meets_rely {A} (t : task S E A) Q s s' : R s s' → meets R G t Q s → meets R G t Q s'.
Proof. destruct t; intros Hr Ht s'' Hs; apply Ht; by trans s'. Qed.

Lemma meets_done {A} (r : res E A) Q s : meets R G (Done r) Q s → Q r s.
Proof. intros H. by apply H. Qed.

Lemma meets_step {A} (t : task S E A) Q s s' t' :
  meets R G t Q s → task_step t s = Some (s', t') → G s s' ∧ meets R G t' Q s'.
Proof.
  destruct t as [|X m k]; [done|]. intros Ht Hs. cbn in Hs.
  destruct (m s) as [[s1 x]|] eqn:Em; [|done]. injection Hs as -> <-. by apply (Ht s).
Qed.

Lemma meets_conseq {A} (t : task S E A) (Q Q' : res E A → S → Prop) s :
  meets R G t Q s → (∀ r s, Q r s → Q' r s) → meets R G t Q' s.
Proof.
  intros Ht HQ. revert s Ht. induction t as [r|X m k IH]; intros s Ht s' Hs.
  - by apply HQ, Ht.
  - intros s'' x Hx. destruct (Ht s' Hs s'' x Hx). split; [done|]. by apply IH.
Qed.

Lemma meets_bind {A B} (t : task S E A) (f : A → task S E B) Q s :
  meets R G t (λ r s, match r with
    | Ok a => meets R G (f a) Q s
    | Err e => Q (Err e) s
    | Panicked => Q Panicked s
    end) s →
  meets R G (t ≫= f) Q s.
Proof.
  revert s. induction t as [[a|e|]|X m k IH]; intros s Ht.
  - apply (Ht s). done.
  - intros s' Hs. by apply (Ht s').
  - intros s' Hs. by apply (Ht s').
  - intros s' Hs s'' x Hx. destruct (Ht s' Hs s'' x Hx). split; [done|]. by apply IH.
Qed.

Lemma meets_atomic {A} (m : prog S E A) (Q : res E A → S → Prop) s :
  (∀ s', R s s' → G s' (exec m s') ∧ ∀ s'', R (exec m s') s'' → Q (result m s') s'') →
  meets R G (atomic m) Q s.
Proof.
  intros Hm s' Hs s'' x [= Hx]. destruct (Hm s' Hs) as [Hg Hq]. rewrite Hx in *. by split.
Qed.

Lemma meets_weaken {A} (R' G' : relation S) (t : task S E A) (Q : res E A → S → Prop) s :
  (∀ s s', R s s' → R' s s') → (∀ s s', G' s s' → G s s') → meets R' G' t Q s → meets R G t Q s.
Proof.
  intros HR HG. revert s. induction t as [r|X m k IH]; intros s Ht s' Hs; [by apply Ht, HR|].
  intros s'' x Hx. destruct (Ht s' (HR _ _ Hs) s'' x Hx). split; [by apply HG|by apply IH].
Qed.

Lemma meets_ret {A} (r : res E A) (Q : res E A → S → Prop) s :
  (∀ s', R s s' → Q r s') → meets R G (Done r) Q s.
Proof. done. Qed.

Lemma meets_attempt {F A} (t : task S F A) (Q : res E (res F A) → S → Prop) s :
  meets R G t (λ r s, match r with Panicked => Q Panicked s | _ => Q (Ok r) s end) s →
  meets R G (attempt_task t) Q s.
Proof.
  revert s. induction t as [[a|e|]|X m k IH]; intros s Ht; [exact Ht..|].
  intros s' Hs s'' x Hx. destruct (Ht s' Hs s'' x Hx). split; [done|]. by apply IH.
Qed.
End meets.

(** ** Steps within a relation *)

(** Every step of the task stays within [G], from any state. *)
Fixpoint steps_in {S E A} (G : relation S) (t : task S E A) : Prop :=
  match t with
  | Done _ => True
  | Atomic m k => (∀ s s' x, m s = Some (s', x) → G s s') ∧ ∀ x, steps_in G (k x)
  end.

Section steps_in.
Context {S E : Type} (G : relation S).

Lemma steps_in_done {A} (r : res E A) : steps_in G (Done r).
Proof. done. Qed.

Lemma steps_in_ret {A} (a : A) : steps_in G (mret a : task S E A).
Proof. done. Qed.

Lemma steps_in_atomic {A} (m : prog S E A) : (∀ s, G s (exec m s)) → steps_in G (atomic m).
Proof. intros Hm. split; [|done]. intros s s' x [= Hx]. specialize (Hm s). by rewrite Hx in Hm. Qed.

Lemma steps_in_bind {A B} (t : task S E A) (f : A → task S E B) :
  steps_in G t → (∀ a, steps_in G (f a)) → steps_in G (t ≫= f).
Proof.
  intros Ht Hf. induction t as [[a|e|]|X m k IH]; [apply Hf|done..|]. destruct Ht as [Hm Hk].
  split; [done|]. intros x. by apply IH.
Qed.

Lemma steps_in_attempt {F A} (t : task S F A) :
  steps_in G t → steps_in G (attempt_task t : task S E (res F A)).
Proof.
  intros Ht. induction t as [[a|e|]|X m k IH]; [done..|]. destruct Ht as [Hm Hk].
  split; [done|]. intros x. by apply IH.
Qed.

Lemma steps_in_zoom {T F A} (G' : relation T) view set (g : F → E) (t : task T F A) :
  (∀ s t, G' (view s) t → G s (set t s)) → steps_in G' t → steps_in G (zoom_task view set g t).
Proof.
  intros HG Ht. induction t as [r|X m k IH]; [done|]. destruct Ht as [Hm Hk].
  split; [|intros x; by apply IH]. intros s s' x Hx.
  destruct (m (view s)) as [[t' x']|] eqn:Em; [|done]. injection Hx as <- ->. by eapply HG, Hm.
Qed.

Lemma steps_in_mono {A} (G' : relation S) (t : task S E A) :
  (∀ s s', G s s' → G' s s') → steps_in G t → steps_in G' t.
Proof.
  intros HG Ht. induction t as [r|X m k IH]; [done|]. destruct Ht as [Hm Hk].
  split; [|intros x; by apply IH]. intros s s' x Hx. by eapply HG, Hm.
Qed.

Lemma steps_in_step {A} (t : task S E A) s s' t' :
  steps_in G t → task_step t s = Some (s', t') → G s s' ∧ steps_in G t'.
Proof.
  destruct t as [|X m k]; [done|]. intros [Hm Hk] Hs. cbn in Hs.
  destruct (m s) as [[s1 x]|] eqn:Em; [|done]. injection Hs as -> <-. eauto.
Qed.

Lemma run_steps_in {A} `{!PreOrder G} (t : task S E A) s s' r :
  steps_in G t → run t s = Some (s', r) → G s s'.
Proof.
  revert s. induction t as [r'|X m k IH]; intros s Ht Hr; cbn in Hr; [by injection Hr as <- _|].
  destruct Ht as [Hm Hk]. destruct (m s) as [[s1 x]|] eqn:Em; [|done].
  etrans; [by eapply Hm|]. by apply (IH x s1).
Qed.

(** What the task can end with, from any state. *)
Fixpoint yields {A} (P : res E A → Prop) (t : task S E A) : Prop :=
  match t with
  | Done r => P r
  | Atomic m k => ∀ x, yields P (k x)
  end.

Lemma yields_any {A} (P : res E A → Prop) (t : task S E A) : (∀ r, P r) → yields P t.
Proof. intros HP. induction t as [r|X m k IH]; [apply HP|exact IH]. Qed.

Lemma yields_bind {A B} (P : res E B → Prop) (t : task S E A) (f : A → task S E B) :
  yields (λ r, match r with Ok a => yields P (f a) | Err e => P (Err e) | Panicked => P Panicked end) t →
  yields P (t ≫= f).
Proof. induction t as [[a|e|]|X m k IH]; intros Ht; [exact Ht..|]. intros x. by apply IH, Ht. Qed.

Lemma steps_in_bind_yields {A B} (t : task S E A) (f : A → task S E B) :
  steps_in G t → yields (λ r, match r with Ok a => steps_in G (f a) | _ => True end) t →
  steps_in G (t ≫= f).
Proof.
  intros Ht Hf. induction t as [[a|e|]|X m k IH]; [exact Hf|done..|]. destruct Ht as [Hm Hk].
  split; [done|]. intros x. by apply IH.
Qed.

(** An assertion that neither the steps nor the others disturb holds at the end. *)
Lemma steps_in_meets {A} (R G' : relation S) (I : S → Prop) (t : task S E A) (Q : res E A → S → Prop) s :
  steps_in G t → (∀ s s', R s s' → I s → I s') → (∀ s s', G s s' → I s → I s' ∧ G' s s') →
  (∀ r s, I s → Q r s) → I s → meets R G' t Q s.
Proof.
  intros Ht HR HG HQ. revert s. induction t as [r|X m k IH]; intros s Hs s' Hr; [by eauto|].
  destruct Ht as [Hm Hk]. intros s'' x Hx. destruct (HG s' s'' (Hm _ _ _ Hx)); [by eauto|].
  split; [done|]. by apply IH.
Qed.
End steps_in.

(** Walks through a task, splitting on what it matches on. *)
Ltac runs_step :=
  lazymatch goal with
  | |- runs (mbind _ _) (mbind _ _) => apply runs_bind; [|intros]
  | |- runs (attempt_task _) (attempt _) => apply runs_attempt
  | |- runs (match ?x with _ => _ end) _ => destruct x
  end.
Ltac runs_walk := repeat first [progress auto with tasks nocore | runs_step].

Ltac steps_step :=
  lazymatch goal with
  | |- steps_in _ (mbind _ _) => apply steps_in_bind; [|intros]
  | |- steps_in _ (attempt_task _) => apply steps_in_attempt
  | |- steps_in _ (match ?x with _ => _ end) => destruct x
  end.
Ltac steps_walk := repeat first [progress auto with tasks nocore | steps_step].

(** A task of a part of the state, whose relations are those of the part. *)
Lemma meets_zoom {S T E F A} (R G : relation S) (R' G' : relation T) view set (g : E → F)
    (t : task T E A) (Q : res F A → S → Prop) s :
  (∀ s s', R s s' → R' (view s) (view s')) →
  (∀ t s, G' (view s) t → G s (set t s)) → (∀ t s, view (set t s) = t) →
  meets R' G' t (λ r t, ∀ s', view s' = t → Q (map_err g r) s') (view s) →
  meets R G (zoom_task view set g t) Q s.
Proof.
  intros HR HG Hv. revert s. induction t as [r|X m k IH]; intros s Ht s' Hs.
  - by apply (Ht (view s')); [apply HR|].
  - intros s'' x Hx. destruct (m (view s')) as [[t' x']|] eqn:Em; [|done].
    injection Hx as <- ->. destruct (Ht (view s') (HR _ _ Hs) t' x Em) as [Hg Hk].
    split; [by apply HG|]. apply IH. by rewrite Hv.
Qed.

(** ** Tasks that wait for others *)

(** [ends R t Q s]: whatever the others do within [R], they can always let the
    next step of [t] happen, and [t] ends in [Q]. *)
Fixpoint ends {S E A} (R : relation S) (t : task S E A) (Q : res E A → S → Prop) (s : S) : Prop :=
  ∀ s', R s s' →
  match t with
  | Done r => Q r s'
  | Atomic m k =>
      (∃ s'', R s' s'' ∧ is_Some (m s'')) ∧
      ∀ s'' x, m s' = Some (s'', x) → ends R (k x) Q s''
  end.

Section ends.
Context {S E : Type} (R : relation S) `{!PreOrder R}.

Lemma ends_rely {A} (t : task S E A) Q s s' : R s s' → ends R t Q s → ends R t Q s'.
Proof. destruct t; intros Hr Ht s'' Hs; apply Ht; by trans s'. Qed.

Lemma ends_conseq {A} (t : task S E A) (Q Q' : res E A → S → Prop) s :
  ends R t Q s → (∀ r s, Q r s → Q' r s) → ends R t Q' s.
Proof.
  intros Ht HQ. revert s Ht. induction t as [r|X m k IH]; intros s Ht s' Hs; [by apply HQ, Ht|].
  destruct (Ht s' Hs) as [He Hk]. split; [done|]. intros s'' x Hx. by apply IH, Hk.
Qed.

Lemma ends_bind {A B} (t : task S E A) (f : A → task S E B) Q s :
  ends R t (λ r s, match r with
    | Ok a => ends R (f a) Q s
    | Err e => Q (Err e) s
    | Panicked => Q Panicked s
    end) s →
  ends R (t ≫= f) Q s.
Proof.
  revert s. induction t as [[a|e|]|X m k IH]; intros s Ht.
  - apply (Ht s). done.
  - intros s' Hs. by apply (Ht s').
  - intros s' Hs. by apply (Ht s').
  - intros s' Hs. destruct (Ht s' Hs) as [He Hk]. split; [done|]. intros s'' x Hx. by apply IH, Hk.
Qed.

Lemma ends_attempt {F A} (t : task S F A) (Q : res E (res F A) → S → Prop) s :
  ends R t (λ r s, match r with Panicked => Q Panicked s | _ => Q (Ok r) s end) s →
  ends R (attempt_task t) Q s.
Proof.
  revert s. induction t as [[a|e|]|X m k IH]; intros s Ht; [exact Ht..|].
  intros s' Hs. destruct (Ht s' Hs) as [He Hk]. split; [done|]. intros s'' x Hx. by apply IH, Hk.
Qed.

Lemma ends_atomic {A} (m : prog S E A) (Q : res E A → S → Prop) s :
  (∀ s', R s s' → ∀ s'', R (exec m s') s'' → Q (result m s') s'') → ends R (atomic m) Q s.
Proof.
  intros Hm s' Hs. split; [exists s'; split; [done|by eexists]|]. intros s'' x [= Hx].
  specialize (Hm s' Hs). rewrite Hx in Hm. exact Hm.
Qed.

Lemma ends_wait {A} (f : S → option A) (Q : res E A → S → Prop) s :
  (∀ s', R s s' → (∃ s'', R s' s'' ∧ is_Some (f s'')) ∧
     ∀ a, f s' = Some a → ∀ s'', R s' s'' → Q (Ok a) s'') →
  ends R (wait f) Q s.
Proof.
  intros Hf s' Hs. destruct (Hf s' Hs) as [(s1 & Hs1 & [a Ha]) HQ]. split.
  - exists s1. split; [done|]. rewrite Ha. by eexists.
  - intros s'' x Hx. destruct (f s') as [b|]; [|done]. injection Hx as <- <-.
    intros s1' Hs1'. by apply HQ.
Qed.

(** The end can be reached from wherever the task and the others have come to. *)
Inductive helped {A} : task S E A → S → res E A → S → Prop :=
  | helped_done r s : helped (Done r) s r s
  | helped_env t s s1 r s' : R s s1 → helped t s1 r s' → helped t s r s'
  | helped_step t t1 s s1 r s' : task_step t s = Some (s1, t1) → helped t1 s1 r s' → helped t s r s'.

Lemma ends_helped {A} (t : task S E A) Q s :
  ends R t Q s → ∃ r s', helped t s r s' ∧ Q r s'.
Proof.
  revert s. induction t as [r|X m k IH]; intros s Ht.
  - exists r, s. split; [constructor|by apply Ht].
  - destruct (Ht s) as [(s1 & Hs1 & [[s2 x] Hx]) _]; [done|].
    destruct (Ht s1 Hs1) as [_ Hk]. destruct (IH x s2 (Hk _ _ Hx)) as (r & s' & Hh & HQ).
    exists r, s'. split; [|done]. eapply helped_env; [exact Hs1|]. eapply helped_step; [|exact Hh].
    cbn. by rewrite Hx.
Qed.
End ends.

(** ** Pools *)

(** A thread: what others may assume of it ([tag]), what only it has, and the
    rest of its code. The state of its code is made of the shared state and
    its own. *)
Record thread (T L C E A : Type) := mkThread { tag : T; local : L; code : task C E A }.
Arguments mkThread {T L C E A} _ _ _.
Arguments tag {T L C E A} _.
Arguments local {T L C E A} _.
Arguments code {T L C E A} _.

Section pool.
Context {S L C T E A : Type} (join : S → L → C) (shared : C → S) (own : C → L).
Abbreviation Thread := (thread T L C E A).

(** The step of one thread. *)
Inductive thread_step : S * list Thread → S * list Thread → Prop :=
  | thread_steps s ths i th c t :
      ths !! i = Some th → task_step (code th) (join s (local th)) = Some (c, t) →
      thread_step (s, ths) (shared c, <[i := mkThread (tag th) (own c) t]> ths).

(** A step of the pool: of a thread, of the environment, or a new thread. *)
Inductive pool_step (env : relation S) (fresh : list Thread → Thread → Prop) :
    S * list Thread → S * list Thread → Prop :=
  | pool_thread p p' : thread_step p p' → pool_step env fresh p p'
  | pool_env s s' ths : env s s' → pool_step env fresh (s, ths) (s', ths)
  | pool_spawn s ths th : fresh ths th → pool_step env fresh (s, ths) (s, ths ++ [th]).

(** What every thread keeps to, the pool keeps to. *)
Lemma pool_threads (P : Thread → Prop) (G : relation S) env fresh p p' :
  (∀ s s' th c t, P th → task_step (code th) (join s (local th)) = Some (c, t) →
     s' = shared c → P (mkThread (tag th) (own c) t) ∧ G s s') →
  (∀ s s', env s s' → G s s') → (∀ ths th, fresh ths th → P th) →
  rtc (pool_step env fresh) p p' → Forall P p.2 → Forall P p'.2 ∧ rtc G p.1 p'.1.
Proof.
  intros HP Henv Hfresh. induction 1 as [p|p p1 p2 Hs _ IH]; intros Hp; [by split|].
  destruct Hs as [p p' Hstep|s s' ths He|s ths th Hf]; simpl in *.
  - destruct Hstep as [s ths i th c t Hi Ht]; simpl in *.
    assert (P th) as Hth by by eapply Forall_lookup_1.
    destruct (HP s _ th c t Hth Ht eq_refl) as [Hth' Hg].
    destruct IH as [? ?]; [by apply Forall_insert|]. split; [done|]. by eapply rtc_l.
  - destruct (IH Hp) as [? ?]. split; [done|]. eapply rtc_l; [by apply Henv|done].
  - apply IH. apply Forall_app. split; [done|]. by repeat constructor; eapply Hfresh.
Qed.

(** ** Composition *)

Context (R G : T → relation S) `{!∀ t, PreOrder (R t)}.
Context (Q : T → res E A → C → Prop).

(** What the environment does to the state of one thread, and what its own
    steps do to the shared state. *)
Definition lift_rely (P : relation S) : relation C := λ c c', own c' = own c ∧ P (shared c) (shared c').
Definition lift_guar (P : relation S) : relation C := λ c c', P (shared c) (shared c').

#[export] Instance lift_rely_preorder P : PreOrder P → PreOrder (lift_rely P).
Proof. intros HP. split; [by split|]. intros x y z [? ?] [? ?]. split; [congruence|by etrans]. Qed.

(** The specification of a thread, started on [s]. *)
Definition thread_meets (s : S) (th : Thread) : Prop :=
  meets (lift_rely (R (tag th))) (lift_guar (G (tag th))) (code th) (Q (tag th))
    (join s (local th)).

(** No thread leaves the others' rely. *)
Definition compatible (ths : list Thread) : Prop :=
  ∀ i j th th', i ≠ j → ths !! i = Some th → ths !! j = Some th' →
  ∀ s s', G (tag th) s s' → R (tag th') s s'.

Definition pool_meets (p : S * list Thread) : Prop :=
  compatible p.2 ∧ ∀ th, th ∈ p.2 → thread_meets p.1 th.

Context (shared_join : ∀ s l, shared (join s l) = s) (own_join : ∀ s l, own (join s l) = l).
Context (join_eta : ∀ c, join (shared c) (own c) = c).
Context (env : relation S) (fresh : list Thread → Thread → Prop).
Context (env_ok : ∀ t s s', env s s' → R t s s').
Context (fresh_ok : ∀ ths th, fresh ths th →
  (∀ s, thread_meets s th) ∧ (compatible ths → compatible (ths ++ [th]))).

Lemma thread_meets_rely s s' th : R (tag th) s s' → thread_meets s th → thread_meets s' th.
Proof. intros Hr. apply meets_rely; [apply _|]. split; by rewrite ?own_join, ?shared_join. Qed.

Lemma pool_meets_step p p' : pool_step env fresh p p' → pool_meets p → pool_meets p'.
Proof.
  intros Hstep [Hc Hm]. destruct Hstep as [p p' Hstep|s s' ths He|s ths th Hf]; simpl in *.
  - destruct Hstep as [s ths i th c t Hi Ht]; simpl in *.
    assert (thread_meets s th) as Hth by by apply Hm, list_elem_of_lookup_2 with i.
    eapply meets_step in Hth as [Hg Hth']; [|apply _|exact Ht].
    unfold lift_guar in Hg. rewrite shared_join in Hg. split; simpl.
    + intros j k th1 th2 Hjk H1 H2.
      apply list_lookup_insert_Some in H1 as [(-> & <- & _)|[Hj H1]],
        H2 as [(-> & <- & _)|[Hk H2]]; simpl; eauto.
    + intros th' (j & Hj)%list_elem_of_lookup.
      apply list_lookup_insert_Some in Hj as [(-> & <- & _)|[Hne Hj]].
      * unfold thread_meets. simpl. by rewrite join_eta.
      * apply thread_meets_rely with s; [by eapply (Hc i j)|].
        by apply Hm, list_elem_of_lookup_2 with j.
  - split; [done|]. intros th Hth. apply thread_meets_rely with s; [by apply env_ok|by apply Hm].
  - destruct (fresh_ok _ _ Hf) as [Hnew Hcomp]. split; [by apply Hcomp|]. simpl.
    intros th' [?| ->%list_elem_of_singleton]%elem_of_app; [by apply Hm|apply Hnew].
Qed.

(** Threads that keep to compatible specifications meet them together. *)
Theorem pool_sound p p' :
  rtc (pool_step env fresh) p p' → pool_meets p → pool_meets p'.
Proof. induction 1 as [|p p1 p2 Hs _ IH]; [done|]. intros Hp. by eapply IH, pool_meets_step. Qed.

(** A thread that has ended has its postcondition. *)
Lemma pool_meets_done p th r :
  pool_meets p → th ∈ p.2 → code th = Done r → Q (tag th) r (join p.1 (local th)).
Proof.
  intros [_ Hm] Hth Hd. specialize (Hm th Hth). unfold thread_meets in Hm. rewrite Hd in Hm.
  eapply meets_done; [|exact Hm]. apply _.
Qed.

(** ** Schedules *)

(** Let the threads named by [order] take a step each. *)
Fixpoint schedule (order : list nat) (p : S * list Thread) : option (S * list Thread) :=
  match order with
  | [] => Some p
  | i :: order =>
      th ← p.2 !! i;
      '(c, t) ← task_step (code th) (join p.1 (local th));
      schedule order (shared c, <[i := mkThread (tag th) (own c) t]> p.2)
  end.

Lemma schedule_steps order p p' : schedule order p = Some p' → rtc thread_step p p'.
Proof.
  revert p. induction order as [|i order IH]; intros [s ths]; cbn; [by intros [= ->]|].
  intros (th & Hi & ([c t] & Ht & Hs)%bind_Some)%bind_Some. eapply rtc_l; [|by apply IH].
  by eapply thread_steps.
Qed.

Lemma schedule_pool order p p' : schedule order p = Some p' → rtc (pool_step env fresh) p p'.
Proof. intros Hs%schedule_steps. eapply rtc_congruence with (f := id); [|done]. intros. by apply pool_thread. Qed.
End pool.
