(* ===== verification/Text.v ===== *)
(** The string functions of the standard library that the exporters, the
    discovery records, the command line and the bindings use: decimal integers
    printed and parsed, [split_once], [split_whitespace], [join], ASCII case,
    trimming of single characters, and the check that bytes are UTF-8. *)

From S2P Require Import Prelude.

Local Open Scope Z_scope.

(** * Characters

    A character is a byte here; all the classes below are of ASCII characters,
    whose bytes occur in UTF-8 only as themselves. *)
Abbreviation char := Ascii.ascii.
Definition code (c : char) : Z := Z.of_nat (Ascii.nat_of_ascii c).
Definition char_of_Z (z : Z) : char := Ascii.ascii_of_nat (Z.to_nat z).

(** [char::is_ascii_digit], [is_ascii_uppercase] and so on. *)
Definition between (lo hi : Z) (c : char) : bool := (lo <=? code c) && (code c <=? hi).
Definition is_digit : char → bool := between 48 57.
Definition is_upper : char → bool := between 65 90.
Definition is_lower : char → bool := between 97 122.
Definition is_alphanumeric (c : char) : bool := is_digit c || is_upper c || is_lower c.

(** [char::to_ascii_lowercase]. *)
Definition lower_char (c : char) : char := if is_upper c then char_of_Z (code c + 32) else c.

Fixpoint string_map (f : char → char) (s : string) : string :=
  match s with EmptyString => EmptyString | String c s => String (f c) (string_map f s) end.
Fixpoint string_forall (p : char → bool) (s : string) : bool :=
  match s with EmptyString => true | String c s => p c && string_forall p s end.

Definition backquote : string := String (char_of_Z 96) "".

(** [str::to_ascii_lowercase] and [str::eq_ignore_ascii_case]. *)
Definition to_ascii_lowercase (s : string) : string := string_map lower_char s.
Definition eq_ignore_ascii_case (s t : string) : bool :=
  bool_decide (to_ascii_lowercase s = to_ascii_lowercase t).

(** * Cutting and joining *)

(** [[String]::join]. *)
Fixpoint join (sep : string) (l : list string) : string :=
  match l with
  | [] => ""
  | [x] => x
  | x :: l => x +:+ sep +:+ join sep l
  end.

(** [str::split_once] at a character. *)
Fixpoint split_once (c : char) (s : string) : option (string * string) :=
  match s with
  | EmptyString => None
  | String d s =>
      if decide (c = d) then Some ("", s)
      else match split_once c s with
           | Some (a, b) => Some (String d a, b)
           | None => None
           end
  end.

(** [s.split(c).next().unwrap_or_default()]. *)
Definition before (c : char) (s : string) : string :=
  match split_once c s with Some (a, _) => a | None => s end.

(** [str::split] at a character. *)
Fixpoint split_at (c : char) (s : string) : list string :=
  match s with
  | EmptyString => [""]
  | String d s =>
      if decide (c = d) then "" :: split_at c s
      else match split_at c s with
           | [] => [String d ""]
           | w :: ws => String d w :: ws
           end
  end.

Fixpoint string_rev (acc s : string) : string :=
  match s with EmptyString => acc | String c s => string_rev (String c acc) s end.

(** [trim_start_matches] and [trim_end_matches] of one character. *)
Fixpoint trim_start_matches (c : char) (s : string) : string :=
  match s with
  | String d s' => if decide (c = d) then trim_start_matches c s' else s
  | EmptyString => EmptyString
  end.
Definition trim_end_matches (c : char) (s : string) : string :=
  string_rev "" (trim_start_matches c (string_rev "" s)).
Definition trim_matches (c : char) (s : string) : string :=
  trim_end_matches c (trim_start_matches c s).

(** [str::strip_suffix]. *)
Definition strip_suffix (p s : string) : option string :=
  string_rev "" <$> strip_prefix (string_rev "" p) (string_rev "" s).

(** [str::starts_with] and [str::contains]. *)
Definition starts_with (p s : string) : bool := bool_decide (is_Some (strip_prefix p s)).
Fixpoint contains (p s : string) : bool :=
  starts_with p s || match s with EmptyString => false | String _ s => contains p s end.

(** [str::split_whitespace]: every step removes at least one byte, so the
    length is enough fuel. *)
Fixpoint words_fuel (fuel : nat) (word l : list char) : list string :=
  let emit := match word with [] => [] | _ => [String.string_of_list_ascii (reverse word)] end in
  match fuel, l with
  | O, _ | _, [] => emit
  | S fuel, c :: l' =>
      match strip_first white_space l with
      | Some rest => emit ++ words_fuel fuel [] rest
      | None => words_fuel fuel (c :: word) l'
      end
  end.
Definition split_whitespace (s : string) : list string :=
  let l := String.list_ascii_of_string s in words_fuel (S (length l)) [] l.

(** * Decimal integers *)

(** [to_string] of a [bool] and of an integer. *)
Definition show_bool (b : bool) : string := if b then "true" else "false".
Definition show_Z (z : Z) : string := pretty z.

(** The digits of [from_str_radix] at radix 10, after the accumulator. *)
Fixpoint parse_digits (acc : Z) (s : string) : option Z :=
  match s with
  | EmptyString => Some acc
  | String c s => if is_digit c then parse_digits (10 * acc + (code c - 48)) s else None
  end.

(** [str::parse] of an unsigned type: a plus sign is allowed, a minus sign or
    an empty text is not, and the value has to fit. *)
Definition parse_unsigned (max : Z) (s : string) : option Z :=
  let digits := match strip_prefix "+" s with Some t => t | None => s end in
  if is_empty digits then None
  else match parse_digits 0 digits with
       | Some z => if z <=? max then Some z else None
       | None => None
       end.
Definition parse_u16 : string → option Z := parse_unsigned u16_max.

(** * UTF-8 *)

(** The check of [core::str::from_utf8] (no overlong forms, no surrogates,
    nothing above U+10FFFF). *)
Definition tail_byte : char → bool := between 128 191.
Fixpoint is_utf8 (s : string) : bool :=
  match s with
  | EmptyString => true
  | String a s1 =>
      if between 0 127 a then is_utf8 s1
      else match s1 with
      | String b s2 =>
          if between 194 223 a then tail_byte b && is_utf8 s2
          else match s2 with
          | String c s3 =>
              if between 224 239 a then
                (if code a =? 224 then between 160 191 b
                 else if code a =? 237 then between 128 159 b else tail_byte b)
                && tail_byte c && is_utf8 s3
              else match s3 with
              | String d s4 =>
                  between 240 244 a
                  && (if code a =? 240 then between 144 191 b
                      else if code a =? 244 then between 128 143 b else tail_byte b)
                  && tail_byte c && tail_byte d && is_utf8 s4
              | EmptyString => false
              end
          | EmptyString => false
          end
      | EmptyString => false
      end
  end.

(** * The text of identifiers

    [Uuid::parse_str] and [Display] of the [uuid] crate: the text is made of
    hexadecimal digits and hyphens, and parsing inverts printing. *)
Definition is_uuid_char (c : char) : bool := is_digit c || between 97 102 c || (code c =? 45).
Class UuidText `{UuidFormat} := {
  uuid_parse : string → option Uuid;
  uuid_parse_to_string u : uuid_parse (uuid_to_string u) = Some u;
  uuid_chars u : string_forall is_uuid_char (uuid_to_string u) = true;
  uuid_nonempty u : uuid_to_string u ≠ "";
}.

(** * Laws *)

Lemma string_forall_app p s t : string_forall p (s +:+ t) = string_forall p s && string_forall p t.
Proof.
  induction s as [|c s IH]; [done|]. rewrite string_app_cons. simpl. by rewrite IH, andb_assoc.
Qed.

Lemma string_forall_impl (p q : char → bool) s :
  (∀ c, p c = true → q c = true) → string_forall p s = true → string_forall q s = true.
Proof.
  intros Hpq. induction s as [|c s IH]; [done|]. simpl.
  intros [Hc Hs]%andb_true_iff. by rewrite (Hpq c Hc), IH.
Qed.

Lemma string_forall_map p f s :
  string_forall p (string_map f s) = string_forall (λ c, p (f c)) s.
Proof. induction s as [|c s IH]; simpl; [done|]. by rewrite IH. Qed.

Lemma string_app_nil_r (s : string) : s +:+ "" = s.
Proof. induction s as [|c s IH]; [done|]. by rewrite string_app_cons, IH. Qed.

Lemma string_rev_app acc s t : string_rev acc (s +:+ t) = string_rev (string_rev acc s) t.
Proof. revert acc. induction s as [|c s IH]; intros acc; [done|]. rewrite string_app_cons. apply IH. Qed.

Lemma string_rev_acc acc s : string_rev acc s = string_rev "" s +:+ acc.
Proof.
  revert acc. induction s as [|c s IH]; intros acc; [done|]. cbn [string_rev].
  rewrite IH, (IH (String c "")), <-string_app_assoc. done.
Qed.

Lemma string_rev_rev s : string_rev "" (string_rev "" s) = s.
Proof.
  induction s as [|c s IH]; [done|]. cbn [string_rev].
  by rewrite (string_rev_acc (String c "")), string_rev_app, IH.
Qed.

Lemma string_rev_inj s t : string_rev "" s = string_rev "" t → s = t.
Proof. intros He. by rewrite <-(string_rev_rev s), He, string_rev_rev. Qed.

Lemma string_rev_app_nil s t : string_rev "" (s +:+ t) = string_rev "" t +:+ string_rev "" s.
Proof. by rewrite string_rev_app, string_rev_acc. Qed.

Lemma strip_suffix_app s p : strip_suffix p (s +:+ p) = Some s.
Proof.
  unfold strip_suffix. rewrite string_rev_app_nil, strip_prefix_app. simpl.
  by rewrite string_rev_rev.
Qed.

Lemma split_once_app c a b :
  string_forall (λ d, negb (bool_decide (c = d))) a = true →
  split_once c (a +:+ String c b) = Some (a, b).
Proof.
  induction a as [|d a IH].
  - intros _. simpl. by rewrite decide_True.
  - cbn [string_forall]. intros [Hd Ha]%andb_true_iff. rewrite string_app_cons. cbn [split_once].
    apply negb_true_iff, bool_decide_eq_false in Hd.
    rewrite decide_False by done. by rewrite IH.
Qed.

Lemma split_once_none c a :
  string_forall (λ d, negb (bool_decide (c = d))) a = true → split_once c a = None.
Proof.
  induction a as [|d a IH]; [done|]. cbn [string_forall split_once].
  intros [Hd Ha]%andb_true_iff. apply negb_true_iff, bool_decide_eq_false in Hd.
  rewrite decide_False by done. by rewrite IH.
Qed.

(** [split] inverts [join] on parts without the separator. *)
Lemma split_at_word c a :
  string_forall (λ d, negb (bool_decide (c = d))) a = true → split_at c a = [a].
Proof.
  induction a as [|d a IH]; [done|]. cbn [string_forall split_at].
  intros [Hd Ha]%andb_true_iff. apply negb_true_iff, bool_decide_eq_false in Hd.
  rewrite decide_False by done. by rewrite IH.
Qed.

Lemma split_at_app c a b :
  string_forall (λ d, negb (bool_decide (c = d))) a = true →
  split_at c (a +:+ String c b) = a :: split_at c b.
Proof.
  induction a as [|d a IH].
  - intros _. simpl. by rewrite decide_True.
  - cbn [string_forall]. intros [Hd Ha]%andb_true_iff. rewrite string_app_cons. cbn [split_at].
    apply negb_true_iff, bool_decide_eq_false in Hd.
    rewrite decide_False by done. by rewrite IH.
Qed.

Lemma split_at_join c l :
  l ≠ [] → Forall (λ a, string_forall (λ d, negb (bool_decide (c = d))) a = true) l →
  split_at c (join (String c "") l) = l.
Proof.
  induction l as [|a l IH]; [done|]. intros _ Hl. inversion Hl as [|? ? Ha Hl']; subst.
  destruct l as [|b l]; [by apply split_at_word|].
  change (join (String c "") (a :: b :: l)) with (a +:+ String c (join (String c "") (b :: l))).
  rewrite split_at_app by done. by rewrite IH.
Qed.

Lemma string_forall_join p sep l :
  string_forall p sep = true → Forall (λ a, string_forall p a = true) l →
  string_forall p (join sep l) = true.
Proof.
  intros Hsep. induction 1 as [|a l Ha Hl IH]; [done|].
  destruct l as [|b l]; [done|].
  change (join sep (a :: b :: l)) with (a +:+ sep +:+ join sep (b :: l)).
  by rewrite !string_forall_app, Ha, Hsep, IH.
Qed.

(** Decimal printing is read back. *)
Lemma digit_char (d : N) : (d < 10)%N →
  is_digit (pretty_N_char d) = true ∧ code (pretty_N_char d) - 48 = Z.of_N d.
Proof.
  intros Hd.
  assert (d = 0 ∨ d = 1 ∨ d = 2 ∨ d = 3 ∨ d = 4 ∨ d = 5 ∨ d = 6 ∨ d = 7 ∨ d = 8 ∨ d = 9)%N as Hc by lia.
  by repeat (destruct Hc as [->|Hc]; [done|]); subst.
Qed.

Lemma parse_digits_go (x : N) s : (0 < x)%N →
  parse_digits 0 (pretty_N_go x s) = parse_digits (Z.of_N x) s.
Proof.
  revert s. induction (N.lt_wf_0 x) as [x _ IH]; intros s Hx. rewrite pretty_N_go_step by done.
  destruct (digit_char (x `mod` 10)) as [Hd Hc]; [by apply N.mod_lt|].
  assert (Z.of_N x = 10 * Z.of_N (x `div` 10) + Z.of_N (x `mod` 10)) as Hdm
    by (rewrite N2Z.inj_div, N2Z.inj_mod; apply Z.div_mod; done).
  destruct (decide (x `div` 10 = 0)%N) as [Hz|Hz].
  - rewrite Hz, pretty_N_go_0. cbn [parse_digits]. rewrite Hd, Hc. f_equal. lia.
  - rewrite IH; [|by apply N.div_lt|by apply N.neq_0_lt_0]. cbn [parse_digits]. rewrite Hd, Hc. f_equal. lia.
Qed.

Lemma pretty_N_go_digits (x : N) s :
  string_forall is_digit (pretty_N_go x s) = string_forall is_digit s.
Proof.
  revert s. induction (N.lt_wf_0 x) as [x _ IH]; intros s.
  destruct (decide (x = 0)%N) as [->|Hx]; [done|].
  rewrite pretty_N_go_step by lia. rewrite IH by (apply N.div_lt; lia).
  cbn [string_forall]. by destruct (digit_char (x `mod` 10)) as [-> _]; [apply N.mod_lt|].
Qed.

Lemma pretty_N_go_nonempty (x : N) s : s ≠ "" → pretty_N_go x s ≠ "".
Proof.
  revert s. induction (N.lt_wf_0 x) as [x _ IH]; intros s Hs.
  destruct (decide (x = 0)%N) as [->|Hx]; [done|].
  rewrite pretty_N_go_step by lia. apply IH; [apply N.div_lt; lia|done].
Qed.

Lemma show_N_digits (x : N) : string_forall is_digit (pretty x) = true ∧ pretty x ≠ "".
Proof.
  unfold pretty, pretty_N. destruct (decide (x = 0)%N); [done|]. split.
  - by rewrite pretty_N_go_digits.
  - rewrite pretty_N_go_step by lia. by apply pretty_N_go_nonempty.
Qed.

Lemma parse_digits_show (x : N) : parse_digits 0 (pretty x) = Some (Z.of_N x).
Proof.
  unfold pretty, pretty_N. destruct (decide (x = 0)%N) as [->|Hx]; [done|].
  rewrite parse_digits_go by lia. done.
Qed.

Lemma show_Z_nonneg z : 0 ≤ z → show_Z z = pretty (Z.to_N z).
Proof. intros Hz. unfold show_Z, pretty, pretty_Z. destruct z; try done. Qed.

Lemma is_digit_not_plus c : is_digit c = true → c ≠ char_of_Z 43.
Proof. intros Hc ->. discriminate Hc. Qed.

(** Printing a number and parsing it gives it back when it fits. *)
Lemma parse_unsigned_show max z : 0 ≤ z ≤ max → parse_unsigned max (show_Z z) = Some z.
Proof.
  intros [Hz Hm]. rewrite show_Z_nonneg by done. unfold parse_unsigned.
  destruct (show_N_digits (Z.to_N z)) as [Hd Hne].
  assert (strip_prefix "+" (pretty (Z.to_N z)) = None) as ->.
  { destruct (pretty (Z.to_N z)) as [|c s]; [done|]. cbn [string_forall] in Hd.
    apply andb_true_iff in Hd as [Hc _]. simpl. rewrite decide_False; [done|].
    intros <-. by apply is_digit_not_plus in Hc. }
  destruct (is_empty (pretty (Z.to_N z))) eqn:He.
  { by destruct (pretty (Z.to_N z)). }
  rewrite parse_digits_show, Z2N.id by done. apply Z.leb_le in Hm. by rewrite Hm.
Qed.

(** [trim_end_matches] and [trim_matches]. *)
Lemma trim_start_matches_id c s : (∀ t, s ≠ String c t) → trim_start_matches c s = s.
Proof.
  destruct s as [|d s]; intros Hs; [done|]. cbn [trim_start_matches].
  destruct (decide (c = d)) as [->|]; [by destruct (Hs s)|done].
Qed.

Lemma trim_start_matches_head c s t : trim_start_matches c s ≠ String c t.
Proof.
  induction s as [|d s IH]; [done|]. cbn [trim_start_matches].
  destruct (decide (c = d)); [done|]. congruence.
Qed.

Lemma string_forall_rev p acc s :
  string_forall p (string_rev acc s) = string_forall p acc && string_forall p s.
Proof.
  revert acc. induction s as [|c s IH]; intros acc; simpl; [by rewrite andb_true_r|].
  rewrite IH. simpl. by destruct (p c), (string_forall p acc), (string_forall p s).
Qed.

Lemma trim_start_matches_forall p c s :
  string_forall p s = true → string_forall p (trim_start_matches c s) = true.
Proof.
  induction s as [|d s IH]; [done|]. cbn [string_forall trim_start_matches].
  intros [Hd Hs]%andb_true_iff. destruct (decide _); [by apply IH|]. simpl. by rewrite Hd, Hs.
Qed.

Lemma trim_matches_forall p c s :
  string_forall p s = true → string_forall p (trim_matches c s) = true.
Proof.
  intros Hs. unfold trim_matches, trim_end_matches. rewrite string_forall_rev.
  by rewrite trim_start_matches_forall; [|rewrite string_forall_rev, trim_start_matches_forall].
Qed.

Example words_example : split_whitespace "  record start  a b " = ["record"; "start"; "a"; "b"].
Proof. reflexivity. Qed.
Example parse_u16_bounds : parse_u16 "65535" = Some 65535 ∧ parse_u16 "65536" = None ∧ parse_u16 "-1" = None.
Proof. done. Qed.

(** ** What trimming a character leaves *)

Lemma trim_start_matches_suffix c s : ∃ k, s = k +:+ trim_start_matches c s.
Proof.
  induction s as [|d s [k IH]]; [by exists ""|]. cbn [trim_start_matches].
  destruct (decide (c = d)) as [->|]; [|by exists ""].
  exists (String d k). rewrite string_app_cons. by f_equal.
Qed.

Lemma trim_end_matches_prefix c s : ∃ k, s = trim_end_matches c s +:+ k.
Proof.
  unfold trim_end_matches. destruct (trim_start_matches_suffix c (string_rev "" s)) as [k Hk].
  exists (string_rev "" k). by rewrite <-string_rev_app_nil, <-Hk, string_rev_rev.
Qed.

Lemma trim_end_matches_last c s t : trim_end_matches c s ≠ t +:+ String c "".
Proof.
  unfold trim_end_matches. intros Ht%(f_equal (string_rev "")).
  rewrite string_rev_rev, string_rev_app_nil in Ht. by apply trim_start_matches_head in Ht.
Qed.

Lemma trim_end_matches_id c s : (∀ t, s ≠ t +:+ String c "") → trim_end_matches c s = s.
Proof.
  intros Hs. unfold trim_end_matches. rewrite trim_start_matches_id, string_rev_rev; [done|].
  intros t Ht%(f_equal (string_rev "")). rewrite string_rev_rev in Ht. simpl in Ht.
  rewrite string_rev_acc in Ht. by apply (Hs _ Ht).
Qed.

Lemma trim_end_matches_app c s : trim_end_matches c (s +:+ String c "") = trim_end_matches c s.
Proof.
  unfold trim_end_matches. rewrite string_rev_app_nil.
  change (string_rev "" (String c "") +:+ ?x) with (String c x). cbn [trim_start_matches].
  by rewrite decide_True.
Qed.

Lemma trim_matches_head c s t : trim_matches c s ≠ String c t.
Proof.
  unfold trim_matches. intros Ht. destruct (trim_end_matches_prefix c (trim_start_matches c s)) as [k Hk].
  rewrite Ht, string_app_cons in Hk. by apply trim_start_matches_head in Hk.
Qed.

(** ** Containing a text *)

Lemma starts_with_prefix p s : starts_with p (p +:+ s) = true.
Proof. unfold starts_with. by rewrite strip_prefix_app. Qed.

Lemma contains_app p a b : contains p b = true → contains p (a +:+ b) = true.
Proof.
  intros Hb. induction a as [|c a IH]; [done|]. rewrite string_app_cons. cbn [contains].
  by rewrite IH, orb_true_r.
Qed.

Lemma contains_prefix p s : contains p (p +:+ s) = true.
Proof.
  destruct p as [|c p]; [by destruct s|].
  change (contains (String c p) (String c p +:+ s)) with
    (starts_with (String c p) (String c p +:+ s) || contains (String c p) (p +:+ s)).
  by rewrite starts_with_prefix.
Qed.
