(* ===== verification/Float.v ===== *)
(** IEEE 754 arithmetic of the source's [f32] and [f64].

    Both are the executable specification of the Standard Library (one NaN,
    signed zeros and infinities, subnormals, rounding to nearest even), at
    precision 24 / 53 and exponent bound 128 / 1024.  NaN payloads, which no
    comparison or operation of the program observes, are not kept. *)

From S2P Require Import Prelude.
From Corelib Require Export SpecFloat.

Local Open Scope Z_scope.

Abbreviation f32 := spec_float (only parsing).
Abbreviation f64 := spec_float (only parsing).

#[export] Instance spec_float_eq_dec : EqDecision spec_float.
Proof. solve_decision. Defined.

Module F32.
Definition prec : Z := 24.
Definition emax : Z := 128.
Definition add : f32 → f32 → f32 := SFadd prec emax.
Definition sub : f32 → f32 → f32 := SFsub prec emax.
Definition mul : f32 → f32 → f32 := SFmul prec emax.
Definition div : f32 → f32 → f32 := SFdiv prec emax.
Definition sqrt : f32 → f32 := SFsqrt prec emax.
(** An integer literal, or the cast [i32 as f32] (nearest, ties to even). *)
Definition of_Z (z : Z) : f32 := binary_normalize prec emax z 0 false.
Definition zero : f32 := S754_zero false.
Definition neg_zero : f32 := S754_zero true.
Definition one : f32 := of_Z 1.
(** [f32::EPSILON] is 2^-23. *)
Definition epsilon : f32 := binary_normalize prec emax 1 (-23) false.
End F32.

Module F64.
Definition prec : Z := 53.
Definition emax : Z := 1024.
Definition add : f64 → f64 → f64 := SFadd prec emax.
Definition sub : f64 → f64 → f64 := SFsub prec emax.
Definition mul : f64 → f64 → f64 := SFmul prec emax.
Definition of_Z (z : Z) : f64 := binary_normalize prec emax z 0 false.
Definition one : f64 := of_Z 1.
End F64.

(** Comparisons [==], [<], [<=] (false on NaN) and [abs]. *)
Definition feq (x y : spec_float) : bool := SFeqb x y.
Definition flt (x y : spec_float) : bool := SFltb x y.
Definition fle (x y : spec_float) : bool := SFleb x y.
Definition fabs (x : spec_float) : spec_float := SFabs x.
Definition is_nan (x : spec_float) : bool := match x with S754_nan => true | _ => false end.

(** Change of precision: [f64 as f32] rounds, [f32 as f64] is exact. *)
Definition round_to (prec emax : Z) (x : spec_float) : spec_float :=
  match x with
  | S754_finite s m e => binary_round prec emax s m e
  | _ => x
  end.
Definition f64_as_f32 (x : f64) : f32 := round_to F32.prec F32.emax x.
Definition f32_as_f64 (x : f32) : f64 := round_to F64.prec F64.emax x.

(** [f32::round]: to the nearest integer, half-way cases away from zero.  The
    result is given as an integer; [None] for NaN and the infinities. *)
Definition round_half_away (x : spec_float) : option Z :=
  match x with
  | S754_zero _ => Some 0
  | S754_finite s m e =>
      let mag := if 0 <=? e then Z.pos m * 2 ^ e
                 else (2 * Z.pos m + 2 ^ (- e)) / (2 * 2 ^ (- e)) in
      Some (if s then - mag else mag)
  | _ => None
  end.

(** [x.round() as i32]: the cast saturates and sends NaN to 0. *)
Definition round_as_i32 (x : f32) : Z :=
  match x with
  | S754_nan => 0
  | S754_infinity s => if s then i32_min else i32_max
  | _ => match round_half_away x with Some z => i32_saturate z | None => 0 end
  end.

(** [x.max(y)]: the other operand when one is NaN. *)
Definition fmax (x y : spec_float) : spec_float :=
  if is_nan x then y else if is_nan y then x else if flt x y then y else x.

(** [x.clamp(lo, hi)]: [assert!(lo <= hi)], then NaN stays NaN. *)
Definition clamp {E} (x lo hi : spec_float) : res E spec_float :=
  if fle lo hi then
    let x1 := if flt x lo then lo else x in
    Ok (if flt hi x1 then hi else x1)
  else Panicked.

(** [iter.sum::<f32>()]: a left fold that starts at [-0.0]. *)
Definition sum32 (l : list f32) : f32 := foldl F32.add F32.neg_zero l.

#[global] Arguments F32.add : simpl never.
#[global] Arguments F32.sub : simpl never.
#[global] Arguments F32.mul : simpl never.
#[global] Arguments F32.div : simpl never.
#[global] Arguments F32.sqrt : simpl never.
#[global] Arguments F32.of_Z : simpl never.
#[global] Arguments F32.one : simpl never.
#[global] Arguments F64.add : simpl never.
#[global] Arguments F64.sub : simpl never.
#[global] Arguments F64.mul : simpl never.
#[global] Arguments F64.one : simpl never.
#[global] Arguments f64_as_f32 : simpl never.
#[global] Arguments f32_as_f64 : simpl never.
#[global] Arguments feq : simpl never.
#[global] Arguments flt : simpl never.
#[global] Arguments fle : simpl never.
#[global] Arguments fabs : simpl never.
#[global] Arguments fmax : simpl never.
#[global] Arguments clamp : simpl never.
#[global] Arguments round_as_i32 : simpl never.

Example one_plus_two : F32.add (F32.of_Z 1) (F32.of_Z 2) = F32.of_Z 3.
Proof. reflexivity. Qed.
Example round_2_5 : round_as_i32 (F32.div (F32.of_Z (-5)) (F32.of_Z 2)) = -3.
Proof. reflexivity. Qed.

(** ** Order on floats *)

Lemma SFcompare_antisym x y :
  SFcompare y x = CompOpp <$> SFcompare x y.
Proof.
  destruct x as [s|s| |s m e], y as [s'|s'| |s' m' e']; simpl; try by repeat case_match.
  rewrite (Z.compare_antisym e e').
  destruct s, s'; simpl; try done; destruct (Z.compare e e'); simpl; try done;
    rewrite (Pos.compare_cont_antisym m m' Eq); simpl; try done;
    by rewrite CompOpp_involutive.
Qed.

Lemma SFcompare_nan x y : SFcompare x y = None ↔ is_nan x = true ∨ is_nan y = true.
Proof. destruct x, y; simpl; repeat case_match; naive_solver. Qed.

Lemma fle_flt x y : is_nan x = false → is_nan y = false → fle x y = negb (flt y x).
Proof.
  intros Hx Hy. unfold fle, flt, SFleb, SFltb. rewrite (SFcompare_antisym x y).
  destruct (SFcompare x y) as [c|] eqn:E; simpl; [by destruct c|].
  apply SFcompare_nan in E as [E|E]; congruence.
Qed.

Lemma fle_not_nan x y : fle x y = true → is_nan x = false ∧ is_nan y = false.
Proof. unfold fle, SFleb. destruct x, y; simpl; auto. Qed.

Lemma flt_not_nan x y : flt x y = true → is_nan x = false ∧ is_nan y = false.
Proof. unfold flt, SFltb. destruct x, y; simpl; auto. Qed.

Lemma flt_nan_r x : flt x S754_nan = false.
Proof. by destruct x. Qed.

Lemma flt_fle x y : flt x y = true → fle x y = true.
Proof. unfold flt, fle, SFltb, SFleb. by destruct (SFcompare x y) as [[]|]. Qed.

Lemma fle_refl x : is_nan x = false → fle x x = true.
Proof.
  intros H. rewrite fle_flt by done. unfold flt, SFltb.
  destruct (SFcompare x x) as [[]|] eqn:E; try done.
  pose proof (SFcompare_antisym x x) as H'. by rewrite E in H'.
Qed.

(** [clamp] panics exactly on bounds out of order or NaN; otherwise a number
    ends up between the bounds and NaN stays NaN. *)
Lemma clamp_spec {E} x lo hi :
  match @clamp E x lo hi with
  | Ok y => fle lo hi = true ∧ (is_nan x = true ∧ y = x ∨ fle lo y = true ∧ fle y hi = true)
  | Err _ => False
  | Panicked => fle lo hi = false
  end.
Proof.
  unfold clamp. destruct (fle lo hi) eqn:Hb; [|done]. split; [done|].
  pose proof (fle_not_nan _ _ Hb) as [Hlo Hhi].
  destruct (is_nan x) eqn:Hx; [left; destruct x; try discriminate; by rewrite flt_nan_r|right].
  destruct (flt x lo) eqn:H1.
  - rewrite (fle_flt lo hi) in Hb by done. destruct (flt hi lo) eqn:H2; [done|].
    split; [by apply fle_refl|]. rewrite fle_flt by done. by rewrite H2.
  - assert (fle lo x = true) by (rewrite fle_flt by done; by rewrite H1).
    destruct (flt hi x) eqn:H2; [by auto using fle_refl|].
    split; [done|]. rewrite fle_flt by done. by rewrite H2.
Qed.

Lemma clamp_id {E} x lo hi :
  fle lo hi = true → fle lo x = true → fle x hi = true → @clamp E x lo hi = Ok x.
Proof.
  intros Hb H1 H2. unfold clamp. rewrite Hb.
  pose proof (fle_not_nan _ _ H1) as [? ?]. pose proof (fle_not_nan _ _ H2) as [? ?].
  rewrite fle_flt in H1, H2 by done.
  destruct (flt x lo); [done|]. by destruct (flt hi x).
Qed.

(** Adding [+0.0] changes no number (up to the sign of zero). *)
Lemma add_zero_r prec emax x :
  is_nan x = false → feq (SFadd prec emax x (S754_zero false)) x = true.
Proof.
  intros Hx. destruct x as [[]|[]| |s m e]; try done.
  simpl. unfold feq, SFeqb. simpl. rewrite Z.compare_refl, Pos.compare_cont_refl. by destruct s.
Qed.

#[export] Hint Resolve flt_fle fle_refl : motion.
