(* ===== verification/FloatText.v ===== *)
(** Floats as text: [Display] of [f32] and [f64] (the shortest decimal that
    rounds to the value, printed without an exponent) and [f32::from_str].

    [Display] follows the shortest-digits algorithm of [core::num::flt2dec]
    ([strategy::dragon]; the faster Grisu gives the same digits), and [FromStr]
    the grammar of [core::num::dec2flt] with correct rounding. *)

From S2P Require Import Prelude Text Float.

Local Open Scope Z_scope.

(** * [Display] *)

(** A finite value read as [mant * 2 ^ exp]; the decimals that round to it lie
    between [mant - minus] and [mant + plus], ends included or not. *)
Record Decoded := mkDecoded { mant : Z; minus : Z; plus : Z; exp : Z; inclusive : bool }.

(** [flt2dec::decode]: at a power of two the neighbour below is nearer. Below
    the normal range [integer_decode] doubles the mantissa, so it is even. *)
Definition decode (prec : Z) (m : positive) (e : Z) : Decoded :=
  let normal := Zpos (digits2_pos m) =? prec in
  if normal && (Zpos m =? 2 ^ (prec - 1)) then mkDecoded (4 * Zpos m) 1 2 (e - 2) (Z.even (Zpos m))
  else mkDecoded (2 * Zpos m) 1 1 (e - 1) (negb normal || Z.even (Zpos m)).

(** [mant + plus] is not above [scale] (or is below, when the ends count). *)
Definition exceeds (incl : bool) (a b : Z) : bool := if incl then b <=? a else b <? a.

Definition digit_char (d : Z) : char := pretty_N_char (Z.to_N d).

(** The least [k] with [(mant + plus) / scale] not above [10 ^ k]. The fuel
    covers the range of exponents of the format. *)
Fixpoint scale_up (fuel : nat) (incl : bool) (high scale k : Z) : Z * Z :=
  match fuel with
  | O => (scale, k)
  | S fuel => if exceeds incl high scale then scale_up fuel incl high (10 * scale) (k + 1) else (scale, k)
  end.
Fixpoint scale_down (fuel : nat) (incl : bool) (high scale k : Z) (f : Z) : Z * Z :=
  match fuel with
  | O => (f, k)
  | S fuel =>
      if exceeds incl (10 * f * high) scale then (f, k)
      else scale_down fuel incl high scale (k - 1) (10 * f)
  end.

(** [round_up]: add one in the last place; all nines become a one and zeros,
    and the point moves. The digits are kept last first. *)
Fixpoint round_up (rev_digits : list Z) : list Z * bool :=
  match rev_digits with
  | [] => ([1], true)
  | d :: ds => if d =? 9 then let '(ds, carry) := round_up ds in (0 :: ds, carry) else (d + 1 :: ds, false)
  end.

(** Digits until the remainder is within the interval of the value. *)
Fixpoint gen_digits (fuel : nat) (incl : bool) (scale m lo hi : Z) (acc : list Z) : list Z * bool :=
  match fuel with
  | O => (acc, false)
  | S fuel =>
      let acc := m / scale :: acc in
      let m := m mod scale in
      let down := exceeds incl lo m in
      let up := exceeds incl (m + hi) scale in
      if down || up
      then if up && (negb down || (scale <=? 2 * m)) then round_up acc else (acc, false)
      else gen_digits fuel incl scale (10 * m) (10 * lo) (10 * hi) acc
  end.

(** [format_shortest]: digits and [k] with the value near [0.digits * 10 ^ k]. *)
Definition format_shortest (d : Decoded) : list Z * Z :=
  let fuel := 1200%nat in
  let scale := if d.(exp) <? 0 then 2 ^ (- d.(exp)) else 1 in
  let f := if d.(exp) <? 0 then 1 else 2 ^ d.(exp) in
  let '(scale, k) := scale_up fuel d.(inclusive) (f * (d.(mant) + d.(plus))) scale 0 in
  let '(g, k) :=
    if k =? 0 then scale_down fuel d.(inclusive) (f * (d.(mant) + d.(plus))) scale k 1 else (1, k) in
  let f := 10 * g * f in
  let '(rev_digits, carry) :=
    gen_digits fuel d.(inclusive) scale (f * d.(mant)) (f * d.(minus)) (f * d.(plus)) [] in
  (reverse rev_digits, if carry then k + 1 else k).

Fixpoint string_of_digits (l : list Z) : string :=
  match l with [] => EmptyString | d :: l => String (digit_char d) (string_of_digits l) end.
Fixpoint zeros (n : nat) : string :=
  match n with O => EmptyString | S n => String (digit_char 0) (zeros n) end.

(** [digits_to_dec_str] without fractional digits to fill up. *)
Definition positional (digits : list Z) (k : Z) : string :=
  if k <=? 0 then "0." +:+ zeros (Z.to_nat (- k)) +:+ string_of_digits digits
  else if k <? Z.of_nat (length digits) then
    string_of_digits (take (Z.to_nat k) digits) +:+ "." +:+ string_of_digits (drop (Z.to_nat k) digits)
  else string_of_digits digits +:+ zeros (Z.to_nat (k - Z.of_nat (length digits))).

(** [to_string] of a float. *)
Definition show_float (prec : Z) (x : spec_float) : string :=
  match x with
  | S754_nan => "NaN"
  | S754_infinity s => (if s then "-" else "") +:+ "inf"
  | S754_zero s => (if s then "-" else "") +:+ "0"
  | S754_finite s m e =>
      let '(digits, k) := format_shortest (decode prec m e) in
      (if s then "-" else "") +:+ positional digits k
  end.
Definition show_f32 : f32 → string := show_float F32.prec.
Definition show_f64 : f64 → string := show_float F64.prec.

(** * [FromStr] *)

(** Digits at the front: their value after [acc], how many, what follows. *)
Fixpoint take_digits (acc : Z) (n : nat) (s : string) : Z * nat * string :=
  match s with
  | String c s' => if is_digit c then take_digits (10 * acc + (code c - 48)) (S n) s' else (acc, n, s)
  | EmptyString => (acc, n, s)
  end.

(** An optional sign at the front: is it a minus, and what follows. *)
Definition take_sign (s : string) : bool * string :=
  match strip_prefix "-" s, strip_prefix "+" s with
  | Some t, _ => (true, t)
  | None, Some t => (false, t)
  | None, None => (false, s)
  end.

(** The exponent of scientific notation and what follows it. *)
Definition take_exponent (s : string) : option (Z * string) :=
  match s with
  | String c s' =>
      if bool_decide (lower_char c = char_of_Z 101) then
        let '(neg, s'') := take_sign s' in
        let '(e, n, rest) := take_digits 0 0 s'' in
        if Nat.eqb n 0 then None else Some ((if neg : bool then - e else e), rest)
      else Some (0, s)
  | EmptyString => Some (0, s)
  end.

(** [digits * 10 ^ e], rounded to nearest even. *)
Definition decimal_to_float (prec emax : Z) (digits e : Z) : spec_float :=
  match digits with
  | Zpos m =>
      if 0 <=? e then binary_normalize prec emax (Zpos m * 10 ^ e) 0 false
      else SFdiv prec emax (S754_finite false m 0) (S754_finite false (Z.to_pos (10 ^ (- e))) 0)
  | _ => S754_zero false
  end.

Definition parse_number (prec emax : Z) (s : string) : option spec_float :=
  let '(int_part, n, rest) := take_digits 0 0 s in
  let '(all_digits, n_all, rest) :=
    match strip_prefix "." rest with
    | Some rest => take_digits int_part n rest
    | None => (int_part, n, rest)
    end in
  if Nat.eqb n_all 0 then None
  else match take_exponent rest with
       | Some (e, EmptyString) => Some (decimal_to_float prec emax all_digits (e - Z.of_nat (n_all - n)))
       | _ => None
       end.

Definition parse_inf_nan (s : string) : option spec_float :=
  if eq_ignore_ascii_case s "nan" then Some S754_nan
  else if eq_ignore_ascii_case s "inf" || eq_ignore_ascii_case s "infinity" then Some (S754_infinity false)
  else None.

Definition parse_float (prec emax : Z) (s : string) : option spec_float :=
  let '(neg, t) := take_sign s in
  (if neg : bool then SFopp else id) <$>
    match parse_number prec emax t with Some x => Some x | None => parse_inf_nan t end.
Definition parse_f32 : string → option f32 := parse_float F32.prec F32.emax.

#[global] Arguments show_f32 : simpl never.
#[global] Arguments show_f64 : simpl never.
#[global] Arguments parse_f32 : simpl never.

(** * The characters of a printed float *)

(** A digit, a point, a sign, or a letter of [NaN] and [inf]. *)
Definition is_float_char (c : char) : bool :=
  is_digit c || bool_decide (c ∈ char_of_Z <$> [45; 46; 78; 97; 105; 110; 102]).

Lemma digit_char_digit d : is_digit (digit_char d) = true.
Proof. unfold digit_char, pretty_N_char. by repeat case_match. Qed.

Lemma string_of_digits_chars l : string_forall is_float_char (string_of_digits l) = true.
Proof.
  induction l as [|d l IH]; [done|]. cbn [string_of_digits string_forall].
  rewrite IH. unfold is_float_char. by rewrite digit_char_digit.
Qed.

Lemma zeros_chars n : string_forall is_float_char (zeros n) = true.
Proof. induction n as [|n IH]; [done|]. cbn [zeros string_forall]. by rewrite IH. Qed.

Lemma positional_chars digits k : string_forall is_float_char (positional digits k) = true.
Proof.
  unfold positional. repeat case_match; rewrite !string_forall_app, ?string_of_digits_chars, ?zeros_chars; done.
Qed.

Lemma show_float_chars prec x : string_forall is_float_char (show_float prec x) = true.
Proof.
  unfold show_float. repeat case_match; try done; subst; rewrite string_forall_app, positional_chars; done.
Qed.

Lemma show_float_nonempty prec x : show_float prec x ≠ "".
Proof.
  unfold show_float. repeat case_match; try done; subst. simpl. unfold positional.
  repeat case_match; [done|..].
  - by destruct (string_of_digits _).
  - destruct l as [|d digits]; [|done]. simpl in *.
    match goal with Hk : (z <=? 0) = false |- _ => apply Z.leb_gt in Hk end.
    rewrite Z.sub_0_r. by destruct (Z.to_nat z) eqn:?; [lia|].
Qed.

Example show_thirty_five : show_f32 (F32.of_Z 35) = "35".
Proof. vm_compute. reflexivity. Qed.
Example show_tenth : show_f32 <$> parse_f32 "0.1" = Some "0.1".
Proof. vm_compute. reflexivity. Qed.
Example show_max : show_f32 <$> parse_f32 "3.4028235e38" = Some "340282350000000000000000000000000000000".
Proof. vm_compute. reflexivity. Qed.
Example show_small : show_f32 <$> parse_f32 "-1e-45" = Some "-0.000000000000000000000000000000000000000000001".
Proof. vm_compute. reflexivity. Qed.
Example show_carry : show_f32 <$> parse_f32 "9999999.6" = Some "10000000".
Proof. vm_compute. reflexivity. Qed.
Example parse_f32_bounds :
  parse_f32 "1e39" = Some (S754_infinity false) ∧ parse_f32 "1e-60" = Some (S754_zero false)
  ∧ parse_f32 "" = None ∧ parse_f32 "." = None ∧ parse_f32 "1e" = None ∧ parse_f32 "+nAn" = Some S754_nan.
Proof. repeat split; vm_compute; reflexivity. Qed.
