(* ===== verification/Net.v ===== *)
(** Addresses as [std::net] has them: [IpAddr] with its [Display] and the
    predicates the program uses, [SocketAddr::from_str], and the stable sort
    by a text key of lists of addresses. *)

From S2P Require Import Prelude Text.

Local Open Scope Z_scope.

Inductive IpAddr :=
  | V4 (a b c d : Z)
  | V6 (segments : vec Z 8).

#[export] Instance IpAddr_eq_dec : EqDecision IpAddr.
Proof. solve_decision. Defined.

Definition is_ipv4 (ip : IpAddr) : bool := match ip with V4 _ _ _ _ => true | V6 _ => false end.
Definition is_loopback (ip : IpAddr) : bool :=
  match ip with
  | V4 a _ _ _ => a =? 127
  | V6 segments => bool_decide (vec_to_list segments = [0; 0; 0; 0; 0; 0; 0; 1])
  end.

(** The fields fit their width. *)
Definition is_byte (z : Z) : Prop := 0 ≤ z < 2 ^ 8.
Definition ip_ok (ip : IpAddr) : Prop :=
  match ip with
  | V4 a b c d => is_byte a ∧ is_byte b ∧ is_byte c ∧ is_byte d
  | V6 segments => Forall (λ z, 0 ≤ z < 2 ^ 16) (vec_to_list segments)
  end.

(** * [Display] *)

Definition hex_char (d : Z) : char := char_of_Z (if d <? 10 then 48 + d else 87 + d).
Fixpoint show_hex_fuel (n : nat) (z : Z) (s : string) : string :=
  match n with
  | O => s
  | S n => if z <? 16 then String (hex_char z) s else show_hex_fuel n (z / 16) (String (hex_char (z mod 16)) s)
  end.
(** [{:x}] of a [u16]: at most four digits. *)
Definition show_hex (z : Z) : string := show_hex_fuel 4 z "".

Definition show_ipv4 (a b c d : Z) : string := join "." (show_Z <$> [a; b; c; d]).

(** The first longest run of zero segments: where it starts and its length. *)
Fixpoint longest_zeros (i cur_start cur best_start best : nat) (segs : list Z) : nat * nat :=
  match segs with
  | [] => (best_start, best)
  | z :: segs =>
      if z =? 0 then
        let cur_start := match cur with O => i | _ => cur_start end in
        let cur := S cur in
        if Nat.ltb best cur then longest_zeros (S i) cur_start cur cur_start cur segs
        else longest_zeros (S i) cur_start cur best_start best segs
      else longest_zeros (S i) O O best_start best segs
  end.

Definition show_ipv6 (segs : list Z) : string :=
  match segs with
  | [0; 0; 0; 0; 0; 65535; g; h] => "::ffff:" +:+ show_ipv4 (g / 256) (g mod 256) (h / 256) (h mod 256)
  | _ =>
      let '(start, len) := longest_zeros 0 0 0 0 0 segs in
      if Nat.ltb 1 len
      then join ":" (show_hex <$> take start segs) +:+ "::" +:+ join ":" (show_hex <$> drop (start + len) segs)
      else join ":" (show_hex <$> segs)
  end.

Definition show_ip (ip : IpAddr) : string :=
  match ip with V4 a b c d => show_ipv4 a b c d | V6 segments => show_ipv6 (vec_to_list segments) end.

(** [SocketAddr]: a zone index only occurs in a text that is parsed. *)
Record SocketAddr := mkSocket { sock_ip : IpAddr; sock_port : Z; sock_scope : Z }.

#[export] Instance SocketAddr_eq_dec : EqDecision SocketAddr.
Proof. solve_decision. Defined.

(** [SocketAddr::new]. *)
Definition SocketAddr_new (ip : IpAddr) (port : Z) : SocketAddr := mkSocket ip port 0.

Definition show_socket (a : SocketAddr) : string :=
  match a.(sock_ip) with
  | V4 _ _ _ _ => show_ip a.(sock_ip) +:+ ":" +:+ show_Z a.(sock_port)
  | V6 _ =>
      "[" +:+ show_ip a.(sock_ip) +:+ (if a.(sock_scope) =? 0 then "" else "%" +:+ show_Z a.(sock_scope))
        +:+ "]:" +:+ show_Z a.(sock_port)
  end.

(** * [FromStr]: the recursive descent parser of [core::net::parser]

    A reader takes a prefix of the text or fails; a failed attempt leaves the
    text as it was. *)
Definition reader (A : Type) : Type := string → option (A * string).

#[local] Instance reader_ret : MRet reader := λ A a s, Some (a, s).
#[local] Instance reader_bind : MBind reader := λ A B f m s,
  match m s with Some (a, s) => f a s | None => None end.

Definition read_given (p : string) : reader () := λ s,
  match strip_prefix p s with Some s => Some ((), s) | None => None end.

(** The value of a digit of the radix. *)
Definition digit_value (radix : Z) (c : char) : option Z :=
  let v := if is_digit c then Some (code c - 48)
           else if is_lower (lower_char c) then Some (code (lower_char c) - 87) else None in
  match v with Some d => if d <? radix then Some d else None | None => None end.

(** The digits at the front, at most [n] of them; one more digit fails. *)
Fixpoint read_digits (radix : Z) (n : option nat) (acc : Z) (count : nat) (s : string) :
    option (Z * nat * string) :=
  match s with
  | String c s' =>
      match digit_value radix c with
      | Some d =>
          match n with
          | Some O => None
          | Some (S n) => read_digits radix (Some n) (radix * acc + d) (S count) s'
          | None => read_digits radix None (radix * acc + d) (S count) s'
          end
      | None => Some (acc, count, s)
      end
  | EmptyString => Some (acc, count, s)
  end.

(** [read_number]: the value has to fit; a leading zero may be refused. *)
Definition read_number (radix : Z) (n : option nat) (allow_zero_prefix : bool) (max : Z) : reader Z := λ s,
  match read_digits radix n 0 0 s with
  | Some (z, count, rest) =>
      if Nat.eqb count 0 then None
      else if negb allow_zero_prefix && starts_with "0" s && Nat.ltb 1 count then None
      else if z <=? max then Some (z, rest) else None
  | None => None
  end.

Definition read_octet : reader Z := read_number 10 (Some 3%nat) false 255.
Definition read_ipv4_addr : reader (Z * Z * Z * Z) :=
  a ← read_octet; read_given ".";; b ← read_octet; read_given ".";;
  c ← read_octet; read_given ".";; d ← read_octet; mret (a, b, c, d).

(** [read_groups]: up to [limit] groups from index [i], and whether an IPv4
    address ended them. *)
Fixpoint read_groups (limit : nat) (i : nat) (s : string) : list Z * bool * string :=
  match limit with
  | O => ([], false, s)
  | S limit =>
      let sep {A} (m : reader A) : reader A :=
        match i with O => m | _ => read_given ":";; m end in
      match (if Nat.ltb 0 limit then sep read_ipv4_addr s else None) with
      | Some ((a, b, c, d), s) => ([256 * a + b; 256 * c + d], true, s)
      | None =>
          match sep (read_number 16 (Some 4%nat) true u16_max) s with
          | Some (g, s) => let '(gs, v4, s) := read_groups limit (S i) s in (g :: gs, v4, s)
          | None => ([], false, s)
          end
      end
  end.

(** [n] zeros, or the groups themselves when they are eight. *)
Definition segments_of (l : list Z) : vec Z 8 := fun_to_vec (λ i, default 0 (l !! fin_to_nat i)).

Definition read_ipv6_addr : reader (vec Z 8) := λ s,
  let '(head, head_v4, s) := read_groups 8 0 s in
  if Nat.eqb (length head) 8 then Some (segments_of head, s)
  else if head_v4 then None
  else match read_given "::" s with
       | Some (_, s) =>
           let '(tail, _, s) := read_groups (8 - (length head + 1)) 0 s in
           Some (segments_of (head ++ replicate (8 - length head - length tail) 0 ++ tail), s)
       | None => None
       end.

Definition read_port : reader Z := read_given ":";; read_number 10 None true u16_max.

Definition read_scope_id : reader Z := read_given "%";; read_number 10 None true u32_max.
Definition optional {A} (d : A) (m : reader A) : reader A := λ s,
  match m s with Some r => Some r | None => Some (d, s) end.

Definition read_socket_v4 : reader SocketAddr :=
  '(a, b, c, d) ← read_ipv4_addr; port ← read_port; mret (SocketAddr_new (V4 a b c d) port).
Definition read_socket_v6 : reader SocketAddr :=
  read_given "[";; segs ← read_ipv6_addr; scope ← optional 0 read_scope_id; read_given "]";;
  port ← read_port; mret (mkSocket (V6 segs) port scope).

(** [SocketAddr::from_str]: the reader has to use up the text. *)
Definition parse_socket (s : string) : option SocketAddr :=
  match read_socket_v4 s with
  | Some (a, EmptyString) => Some a
  | Some _ => None
  | None => match read_socket_v6 s with Some (a, EmptyString) => Some a | _ => None end
  end.

Example parse_localhost : parse_socket "127.0.0.1:7788" = Some (SocketAddr_new (V4 127 0 0 1) 7788).
Proof. reflexivity. Qed.
Example parse_v6 : show_socket <$> parse_socket "[fe80::1%3]:80" = Some "[fe80::1%3]:80".
Proof. reflexivity. Qed.
Example parse_mapped : show_socket <$> parse_socket "[::ffff:10.0.0.7]:1" = Some "[::ffff:10.0.0.7]:1".
Proof. reflexivity. Qed.
Example parse_bad : parse_socket "1.2.3.04:1" = None ∧ parse_socket "1.2.3.4" = None ∧ parse_socket "1.2.3.4:65536" = None.
Proof. done. Qed.

(** * A printed IPv4 endpoint is read back *)

(** The text goes on with something that is not a digit. *)
Definition stops (radix : Z) (rest : string) : Prop :=
  match rest with String c _ => digit_value radix c = None | EmptyString => True end.

Lemma digit_value_10 c : is_digit c = true → digit_value 10 c = Some (code c - 48).
Proof.
  unfold digit_value. intros Hc. rewrite Hc. unfold is_digit, between in Hc.
  apply andb_true_iff in Hc as [H1%Z.leb_le H2%Z.leb_le].
  assert (code c - 48 <? 10 = true) as -> by (apply Z.ltb_lt; lia). done.
Qed.

Lemma read_digits_spec n acc count t rest z :
  string_forall is_digit t = true → parse_digits acc t = Some z → stops 10 rest →
  (match n with Some n => (String.length t ≤ n)%nat | None => True end) →
  read_digits 10 n acc count (t +:+ rest) = Some (z, (count + String.length t)%nat, rest).
Proof.
  revert n acc count. induction t as [|c t IH]; intros n acc count Ht Hz Hr Hn.
  - injection Hz as ->. cbn [String.length]. rewrite Nat.add_0_r. change ("" +:+ rest) with rest.
    destruct rest as [|c rest]; [done|]. cbn [read_digits]. cbn in Hr. by rewrite Hr.
  - cbn [string_forall] in Ht. apply andb_true_iff in Ht as [Hc Ht].
    cbn [parse_digits] in Hz. rewrite Hc in Hz. rewrite string_app_cons. cbn [read_digits].
    rewrite digit_value_10 by done. cbn [String.length] in *.
    replace (count + S (String.length t))%nat with (S count + String.length t)%nat by lia.
    destruct n as [[|n]|]; [lia| |]; apply IH; try done. lia.
Qed.

Lemma show_Z_parse z : 0 ≤ z →
  string_forall is_digit (show_Z z) = true ∧ parse_digits 0 (show_Z z) = Some z ∧ show_Z z ≠ "".
Proof.
  intros Hz. rewrite show_Z_nonneg by done. destruct (show_N_digits (Z.to_N z)) as [Hd Hn].
  by rewrite parse_digits_show, Z2N.id.
Qed.

Lemma starts_with_app p s t : (String.length p ≤ String.length s)%nat → starts_with p (s +:+ t) = starts_with p s.
Proof.
  revert s. induction p as [|c p IH]; intros s Hl; [done|].
  destruct s as [|d s]; [cbn in Hl; lia|]. rewrite string_app_cons. unfold starts_with in *. cbn [strip_prefix].
  case_decide; [|done]. apply IH. cbn in Hl. lia.
Qed.

Lemma read_number_show n zero max z rest :
  0 ≤ z ≤ max → stops 10 rest →
  (match n with Some n => (String.length (show_Z z) ≤ n)%nat | None => True end) →
  zero || negb (starts_with "0" (show_Z z)) || negb (Nat.ltb 1 (String.length (show_Z z))) = true →
  read_number 10 n zero max (show_Z z +:+ rest) = Some (z, rest).
Proof.
  intros Hz Hr Hn H0. destruct (show_Z_parse z) as (Hd & Hp & Hne); [lia|].
  unfold read_number. rewrite (read_digits_spec n 0 0 (show_Z z) rest z) by done.
  destruct (show_Z z) as [|c t] eqn:Hs; [done|]. rewrite starts_with_app by (cbn; lia).
  cbn [Nat.add String.length Nat.eqb] in *. destruct zero, (starts_with "0" _), (Nat.ltb _ _); try done;
    cbn [negb andb]; by rewrite (proj2 (Z.leb_le z max)) by lia.
Qed.

(** At most three digits, and no leading zero. *)
Definition octet_text (z : Z) : bool :=
  Nat.leb (String.length (show_Z z)) 3
  && (negb (starts_with "0" (show_Z z)) || negb (Nat.ltb 1 (String.length (show_Z z)))).

Lemma octet_text_ok z : is_byte z → octet_text z = true.
Proof.
  intros Hz. assert (Forall (λ z, octet_text z = true) (seqZ 0 256)) as Hf.
  { apply (bool_decide_eq_true_1 _). vm_compute. reflexivity. }
  rewrite Forall_forall in Hf. apply Hf, elem_of_seqZ. unfold is_byte in Hz. lia.
Qed.

Lemma read_octet_show z rest : is_byte z → stops 10 rest → read_octet (show_Z z +:+ rest) = Some (z, rest).
Proof.
  intros Hz Hr. pose proof (octet_text_ok z Hz) as [Hl H0]%andb_true_iff. apply Nat.leb_le in Hl.
  apply read_number_show; [|done..]. unfold is_byte in Hz. lia.
Qed.

Lemma read_given_app p rest : read_given p (p +:+ rest) = Some ((), rest).
Proof. unfold read_given. by rewrite strip_prefix_app. Qed.

(** The text of an IPv4 endpoint, as a banner prints it, names that
    endpoint when it is given back as a connect target. *)
Theorem parse_socket_show a b c d port :
  is_byte a → is_byte b → is_byte c → is_byte d → 0 ≤ port ≤ u16_max →
  parse_socket (show_socket (SocketAddr_new (V4 a b c d) port)) = Some (SocketAddr_new (V4 a b c d) port).
Proof.
  intros Ha Hb Hc Hd Hp. unfold parse_socket, read_socket_v4, read_ipv4_addr, read_port.
  assert (show_socket (SocketAddr_new (V4 a b c d) port) = show_Z a +:+ ("." +:+ (show_Z b +:+ ("." +:+
    (show_Z c +:+ ("." +:+ (show_Z d +:+ (":" +:+ (show_Z port +:+ ""))))))))) as ->.
  { unfold show_socket, show_ip, show_ipv4. cbn [sock_ip sock_port SocketAddr_new fmap list_fmap join].
    by rewrite string_app_nil_r, <-!string_app_assoc. }
  unfold mbind, reader_bind, mret, reader_ret.
  rewrite (read_octet_show a) by done. rewrite read_given_app.
  rewrite (read_octet_show b) by done. rewrite read_given_app.
  rewrite (read_octet_show c) by done. rewrite read_given_app.
  rewrite (read_octet_show d) by done. rewrite read_given_app.
  by rewrite read_number_show.
Qed.

Lemma parse_socket_show_witness :
  parse_socket (show_socket (SocketAddr_new (V4 192 168 1 20) 7788)) = Some (SocketAddr_new (V4 192 168 1 20) 7788).
Proof. apply parse_socket_show; unfold is_byte, u16_max; lia. Defined.

(** * Stable sorting by a key: [slice::sort_by_key] *)
Section sort.
Context {A K : Type} (le : K → K → bool) (key : A → K).

Fixpoint insert_by (x : A) (l : list A) : list A :=
  match l with
  | [] => [x]
  | y :: l' => if le (key x) (key y) then x :: l else y :: insert_by x l'
  end.
Definition sort_by_key (l : list A) : list A := foldr insert_by [] l.

Lemma insert_by_perm x l : insert_by x l ≡ₚ x :: l.
Proof.
  induction l as [|y l IH]; [done|]. simpl. case_match; [done|]. rewrite IH. apply Permutation_swap.
Qed.

Lemma sort_by_key_perm l : sort_by_key l ≡ₚ l.
Proof. induction l as [|x l IH]; [done|]. simpl. by rewrite insert_by_perm, IH. Qed.

Context (le_trans : ∀ a b c, le a b = true → le b c = true → le a c = true).
Context (le_total : ∀ a b, le a b = true ∨ le b a = true).

(** The first element has the least key. *)
Lemma insert_by_head x l y :
  (∀ z, z ∈ l → ∀ h t, l = h :: t → le (key h) (key z) = true) →
  y ∈ insert_by x l → ∀ h t, insert_by x l = h :: t → le (key h) (key y) = true.
Proof.
  intros Hl Hy h t Ht. assert (∀ k, le k k = true) as le_refl by (intros k; by destruct (le_total k k)).
  destruct l as [|z l]; [apply list_elem_of_singleton in Hy; injection Ht as -> _; by subst|].
  assert (y = x ∨ y ∈ z :: l) as Hy' by (rewrite insert_by_perm in Hy; by apply elem_of_cons).
  simpl in Ht. destruct (le (key x) (key z)) eqn:Hxz.
  - injection Ht as <- _. destruct Hy' as [->|Hy']; [done|]. eapply le_trans; [done|]. by apply (Hl y Hy' z l).
  - injection Ht as <- _. destruct Hy' as [->|Hy']; [|by apply (Hl y Hy' z l)].
    destruct (le_total (key x) (key z)) as [Hc|Hc]; [congruence|done].
Qed.

Lemma sort_by_key_head l h t y : sort_by_key l = h :: t → y ∈ l → le (key h) (key y) = true.
Proof.
  intros Hs Hy. rewrite <-(sort_by_key_perm l) in Hy. revert h t y Hs Hy.
  induction l as [|x l IH]; intros h t y Hs Hy; [done|]. simpl in Hs, Hy.
  eapply insert_by_head; [|done|done]. intros z Hz h' t' Hl. by eapply IH.
Qed.
End sort.

(** [Ord] of strings: bytewise. *)
Fixpoint string_le (s t : string) : bool :=
  match s, t with
  | EmptyString, _ => true
  | String _ _, EmptyString => false
  | String c s, String d t => (code c <? code d) || ((code c =? code d) && string_le s t)
  end.

Lemma string_le_trans a b c : string_le a b = true → string_le b c = true → string_le a c = true.
Proof.
  revert b c. induction a as [|x a IH]; intros [|y b] [|z c]; simpl; try done.
  rewrite !orb_true_iff, !andb_true_iff, !Z.ltb_lt, !Z.eqb_eq. intros [?|[? ?]] [?|[? ?]]; try (left; lia).
  right. split; [lia|]. by eapply IH.
Qed.
Lemma string_le_total a b : string_le a b = true ∨ string_le b a = true.
Proof.
  revert b. induction a as [|x a IH]; intros [|y b]; simpl; auto.
  rewrite !orb_true_iff, !andb_true_iff, !Z.ltb_lt, !Z.eqb_eq.
  destruct (Z.lt_trichotomy (code x) (code y)) as [?|[?|?]]; auto.
  destruct (IH b); [left|right]; right; split; auto; lia.
Qed.
Lemma code_inj c d : code c = code d → c = d.
Proof.
  unfold code. intros Hc%Nat2Z.inj.
  by rewrite <-(Ascii.ascii_nat_embedding c), Hc, Ascii.ascii_nat_embedding.
Qed.
Lemma string_le_antisym a b : string_le a b = true → string_le b a = true → a = b.
Proof.
  revert b. induction a as [|x a IH]; intros [|y b]; simpl; try done.
  rewrite !orb_true_iff, !andb_true_iff, !Z.ltb_lt, !Z.eqb_eq. intros [?|[Hc ?]] [?|[? ?]]; try lia.
  apply code_inj in Hc as ->. f_equal. by apply IH.
Qed.

(** [IpAddr]s in the order of their texts. *)
Definition sort_by_text : list IpAddr → list IpAddr := sort_by_key string_le show_ip.

(** The values of a [BTreeMap] keyed by identifiers come in their order. *)
Definition by_id {A} (m : gmap N A) : list A := snd <$> sort_by_key N.leb fst (map_to_list m).
