(* ===== verification/IndexMap.v ===== *)
(** The interface of the [indexmap] crate that the runtime is written against:
    a hash map that iterates in insertion order.

    The crate is not part of the repository, so the models take it as a
    parameter [M] with the operations and the documented laws of this class;
    [alist_map] is an executable instance, used by the concrete examples. *)

From S2P Require Import Prelude.

Local Open Scope Z_scope.

(** ** The reference semantics: association lists without duplicate keys. *)
Section assoc.
Context {K : Type} `{EqDecision K} {A : Type}.
Implicit Types (l : list (K * A)) (k : K) (v : A).

Fixpoint assoc_get k l : option A :=
  match l with
  | [] => None
  | (k', v) :: l => if decide (k = k') then Some v else assoc_get k l
  end.

(** Replaces in place, or appends at the end. *)
Fixpoint assoc_insert k v l : list (K * A) :=
  match l with
  | [] => [(k, v)]
  | (k', v') :: l => if decide (k = k') then (k', v) :: l else (k', v') :: assoc_insert k v l
  end.

(** [shift_remove]: the entries behind the hole move up, order is kept. *)
Definition assoc_remove k l : list (K * A) := filter (λ kv, kv.1 ≠ k) l.

Definition assoc_alter (f : A → A) k l : list (K * A) :=
  (λ kv, if decide (kv.1 = k) then (kv.1, f kv.2) else kv) <$> l.

Definition assoc_values_mut (f : A → A) l : list (K * A) := (λ kv, (kv.1, f kv.2)) <$> l.

Lemma assoc_get_insert k k' v l :
  assoc_get k' (assoc_insert k v l) = if decide (k' = k) then Some v else assoc_get k' l.
Proof. induction l as [|[k1 v1] l IH]; simpl; repeat (case_decide; simplify_eq/=); congruence. Qed.

Lemma assoc_get_remove k k' l :
  assoc_get k' (assoc_remove k l) = if decide (k' = k) then None else assoc_get k' l.
Proof.
  unfold assoc_remove. induction l as [|[k1 v1] l IH]; simpl; [by case_decide|].
  rewrite filter_cons; simpl. repeat (case_decide; simplify_eq/=); done || congruence.
Qed.

Lemma assoc_get_alter f k k' l :
  assoc_get k' (assoc_alter f k l) =
    if decide (k' = k) then f <$> assoc_get k' l else assoc_get k' l.
Proof.
  unfold assoc_alter. induction l as [|[k1 v1] l IH]; simpl; [by case_decide|].
  repeat (case_decide; simplify_eq/=); done || congruence.
Qed.

Lemma assoc_get_values_mut f k l : assoc_get k (assoc_values_mut f l) = f <$> assoc_get k l.
Proof.
  unfold assoc_values_mut. induction l as [|[k1 v1] l IH]; simpl; [done|]. by case_decide.
Qed.

Lemma assoc_get_elem k v l : assoc_get k l = Some v → (k, v) ∈ l.
Proof.
  induction l as [|[k1 v1] l IH]; simpl; [done|].
  case_decide; intros; simplify_eq; set_solver.
Qed.

Lemma assoc_elem_get k v l : NoDup l.*1 → (k, v) ∈ l → assoc_get k l = Some v.
Proof.
  induction l as [|[k1 v1] l IH]; simpl; intros Hnd Hin; [set_solver|].
  apply NoDup_cons in Hnd as [Hk Hnd]. apply elem_of_cons in Hin as [[= -> ->]|Hin].
  - by rewrite decide_True.
  - case_decide; [|by apply IH]. subst. destruct Hk. apply list_elem_of_fmap.
    by exists (k1, v).
Qed.

Lemma assoc_insert_keys k v l :
  (assoc_insert k v l).*1 = if decide (k ∈ l.*1) then l.*1 else l.*1 ++ [k].
Proof.
  induction l as [|[k1 v1] l IH]; [by case_decide; [set_solver|]|].
  cbn [assoc_insert fmap list_fmap fst]. destruct (decide (k = k1)) as [->|Hk]; cbn.
  - rewrite decide_True; [done|set_solver].
  - rewrite IH. destruct (decide (k ∈ l.*1)).
    + rewrite decide_True; [done|set_solver].
    + rewrite decide_False; [done|set_solver].
Qed.

Lemma assoc_insert_nodup k v l : NoDup l.*1 → NoDup (assoc_insert k v l).*1.
Proof.
  intros H. rewrite assoc_insert_keys. case_decide; [done|].
  apply NoDup_app. split_and!; [done| |apply NoDup_singleton]. set_solver.
Qed.

Lemma assoc_remove_nodup k l : NoDup l.*1 → NoDup (assoc_remove k l).*1.
Proof.
  unfold assoc_remove. induction l as [|[k1 v1] l IH]; simpl; intros Hnd; [done|].
  apply NoDup_cons in Hnd as [Hk Hnd]. rewrite filter_cons; simpl.
  case_decide; simpl; [|by apply IH]. apply NoDup_cons; split; [|by apply IH].
  intros (kv & -> & [_ Hkv]%list_elem_of_filter)%list_elem_of_fmap.
  destruct Hk. apply list_elem_of_fmap. eauto.
Qed.

Lemma assoc_alter_keys f k l : (assoc_alter f k l).*1 = l.*1.
Proof.
  unfold assoc_alter. induction l as [|[k1 v1] l IH]; simpl; [done|]. by case_decide; f_equal/=.
Qed.

Lemma assoc_values_mut_keys f l : (assoc_values_mut f l).*1 = l.*1.
Proof. unfold assoc_values_mut. induction l as [|[k1 v1] l IH]; f_equal/=; done. Qed.
End assoc.

(** ** The interface *)
Class IndexMap (K : Type) `{EqDecision K} (M : Type → Type) := {
  im_entries {A} : M A → list (K * A);
  im_new {A} : M A;
  im_get {A} : K → M A → option A;
  im_insert {A} : K → A → M A → M A;
  im_shift_remove {A} : K → M A → M A;
  im_get_mut {A} : (A → A) → K → M A → M A;
  im_values_mut {A} : (A → A) → M A → M A;

  im_nodup {A} (m : M A) : NoDup (im_entries m).*1;
  im_entries_new {A} : im_entries (@im_new A) = [];
  im_get_spec {A} k (m : M A) : im_get k m = assoc_get k (im_entries m);
  im_entries_insert {A} k v (m : M A) :
    im_entries (im_insert k v m) = assoc_insert k v (im_entries m);
  im_entries_shift_remove {A} k (m : M A) :
    im_entries (im_shift_remove k m) = assoc_remove k (im_entries m);
  im_entries_get_mut {A} (f : A → A) k (m : M A) :
    im_entries (im_get_mut f k m) = assoc_alter f k (im_entries m);
  im_entries_values_mut {A} (f : A → A) (m : M A) :
    im_entries (im_values_mut f m) = assoc_values_mut f (im_entries m);
}.

(** [values()], in iteration order. *)
Definition im_values {K M A} `{IndexMap K M} (m : M A) : list A := (im_entries m).*2.

Section laws.
Context {K : Type} {M : Type → Type} `{IndexMap K M} {A : Type}.
Implicit Types (m : M A) (k : K) (v : A).

Lemma im_get_new k : im_get k (im_new : M A) = None.
Proof. by rewrite im_get_spec, im_entries_new. Qed.

Lemma im_get_insert k k' v m :
  im_get k' (im_insert k v m) = if decide (k' = k) then Some v else im_get k' m.
Proof. by rewrite !im_get_spec, im_entries_insert, assoc_get_insert. Qed.

Lemma im_get_shift_remove k k' m :
  im_get k' (im_shift_remove k m) = if decide (k' = k) then None else im_get k' m.
Proof. by rewrite !im_get_spec, im_entries_shift_remove, assoc_get_remove. Qed.

Lemma im_get_get_mut f k k' m :
  im_get k' (im_get_mut f k m) = if decide (k' = k) then f <$> im_get k' m else im_get k' m.
Proof. by rewrite !im_get_spec, im_entries_get_mut, assoc_get_alter. Qed.

Lemma im_get_values_mut f k m : im_get k (im_values_mut f m) = f <$> im_get k m.
Proof. by rewrite !im_get_spec, im_entries_values_mut, assoc_get_values_mut. Qed.

Lemma im_elem_values v m : v ∈ im_values m ↔ ∃ k, im_get k m = Some v.
Proof.
  unfold im_values. rewrite list_elem_of_fmap. split.
  - intros ([k v'] & -> & Hin). exists k. rewrite im_get_spec.
    by apply assoc_elem_get; [apply im_nodup|].
  - intros [k Hk]. exists (k, v). split; [done|]. rewrite im_get_spec in Hk.
    by apply assoc_get_elem.
Qed.

Lemma im_values_values_mut f m : im_values (im_values_mut f m) = f <$> im_values m.
Proof.
  unfold im_values. rewrite im_entries_values_mut. unfold assoc_values_mut.
  rewrite <-!list_fmap_compose. done.
Qed.

(** A fresh key is appended after the present ones. *)
Lemma im_values_insert_new k v m :
  im_get k m = None → im_values (im_insert k v m) = im_values m ++ [v].
Proof.
  unfold im_values. rewrite im_get_spec, im_entries_insert.
  generalize (im_entries m). induction l as [|[k1 v1] l IH]; simpl; [done|].
  case_decide; [done|]. intros Hk. cbn. f_equal. by apply IH.
Qed.

Lemma im_values_insert k v m :
  ∀ x, x ∈ im_values (im_insert k v m) → x = v ∨ x ∈ im_values m.
Proof.
  intros x. rewrite !im_elem_values. intros [k' Hk']. rewrite im_get_insert in Hk'.
  case_decide; naive_solver.
Qed.

Lemma im_values_shift_remove k m :
  ∀ x, x ∈ im_values (im_shift_remove k m) → x ∈ im_values m.
Proof.
  intros x. rewrite !im_elem_values. intros [k' Hk']. rewrite im_get_shift_remove in Hk'.
  case_decide; naive_solver.
Qed.
End laws.

#[export] Hint Rewrite @im_get_new @im_get_insert @im_get_shift_remove @im_get_get_mut
  @im_get_values_mut using typeclasses eauto : indexmap.

(** ** An executable instance *)
Record alist_map (K : Type) `{EqDecision K} (A : Type) := mk_alist {
  al_list : list (K * A);
  al_nodup : NoDup al_list.*1;
}.
Arguments mk_alist {K _ A} _ _.
Arguments al_list {K _ A} _.
Arguments al_nodup {K _ A} _.

#[export] Instance alist_index_map {K} `{EqDecision K} : IndexMap K (alist_map K).
Proof.
  refine {|
    im_entries A m := al_list m;
    im_new A := mk_alist [] (NoDup_nil_2);
    im_get A k m := assoc_get k (al_list m);
    im_insert A k v m :=
      mk_alist (assoc_insert k v (al_list m)) (assoc_insert_nodup k v _ (al_nodup m));
    im_shift_remove A k m :=
      mk_alist (assoc_remove k (al_list m)) (assoc_remove_nodup k _ (al_nodup m));
    im_get_mut A f k m :=
      mk_alist (assoc_alter f k (al_list m))
        (eq_ind_r (λ l, NoDup l) (al_nodup m) (assoc_alter_keys f k (al_list m)));
    im_values_mut A f m :=
      mk_alist (assoc_values_mut f (al_list m))
        (eq_ind_r (λ l, NoDup l) (al_nodup m) (assoc_values_mut_keys f (al_list m)));
  |}; try done.
  intros A m. apply al_nodup.
Defined.
