(* ===== verification/Protocol.v ===== *)
(** [crates/motionstage-protocol/src/lib.rs]: protocol versions, roles,
    features, modes, the session state machine and the control messages. *)

From S2P Require Import Prelude.

Local Open Scope Z_scope.

Definition PROTOCOL_MAJOR : Z := 1.
Definition PROTOCOL_MINOR : Z := 3.

Record ProtocolVersion := mkVersion { major : Z; minor : Z }.

Inductive ClientRole := MotionSource | CameraController | VideoSink | Operator.

Inductive Feature := Motion | MappingFeature | RecordingFeature | Video | Hdr10Feature | SdrFallback.

Inductive Mode := Idle | Live | Recording.

Inductive BaselineAction := ResetScene | CommitScene | CommitObject.

Inductive SessionState :=
  | Discovered | TransportConnected | HelloExchanged | Authenticated
  | Registered | SceneSynced | Active | Closed.

#[export] Instance ProtocolVersion_eq_dec : EqDecision ProtocolVersion.
Proof. solve_decision. Defined.
#[export] Instance ClientRole_eq_dec : EqDecision ClientRole.
Proof. solve_decision. Defined.
#[export] Instance Feature_eq_dec : EqDecision Feature.
Proof. solve_decision. Defined.
#[export] Instance Mode_eq_dec : EqDecision Mode.
Proof. solve_decision. Defined.
#[export] Instance BaselineAction_eq_dec : EqDecision BaselineAction.
Proof. solve_decision. Defined.
#[export] Instance SessionState_eq_dec : EqDecision SessionState.
Proof. solve_decision. Defined.

(** [SessionState::can_transition_to]. *)
Definition can_transition_to (self next : SessionState) : bool :=
  match self, next with
  | Discovered, TransportConnected
  | TransportConnected, HelloExchanged
  | HelloExchanged, Authenticated
  | Authenticated, Registered
  | Registered, SceneSynced
  | SceneSynced, Active
  | Active, Closed
  | Authenticated, Closed
  | Registered, Closed
  | SceneSynced, Closed
  | TransportConnected, Closed
  | HelloExchanged, Closed => true
  | _, _ => false
  end.

Inductive RejectCode :=
  | UnsupportedProtocol | VersionMismatch | NoCommonFeature | AuthFailed
  | RoleDenied | CapacityExceeded | ServerBusy.

Record ServerHello := mkServerHello {
  sh_protocol_major : Z;
  sh_protocol_minor : Z;
  sh_features : list Feature;
  sh_security_mode : string;
}.

Record VersionNegotiation := mkNegotiation {
  vn_server : ProtocolVersion;
  vn_client : ProtocolVersion;
  vn_selected : ProtocolVersion;
}.

Record ClientHello := mkClientHello {
  ch_protocol_major : Z;
  ch_protocol_minor : Z;
  ch_device_id : Uuid;
  ch_device_name : string;
  ch_roles : list ClientRole;
  ch_features : list Feature;
  ch_advertised_attributes : list string;
}.

Record RegisterRequest := mkRegisterRequest {
  rr_pairing_token : option string;
  rr_api_key : option string;
}.

Record RegisterAccepted := mkRegisterAccepted {
  ra_session_id : Uuid;
  ra_negotiated_features : list Feature;
}.

Record RegisterRejected := mkRegisterRejected {
  rj_code : RejectCode;
  rj_reason : string;
}.

Inductive SdpType := Offer | Answer.

Record SdpMessage := mkSdp { sdp_ty : SdpType; sdp_text : string }.

Record IceCandidate := mkIce {
  ice_candidate : string;
  ice_sdp_mid : option string;
  ice_sdp_mline_index : option Z;
}.

Inductive SignalPayload := Sdp (m : SdpMessage) | Ice (c : IceCandidate).

Record SignalMessage := mkSignal {
  from_device : Uuid;
  to_device : Uuid;
  payload : SignalPayload;
}.

Inductive ControlMessage :=
  | CServerHello (h : ServerHello)
  | CClientHello (h : ClientHello)
  | CRegisterRequest (r : RegisterRequest)
  | CRegisterAccepted (r : RegisterAccepted)
  | CRegisterRejected (r : RegisterRejected)
  | CVideoSignal (m : SignalMessage)
  | CDrainSignals
  | CSignalsBatch (ms : list SignalMessage)
  | CCreateVideoOffer (stream_id track_id : string)
  | CVideoOffer (m : SdpMessage)
  | CError (code : RejectCode) (reason : string)
  | CPing
  | CPong
  | CSetMode (mode : Mode)
  | CModeState (mode : Mode)
  | CResetSceneToBaseline (scene_id : option Uuid)
  | CCommitSceneBaseline (scene_id : option Uuid)
  | CCommitObjectBaseline (scene_id : option Uuid) (object_id : Uuid)
  | CBaselineActionApplied (action : BaselineAction) (changed_attributes : Z).

Inductive ProtocolError :=
  | InvalidTransition (from to : SessionState)
  | UnsupportedMajor (server client : ProtocolVersion)
  | ClientTooNew (server client : ProtocolVersion).

#[export] Instance RejectCode_eq_dec : EqDecision RejectCode.
Proof. solve_decision. Defined.
#[export] Instance SdpType_eq_dec : EqDecision SdpType.
Proof. solve_decision. Defined.
#[export] Instance SdpMessage_eq_dec : EqDecision SdpMessage.
Proof. solve_decision. Defined.
#[export] Instance IceCandidate_eq_dec : EqDecision IceCandidate.
Proof. solve_decision. Defined.
#[export] Instance SignalPayload_eq_dec : EqDecision SignalPayload.
Proof. solve_decision. Defined.
#[export] Instance SignalMessage_eq_dec : EqDecision SignalMessage.
Proof. solve_decision. Defined.
#[export] Instance RegisterRejected_eq_dec : EqDecision RegisterRejected.
Proof. solve_decision. Defined.

(** [negotiate_version]. *)
Definition negotiate_version (server client : ProtocolVersion) : res ProtocolError VersionNegotiation :=
  if decide (server.(major) ≠ client.(major)) then Err (UnsupportedMajor server client)
  else if decide (client.(minor) > server.(minor)) then Err (ClientTooNew server client)
  else Ok {| vn_server := server; vn_client := client;
             vn_selected := mkVersion server.(major) client.(minor) |}.

(** ** Paths of the session state machine *)

(** [session_path s l s']: from [s], through the states [l], to [s']. *)
Inductive session_path : SessionState → list SessionState → SessionState → Prop :=
  | path_here s : session_path s [] s
  | path_step s t l s' :
      can_transition_to s t = true → session_path t l s' → session_path s (t :: l) s'.

(** How many transitions a session can still make. *)
Definition session_rank (s : SessionState) : nat :=
  match s with
  | Discovered => 7 | TransportConnected => 6 | HelloExchanged => 5 | Authenticated => 4
  | Registered => 3 | SceneSynced => 2 | Active => 1 | Closed => 0
  end%nat.

Lemma can_transition_rank s t :
  can_transition_to s t = true → (session_rank t < session_rank s)%nat.
Proof. destruct s, t; simpl; intros; lia || done. Qed.

Lemma session_path_length s l s' :
  session_path s l s' → (length l + session_rank s' ≤ session_rank s)%nat.
Proof.
  induction 1 as [s|s t l s' Hst _ IH]; simpl; [lia|].
  apply can_transition_rank in Hst. lia.
Qed.

Lemma closed_no_transition t : can_transition_to Closed t = false.
Proof. by destruct t. Qed.

Lemma session_path_closed l s : session_path Closed l s → l = [] ∧ s = Closed.
Proof. inversion 1 as [|? t ? ? Ht]; [done|]. by rewrite closed_no_transition in Ht. Qed.

(** The session machine admits exactly one way to become [Active]: a session
    that starts [Discovered] and reaches [Active] went through every stage of
    the handshake, in order, none skipped or repeated. *)
Definition handshake_stages : list SessionState :=
  [TransportConnected; HelloExchanged; Authenticated; Registered; SceneSynced; Active].

Lemma session_active_only_by_handshake l :
  session_path Discovered l Active ↔ l = handshake_stages.
Proof.
  split.
  - intros H.
    repeat match goal with
    | H : can_transition_to _ ?t = true |- _ => destruct t; try discriminate H; clear H
    | H : session_path Closed _ _ |- _ => apply session_path_closed in H as [_ ?]; discriminate
    | H : session_path _ _ _ |- _ => inversion H; subst; clear H; try done
    end.
  - intros ->. repeat (econstructor; [reflexivity|]). constructor.
Qed.

(** Version negotiation succeeds exactly when the majors agree and the
    client's minor is not newer; it then selects the client's version, and
    otherwise reports the major mismatch before the minor one. *)
Lemma negotiate_version_outcome server client :
  negotiate_version server client =
    if decide (server.(major) = client.(major)) then
      if decide (client.(minor) ≤ server.(minor)) then Ok (mkNegotiation server client client)
      else Err (ClientTooNew server client)
    else Err (UnsupportedMajor server client).
Proof.
  unfold negotiate_version. destruct server as [M m], client as [M' m']; simpl.
  repeat case_decide; try done || lia; subst; done.
Qed.
