(* ===== verification/Model.v ===== *)
(** [crates/motionstage-core/src/model.rs]: the scene graph, the mappings and
    the lease configuration. *)

From S2P Require Import Prelude Float.

Local Open Scope Z_scope.

Abbreviation SceneId := Uuid (only parsing).
Abbreviation ObjectId := Uuid (only parsing).
Abbreviation MappingId := Uuid (only parsing).

(** Attribute values; [i32] is a [Z] in range (see [value_in_range]). *)
Inductive AttributeValue :=
  | VBool (b : bool)
  | Int32 (z : Z)
  | Float32 (v : f32)
  | Float64 (v : f64)
  | Vec2f (v : vec f32 2)
  | Vec3f (v : vec f32 3)
  | Vec4f (v : vec f32 4)
  | Quatf (v : vec f32 4)
  | Mat4f (v : vec (vec f32 4) 4)
  | Trigger (b : bool).

#[export] Instance AttributeValue_eq_dec : EqDecision AttributeValue.
Proof. solve_decision. Defined.

(** [AttributeValue::type_name]. *)
Definition type_name (self : AttributeValue) : string :=
  match self with
  | VBool _ => "bool"
  | Int32 _ => "int32"
  | Float32 _ => "float32"
  | Float64 _ => "float64"
  | Vec2f _ => "vec2f"
  | Vec3f _ => "vec3f"
  | Vec4f _ => "vec4f"
  | Quatf _ => "quatf"
  | Mat4f _ => "mat4f"
  | Trigger _ => "trigger"
  end.

(** The derived [PartialEq]: IEEE equality on every float, so that NaN differs
    from itself and the two zeros are equal. *)
Definition arr_eqb {n} (v w : vec f32 n) : bool :=
  forallb (λ p, feq p.1 p.2) (zip (vec_to_list v) (vec_to_list w)).

Definition mat_eqb {n m} (v w : vec (vec f32 n) m) : bool :=
  forallb (λ p, arr_eqb p.1 p.2) (zip (vec_to_list v) (vec_to_list w)).

Definition value_eqb (a b : AttributeValue) : bool :=
  match a, b with
  | VBool x, VBool y | Trigger x, Trigger y => bool_decide (x = y)
  | Int32 x, Int32 y => bool_decide (x = y)
  | Float32 x, Float32 y | Float64 x, Float64 y => feq x y
  | Vec2f v, Vec2f w => arr_eqb v w
  | Vec3f v, Vec3f w => arr_eqb v w
  | Vec4f v, Vec4f w | Quatf v, Quatf w => arr_eqb v w
  | Mat4f v, Mat4f w => mat_eqb v w
  | _, _ => false
  end.

Inductive AttributeFilter :=
  | Passthrough
  | Ema (alpha : f32)
  | Deadband (threshold : f32)
  | Clamp (min max : f32).

Record SceneAttribute := mkAttribute {
  attr_name : string;
  default_value : AttributeValue;
  current_value : AttributeValue;
  live_enabled : bool;
  record_enabled : bool;
  filter_chain : list AttributeFilter;
}.

(** Field assignments [attr.current_value = v], [attr.default_value = v]. *)
Definition set_current_value (v : AttributeValue) (a : SceneAttribute) : SceneAttribute :=
  mkAttribute a.(attr_name) a.(default_value) v a.(live_enabled) a.(record_enabled) a.(filter_chain).
Definition set_default_value (v : AttributeValue) (a : SceneAttribute) : SceneAttribute :=
  mkAttribute a.(attr_name) v a.(current_value) a.(live_enabled) a.(record_enabled) a.(filter_chain).

(** [SceneAttribute::new] and [SceneAttribute::reset]. *)
Definition SceneAttribute_new (name : string) (default : AttributeValue) : SceneAttribute :=
  mkAttribute name default default true true [Passthrough].
Definition SceneAttribute_reset (self : SceneAttribute) : SceneAttribute :=
  set_current_value self.(default_value) self.

Record SceneObject := mkObject {
  obj_id : ObjectId;
  obj_name : string;
  attributes : gmap string SceneAttribute;
}.

Definition set_attributes (m : gmap string SceneAttribute) (o : SceneObject) : SceneObject :=
  mkObject o.(obj_id) o.(obj_name) m.

(** [SceneObject::new], with the identifier [Uuid::now_v7()] drew, and
    [SceneObject::with_attribute]. *)
Definition SceneObject_new (fresh : Uuid) (name : string) : SceneObject := mkObject fresh name ∅.
Definition with_attribute (attr : SceneAttribute) (self : SceneObject) : SceneObject :=
  set_attributes (<[attr.(attr_name) := attr]> self.(attributes)) self.

Record Scene := mkScene {
  sc_id : SceneId;
  sc_name : string;
  objects : gmap Uuid SceneObject;
}.

Definition set_objects (m : gmap Uuid SceneObject) (s : Scene) : Scene :=
  mkScene s.(sc_id) s.(sc_name) m.

(** [Scene::new] and [Scene::with_object]. *)
Definition Scene_new (fresh : Uuid) (name : string) : Scene := mkScene fresh name ∅.
Definition with_object (object : SceneObject) (self : Scene) : Scene :=
  set_objects (<[object.(obj_id) := object]> self.(objects)) self.

Inductive MappingState := MActive | MReleased.

#[export] Instance MappingState_eq_dec : EqDecision MappingState.
Proof. solve_decision. Defined.

Record Mapping := mkMapping {
  m_id : MappingId;
  source_device : Uuid;
  source_output : string;
  target_scene : SceneId;
  target_object : ObjectId;
  target_attribute : string;
  component_mask : option (list nat);
  lock : bool;
  state : MappingState;
  last_heartbeat_ns : Z;
  disconnected_at_ns : option Z;
}.

#[export] Instance Mapping_eq_dec : EqDecision Mapping.
Proof. solve_decision. Defined.

Definition set_disconnected (t : option Z) (m : Mapping) : Mapping :=
  mkMapping m.(m_id) m.(source_device) m.(source_output) m.(target_scene) m.(target_object)
    m.(target_attribute) m.(component_mask) m.(lock) m.(state) m.(last_heartbeat_ns) t.
Definition set_heartbeat (t : Z) (m : Mapping) : Mapping :=
  mkMapping m.(m_id) m.(source_device) m.(source_output) m.(target_scene) m.(target_object)
    m.(target_attribute) m.(component_mask) m.(lock) m.(state) t m.(disconnected_at_ns).
Definition set_state (s : MappingState) (m : Mapping) : Mapping :=
  mkMapping m.(m_id) m.(source_device) m.(source_output) m.(target_scene) m.(target_object)
    m.(target_attribute) m.(component_mask) m.(lock) s m.(last_heartbeat_ns) m.(disconnected_at_ns).
Definition set_lock (b : bool) (m : Mapping) : Mapping :=
  mkMapping m.(m_id) m.(source_device) m.(source_output) m.(target_scene) m.(target_object)
    m.(target_attribute) m.(component_mask) b m.(state) m.(last_heartbeat_ns) m.(disconnected_at_ns).

Record MappingRequest := mkRequest {
  rq_source_device : Uuid;
  rq_source_output : string;
  rq_target_scene : SceneId;
  rq_target_object : ObjectId;
  rq_target_attribute : string;
  rq_component_mask : option (list nat);
}.

Record AttributeUpdate := mkUpdate {
  output_attribute : string;
  value : AttributeValue;
}.

Record LeaseConfig := mkLease {
  heartbeat_interval_ns : Z;
  timeout_ns : Z;
  reclaim_grace_ns : Z;
}.

(** [LeaseConfig::default]. *)
Definition LeaseConfig_default : LeaseConfig :=
  mkLease 500000000 2000000000 5000000000.

(** ** Facts about values *)

(** Every stored [i32] is an [i32]. *)
Definition value_in_range (v : AttributeValue) : Prop :=
  match v with Int32 z => in_i32 z | _ => True end.

(** No float of the value is a NaN. *)
Definition value_nan_free (v : AttributeValue) : bool :=
  match v with
  | Float32 x | Float64 x => negb (is_nan x)
  | Vec2f v => forallb (λ x, negb (is_nan x)) (vec_to_list v)
  | Vec3f v => forallb (λ x, negb (is_nan x)) (vec_to_list v)
  | Vec4f v | Quatf v => forallb (λ x, negb (is_nan x)) (vec_to_list v)
  | Mat4f v => forallb (λ r, forallb (λ x, negb (is_nan x)) (vec_to_list r)) (vec_to_list v)
  | _ => true
  end.

Lemma feq_refl x : feq x x = negb (is_nan x).
Proof.
  unfold feq, SFeqb. destruct x as [s|s| |s m e]; simpl; try done; [by destruct s|].
  rewrite Z.compare_refl, Pos.compare_cont_refl. by destruct s.
Qed.

Lemma arr_eqb_refl {n} (v : vec f32 n) :
  arr_eqb v v = forallb (λ x, negb (is_nan x)) (vec_to_list v).
Proof. unfold arr_eqb. induction v as [|x n v IH]; simpl; [done|]. by rewrite feq_refl, IH. Qed.

Lemma mat_eqb_refl {n m} (v : vec (vec f32 n) m) :
  mat_eqb v v = forallb (λ r, forallb (λ x, negb (is_nan x)) (vec_to_list r)) (vec_to_list v).
Proof. unfold mat_eqb. induction v as [|x m v IH]; simpl; [done|]. by rewrite arr_eqb_refl, IH. Qed.

(** A value equals itself exactly when it has no NaN. *)
Lemma value_eqb_refl v : value_eqb v v = value_nan_free v.
Proof.
  destruct v; simpl; rewrite ?feq_refl, ?arr_eqb_refl, ?mat_eqb_refl; try done;
    by rewrite bool_decide_eq_true_2.
Qed.

Lemma feq_sym x y : feq x y = feq y x.
Proof. unfold feq, SFeqb. rewrite (SFcompare_antisym x y). by destruct (SFcompare x y) as [[]|]. Qed.

Lemma arr_eqb_sym {n} (v w : vec f32 n) : arr_eqb v w = arr_eqb w v.
Proof.
  unfold arr_eqb. generalize (vec_to_list v) (vec_to_list w). clear.
  induction l as [|x l IH]; intros [|y l']; simpl; [done..|]. by rewrite feq_sym, IH.
Qed.

Lemma mat_eqb_sym {n m} (v w : vec (vec f32 n) m) : mat_eqb v w = mat_eqb w v.
Proof.
  unfold mat_eqb. generalize (vec_to_list v) (vec_to_list w). clear.
  induction l as [|x l IH]; intros [|y l']; simpl; [done..|]. by rewrite arr_eqb_sym, IH.
Qed.

Lemma value_eqb_sym v w : value_eqb v w = value_eqb w v.
Proof.
  destruct v, w; simpl; try done;
    rewrite 1?feq_sym, 1?arr_eqb_sym, 1?mat_eqb_sym; try done; apply bool_decide_ext; naive_solver.
Qed.

(** Values that compare equal have the same type. *)
Lemma value_eqb_type v w : value_eqb v w = true → type_name v = type_name w.
Proof. by destruct v, w. Qed.

Lemma type_name_eqb_value v w : type_name v ≠ type_name w → value_eqb v w = false.
Proof. intros H. destruct (value_eqb v w) eqn:E; [|done]. by apply value_eqb_type in E. Qed.

(** ** Well-formed scenes

    What the constructors establish and the runtime keeps: maps are keyed by
    the name or identifier of what they hold, and the current value of an
    attribute has the type of its default. *)
Definition attribute_wf (name : string) (a : SceneAttribute) : Prop :=
  a.(attr_name) = name ∧
  type_name a.(current_value) = type_name a.(default_value) ∧
  value_in_range a.(current_value) ∧ value_in_range a.(default_value).
Definition object_wf (id : ObjectId) (o : SceneObject) : Prop :=
  o.(obj_id) = id ∧ map_Forall attribute_wf o.(attributes).
Definition scene_wf (s : Scene) : Prop := map_Forall object_wf s.(objects).

Lemma SceneAttribute_new_wf name v :
  value_in_range v → attribute_wf name (SceneAttribute_new name v).
Proof. done. Qed.

Lemma with_attribute_wf id o a :
  object_wf id o → attribute_wf a.(attr_name) a → object_wf id (with_attribute a o).
Proof. intros [Hid Ho] Ha. split; [done|]. by apply map_Forall_insert_2. Qed.

Lemma with_object_wf s o :
  scene_wf s → object_wf o.(obj_id) o → scene_wf (with_object o s).
Proof. intros Hs Ho. by apply map_Forall_insert_2. Qed.

#[export] Hint Resolve SceneAttribute_new_wf with_attribute_wf with_object_wf : motion.
