(* ===== verification/Transform.v ===== *)
(** [crates/motionstage-core/src/runtime.rs], the free functions: component
    masks, mapping transforms, relative composition and the filter chain. *)

From S2P Require Import Prelude Float Protocol Model.

Local Open Scope Z_scope.

(** [CoreError]; the string payloads are the formatted messages. *)
Inductive CoreError :=
  | SceneNotFound (id : SceneId)
  | ObjectNotFound (id : ObjectId)
  | AttributeNotFound (name : string)
  | MappingDenied (msg : string)
  | MappingBlockedInRecording
  | InvalidModeTransition (from to : Mode)
  | TypeMismatch (expected got : string)
  | InvalidComponentMask (msg : string)
  | UnsupportedTransform (msg : string).

#[export] Instance CoreError_eq_dec : EqDecision CoreError.
Proof. solve_decision. Defined.

(** Array access [v.get(i)] and [*v.get_mut(i)? = x]. *)
Definition vget {A n} (v : vec A n) (i : nat) : option A := vec_to_list v !! i.
Fixpoint vset {A n} (v : vec A n) (i : nat) (x : A) : option (vec A n) :=
  match v with
  | [#] => None
  | y ::: v' => match i with
                | O => Some (x ::: v')
                | S i => (λ w, y ::: w) <$> vset v' i x
                end
  end.

Definition vector_len (value : AttributeValue) : option nat :=
  match value with
  | Vec2f _ => Some 2%nat
  | Vec3f _ => Some 3%nat
  | Vec4f _ | Quatf _ => Some 4%nat
  | _ => None
  end.

Definition scalar_as_f32 (value : AttributeValue) : option f32 :=
  match value with
  | Float32 v => Some v
  | Float64 v => Some (f64_as_f32 v)
  | Int32 v => Some (F32.of_Z v)
  | _ => None
  end.

Definition vector_component (value : AttributeValue) (index : nat) : option f32 :=
  match value with
  | Vec2f v => vget v index
  | Vec3f v => vget v index
  | Vec4f v => vget v index
  | Quatf v => vget v index
  | _ => None
  end.

Definition set_vector_component (target : AttributeValue) (index : nat) (value : f32) :
    res CoreError AttributeValue :=
  match target with
  | Vec2f v => Vec2f <$> ok_or (vset v index value)
      (InvalidComponentMask ("index " +:+ show_nat index +:+ " out of bounds for vec2f"))
  | Vec3f v => Vec3f <$> ok_or (vset v index value)
      (InvalidComponentMask ("index " +:+ show_nat index +:+ " out of bounds for vec3f"))
  | Vec4f v => Vec4f <$> ok_or (vset v index value)
      (InvalidComponentMask ("index " +:+ show_nat index +:+ " out of bounds for vec4f"))
  | Quatf v => Quatf <$> ok_or (vset v index value)
      (InvalidComponentMask ("index " +:+ show_nat index +:+ " out of bounds for quatf"))
  | _ => Err (UnsupportedTransform ("target '" +:+ type_name target +:+ "' is not vector typed"))
  end.

Definition set_scalar_value (target : AttributeValue) (source_component : f32) :
    res CoreError AttributeValue :=
  match target with
  | Float32 _ => Ok (Float32 source_component)
  | Float64 _ => Ok (Float64 (f32_as_f64 source_component))
  | Int32 _ => Ok (Int32 (round_as_i32 source_component))
  | _ => Err (UnsupportedTransform ("target '" +:+ type_name target +:+ "' is not scalar typed"))
  end.

(** The two loops over a mask that both transforms share. *)
Definition write_scalar (transformed : AttributeValue) (mask : list nat) (value : f32) :
    res CoreError AttributeValue :=
  res_foldl (λ t index, set_vector_component t index value) transformed mask.

Definition write_vector (transformed incoming_source : AttributeValue) (mask : list nat) :
    res CoreError AttributeValue :=
  res_foldl (λ t index,
    component ← ok_or (vector_component incoming_source index)
      (UnsupportedTransform ("source component " +:+ show_nat index +:+ " is unavailable on '"
        +:+ type_name incoming_source +:+ "'"));
    set_vector_component t index component) transformed mask.

Definition apply_mapping_transform (current_target incoming_source : AttributeValue)
    (component_mask : option (list nat)) : res CoreError AttributeValue :=
  match component_mask with
  | None =>
      if decide (type_name current_target ≠ type_name incoming_source)
      then Err (TypeMismatch (type_name current_target) (type_name incoming_source))
      else Ok incoming_source
  | Some [] => Err (InvalidComponentMask "component_mask cannot be empty")
  | Some ((component_index :: _) as mask) =>
      match vector_len current_target with
      | Some _ =>
          match scalar_as_f32 incoming_source with
          | Some value => write_scalar current_target mask value
          | None =>
              match vector_len incoming_source with
              | Some _ => write_vector current_target incoming_source mask
              | None => Err (UnsupportedTransform ("cannot apply source '"
                  +:+ type_name incoming_source +:+ "' to vector target '"
                  +:+ type_name current_target +:+ "'"))
              end
          end
      | None =>
          if decide (length mask ≠ 1%nat)
          then Err (InvalidComponentMask "scalar targets require exactly one component")
          else
            component ← ok_or (vector_component incoming_source component_index)
              (UnsupportedTransform ("source '" +:+ type_name incoming_source
                +:+ "' does not have component " +:+ show_nat component_index));
            set_scalar_value current_target component
      end
  end.

Definition default_delta_for_target (target : AttributeValue) : res CoreError AttributeValue :=
  match target with
  | Vec2f _ => Ok (Vec2f [# F32.zero; F32.zero])
  | Vec3f _ => Ok (Vec3f [# F32.zero; F32.zero; F32.zero])
  | Vec4f _ => Ok (Vec4f [# F32.zero; F32.zero; F32.zero; F32.zero])
  | Quatf _ => Ok (Quatf [# F32.zero; F32.zero; F32.zero; F32.one])
  | _ => Err (UnsupportedTransform ("cannot synthesize delta for target '"
      +:+ type_name target +:+ "'"))
  end.

Definition supports_relative_composition (target : AttributeValue) : bool :=
  match target with
  | Int32 _ | Float32 _ | Float64 _ | Vec2f _ | Vec3f _ | Vec4f _ | Quatf _ | Mat4f _ => true
  | _ => false
  end.

Definition is_scalar_target (target : AttributeValue) : bool :=
  match target with
  | Int32 _ | Float32 _ | Float64 _ => true
  | _ => false
  end.

Definition apply_mapping_delta_transform (baseline_target incoming_source : AttributeValue)
    (component_mask : option (list nat)) : res CoreError AttributeValue :=
  match component_mask with
  | None =>
      if decide (type_name baseline_target ≠ type_name incoming_source)
      then Err (TypeMismatch (type_name baseline_target) (type_name incoming_source))
      else Ok incoming_source
  | Some [] => Err (InvalidComponentMask "component_mask cannot be empty")
  | Some ((component_index :: _) as mask) =>
      match vector_len baseline_target with
      | Some _ =>
          transformed ← default_delta_for_target baseline_target;
          match scalar_as_f32 incoming_source with
          | Some value => write_scalar transformed mask value
          | None =>
              match vector_len incoming_source with
              | Some _ => write_vector transformed incoming_source mask
              | None => Err (UnsupportedTransform ("cannot apply source '"
                  +:+ type_name incoming_source +:+ "' to vector target '"
                  +:+ type_name baseline_target +:+ "'"))
              end
          end
      | None =>
          if is_scalar_target baseline_target then
            if decide (length mask ≠ 1%nat)
            then Err (InvalidComponentMask "scalar targets require exactly one component")
            else
              component ← ok_or (vector_component incoming_source component_index)
                (UnsupportedTransform ("source '" +:+ type_name incoming_source
                  +:+ "' does not have component " +:+ show_nat component_index));
              set_scalar_value baseline_target component
          else Err (UnsupportedTransform ("component_mask is unsupported for '"
            +:+ type_name baseline_target +:+ "' targets"))
      end
  end.

Definition quat_multiply_normalized (base delta : vec f32 4) : vec f32 4 :=
  let x1 := base !!! 0%fin in let y1 := base !!! 1%fin in
  let z1 := base !!! 2%fin in let w1 := base !!! 3%fin in
  let x2 := delta !!! 0%fin in let y2 := delta !!! 1%fin in
  let z2 := delta !!! 2%fin in let w2 := delta !!! 3%fin in
  let mul := F32.mul in let add := F32.add in let sub := F32.sub in
  let r0 := sub (add (add (mul w1 x2) (mul x1 w2)) (mul y1 z2)) (mul z1 y2) in
  let r1 := add (add (sub (mul w1 y2) (mul x1 z2)) (mul y1 w2)) (mul z1 x2) in
  let r2 := add (sub (add (mul w1 z2) (mul x1 y2)) (mul y1 x2)) (mul z1 w2) in
  let r3 := sub (sub (sub (mul w1 w2) (mul x1 x2)) (mul y1 y2)) (mul z1 z2) in
  let norm := F32.sqrt (sum32 [mul r0 r0; mul r1 r1; mul r2 r2; mul r3 r3]) in
  if fle norm F32.epsilon then base
  else [# F32.div r0 norm; F32.div r1 norm; F32.div r2 norm; F32.div r3 norm].

Definition mat4_multiply (base delta : vec (vec f32 4) 4) : vec (vec f32 4) 4 :=
  fun_to_vec (λ row, fun_to_vec (λ col,
    sum32 ((λ k, F32.mul ((base !!! row) !!! k) ((delta !!! k) !!! col)) <$> [0%fin; 1%fin; 2%fin; 3%fin]))).

Definition compose_relative_value (baseline delta : AttributeValue) : res CoreError AttributeValue :=
  match baseline, delta with
  | Int32 base, Int32 d => Ok (Int32 (i32_saturating_add base d))
  | Float32 base, Float32 d => Ok (Float32 (F32.add base d))
  | Float64 base, Float64 d => Ok (Float64 (F64.add base d))
  | Vec2f base, Vec2f d => Ok (Vec2f (vzip_with F32.add base d))
  | Vec3f base, Vec3f d => Ok (Vec3f (vzip_with F32.add base d))
  | Vec4f base, Vec4f d => Ok (Vec4f (vzip_with F32.add base d))
  | Quatf base, Quatf d => Ok (Quatf (quat_multiply_normalized base d))
  | Mat4f base, Mat4f d => Ok (Mat4f (mat4_multiply base d))
  | _, _ => Err (TypeMismatch (type_name baseline) (type_name delta))
  end.

(** [source_output_matches] (the same function in core and server). *)
Definition source_output_matches `{UuidFormat} (mapping_output : string) (device_id : Uuid)
    (update_output : string) : bool :=
  if decide (mapping_output = update_output) then true
  else
    let prefix := device_prefix device_id in
    bool_decide (strip_prefix prefix mapping_output = Some update_output)
    || bool_decide (strip_prefix prefix update_output = Some mapping_output).

Definition apply_ema (previous current : AttributeValue) (alpha : f32) : res CoreError AttributeValue :=
  alpha ← clamp alpha F32.zero F32.one;
  let mix c p := F32.add (F32.mul alpha c) (F32.mul (F32.sub F32.one alpha) p) in
  match previous, current with
  | Float32 prev, Float32 curr => Ok (Float32 (mix curr prev))
  | Float64 prev, Float64 curr =>
      let alpha64 := f32_as_f64 alpha in
      Ok (Float64 (F64.add (F64.mul alpha64 curr) (F64.mul (F64.sub F64.one alpha64) prev)))
  | Vec3f prev, Vec3f curr => Ok (Vec3f (vzip_with mix curr prev))
  | _, _ => Ok current
  end.

Definition apply_deadband (previous current : AttributeValue) (threshold : f32) : AttributeValue :=
  let threshold := fmax threshold F32.zero in
  match previous, current with
  | Float32 prev, Float32 curr =>
      if flt (fabs (F32.sub curr prev)) threshold then Float32 prev else current
  | Float64 prev, Float64 curr =>
      if flt (fabs (F64.sub curr prev)) (f32_as_f64 threshold) then Float64 prev else current
  | Vec3f prev, Vec3f curr =>
      let d i := fabs (F32.sub (curr !!! i) (prev !!! i)) in
      let diff := F32.div (F32.add (F32.add (d 0%fin) (d 1%fin)) (d 2%fin)) (F32.of_Z 3) in
      if flt diff threshold then Vec3f prev else current
  | _, _ => current
  end.

Definition apply_clamp (current : AttributeValue) (min max : f32) : res CoreError AttributeValue :=
  let '(lo, hi) := if fle min max then (min, max) else (max, min) in
  match current with
  | Float32 v => Float32 <$> clamp v lo hi
  | Float64 v => Float64 <$> clamp v (f32_as_f64 lo) (f32_as_f64 hi)
  | Vec3f v =>
      a ← clamp (v !!! 0%fin) lo hi;
      b ← clamp (v !!! 1%fin) lo hi;
      c ← clamp (v !!! 2%fin) lo hi;
      Ok (Vec3f [# a; b; c])
  | _ => Ok current
  end.

Definition apply_filter (previous current : AttributeValue) (filter : AttributeFilter) :
    res CoreError AttributeValue :=
  match filter with
  | Passthrough => Ok current
  | Ema alpha => apply_ema previous current alpha
  | Deadband threshold => Ok (apply_deadband previous current threshold)
  | Clamp min max => apply_clamp current min max
  end.

Definition apply_filters (previous incoming : AttributeValue) (filters : list AttributeFilter) :
    res CoreError AttributeValue :=
  res_foldl (λ value filter, apply_filter previous value filter) incoming filters.

(** ** Component views *)

(** The components of a vector value. *)
Definition components (v : AttributeValue) : option (list f32) :=
  match v with
  | Vec2f v => Some (vec_to_list v)
  | Vec3f v => Some (vec_to_list v)
  | Vec4f v | Quatf v => Some (vec_to_list v)
  | _ => None
  end.

(** What a masked mapping writes to component [i]: the scalar itself, or the
    component of the same index of a vector source. *)
Definition mask_source (src : AttributeValue) : option (nat → option f32) :=
  match scalar_as_f32 src with
  | Some x => Some (λ _, Some x)
  | None => (λ _, vector_component src) <$> vector_len src
  end.

Lemma vset_spec {A n} (v : vec A n) i x :
  match vset v i x with
  | Some w => (i < n)%nat ∧ vec_to_list w = <[i:=x]> (vec_to_list v)
  | None => (n ≤ i)%nat
  end.
Proof.
  revert i. induction v as [|y n v IH]; intros i; simpl; [lia|].
  destruct i as [|i]; simpl; [split; [lia|done]|].
  specialize (IH i). destruct (vset v i x) as [w|]; simpl; [|lia].
  destruct IH as [? IH]. split; [lia|]. by rewrite IH.
Qed.

Lemma components_vector_len v cs : components v = Some cs → vector_len v = Some (length cs).
Proof. destruct v; simpl; intros; simplify_eq; by rewrite length_vec_to_list. Qed.

Lemma vector_len_components v n : vector_len v = Some n → ∃ cs, components v = Some cs ∧ length cs = n.
Proof. destruct v; simpl; intros; simplify_eq; eexists; (split; [done|]); by rewrite length_vec_to_list. Qed.

Lemma vector_component_spec v i : vector_component v i = components v ≫= (λ cs, cs !! i).
Proof. by destruct v. Qed.

Lemma components_type v w : type_name v = type_name w → is_Some (components v) → is_Some (components w).
Proof. destruct v, w; simpl; intros; try discriminate; naive_solver. Qed.

Lemma components_length v w cs ds :
  type_name v = type_name w → components v = Some cs → components w = Some ds → length cs = length ds.
Proof. destruct v, w; simpl; intros; simplify_eq; by rewrite !length_vec_to_list. Qed.

Lemma scalar_not_vector v x : scalar_as_f32 v = Some x → vector_len v = None.
Proof. by destruct v. Qed.

(** [set_vector_component] is list update on the components; it fails exactly
    out of range. *)
Lemma set_vector_component_spec t cs i x :
  components t = Some cs →
  if decide (i < length cs)%nat
  then ∃ t', set_vector_component t i x = Ok t' ∧ type_name t' = type_name t ∧
             components t' = Some (<[i:=x]> cs)
  else ∃ msg, set_vector_component t i x = Err (InvalidComponentMask msg).
Proof.
  intros Ht. destruct t; simpl in *; simplify_eq;
    rewrite length_vec_to_list;
    pose proof (vset_spec v i x) as Hv; destruct (vset v i x) as [w|]; simpl in *;
    case_decide; try lia; first [destruct Hv as [_ <-]|idtac]; eauto.
Qed.

Lemma set_vector_component_type t i x :
  match set_vector_component t i x with
  | Ok t' => type_name t' = type_name t
  | Err _ => True
  | Panicked => False
  end.
Proof. destruct t; cbn [set_vector_component]; try done; by destruct (vset v i x). Qed.

Section masked_write.
Context (g : nat → option f32) (err : nat → CoreError).

Definition write_step (t : AttributeValue) (i : nat) : res CoreError AttributeValue :=
  x ← ok_or (g i) (err i); set_vector_component t i x.

Lemma write_masked_ok mask : ∀ t cs,
  components t = Some cs →
  (∀ i, i ∈ mask → (i < length cs)%nat ∧ is_Some (g i)) →
  ∃ t' cs', res_foldl write_step t mask = Ok t' ∧ type_name t' = type_name t ∧
    components t' = Some cs' ∧ length cs' = length cs ∧
    ∀ j, (j < length cs)%nat → cs' !! j = if decide (j ∈ mask) then g j else cs !! j.
Proof.
  induction mask as [|i mask IH]; intros t cs Ht Hmask.
  - exists t, cs. by split_and!.
  - destruct (Hmask i) as [Hi [x Hx]]; [set_solver|].
    pose proof (set_vector_component_spec t cs i x Ht) as Hset.
    rewrite decide_True in Hset by done. destruct Hset as (t1 & Hset & Hty & Hc1).
    destruct (IH t1 _ Hc1) as (t' & cs' & Hw & Hty' & Hc' & Hl & Hlk).
    { intros k Hk. rewrite length_insert. apply Hmask. set_solver. }
    rewrite length_insert in Hl, Hlk. exists t', cs'. split_and!; try done; try congruence.
    + simpl. apply res_bind_ok. exists t1. split; [|done]. unfold write_step. by rewrite Hx.
    + intros j Hj. rewrite (Hlk j Hj). destruct (decide (j ∈ mask)).
      * rewrite decide_True; [done|set_solver].
      * destruct (decide (i = j)) as [->|Hij].
        -- rewrite list_lookup_insert_eq, decide_True; [done|set_solver|done].
        -- rewrite list_lookup_insert_ne, decide_False; [done|set_solver|done].
Qed.

Lemma write_masked_inv mask : ∀ t cs t',
  components t = Some cs → res_foldl write_step t mask = Ok t' →
  ∀ i, i ∈ mask → (i < length cs)%nat ∧ is_Some (g i).
Proof.
  induction mask as [|i mask IH]; intros t cs t' Ht Hok k Hk; [set_solver|].
  apply res_bind_ok in Hok as (t1 & H1 & Hok).
  apply res_bind_ok in H1 as (x & Hx%ok_or_ok & H1).
  pose proof (set_vector_component_spec t cs i x Ht) as Hset.
  case_decide; [|destruct Hset; congruence]. destruct Hset as (t1' & Hset & _ & Hc1).
  rewrite H1 in Hset. injection Hset as <-.
  apply elem_of_cons in Hk as [->|Hk]; [eauto|].
  rewrite <-(length_insert cs i x). eapply IH; eauto.
Qed.

Lemma write_masked_type mask t t' :
  res_foldl write_step t mask = Ok t' → type_name t' = type_name t.
Proof.
  apply (res_foldl_inv (λ v, type_name v = type_name t)); [done|].
  intros b i b1 _ Hb H1. rewrite <-Hb. apply res_bind_ok in H1 as (x & _ & H1).
  pose proof (set_vector_component_type b i x) as Hty. by rewrite H1 in Hty.
Qed.
End masked_write.

Lemma write_scalar_step t mask x err :
  write_scalar t mask x = res_foldl (write_step (λ _, Some x) err) t mask.
Proof. reflexivity. Qed.

Lemma write_vector_step t src mask : ∃ err,
  write_vector t src mask = res_foldl (write_step (vector_component src) err) t mask.
Proof. eexists (λ index, _). reflexivity. Qed.

(** ** Types *)

Lemma set_scalar_value_type t x v : set_scalar_value t x = Ok v → type_name v = type_name t.
Proof. destruct t; simpl; intros; by simplify_eq. Qed.

Lemma write_scalar_type t mask x v : write_scalar t mask x = Ok v → type_name v = type_name t.
Proof. rewrite (write_scalar_step t mask x (λ _, MappingBlockedInRecording)). apply write_masked_type. Qed.

Lemma write_vector_type t src mask v : write_vector t src mask = Ok v → type_name v = type_name t.
Proof. destruct (write_vector_step t src mask) as [err ->]. apply write_masked_type. Qed.

Lemma default_delta_type t d : default_delta_for_target t = Ok d → type_name d = type_name t.
Proof. destruct t; simpl; intros; by simplify_eq. Qed.

#[export] Hint Resolve set_scalar_value_type write_scalar_type write_vector_type
  default_delta_type : motion.

Lemma default_delta_components t cs d :
  components t = Some cs → default_delta_for_target t = Ok d →
  ∃ ds, components d = Some ds ∧ length ds = length cs.
Proof.
  destruct t; simpl; intros Ht Hd; simplify_eq/=; eexists; (split; [done|]);
    by rewrite length_vec_to_list.
Qed.

Lemma apply_mapping_transform_type t src mask v :
  apply_mapping_transform t src mask = Ok v → type_name v = type_name t.
Proof.
  unfold apply_mapping_transform.
  repeat case_match; intros; inv_res; simplify_eq; eauto with motion.
  symmetry. by apply dec_stable.
Qed.

Lemma apply_mapping_delta_transform_type t src mask v :
  apply_mapping_delta_transform t src mask = Ok v → type_name v = type_name t.
Proof.
  unfold apply_mapping_delta_transform.
  repeat case_match; intros; inv_res; simplify_eq; eauto with motion.
  - transitivity (type_name x); eauto with motion.
  - transitivity (type_name x); eauto with motion.
  - symmetry. by apply dec_stable.
Qed.

(** Relative composition succeeds exactly on two values of the same
    composable type, and keeps that type. *)
Lemma compose_relative_value_type b d v :
  compose_relative_value b d = Ok v → type_name v = type_name b ∧ type_name d = type_name b.
Proof. destruct b, d; simpl; intros; by simplify_eq. Qed.

Lemma compose_relative_value_ok b d :
  supports_relative_composition b = true → type_name d = type_name b →
  ∃ v, compose_relative_value b d = Ok v.
Proof. destruct b, d; simpl; intros; try discriminate; eauto. Qed.

Lemma apply_deadband_type prev cur th : type_name (apply_deadband prev cur th) = type_name cur.
Proof.
  unfold apply_deadband. destruct prev, cur; try done.
  all: match goal with |- context [if ?b then _ else _] => by destruct b end.
Qed.

Lemma apply_filter_type prev cur f v : apply_filter prev cur f = Ok v → type_name v = type_name cur.
Proof.
  destruct f as [|alpha|th|lo hi]; simpl; intros H; [by simplify_eq|..].
  - apply res_bind_ok in H as (a & _ & H).
    by destruct prev, cur; injection H as <-.
  - injection H as <-. by apply apply_deadband_type.
  - unfold apply_clamp in H. destruct (fle lo hi); destruct cur; inv_res; by subst.
Qed.

Lemma apply_filters_type prev cur fs v : apply_filters prev cur fs = Ok v → type_name v = type_name cur.
Proof.
  apply (res_foldl_inv (λ w, type_name w = type_name cur)); [done|].
  intros b f b1 _ Hb H1. by rewrite <-Hb, (apply_filter_type _ _ _ _ H1).
Qed.

(** ** Ranges of [i32] *)

Lemma round_as_i32_range x : in_i32 (round_as_i32 x).
Proof.
  unfold round_as_i32. destruct x as [s|[]| |s m e]; try apply i32_saturate_range;
    unfold in_i32, i32_min, i32_max; lia.
Qed.

Lemma compose_relative_value_range b d v :
  compose_relative_value b d = Ok v → value_in_range v.
Proof. destruct b, d; simpl; intros; simplify_eq; try done. apply i32_saturate_range. Qed.

Lemma apply_mapping_transform_range t src mask v :
  value_in_range src → apply_mapping_transform t src mask = Ok v → value_in_range v.
Proof.
  intros Hs Hv. pose proof (apply_mapping_transform_type _ _ _ _ Hv) as Hty.
  unfold apply_mapping_transform in Hv.
  repeat case_match; inv_res; simplify_eq; try done;
    try (by destruct t, v; simpl in *; simplify_eq).
  destruct t; simpl in *; simplify_eq; try done. apply round_as_i32_range.
Qed.

Lemma apply_filters_range prev cur fs v :
  value_in_range prev → value_in_range cur → apply_filters prev cur fs = Ok v → value_in_range v.
Proof.
  intros Hp Hc. apply (res_foldl_inv value_in_range); [done|].
  intros b f b1 _ Hb H1. destruct f as [|alpha|th|lo hi]; simpl in H1.
  - by simplify_eq.
  - apply res_bind_ok in H1 as (a & _ & H1). by destruct prev, b; injection H1 as <-.
  - injection H1 as <-. unfold apply_deadband. destruct prev, b; try done.
    all: match goal with |- context [if ?b then _ else _] => by destruct b end.
  - pose proof (apply_filter_type prev b (Clamp lo hi) b1 H1) as Hty.
    unfold apply_clamp in H1. destruct (fle lo hi); destruct b; inv_res; by subst.
Qed.

(** ** Masked mappings, component by component *)

(** On a vector target, both transforms are the masked write. *)
Lemma masked_vector_transform t cs src g mask :
  components t = Some cs → mask_source src = Some g → mask ≠ [] →
  ∃ err, apply_mapping_transform t src (Some mask) = res_foldl (write_step g err) t mask.
Proof.
  intros Ht Hg Hne. unfold apply_mapping_transform, mask_source in *.
  destruct mask as [|i mask]; [done|]. rewrite (components_vector_len _ _ Ht).
  destruct (scalar_as_f32 src) as [x|] eqn:Hs; simplify_eq.
  - exists (λ _, MappingBlockedInRecording). apply write_scalar_step.
  - destruct (vector_len src) eqn:Hv; simplify_eq/=. apply write_vector_step.
Qed.

Lemma masked_vector_delta t cs src g mask :
  components t = Some cs → mask_source src = Some g → mask ≠ [] →
  ∃ d err, default_delta_for_target t = Ok d ∧
    apply_mapping_delta_transform t src (Some mask) = res_foldl (write_step g err) d mask.
Proof.
  intros Ht Hg Hne.
  destruct (default_delta_for_target t) as [d|?|] eqn:Hd; [|by destruct t..].
  exists d. unfold apply_mapping_delta_transform, mask_source in *.
  destruct mask as [|i mask]; [done|]. rewrite (components_vector_len _ _ Ht), Hd.
  destruct (scalar_as_f32 src) as [x|] eqn:Hs; simplify_eq.
  - exists (λ _, MappingBlockedInRecording). split; [done|]. by rewrite <-write_scalar_step.
  - destruct (vector_len src) eqn:Hv; simplify_eq/=.
    destruct (write_vector_step d src (i :: mask)) as [err H]. by exists err.
Qed.

(** The vector types whose relative composition is component-wise addition. *)
Definition is_additive_vector (v : AttributeValue) : bool :=
  match v with Vec2f _ | Vec3f _ | Vec4f _ => true | _ => false end.

Lemma additive_delta t bs :
  is_additive_vector t = true → components t = Some bs →
  ∃ d ds, default_delta_for_target t = Ok d ∧ type_name d = type_name t ∧ components d = Some ds ∧
    length ds = length bs ∧ ∀ j, (j < length bs)%nat → ds !! j = Some F32.zero.
Proof.
  destruct t; intros Ha Hb; try discriminate Ha; simpl in *; injection Hb as <-;
    rewrite length_vec_to_list; do 2 eexists; (split_and!; [done..|]);
    intros j Hj; by do 4 (destruct j as [|j]; [done|try lia]).
Qed.

Lemma additive_compose b bs d ds :
  is_additive_vector b = true → components b = Some bs → components d = Some ds →
  type_name d = type_name b →
  ∃ v, compose_relative_value b d = Ok v ∧ components v = Some (zip_with F32.add bs ds).
Proof.
  destruct b, d; intros Ha Hb Hd Hty; try discriminate; simpl in *; simplify_eq;
    eexists; (split; [done|]); simpl; by rewrite vec_to_list_zip_with.
Qed.

(** Relative composition through a mask, on [vec2f]/[vec3f]/[vec4f]: the
    masked components become baseline + source, every unmasked component
    still equals its baseline. *)
Theorem relative_mask_composition b bs src g mask :
  is_additive_vector b = true → components b = Some bs → mask_source src = Some g → mask ≠ [] →
  (∀ i, i ∈ mask → (i < length bs)%nat ∧ is_Some (g i)) →
  ∃ d v vs,
    apply_mapping_delta_transform b src (Some mask) = Ok d ∧
    compose_relative_value b d = Ok v ∧ components v = Some vs ∧ length vs = length bs ∧
    ∀ j x, bs !! j = Some x →
      ∃ y, vs !! j = Some y ∧
        if decide (j ∈ mask) then ∃ z, g j = Some z ∧ y = F32.add x z
        else is_nan x = false → feq y x = true.
Proof.
  intros Ha Hb Hg Hne Hm.
  destruct (masked_vector_delta _ _ _ _ _ Hb Hg Hne) as (d0 & err & Hd0 & ->).
  destruct (additive_delta b bs Ha Hb) as (d0' & ds0 & Hd0' & Hty0 & Hc0 & Hl0 & Hz).
  rewrite Hd0 in Hd0'. injection Hd0' as <-.
  destruct (write_masked_ok g err mask d0 ds0 Hc0) as (d & ds & Hd & Hty & Hc & Hl & Hlk).
  { by rewrite Hl0. }
  destruct (additive_compose b bs d ds Ha Hb Hc) as (v & Hv & Hcv); [congruence|].
  exists d, v, (zip_with F32.add bs ds). split_and!; [done..| |].
  { rewrite length_zip_with. lia. }
  intros j x Hj. pose proof (lookup_lt_Some _ _ _ Hj) as Hlt.
  rewrite lookup_zip_with, Hj, Hlk, Hz by lia. simpl. case_decide as Hjm.
  - destruct (Hm j Hjm) as [_ [z Hgz]]. rewrite Hgz. simpl. eauto.
  - simpl. eexists. split; [done|]. apply add_zero_r.
Qed.

Lemma relative_mask_composition_witness : ∃ d v,
  apply_mapping_delta_transform (Vec2f [# F32.of_Z 10; F32.of_Z 20]) (Int32 5) (Some [1%nat]) = Ok d ∧
  compose_relative_value (Vec2f [# F32.of_Z 10; F32.of_Z 20]) d = Ok v.
Proof.
  assert (([1%nat] : list nat) ≠ []) as Hne by done.
  destruct (relative_mask_composition (Vec2f [# F32.of_Z 10; F32.of_Z 20]) _ (Int32 5) _ [1%nat]
    eq_refl eq_refl eq_refl Hne) as (d & v & _ & Hd & Hv & _).
  - intros i Hi. apply list_elem_of_singleton in Hi as ->. split; [vm_compute; lia|by eexists].
  - by exists d, v.
Defined.

(** A quaternion target does not have that property: with the neutral
    quaternion as the delta's default, a mapping masked to component 0 leaves
    component 0 alone and moves the unmasked component 1. *)
Theorem quat_mask_moves_unmasked :
  let base := Quatf [# F32.zero; F32.zero; F32.one; F32.zero] in
  ∃ d v vs y, apply_mapping_delta_transform base (Int32 1) (Some [0%nat]) = Ok d ∧
    compose_relative_value base d = Ok v ∧ components v = Some vs ∧
    vs !! 0%nat = Some F32.zero ∧ vs !! 1%nat = Some y ∧ feq y F32.zero = false.
Proof.
  intros base.
  set (d := [# F32.one; F32.zero; F32.zero; F32.one] : vec f32 4).
  set (v := quat_multiply_normalized [# F32.zero; F32.zero; F32.one; F32.zero] d).
  exists (Quatf d), (Quatf v), (vec_to_list v), (v !!! 1%fin).
  split_and!; vm_compute; reflexivity.
Qed.

(** ** The filter chain *)

Definition within (lo hi x : spec_float) : Prop :=
  is_nan x = true ∨ fle lo x = true ∧ fle x hi = true.

(** Every float of a filterable value lies between the bounds (or is NaN). *)
Definition clamped (lo hi : f32) (v : AttributeValue) : Prop :=
  match v with
  | Float32 x => within lo hi x
  | Float64 x => within (f32_as_f64 lo) (f32_as_f64 hi) x
  | Vec3f v => Forall (within lo hi) (vec_to_list v)
  | _ => True
  end.

(** The values the clamp filter acts on. *)
Definition clampable (v : AttributeValue) : bool :=
  match v with Float32 _ | Float64 _ | Vec3f _ => true | _ => false end.

Lemma clamp_within {E} x lo hi y : @clamp E x lo hi = Ok y → within lo hi y.
Proof.
  intros H. pose proof (clamp_spec (E:=E) x lo hi) as Hc. rewrite H in Hc.
  destruct Hc as [_ [[Hn ->]|?]]; [by left|by right].
Qed.

Lemma apply_clamp_bounds cur a b v :
  apply_clamp cur a b = Ok v →
  clamped (if fle a b then a else b) (if fle a b then b else a) v.
Proof.
  unfold apply_clamp. destruct (fle a b); destruct cur; intros; inv_res; subst; try done;
    try (by eapply (clamp_within (E:=CoreError)));
    cbn; repeat apply Forall_cons_2; try apply Forall_nil_2; by eapply (clamp_within (E:=CoreError)).
Qed.

(** A clamp at the end of a filter chain bounds the result: every float of
    a scalar or [vec3f] attribute is between the two bounds, whichever order
    they were given in, unless it is NaN. *)
Theorem clamp_last_bounds prev incoming fs a b v :
  apply_filters prev incoming (fs ++ [Clamp a b]) = Ok v →
  clamped (if fle a b then a else b) (if fle a b then b else a) v.
Proof.
  unfold apply_filters. rewrite res_foldl_app. intros (w & _ & H)%res_bind_ok.
  apply res_bind_ok in H as (w' & H & Hv). injection Hv as ->. by eapply apply_clamp_bounds.
Qed.

Lemma clamp_last_bounds_witness :
  clamped (F32.of_Z (-1)) (F32.of_Z 1) (Vec3f [# F32.of_Z 1; F32.of_Z (-1); F32.of_Z 0]).
Proof.
  apply (clamp_last_bounds (Vec3f [# F32.zero; F32.zero; F32.zero])
    (Vec3f [# F32.of_Z 9; F32.of_Z (-7); F32.of_Z 0]) [Passthrough] (F32.of_Z 1) (F32.of_Z (-1))).
  vm_compute. reflexivity.
Defined.

Lemma clamp_ok {E} x lo hi : fle lo hi = true → ∃ y, @clamp E x lo hi = Ok y.
Proof. unfold clamp. intros ->. eauto. Qed.

Lemma clamp_panics {E} x lo hi : fle lo hi = false → @clamp E x lo hi = Panicked.
Proof. unfold clamp. by intros ->. Qed.

Lemma fle_nan_l y : fle S754_nan y = false.
Proof. done. Qed.
Lemma fle_nan_r x : fle x S754_nan = false.
Proof. by destruct x. Qed.

Lemma ordered_bounds a b :
  is_nan a = false → is_nan b = false →
  fle (if fle a b then a else b) (if fle a b then b else a) = true.
Proof.
  intros Ha Hb. destruct (fle a b) eqn:E; [done|].
  rewrite fle_flt in E by done. apply flt_fle. by destruct (flt b a).
Qed.

Lemma unordered_bounds a b :
  is_nan a = true ∨ is_nan b = true →
  fle (if fle a b then a else b) (if fle a b then b else a) = false ∧
  fle (f32_as_f64 (if fle a b then a else b)) (f32_as_f64 (if fle a b then b else a)) = false.
Proof.
  intros [Hn|Hn].
  - destruct a; try discriminate Hn. rewrite fle_nan_l. split; apply fle_nan_r.
  - destruct b; try discriminate Hn. rewrite fle_nan_r. split; apply fle_nan_l.
Qed.

(** The filter stage unwinds through a clamp with a NaN bound, on every
    value a clamp acts on; a clamp between two numbers, and every other filter,
    returns a value. *)
Theorem filter_panic_spec prev cur :
  (∀ a b, is_nan a = true ∨ is_nan b = true → clampable cur = true →
     apply_filter prev cur (Clamp a b) = Panicked) ∧
  (∀ f, (∀ a b, f = Clamp a b → is_nan a = false ∧ is_nan b = false ∧ ∀ x, cur ≠ Float64 x) →
     ∃ v, apply_filter prev cur f = Ok v).
Proof.
  split.
  - intros a b Hn Hc. cbn [apply_filter]. unfold apply_clamp.
    destruct (unordered_bounds a b Hn) as [H32 H64].
    destruct (fle a b); destruct cur; try discriminate Hc; cbn; by rewrite !clamp_panics by done.
  - intros f Hf. destruct f as [|alpha|th|a b]; cbn [apply_filter]; [by eauto| |by eauto|].
    + unfold apply_ema. destruct (clamp_ok (E:=CoreError) alpha F32.zero F32.one) as [y ->]; [reflexivity|].
      destruct prev, cur; by eexists.
    + destruct (Hf a b eq_refl) as (Ha & Hb & Hx). pose proof (ordered_bounds a b Ha Hb) as Ho.
      unfold apply_clamp. destruct (fle a b); destruct cur as [| | |x| |v| | | |];
        try (by destruct (Hx x)); try (by eexists); cbn;
        repeat (match goal with |- context [@clamp ?E ?x ?lo ?hi] =>
          destruct (@clamp_ok E x lo hi Ho) as [? ->] end; cbn); by eexists.
Qed.

(** ** Output names *)

(** Two output names match when they are equal up to the qualifying device
    prefix on one side; matching is symmetric in the two names. *)
Theorem source_output_matches_spec `{UuidFormat} mapping_output device_id update_output :
  (source_output_matches mapping_output device_id update_output = true ↔
     mapping_output = update_output ∨
     mapping_output = device_prefix device_id +:+ update_output ∨
     update_output = device_prefix device_id +:+ mapping_output) ∧
  source_output_matches mapping_output device_id update_output =
    source_output_matches update_output device_id mapping_output.
Proof.
  assert (∀ a b, source_output_matches a device_id b = true ↔
     a = b ∨ a = device_prefix device_id +:+ b ∨ b = device_prefix device_id +:+ a) as Hspec.
  { intros a b. unfold source_output_matches. case_decide as Hab; [naive_solver|].
    rewrite orb_true_iff, !bool_decide_eq_true, !strip_prefix_some. naive_solver. }
  split; [apply Hspec|].
  apply eq_true_iff_eq. rewrite !Hspec. naive_solver.
Qed.
