(* ===== verification/Runtime.v ===== *)
(** [crates/motionstage-core/src/runtime.rs]: the [RuntimeCore] and its
    methods, in the order of the file. *)

From S2P Require Import Prelude Float IndexMap Protocol Model Transform.

Local Open Scope Z_scope.

(** The only resource the runtime keeps in its [bevy_ecs] world. *)
Record RuntimeStats := mkStats { tick_count : Z }.

Record RuntimeCore (M : Type → Type) := mkCore {
  world : RuntimeStats;
  scenes : M Scene;
  active_scene : option SceneId;
  mode : Mode;
  mappings : M Mapping;
  lease : LeaseConfig;
  connected_devices : gset Uuid;
}.
Arguments mkCore {M} _ _ _ _ _ _ _.
Arguments world {M} _.
Arguments scenes {M} _.
Arguments active_scene {M} _.
Arguments mode {M} _.
Arguments mappings {M} _.
Arguments lease {M} _.
Arguments connected_devices {M} _.

Record RuntimeSnapshot (M : Type → Type) := mkSnapshot {
  snap_scenes : M Scene;
  snap_active_scene : option SceneId;
  snap_mode : option Mode;
  snap_mappings : M Mapping;
}.
Arguments mkSnapshot {M} _ _ _ _.
Arguments snap_scenes {M} _.
Arguments snap_active_scene {M} _.
Arguments snap_mode {M} _.
Arguments snap_mappings {M} _.

Section setters.
Context {M : Type → Type}.
Implicit Types c : RuntimeCore M.

Definition set_world w c : RuntimeCore M :=
  mkCore w c.(scenes) c.(active_scene) c.(mode) c.(mappings) c.(lease) c.(connected_devices).
Definition set_scenes s c : RuntimeCore M :=
  mkCore c.(world) s c.(active_scene) c.(mode) c.(mappings) c.(lease) c.(connected_devices).
Definition set_active a c : RuntimeCore M :=
  mkCore c.(world) c.(scenes) a c.(mode) c.(mappings) c.(lease) c.(connected_devices).
Definition set_mode_field m c : RuntimeCore M :=
  mkCore c.(world) c.(scenes) c.(active_scene) m c.(mappings) c.(lease) c.(connected_devices).
Definition set_mappings ms c : RuntimeCore M :=
  mkCore c.(world) c.(scenes) c.(active_scene) c.(mode) ms c.(lease) c.(connected_devices).
Definition set_devices d c : RuntimeCore M :=
  mkCore c.(world) c.(scenes) c.(active_scene) c.(mode) c.(mappings) c.(lease) d.
End setters.

(** [matches!] of [RuntimeCore::set_mode]. *)
Definition mode_transition_valid (from to : Mode) : bool :=
  match from, to with
  | Idle, Live
  | Live, Idle
  | Live, Recording
  | Recording, Live
  | Recording, Idle
  | Idle, Idle
  | Live, Live
  | Recording, Recording => true
  | _, _ => false
  end.

Section runtime.
Context {M : Type → Type} `{!IndexMap Uuid M} `{!UuidFormat}.
Abbreviation Core := (RuntimeCore M).
Abbreviation method := (prog Core CoreError).
Implicit Types self : Core.

(** [RuntimeCore::new]. *)
Definition RuntimeCore_new (lease : LeaseConfig) : Core :=
  mkCore (mkStats 0) im_new None Idle im_new lease ∅.

Definition snapshot self : RuntimeSnapshot M :=
  mkSnapshot self.(scenes) self.(active_scene) (Some self.(mode)) self.(mappings).

Definition load_scene (scene : Scene) : method SceneId :=
  let id := scene.(sc_id) in
  modify (λ self, set_scenes (im_insert id scene self.(scenes)) self);;
  self ← get;
  (if decide (self.(active_scene) = None) then put (set_active (Some id) self) else mret ());;
  mret id.

Definition set_active_scene (scene_id : SceneId) : method () :=
  self ← get;
  match im_get scene_id self.(scenes) with
  | None => throw (SceneNotFound scene_id)
  | Some _ => put (set_active (Some scene_id) self)
  end.

Definition set_mode (m : Mode) : method () :=
  self ← get;
  fail_if (negb (mode_transition_valid self.(mode) m)) (InvalidModeTransition self.(mode) m);;
  put (set_mode_field m self).

Definition register_device_connected (device_id : Uuid) : method () :=
  modify (λ self, set_devices ({[device_id]} ∪ self.(connected_devices)) self).

(** [mapping.source_device == device_id && mapping.state == Active]. *)
Definition fed_by (device_id : Uuid) (mapping : Mapping) : bool :=
  bool_decide (mapping.(source_device) = device_id) && bool_decide (mapping.(state) = MActive).

Definition register_device_disconnected (device_id : Uuid) (now_ns : Z) : method () :=
  modify (λ self, set_devices (self.(connected_devices) ∖ {[device_id]}) self);;
  modify (λ self, set_mappings (im_values_mut (λ mapping,
    if fed_by device_id mapping then set_disconnected (Some now_ns) mapping else mapping)
    self.(mappings)) self).

Definition heartbeat (device_id : Uuid) (now_ns : Z) : method () :=
  modify (λ self, set_mappings (im_values_mut (λ mapping,
    if fed_by device_id mapping then set_disconnected None (set_heartbeat now_ns mapping)
    else mapping) self.(mappings)) self).

Definition ensure_target_exists self (scene_id : SceneId) (object_id : ObjectId)
    (attribute_name : string) : res CoreError () :=
  scene ← ok_or (im_get scene_id self.(scenes)) (SceneNotFound scene_id);
  object ← ok_or (scene.(objects) !! object_id) (ObjectNotFound object_id);
  match object.(attributes) !! attribute_name with
  | None => Err (AttributeNotFound attribute_name)
  | Some _ => Ok ()
  end.

Definition target_attribute_value self (scene_id : SceneId) (object_id : ObjectId)
    (attribute_name : string) : res CoreError AttributeValue :=
  scene ← ok_or (im_get scene_id self.(scenes)) (SceneNotFound scene_id);
  object ← ok_or (scene.(objects) !! object_id) (ObjectNotFound object_id);
  attribute ← ok_or (object.(attributes) !! attribute_name) (AttributeNotFound attribute_name);
  Ok attribute.(current_value).

(** The loop of [validate_component_mask] over a vector target. *)
Definition check_mask (target_len : nat) (mask : list nat) : res CoreError (gset nat) :=
  res_foldl (λ (seen : gset nat) index,
    if decide (target_len ≤ index)%nat then
      Err (InvalidComponentMask ("index " +:+ show_nat index
        +:+ " is out of bounds for target length " +:+ show_nat target_len))
    else if decide (index ∈ seen) then
      Err (InvalidComponentMask ("index " +:+ show_nat index +:+ " appears multiple times"))
    else Ok ({[index]} ∪ seen)) ∅ mask.

Definition validate_component_mask self (scene_id : SceneId) (object_id : ObjectId)
    (attribute_name : string) (mask : option (list nat)) : res CoreError () :=
  match mask with
  | None => Ok ()
  | Some [] => Err (InvalidComponentMask "component_mask cannot be empty")
  | Some mask =>
      target ← target_attribute_value self scene_id object_id attribute_name;
      match target with
      | Mat4f _ =>
          Err (InvalidComponentMask "component_mask is unsupported for mat4f targets")
      | _ =>
          match vector_len target with
          | Some target_len => check_mask target_len mask ≫= λ _, Ok ()
          | None =>
              if decide (length mask ≠ 1%nat)
              then Err (InvalidComponentMask "scalar targets require exactly one source component")
              else Ok ()
          end
      end
  end.

(** [m.state == Active] and the target is the given attribute. *)
Definition owns_target (scene_id : SceneId) (object_id : ObjectId) (attribute_name : string)
    (m : Mapping) : bool :=
  bool_decide (m.(state) = MActive) && bool_decide (m.(target_scene) = scene_id)
  && bool_decide (m.(target_object) = object_id)
  && bool_decide (m.(target_attribute) = attribute_name).

Definition find_mapping_for_target self (scene_id : SceneId) (object_id : ObjectId)
    (attribute_name : string) : option MappingId :=
  m_id <$> find (owns_target scene_id object_id attribute_name) (im_values self.(mappings)).

Definition can_reclaim self (mapping : Mapping) (now_ns : Z) : bool :=
  let by_lease :=
    bool_decide (self.(lease).(timeout_ns) ≤ u64_saturating_sub now_ns mapping.(last_heartbeat_ns)) in
  if decide (mapping.(source_device) ∉ self.(connected_devices)) then
    match mapping.(disconnected_at_ns) with
    | Some disconnected_at =>
        bool_decide (self.(lease).(reclaim_grace_ns) ≤ u64_saturating_sub now_ns disconnected_at)
    | None => by_lease
    end
  else by_lease.

(** The record [create_mapping] inserts. *)
Definition new_mapping (id : MappingId) (req : MappingRequest) (now_ns : Z) : Mapping :=
  mkMapping id req.(rq_source_device) req.(rq_source_output) req.(rq_target_scene)
    req.(rq_target_object) req.(rq_target_attribute) req.(rq_component_mask)
    false MActive now_ns None.

(** [id] is the identifier [Uuid::now_v7()] draws. *)
Definition create_mapping (id : MappingId) (req : MappingRequest) (now_ns : Z) : method MappingId :=
  self ← get;
  fail_if (bool_decide (self.(mode) = Recording)) MappingBlockedInRecording;;
  lift (ensure_target_exists self req.(rq_target_scene) req.(rq_target_object)
    req.(rq_target_attribute));;
  lift (validate_component_mask self req.(rq_target_scene) req.(rq_target_object)
    req.(rq_target_attribute) req.(rq_component_mask));;
  match find_mapping_for_target self req.(rq_target_scene) req.(rq_target_object)
          req.(rq_target_attribute) with
  | Some existing_id =>
      match im_get existing_id self.(mappings) with
      | Some existing =>
          fail_if existing.(lock) (MappingDenied "mapping is locked");;
          fail_if (negb (can_reclaim self existing now_ns))
            (MappingDenied "target attribute already owned by active mapping");;
          modify (λ self, set_mappings (im_shift_remove existing_id self.(mappings)) self)
      | None => lift Panicked
      end
  | None => mret ()
  end;;
  modify (λ self, set_mappings (im_insert id (new_mapping id req now_ns) self.(mappings)) self);;
  mret id.

Definition set_mapping_lock (mapping_id : MappingId) (lock : bool) : method () :=
  self ← get;
  fail_if (bool_decide (self.(mode) = Recording)) MappingBlockedInRecording;;
  match im_get mapping_id self.(mappings) with
  | None => throw (MappingDenied "mapping not found")
  | Some _ => put (set_mappings (im_get_mut (set_lock lock) mapping_id self.(mappings)) self)
  end.

Definition remove_mapping (mapping_id : MappingId) : method () :=
  self ← get;
  fail_if (bool_decide (self.(mode) = Recording)) MappingBlockedInRecording;;
  match im_get mapping_id self.(mappings) with
  | None => throw (MappingDenied "mapping not found")
  | Some _ => put (set_mappings (im_shift_remove mapping_id self.(mappings)) self)
  end.

(** The assignments of [update_mapping]. *)
Definition retarget (req : MappingRequest) (now_ns : Z) (m : Mapping) : Mapping :=
  mkMapping m.(m_id) req.(rq_source_device) req.(rq_source_output) req.(rq_target_scene)
    req.(rq_target_object) req.(rq_target_attribute) req.(rq_component_mask)
    m.(lock) m.(state) now_ns None.

Definition update_mapping (mapping_id : MappingId) (req : MappingRequest) (now_ns : Z) : method () :=
  self ← get;
  fail_if (bool_decide (self.(mode) = Recording)) MappingBlockedInRecording;;
  lift (ensure_target_exists self req.(rq_target_scene) req.(rq_target_object)
    req.(rq_target_attribute));;
  lift (validate_component_mask self req.(rq_target_scene) req.(rq_target_object)
    req.(rq_target_attribute) req.(rq_component_mask));;
  match im_get mapping_id self.(mappings) with
  | None => throw (MappingDenied "mapping not found")
  | Some mapping =>
      fail_if mapping.(lock) (MappingDenied "mapping is locked");;
      put (set_mappings (im_get_mut (retarget req now_ns) mapping_id self.(mappings)) self)
  end.

(** The body of the loop of [scheduler_tick]. *)
Definition tick_mapping self (now_ns : Z) (mapping : Mapping) : Mapping :=
  if decide (mapping.(state) ≠ MActive) then mapping
  else
    let source_connected := bool_decide (mapping.(source_device) ∈ self.(connected_devices)) in
    let expired :=
      bool_decide (self.(lease).(timeout_ns) ≤ u64_saturating_sub now_ns mapping.(last_heartbeat_ns)) in
    if negb source_connected && expired then set_state MReleased mapping else mapping.

Definition scheduler_tick (now_ns : Z) : method () :=
  modify (λ self, set_mappings (im_values_mut (tick_mapping self now_ns) self.(mappings)) self).

(** The search predicate of [apply_updates]. *)
Definition feeds (device_id : Uuid) (active : SceneId) (output : string) (m : Mapping) : bool :=
  bool_decide (m.(state) = MActive) && bool_decide (m.(source_device) = device_id)
  && source_output_matches m.(source_output) device_id output
  && bool_decide (m.(target_scene) = active).

(** Transform of one update against its target attribute. *)
Definition transform_update (attr : SceneAttribute) (v : AttributeValue)
    (mask : option (list nat)) : res CoreError AttributeValue :=
  if supports_relative_composition attr.(default_value) then
    delta ← apply_mapping_delta_transform attr.(default_value) v mask;
    compose_relative_value attr.(default_value) delta
  else apply_mapping_transform attr.(current_value) v mask.

(** [scenes[scene].objects[object].attributes[name] := f(..)], in place. *)
Definition update_attribute (f : SceneAttribute → SceneAttribute) (scene_id : SceneId)
    (object_id : ObjectId) (name : string) self : Core :=
  set_scenes (im_get_mut (λ scene, set_objects (alter (λ object,
    set_attributes (alter f name object.(attributes)) object) object_id scene.(objects)) scene)
    scene_id self.(scenes)) self.

(** One iteration of the loop of [apply_updates]. *)
Definition apply_update (device_id : Uuid) (active : SceneId)
    (applied : gmap string AttributeValue) (update : AttributeUpdate) :
    method (gmap string AttributeValue) :=
  self ← get;
  mapping ← lift (ok_or
    (find (feeds device_id active update.(output_attribute)) (im_values self.(mappings)))
    (MappingDenied ("no active mapping for output '" +:+ update.(output_attribute) +:+ "'")));
  scene ← lift (ok_or (im_get mapping.(target_scene) self.(scenes))
    (SceneNotFound mapping.(target_scene)));
  object ← lift (ok_or (scene.(objects) !! mapping.(target_object))
    (ObjectNotFound mapping.(target_object)));
  attr ← lift (ok_or (object.(attributes) !! mapping.(target_attribute))
    (AttributeNotFound mapping.(target_attribute)));
  if negb attr.(live_enabled) then mret applied
  else
    transformed ← lift (transform_update attr update.(value) mapping.(component_mask));
    filtered ← lift (apply_filters attr.(current_value) transformed attr.(filter_chain));
    put (update_attribute (set_current_value filtered) mapping.(target_scene)
           mapping.(target_object) mapping.(target_attribute) self);;
    mret (<[object.(obj_name) +:+ "." +:+ attr.(attr_name) := filtered]> applied).

Definition apply_updates (device_id : Uuid) (updates : list AttributeUpdate) (now_ns : Z) :
    method (gmap string AttributeValue) :=
  heartbeat device_id now_ns;;
  self ← get;
  if decide (self.(mode) = Idle) then mret ∅
  else
    active ← lift (ok_or self.(active_scene) (MappingDenied "no active scene"));
    applied ← prog_foldl (apply_update device_id active) ∅ updates;
    modify (λ self, set_world (mkStats (wrap64 (self.(world).(tick_count) + 1))) self);;
    mret applied.

(** The bodies of the baseline loops, with whether the counter advances. *)
Definition differs (attribute : SceneAttribute) : bool :=
  negb (value_eqb attribute.(current_value) attribute.(default_value)).
Definition reset_attribute (attribute : SceneAttribute) : SceneAttribute :=
  if differs attribute then set_current_value attribute.(default_value) attribute else attribute.
Definition baseline_differs (attribute : SceneAttribute) : bool :=
  negb (value_eqb attribute.(default_value) attribute.(current_value)).
Definition commit_attribute (attribute : SceneAttribute) : SceneAttribute :=
  if baseline_differs attribute then set_default_value attribute.(current_value) attribute
  else attribute.

Definition count_attributes (p : SceneAttribute → bool) (object : SceneObject) : nat :=
  size (filter (λ na : string * SceneAttribute, p na.2 = true) object.(attributes)).
Definition count_scene (p : SceneAttribute → bool) (scene : Scene) : nat :=
  map_fold (λ _ object n, (count_attributes p object + n)%nat) 0%nat scene.(objects).
Definition map_attributes (f : SceneAttribute → SceneAttribute) (object : SceneObject) : SceneObject :=
  set_attributes (f <$> object.(attributes)) object.
Definition map_scene (f : SceneAttribute → SceneAttribute) (scene : Scene) : Scene :=
  set_objects (map_attributes f <$> scene.(objects)) scene.

Definition reset_scene_to_baseline (scene_id : SceneId) : method Z :=
  self ← get;
  scene ← lift (ok_or (im_get scene_id self.(scenes)) (SceneNotFound scene_id));
  put (set_scenes (im_get_mut (map_scene reset_attribute) scene_id self.(scenes)) self);;
  mret (wrap32 (Z.of_nat (count_scene differs scene))).

Definition commit_scene_baseline (scene_id : SceneId) : method Z :=
  self ← get;
  scene ← lift (ok_or (im_get scene_id self.(scenes)) (SceneNotFound scene_id));
  put (set_scenes (im_get_mut (map_scene commit_attribute) scene_id self.(scenes)) self);;
  mret (wrap32 (Z.of_nat (count_scene baseline_differs scene))).

Definition commit_object_baseline (scene_id : SceneId) (object_id : ObjectId) : method Z :=
  self ← get;
  scene ← lift (ok_or (im_get scene_id self.(scenes)) (SceneNotFound scene_id));
  object ← lift (ok_or (scene.(objects) !! object_id) (ObjectNotFound object_id));
  put (set_scenes (im_get_mut (λ scene, set_objects (alter (map_attributes commit_attribute)
    object_id scene.(objects)) scene) scene_id self.(scenes)) self);;
  mret (wrap32 (Z.of_nat (count_attributes baseline_differs object))).
End runtime.
