(* ===== verification/RuntimeSpec.v ===== *)
(** What the [RuntimeCore] promises: the outcome of every method, the
    invariants of every reachable runtime, and what the recording mode, the
    leases and the baselines guarantee. *)

From S2P Require Import Prelude Float IndexMap Protocol Model Transform Runtime.
From stdpp Require Import relations.

Local Open Scope Z_scope.

(** ** Histories *)

(** One call on the runtime.  The identifier of [OpCreate] is the one
    [Uuid::now_v7()] draws. *)
Inductive core_op :=
  | OpLoadScene (scene : Scene)
  | OpSetActive (scene_id : SceneId)
  | OpSetMode (m : Mode)
  | OpConnected (device : Uuid)
  | OpDisconnected (device : Uuid) (now_ns : Z)
  | OpHeartbeat (device : Uuid) (now_ns : Z)
  | OpCreate (id : MappingId) (req : MappingRequest) (now_ns : Z)
  | OpLock (id : MappingId) (lock : bool)
  | OpRemove (id : MappingId)
  | OpUpdate (id : MappingId) (req : MappingRequest) (now_ns : Z)
  | OpTick (now_ns : Z)
  | OpApply (device : Uuid) (updates : list AttributeUpdate) (now_ns : Z)
  | OpReset (scene_id : SceneId)
  | OpCommitScene (scene_id : SceneId)
  | OpCommitObject (scene_id : SceneId) (object_id : ObjectId).

Section spec.
Context {M : Type → Type} `{!IndexMap Uuid M} `{!UuidFormat}.
Implicit Types c : RuntimeCore M.

(** The state after a call, whatever it returned. *)
Definition exec_op (op : core_op) c : RuntimeCore M :=
  match op with
  | OpLoadScene s => exec (load_scene s) c
  | OpSetActive s => exec (set_active_scene s) c
  | OpSetMode m => exec (set_mode m) c
  | OpConnected d => exec (register_device_connected d) c
  | OpDisconnected d t => exec (register_device_disconnected d t) c
  | OpHeartbeat d t => exec (heartbeat d t) c
  | OpCreate id req t => exec (create_mapping id req t) c
  | OpLock id b => exec (set_mapping_lock id b) c
  | OpRemove id => exec (remove_mapping id) c
  | OpUpdate id req t => exec (update_mapping id req t) c
  | OpTick t => exec (scheduler_tick t) c
  | OpApply d us t => exec (apply_updates d us t) c
  | OpReset s => exec (reset_scene_to_baseline s) c
  | OpCommitScene s => exec (commit_scene_baseline s) c
  | OpCommitObject s o => exec (commit_object_baseline s o) c
  end.

(** What the callers guarantee: drawn identifiers are new, scenes come from
    the constructors, and an [i32] of an update is an [i32]. *)
Definition op_ok c (op : core_op) : Prop :=
  match op with
  | OpLoadScene s => scene_wf s
  | OpCreate id _ _ => im_get id c.(mappings) = None
  | OpApply _ us _ => Forall (λ u, value_in_range u.(value)) us
  | _ => True
  end.

Definition core_step c c' : Prop := ∃ op, op_ok c op ∧ c' = exec_op op c.

Definition reachable (cfg : LeaseConfig) c : Prop := rtc core_step (RuntimeCore_new cfg) c.

(** ** Outcomes of the mapping methods *)

Lemma set_mode_outcome m c :
  set_mode m c =
    if mode_transition_valid c.(mode) m then (set_mode_field m c, Ok ())
    else (c, Err (InvalidModeTransition c.(mode) m)).
Proof. unfold set_mode. run_prog; by destruct (mode_transition_valid _ _). Qed.

(** The checks [create_mapping] and [update_mapping] share. *)
Definition request_check c (req : MappingRequest) : res CoreError () :=
  ensure_target_exists c req.(rq_target_scene) req.(rq_target_object) req.(rq_target_attribute);;
  validate_component_mask c req.(rq_target_scene) req.(rq_target_object)
    req.(rq_target_attribute) req.(rq_component_mask).

(** The mapping that owns the requested target, as [create_mapping] finds it. *)
Definition owner c (req : MappingRequest) : option Mapping :=
  find (owns_target req.(rq_target_scene) req.(rq_target_object) req.(rq_target_attribute))
    (im_values c.(mappings)).

Definition mapping_ids_ok c : Prop :=
  ∀ k m, im_get k c.(mappings) = Some m → m.(m_id) = k.

Lemma owner_get c req m :
  mapping_ids_ok c → owner c req = Some m →
  im_get m.(m_id) c.(mappings) = Some m.
Proof.
  intros Hids [Hin _]%find_elem. apply im_elem_values in Hin as [k Hk].
  by rewrite (Hids k m Hk).
Qed.

(** [create_mapping], as one decision. *)
Definition create_result (id : MappingId) (req : MappingRequest) (now : Z) c :
    RuntimeCore M * res CoreError MappingId :=
  if decide (c.(mode) = Recording) then (c, Err MappingBlockedInRecording)
  else match request_check c req with
  | Err e => (c, Err e)
  | Panicked => (c, Panicked)
  | Ok _ =>
      match owner c req with
      | None => (set_mappings (im_insert id (new_mapping id req now) c.(mappings)) c, Ok id)
      | Some m =>
          if m.(lock) then (c, Err (MappingDenied "mapping is locked"))
          else if can_reclaim c m now then
            (set_mappings (im_insert id (new_mapping id req now)
               (im_shift_remove m.(m_id) c.(mappings))) c, Ok id)
          else (c, Err (MappingDenied "target attribute already owned by active mapping"))
      end
  end.

Lemma create_mapping_outcome id req now c :
  mapping_ids_ok c → create_mapping id req now c = create_result id req now c.
Proof.
  intros Hids. unfold create_mapping, create_result, request_check.
  unfold_prog. unfold fail_if, throw, mret, prog_ret, res_bind.
  case_decide as Hm; [by rewrite bool_decide_eq_true_2|].
  rewrite bool_decide_eq_false_2 by done.
  destruct (ensure_target_exists _ _ _ _) as [[]| |]; simpl; try done.
  destruct (validate_component_mask _ _ _ _ _) as [[]| |]; simpl; try done.
  unfold find_mapping_for_target. fold (owner c req).
  destruct (owner c req) as [m|] eqn:Ho; simpl; [|done].
  rewrite (owner_get c req m Hids Ho).
  destruct (lock m); simpl; [done|]. by destruct (can_reclaim c m now).
Qed.

Lemma set_mapping_lock_outcome id b c :
  set_mapping_lock id b c =
    if decide (c.(mode) = Recording) then (c, Err MappingBlockedInRecording)
    else match im_get id c.(mappings) with
         | None => (c, Err (MappingDenied "mapping not found"))
         | Some _ => (set_mappings (im_get_mut (set_lock b) id c.(mappings)) c, Ok ())
         end.
Proof.
  unfold set_mapping_lock. unfold_prog. case_decide; [by rewrite bool_decide_eq_true_2|].
  rewrite bool_decide_eq_false_2 by done. by destruct (im_get id _).
Qed.

Lemma remove_mapping_outcome id c :
  remove_mapping id c =
    if decide (c.(mode) = Recording) then (c, Err MappingBlockedInRecording)
    else match im_get id c.(mappings) with
         | None => (c, Err (MappingDenied "mapping not found"))
         | Some _ => (set_mappings (im_shift_remove id c.(mappings)) c, Ok ())
         end.
Proof.
  unfold remove_mapping. unfold_prog. case_decide; [by rewrite bool_decide_eq_true_2|].
  rewrite bool_decide_eq_false_2 by done. by destruct (im_get id _).
Qed.

Lemma update_mapping_outcome id req now c :
  update_mapping id req now c =
    if decide (c.(mode) = Recording) then (c, Err MappingBlockedInRecording)
    else match request_check c req with
         | Err e => (c, Err e)
         | Panicked => (c, Panicked)
         | Ok _ =>
             match im_get id c.(mappings) with
             | None => (c, Err (MappingDenied "mapping not found"))
             | Some m =>
                 if m.(lock) then (c, Err (MappingDenied "mapping is locked"))
                 else (set_mappings (im_get_mut (retarget req now) id c.(mappings)) c, Ok ())
             end
         end.
Proof.
  unfold update_mapping, request_check. unfold_prog. unfold res_bind.
  case_decide; [by rewrite bool_decide_eq_true_2|].
  rewrite bool_decide_eq_false_2 by done.
  destruct (ensure_target_exists _ _ _ _) as [[]| |]; simpl; try done.
  destruct (validate_component_mask _ _ _ _ _) as [[]| |]; simpl; try done.
  destruct (im_get id _) as [m|]; simpl; [|done]. by destruct (lock m).
Qed.

(** ** The update loop *)

Definition lookup_attribute c (scene_id : SceneId) (object_id : ObjectId) (name : string) :
    option SceneAttribute :=
  scene ← im_get scene_id c.(scenes);
  object ← scene.(objects) !! object_id;
  object.(attributes) !! name.

(** What one update writes: [v] becomes the current value of the target of
    the first mapping that feeds it. *)
Definition update_writes (d : Uuid) (a : SceneId) (u : AttributeUpdate) c (m : Mapping)
    (attr : SceneAttribute) (v : AttributeValue) : Prop :=
  find (feeds d a u.(output_attribute)) (im_values c.(mappings)) = Some m ∧
  lookup_attribute c m.(target_scene) m.(target_object) m.(target_attribute) = Some attr ∧
  attr.(live_enabled) = true ∧
  ∃ t, transform_update attr u.(value) m.(component_mask) = Ok t ∧
       apply_filters attr.(current_value) t attr.(filter_chain) = Ok v.

Definition write_current c (m : Mapping) (v : AttributeValue) : RuntimeCore M :=
  update_attribute (set_current_value v) m.(target_scene) m.(target_object)
    m.(target_attribute) c.

Lemma apply_update_cases d a ap u c :
  (∃ r, apply_update d a ap u c = (c, r) ∧ (∀ ap', r = Ok ap' → ap' = ap)) ∨
  (∃ m attr v ap', update_writes d a u c m attr v ∧
     apply_update d a ap u c = (write_current c m v, Ok ap')).
Proof.
  unfold apply_update, update_writes, lookup_attribute, write_current. unfold_prog.
  destruct (find _ _) as [m|] eqn:Hf; simpl; [|left; eexists; split; [done|naive_solver]].
  destruct (im_get _ _) as [s|] eqn:Hs; simpl; [|left; eexists; split; [done|naive_solver]].
  destruct (objects s !! _) as [o|] eqn:Ho; simpl; [|left; eexists; split; [done|naive_solver]].
  destruct (attributes o !! _) as [attr|] eqn:Ha; simpl; [|left; eexists; split; [done|naive_solver]].
  destruct (live_enabled attr) eqn:Hl; simpl; [|left; eexists; split; [done|naive_solver]].
  destruct (transform_update _ _ _) as [t| |] eqn:Ht; simpl;
    [|left; eexists; split; [done|naive_solver]..].
  destruct (apply_filters _ _ _) as [v| |] eqn:Hv; simpl;
    [|left; eexists; split; [done|naive_solver]..].
  right. exists m, attr, v. eexists. split; [|done].
  rewrite Hs. simpl. rewrite Ho. simpl. split_and!; eauto.
Qed.

(** An invariant of [apply_updates] is checked on the heartbeat, on the
    single writes and on the tick counter. *)
Lemma apply_updates_inv (P : RuntimeCore M → Prop) d us now c :
  P (exec (heartbeat d now) c) →
  (∀ c1 a u m attr v, c.(mode) ≠ Idle → c.(active_scene) = Some a → u ∈ us → P c1 →
     update_writes d a u c1 m attr v → P (write_current c1 m v)) →
  (∀ c, P c → P (set_world (mkStats (wrap64 (c.(world).(tick_count) + 1))) c)) →
  P (exec (apply_updates d us now) c).
Proof.
  intros Hh Hw Ht. unfold apply_updates. unfold_prog. destruct (heartbeat d now c) as [c1 r1] eqn:E.
  simpl in Hh. unfold heartbeat, modify in E. injection E as E <-.
  assert (mode c1 = mode c) as Em by by rewrite <-E.
  assert (active_scene c1 = active_scene c) as Ea by by rewrite <-E.
  destruct (decide _) as [|Hm]; [done|]. destruct (active_scene c1) as [a|]; simpl; [|done].
  assert (P (exec (prog_foldl (apply_update d a) ∅ us) c1)) as Hl.
  { apply prog_foldl_inv; [done|]. intros ap u c2 Hu Hc2.
    destruct (apply_update_cases d a ap u c2) as [(r & -> & _)|(m & attr & v & ap' & Hup & ->)];
      simpl; [done|eapply Hw; eauto; congruence]. }
  unfold_prog. destruct (prog_foldl _ _ _ _) as [c2 [ap| |]]; simpl in *; auto.
Qed.

Lemma lookup_attribute_write c m v s o n :
  lookup_attribute (write_current c m v) s o n =
    if decide (s = m.(target_scene) ∧ o = m.(target_object) ∧ n = m.(target_attribute))
    then set_current_value v <$> lookup_attribute c s o n else lookup_attribute c s o n.
Proof.
  unfold lookup_attribute, write_current, update_attribute. simpl. rewrite im_get_get_mut.
  destruct (im_get s (scenes c)) as [sc|] eqn:Hs; simpl; [|by repeat case_decide].
  destruct (decide (s = target_scene m)) as [->|]; simpl; [|rewrite decide_False; [done|naive_solver]].
  destruct (decide (o = target_object m)) as [->|Ho].
  - rewrite lookup_alter_eq. destruct (objects sc !! _) as [ob|]; simpl; [|by case_decide].
    destruct (decide (n = target_attribute m)) as [->|Hn].
    + rewrite decide_True by done. by rewrite lookup_alter_eq.
    + rewrite decide_False by naive_solver. by rewrite lookup_alter_ne.
  - rewrite decide_False by naive_solver. by rewrite lookup_alter_ne.
Qed.

(** ** The invariant of every reachable runtime *)

Record core_wf c : Prop := {
  wf_mapping_ids : mapping_ids_ok c;
  wf_scenes : ∀ k s, im_get k c.(scenes) = Some s → s.(sc_id) = k ∧ scene_wf s;
  wf_active : ∀ s, c.(active_scene) = Some s → is_Some (im_get s c.(scenes));
  wf_ticks : 0 ≤ c.(world).(tick_count) < 2 ^ 64;
}.

Lemma transform_update_wf attr name u mask t :
  attribute_wf name attr → value_in_range u → transform_update attr u mask = Ok t →
  type_name t = type_name attr.(default_value) ∧ value_in_range t.
Proof.
  intros (_ & Hty & _ & _) Hu. unfold transform_update. case_match.
  - intros (d & _ & Hc)%res_bind_ok. split; [|by eapply compose_relative_value_range].
    by apply compose_relative_value_type in Hc as [? _].
  - intros Ht. split; [|by eapply apply_mapping_transform_range].
    rewrite <-Hty. by eapply apply_mapping_transform_type.
Qed.

(** The value an update writes keeps the attribute well formed. *)
Lemma update_writes_wf d a u c m attr v name :
  value_in_range u.(value) → update_writes d a u c m attr v → attribute_wf name attr →
  attribute_wf name (set_current_value v attr).
Proof.
  intros Hu (_ & _ & _ & t & Ht & Hv) Hwf.
  destruct (transform_update_wf _ _ _ _ _ Hwf Hu Ht) as [Htt Htr].
  destruct Hwf as (Hn & Hty & Hr & Hr'). split_and!; simpl; try done.
  - rewrite <-Htt. by eapply apply_filters_type.
  - eapply (apply_filters_range _ _ _ _ Hr Htr Hv).
Qed.

(** ** How the stored scenes evolve

    The runtime takes any scene; what it does to it afterwards changes values
    only, and keeps every attribute that was well formed well formed, with
    the type it had. *)

Definition attribute_evolves (name : string) (a0 a : SceneAttribute) : Prop :=
  a.(attr_name) = a0.(attr_name) ∧ a.(live_enabled) = a0.(live_enabled) ∧
  a.(record_enabled) = a0.(record_enabled) ∧ a.(filter_chain) = a0.(filter_chain) ∧
  (attribute_wf name a0 →
     attribute_wf name a ∧ type_name a.(default_value) = type_name a0.(default_value)).

Definition object_evolves (o0 o : SceneObject) : Prop :=
  o.(obj_id) = o0.(obj_id) ∧ o.(obj_name) = o0.(obj_name) ∧
  ∀ name, option_Forall2 (attribute_evolves name) (o0.(attributes) !! name) (o.(attributes) !! name).

Definition scene_evolves (s0 s : Scene) : Prop :=
  s.(sc_id) = s0.(sc_id) ∧ s.(sc_name) = s0.(sc_name) ∧
  ∀ k, option_Forall2 object_evolves (s0.(objects) !! k) (s.(objects) !! k).

#[export] Instance attribute_evolves_preorder name : PreOrder (attribute_evolves name).
Proof.
  split; [intros a; by split_and!|]. intros a b c (?&?&?&?&Hab) (?&?&?&?&Hbc). split_and!; try congruence.
  intros Ha. destruct (Hab Ha) as [Hb ?], (Hbc Hb). split; [done|congruence].
Qed.

#[export] Instance object_evolves_preorder : PreOrder object_evolves.
Proof.
  split; [intros o; by split_and!|]. intros a b c (?&?&Hab) (?&?&Hbc). split_and!; try congruence.
  intros name. etrans; [apply Hab|apply Hbc].
Qed.

#[export] Instance scene_evolves_preorder : PreOrder scene_evolves.
Proof.
  split; [intros s; by split_and!|]. intros a b c (?&?&Hab) (?&?&Hbc). split_and!; try congruence.
  intros k. etrans; [apply Hab|apply Hbc].
Qed.

Lemma scene_evolves_wf s0 s : scene_evolves s0 s → scene_wf s0 → scene_wf s.
Proof.
  intros (_ & _ & Ho) Hwf k o Hk. specialize (Ho k). rewrite Hk in Ho.
  destruct (objects s0 !! k) as [o0|] eqn:E; inversion Ho as [? ? (Hid & _ & Ha) | ]; subst.
  destruct (Hwf k o0 E) as [Hid0 Hwf0]. split; [congruence|]. intros n a Hn.
  specialize (Ha n). rewrite Hn in Ha.
  destruct (attributes o0 !! n) as [a0|] eqn:E0; inversion Ha as [? ? (_&_&_&_&Hev)|]; subst.
  by apply Hev, Hwf0.
Qed.

(** Well-formed parts of the state, and the scenes [start] with changed values. *)
Record evolves (start : SceneId → option Scene) c : Prop := {
  ev_mapping_ids : mapping_ids_ok c;
  ev_active : ∀ s, c.(active_scene) = Some s → is_Some (im_get s c.(scenes));
  ev_ticks : 0 ≤ c.(world).(tick_count) < 2 ^ 64;
  ev_scenes : ∀ k, option_Forall2 scene_evolves (start k) (im_get k c.(scenes));
}.

(** Updating a scene in place. *)
Lemma ev_update_scene start k f c :
  (∀ s, im_get k c.(scenes) = Some s → scene_evolves s (f s)) →
  evolves start c → evolves start (set_scenes (im_get_mut f k c.(scenes)) c).
Proof.
  intros Hf [Hm Ha Ht Hs]. split; [done| |done|]; simpl.
  - intros s Hact. rewrite im_get_get_mut. specialize (Ha s Hact).
    case_decide; [|done]. by apply fmap_is_Some.
  - intros k'. etrans; [apply Hs|]. rewrite im_get_get_mut. case_decide as Hk; [|done]. subst.
    destruct (im_get k _) as [s|] eqn:E; simpl; constructor. by apply Hf.
Qed.

Lemma alter_evolves {A} `{Countable K} (R : K → A → A → Prop) `{!∀ k, Reflexive (R k)}
    (f : A → A) (i : K) (m : gmap K A) :
  (∀ x, m !! i = Some x → R i x (f x)) → ∀ k, option_Forall2 (R k) (m !! k) (alter f i m !! k).
Proof.
  intros Hf k. destruct (decide (k = i)) as [->|].
  - rewrite lookup_alter_eq. destruct (m !! i) eqn:E; simpl; constructor. by apply Hf.
  - by rewrite lookup_alter_ne.
Qed.

Lemma fmap_evolves {A} `{Countable K} (R : K → A → A → Prop) (f : A → A) (m : gmap K A) :
  (∀ k x, R k x (f x)) → ∀ k, option_Forall2 (R k) (m !! k) ((f <$> m) !! k).
Proof. intros Hf k. rewrite lookup_fmap. destruct (m !! k); simpl; by constructor. Qed.

Lemma ev_update_attribute start f s o n c :
  (∀ a, lookup_attribute c s o n = Some a → attribute_evolves n a (f a)) →
  evolves start c → evolves start (update_attribute f s o n c).
Proof.
  intros Hf. apply ev_update_scene. intros sc Hg. split_and!; [done..|]. simpl.
  apply (alter_evolves (λ _, object_evolves)). intros ob Hob. split_and!; [done..|]. simpl.
  apply (alter_evolves attribute_evolves). intros a Ha. apply Hf. unfold lookup_attribute.
  rewrite Hg. simpl. by rewrite Hob.
Qed.

(** Mapping every attribute of objects, as the baseline actions do. *)
Lemma reset_attribute_evolves n a : attribute_evolves n a (reset_attribute a).
Proof. unfold reset_attribute. case_match; [|done]. split_and!; try done. by intros (?&?&?&?). Qed.

Lemma commit_attribute_evolves n a : attribute_evolves n a (commit_attribute a).
Proof. unfold commit_attribute. case_match; [|done]. split_and!; try done. by intros (?&?&?&?). Qed.

Lemma map_attributes_evolves f o :
  (∀ n a, attribute_evolves n a (f a)) → object_evolves o (map_attributes f o).
Proof. intros Hf. split_and!; [done..|]. by apply (fmap_evolves attribute_evolves). Qed.

Lemma map_scene_evolves f s :
  (∀ n a, attribute_evolves n a (f a)) → scene_evolves s (map_scene f s).
Proof.
  intros Hf. split_and!; [done..|]. apply (fmap_evolves (λ _, object_evolves)). intros _ o.
  by apply map_attributes_evolves.
Qed.

(** Replacing the mappings. *)
Lemma ev_set_mappings start ms c :
  (∀ k m, im_get k ms = Some m → m.(m_id) = k) → evolves start c → evolves start (set_mappings ms c).
Proof. by intros ? []. Qed.

Lemma ev_values_mut start f c :
  (∀ m, (f m).(m_id) = m.(m_id)) → evolves start c →
  evolves start (set_mappings (im_values_mut f c.(mappings)) c).
Proof.
  intros Hf Hev. apply ev_set_mappings; [|done]. intros k m. rewrite im_get_values_mut.
  destruct (im_get k _) as [m0|] eqn:E; simpl; [|done]. intros [= <-].
  rewrite Hf. by apply (ev_mapping_ids _ c Hev).
Qed.

(** ** Histories as lists of calls *)

Definition run (ops : list core_op) c : RuntimeCore M := foldl (λ c op, exec_op op c) c ops.

Fixpoint ops_ok (ops : list core_op) c : Prop :=
  match ops with
  | [] => True
  | op :: ops => op_ok c op ∧ ops_ok ops (exec_op op c)
  end.

Lemma run_steps ops c : ops_ok ops c → rtc core_step c (run ops c).
Proof.
  revert c. induction ops as [|op ops IH]; intros c; simpl; [done|].
  intros [Hop Hops]. eapply rtc_l; [by exists op|]. by apply IH.
Qed.
End spec.
