(* ===== verification/Fixtures.v ===== *)
(** Concrete data for the examples: an ordered map, an identifier format and a
    small stage with one scene, one object and one tracked attribute. *)

From S2P Require Import Prelude Text Float IndexMap Protocol Model Transform Runtime RuntimeSpec.

Local Open Scope Z_scope.

(** Any text of identifiers serves the examples; this one is the decimal
    number. *)
Definition decimal_uuid : UuidFormat := λ u, pretty (A:=N) u.
Definition decimal_parse (s : string) : option Uuid := Z.to_N <$> parse_digits 0 s.

Lemma decimal_chars u : string_forall is_uuid_char (uuid_to_string (UuidFormat:=decimal_uuid) u) = true.
Proof.
  eapply string_forall_impl, show_N_digits. intros c Hc. unfold is_uuid_char. by rewrite Hc.
Qed.

#[program] Definition decimal_text : @UuidText decimal_uuid := {| uuid_parse := decimal_parse |}.
Next Obligation.
  intros u. change (Z.to_N <$> parse_digits 0 (pretty (A:=N) u) = Some u).
  rewrite parse_digits_show. simpl. by rewrite N2Z.id.
Qed.
Next Obligation. apply decimal_chars. Qed.
Next Obligation. apply show_N_digits. Qed.

Abbreviation imap := (alist_map Uuid).
Abbreviation core := (RuntimeCore imap).

Definition f32_vec3 (x y z : Z) : AttributeValue := Vec3f [# F32.of_Z x; F32.of_Z y; F32.of_Z z].

(** Scene 1 with object 2 ("camera"), a vector and a scalar attribute. *)
Definition stage : Scene :=
  with_object
    (with_attribute (SceneAttribute_new "position" (f32_vec3 0 0 0))
      (with_attribute (SceneAttribute_new "fov" (Float32 (F32.of_Z 50)))
        (SceneObject_new 2%N "camera")))
    (Scene_new 1%N "stage").

(** Device [d] drives an attribute of the camera. *)
Definition bind (d : Uuid) (output attribute : string) : MappingRequest :=
  mkRequest d output 1%N 2%N attribute None.

Definition cfg : LeaseConfig := LeaseConfig_default.

Lemma stage_wf : scene_wf stage.
Proof.
  unfold stage. apply with_object_wf; [done|].
  repeat (apply with_attribute_wf; [|by apply SceneAttribute_new_wf]). done.
Qed.

(** Device 7 is connected and drives the position, device 8 the field of view. *)
Definition setup : list core_op :=
  [OpLoadScene stage; OpConnected 7%N; OpConnected 8%N;
   OpCreate 100%N (bind 7%N "pose" "position") 0;
   OpCreate 101%N (bind 8%N "zoom" "fov") 0].

Definition ready : core := run (H:=decimal_uuid) setup (RuntimeCore_new cfg).

Lemma ready_reachable : reachable (H:=decimal_uuid) cfg ready.
Proof. apply run_steps. split_and!; try done. apply stage_wf. Qed.
