(* ===== verification/RuntimeInv.v ===== *)
(** The invariants of every reachable [RuntimeCore]: the scenes that were
    loaded with other values, one owner per target attribute, bindings frozen
    while recording. *)

From S2P Require Import Prelude Float IndexMap Protocol Model Transform Runtime RuntimeSpec.
From S2P Require Import Fixtures.
From stdpp Require Import relations.

Local Open Scope Z_scope.

Lemma option_Forall2_Some {A B} (R : A → B → Prop) mx my x :
  mx = Some x → option_Forall2 R mx my → ∃ y, my = Some y ∧ R x y.
Proof. intros -> H. inversion H. eauto. Qed.

Section inv.
Context {M : Type → Type} `{!IndexMap Uuid M} `{!UuidFormat}.
Implicit Types c : RuntimeCore M.

Abbreviation core_wf := (core_wf (M:=M)).
Abbreviation reachable := (reachable (M:=M)).

(** ** Well-formedness *)

(** An [i32] of an update is an [i32]: all that is asked of a call. *)
Definition values_ok (op : core_op) : Prop :=
  match op with OpApply _ us _ => Forall (λ u, value_in_range u.(value)) us | _ => True end.

(** The scene [load_scene] stored last under an identifier. *)
Definition loading (op : core_op) (last : SceneId → option Scene) (k : SceneId) : option Scene :=
  match op with OpLoadScene s => if decide (k = s.(sc_id)) then Some s else last k | _ => last k end.
Definition last_loaded (ops : list core_op) : SceneId → option Scene :=
  foldl (λ last op, loading op last) (λ _, None) ops.

Lemma new_evolves cfg : evolves (λ _, None) (RuntimeCore_new (M:=M) cfg).
Proof.
  split; [intros k m|intros s|done|intros k]; simpl; rewrite ?im_get_new; try done.
Qed.

Lemma load_scene_evolves start s c :
  evolves start c → evolves (loading (OpLoadScene s) start) (exec (load_scene s) c).
Proof.
  intros [Hm Ha Ht Hs].
  assert (∀ a, a = Some s.(sc_id) ∨ a = c.(active_scene) →
    evolves (loading (OpLoadScene s) start)
      (set_active a (set_scenes (im_insert s.(sc_id) s c.(scenes)) c))) as Hgen.
  { intros a Hact. split; [done| |done|]; simpl; intros k; rewrite im_get_insert.
    - case_decide; [by eauto|]. intros Hk. apply Ha. destruct Hact; congruence.
    - case_decide; [by constructor|apply Hs]. }
  unfold load_scene. unfold_prog. simpl. case_decide as Hn; simpl.
  - apply Hgen. by left.
  - specialize (Hgen c.(active_scene)). destruct c. apply Hgen. by right.
Qed.

Lemma create_mapping_evolves start id req now c :
  evolves start c → evolves start (exec (create_mapping id req now) c).
Proof.
  intros Hev. pose proof (ev_mapping_ids _ c Hev) as Hids.
  rewrite create_mapping_outcome by done. unfold create_result.
  destruct (decide (c.(mode) = Recording)); [done|].
  destruct (request_check c req); [|done..].
  destruct (owner c req) as [o|]; [destruct (lock o); [done|]; destruct (can_reclaim c o now); [|done]|];
    (apply ev_set_mappings; [intros k m|done]); rewrite im_get_insert, ?im_get_shift_remove;
    repeat (case_decide; simplify_eq/=; try done); intros; simplify_eq; try done; by apply Hids.
Qed.

Lemma ev_get_mut start f id c :
  (∀ m, (f m).(m_id) = m.(m_id)) → evolves start c →
  evolves start (set_mappings (im_get_mut f id c.(mappings)) c).
Proof.
  intros Hf Hev. apply ev_set_mappings; [|done]. intros k m. rewrite im_get_get_mut.
  case_decide; [|by apply (ev_mapping_ids _ c Hev)].
  destruct (im_get k _) as [m0|] eqn:E; simpl; [|done]. intros [= <-].
  rewrite Hf. by apply (ev_mapping_ids _ c Hev).
Qed.

Lemma tick_mapping_id c now m : (tick_mapping c now m).(m_id) = m.(m_id).
Proof. unfold tick_mapping. by repeat case_match. Qed.

Lemma heartbeat_evolves start d now c : evolves start c → evolves start (exec (heartbeat d now) c).
Proof. intros. apply ev_values_mut; [|done]. intros m. by case_match. Qed.

Lemma apply_updates_evolves start d us now c :
  Forall (λ u, value_in_range u.(value)) us → evolves start c →
  evolves start (exec (apply_updates d us now) c).
Proof.
  intros Hus Hev. apply apply_updates_inv; [by apply heartbeat_evolves| |].
  - intros c' a u m attr v _ _ Hu Hev' Hup. apply ev_update_attribute; [|done].
    intros a' Ha'. pose proof Hup as (_ & Hl & _ & _). rewrite Ha' in Hl. injection Hl as ->.
    rewrite Forall_forall in Hus. split_and!; [done..|]. intros Hwa. split; [|done].
    eapply update_writes_wf; eauto.
  - intros c' []. split; try done. apply Z.mod_pos_bound. lia.
Qed.

(** One call on any state. *)
Lemma exec_op_evolves start op c :
  values_ok op → evolves start c → evolves (loading op start) (exec_op op c).
Proof.
  intros Hop Hev. destruct op; try (change (loading _ start) with start); cbn [exec_op].
  - by apply load_scene_evolves.
  - unfold set_active_scene. run_prog; [|done]. destruct Hev as [? ? ? ?]. split; try done; simpl.
    intros k [= <-]. by eexists.
  - rewrite set_mode_outcome. case_match; [|done]. by destruct Hev.
  - by destruct Hev.
  - apply (ev_values_mut _ _ (set_devices _ c)); [intros m'; by case_match|by destruct Hev].
  - by apply heartbeat_evolves.
  - by apply create_mapping_evolves.
  - rewrite set_mapping_lock_outcome. destruct (decide _); [done|].
    destruct (im_get id _); [|done]. by apply ev_get_mut.
  - rewrite remove_mapping_outcome. destruct (decide _); [done|].
    destruct (im_get id _); [|done]. apply ev_set_mappings; [|done].
    intros k m'. rewrite im_get_shift_remove. case_decide; [done|]. by apply Hev.
  - rewrite update_mapping_outcome. destruct (decide _); [done|].
    destruct (request_check _ _); [|done..]. destruct (im_get id _) as [m|]; [|done].
    destruct (lock m); [done|]. by apply ev_get_mut.
  - apply ev_values_mut; [|done]. intros m'. apply tick_mapping_id.
  - by apply apply_updates_evolves.
  - unfold reset_scene_to_baseline. run_prog; try done. apply ev_update_scene; [|done].
    intros s _. apply map_scene_evolves, reset_attribute_evolves.
  - unfold commit_scene_baseline. run_prog; try done. apply ev_update_scene; [|done].
    intros s _. apply map_scene_evolves, commit_attribute_evolves.
  - unfold commit_object_baseline. run_prog; try done. apply ev_update_scene; [|done].
    intros s _. split_and!; [done..|]. apply (alter_evolves (λ _, object_evolves)). intros o _.
    apply map_attributes_evolves, commit_attribute_evolves.
Qed.

(** Scenes that are well formed when they are loaded stay so. *)
Lemma exec_op_wf op c : op_ok c op → core_wf c → core_wf (exec_op op c).
Proof.
  intros Hop [Hm Hs Ha Ht].
  destruct (exec_op_evolves (λ k, im_get k c.(scenes)) op c) as [Hm' Ha' Ht' Hs'];
    [by destruct op|by split|]. split; [done| |done..].
  intros k s' Hk. specialize (Hs' k). rewrite Hk in Hs'.
  inversion Hs' as [s ? Hev Hl|]; subst. rewrite (proj1 Hev).
  assert (s.(sc_id) = k ∧ scene_wf s) as [? Hwf].
  { destruct op; simpl in Hl; try by apply Hs. case_decide; simplify_eq; [done|by apply Hs]. }
  split; [done|]. by eapply scene_evolves_wf.
Qed.

Lemma reachable_wf cfg c : reachable cfg c → core_wf c.
Proof.
  apply (rtc_ind_r (λ c, core_wf c)).
  - split; [intros k m|intros k s|intros s|]; simpl; rewrite ?im_get_new; done.
  - intros c1 c2 _ (op & Hop & ->) IH. by apply exec_op_wf.
Qed.

(** C1. Whatever calls are made on a new runtime, with whatever scenes,
    the mappings are stored under their own identifiers, the active scene
    exists and the tick counter is a [u64]; and the stored scenes are exactly
    the ones loaded last under each identifier, with their objects, names,
    flags and filters as they were loaded: only values have changed, and an
    attribute that was loaded well formed (its current value of the type of
    its default, both within their machine type) still is, with the type it
    was loaded with. *)
Theorem reachable_core_wf cfg (ops : list core_op) :
  Forall values_ok ops →
  let c := run ops (RuntimeCore_new (M:=M) cfg) in
  mapping_ids_ok c ∧
  (∀ a, c.(active_scene) = Some a → is_Some (last_loaded ops a)) ∧
  0 ≤ c.(world).(tick_count) < 2 ^ 64 ∧
  ∀ k, option_Forall2 scene_evolves (last_loaded ops k) (im_get k c.(scenes)).
Proof.
  intros Hops c.
  assert (evolves (last_loaded ops) c) as [Hm Ha Ht Hs].
  { unfold c, run, last_loaded. pose proof (new_evolves cfg) as Hev. revert Hev.
    generalize (λ _ : SceneId, None : option Scene), (RuntimeCore_new (M:=M) cfg).
    induction Hops as [|op ops Hop _ IH]; intros start c0 Hev; [done|]. by apply IH, exec_op_evolves. }
  split_and!; [done| |apply Ht..|done]. intros a Hact. destruct (Ha a Hact) as [s Hg].
  specialize (Hs a). rewrite Hg in Hs. inversion Hs. by eexists.
Qed.

(** ** What the calls other than the mapping methods do to the mappings *)

Definition is_mapping_op (op : core_op) : bool :=
  match op with OpCreate _ _ _ | OpLock _ _ | OpRemove _ | OpUpdate _ _ _ => true | _ => false end.

(** What a mapping connects, and whether the operator locked it. *)
Definition binding (m : Mapping) :=
  (m.(m_id), m.(source_device), m.(source_output),
   (m.(target_scene), m.(target_object), m.(target_attribute)), m.(component_mask), m.(lock)).

(** A change of the volatile fields only, which never reactivates. *)
Definition volatile (f : Mapping → Mapping) : Prop :=
  ∀ m, binding (f m) = binding m ∧ ((f m).(state) = MActive → m.(state) = MActive).

Lemma volatile_id : volatile id.
Proof. done. Qed.

Lemma assoc_values_mut_id {K A} (l : list (K * A)) : assoc_values_mut id l = l.
Proof. unfold assoc_values_mut. induction l as [|[k v] l IH]; [done|]. cbn. by f_equal. Qed.

Lemma apply_updates_mappings d us now c :
  (exec (apply_updates d us now) c).(mappings) = (exec (heartbeat d now) c).(mappings).
Proof.
  apply (apply_updates_inv (λ c', c'.(mappings) = (exec (heartbeat d now) c).(mappings))); done.
Qed.

Lemma op_volatile op c :
  is_mapping_op op = false →
  ∃ f, volatile f ∧
    im_entries (exec_op op c).(mappings) = assoc_values_mut f (im_entries c.(mappings)).
Proof.
  assert (∀ c', c'.(mappings) = c.(mappings) → ∃ f, volatile f ∧
    im_entries c'.(mappings) = assoc_values_mut f (im_entries c.(mappings))) as Hsame.
  { intros c' ->. exists id. by rewrite assoc_values_mut_id. }
  intros Hop. destruct op; try discriminate Hop; cbn [exec_op].
  - apply Hsame. unfold load_scene. run_prog; done.
  - apply Hsame. unfold set_active_scene. run_prog; done.
  - apply Hsame. rewrite set_mode_outcome. by case_match.
  - by apply Hsame.
  - eexists. split; [|apply im_entries_values_mut]. intros m'. by case_match.
  - eexists. split; [|apply im_entries_values_mut]. intros m'. by case_match.
  - eexists. split; [|apply im_entries_values_mut]. intros m'. unfold tick_mapping.
    by repeat case_match.
  - rewrite apply_updates_mappings.
    eexists. split; [|apply im_entries_values_mut]. intros m'. by case_match.
  - apply Hsame. unfold reset_scene_to_baseline. run_prog; done.
  - apply Hsame. unfold commit_scene_baseline. run_prog; done.
  - apply Hsame. unfold commit_object_baseline. run_prog; done.
Qed.

(** ** One owner per target attribute *)

Definition target (m : Mapping) := (m.(target_scene), m.(target_object), m.(target_attribute)).
Definition rq_target (req : MappingRequest) :=
  (req.(rq_target_scene), req.(rq_target_object), req.(rq_target_attribute)).

(** At most one active mapping writes to any attribute. *)
Definition exclusive c : Prop :=
  ∀ k k' m m', im_get k c.(mappings) = Some m → im_get k' c.(mappings) = Some m' →
    m.(state) = MActive → m'.(state) = MActive → target m = target m' → k = k'.

(** The target of the request is not owned by another active mapping. *)
Definition target_free c (id : MappingId) (req : MappingRequest) : Prop :=
  ∀ k m, im_get k c.(mappings) = Some m → k ≠ id → m.(state) = MActive → target m ≠ rq_target req.

Lemma exclusive_mono ms c :
  (∀ k m', im_get k ms = Some m' → m'.(state) = MActive →
     ∃ m, im_get k c.(mappings) = Some m ∧ m.(state) = MActive ∧ target m = target m') →
  exclusive c → exclusive (set_mappings ms c).
Proof.
  intros Hms Hex k k' m m' Hk Hk' Hm Hm' Ht.
  destruct (Hms k m Hk Hm) as (? & ? & ? & ?). destruct (Hms k' m' Hk' Hm') as (? & ? & ? & ?).
  eapply Hex; eauto. congruence.
Qed.

(** Storing a mapping whose target is free. *)
Lemma exclusive_store id m0 ms c :
  (∀ k m', im_get k ms = Some m' → m'.(state) = MActive →
     (k = id ∧ target m' = target m0) ∨
     (k ≠ id ∧ target m' ≠ target m0 ∧ im_get k c.(mappings) = Some m')) →
  exclusive c → exclusive (set_mappings ms c).
Proof.
  intros Hms Hex k k' m m' Hk Hk' Hm Hm' Ht.
  destruct (Hms k m Hk Hm) as [[-> ?]|(? & ? & ?)], (Hms k' m' Hk' Hm') as [[-> ?]|(? & ? & ?)];
    try congruence. eauto.
Qed.

Lemma owns_target_spec s o n m :
  owns_target s o n m = true ↔ m.(state) = MActive ∧ target m = (s, o, n).
Proof.
  unfold owns_target, target. rewrite !andb_true_iff, !bool_decide_eq_true. naive_solver.
Qed.

Lemma owner_none c req :
  owner c req = None →
  ∀ k m, im_get k c.(mappings) = Some m → m.(state) = MActive → target m ≠ rq_target req.
Proof.
  unfold owner. rewrite find_none_iff. intros Hno k m Hk Hm Ht.
  assert (m ∈ im_values c.(mappings)) as Hin by (apply im_elem_values; eauto).
  specialize (Hno m Hin). apply not_true_iff_false in Hno. by apply Hno, owns_target_spec.
Qed.

Lemma owner_some c req m :
  mapping_ids_ok c → owner c req = Some m →
  im_get m.(m_id) c.(mappings) = Some m ∧ m.(state) = MActive ∧ target m = rq_target req.
Proof.
  intros Hids Ho. split; [by eapply owner_get|].
  unfold owner in Ho. by apply find_elem in Ho as [_ Hp%owns_target_spec].
Qed.

Lemma create_mapping_exclusive id req now c :
  mapping_ids_ok c → exclusive c → exclusive (exec (create_mapping id req now) c).
Proof.
  intros Hids Hex. rewrite create_mapping_outcome by done. unfold create_result.
  destruct (decide (c.(mode) = Recording)); [done|].
  destruct (request_check c req); [|done..].
  destruct (owner c req) as [o|] eqn:Ho.
  - destruct (lock o); [done|]. destruct (can_reclaim c o now); [|done].
    destruct (owner_some _ _ _ Hids Ho) as (Hk & Ho1 & Ho2).
    apply (exclusive_store id (new_mapping id req now)); [|done].
    intros k m'. rewrite im_get_insert, im_get_shift_remove.
    destruct (decide (k = id)) as [->|]; [intros [= <-]; by left|].
    destruct (decide (k = m_id o)) as [->|Hne]; [done|]. intros Hk' Hm'. right. split_and!; try done.
    intros Ht. apply Hne. eapply Hex; eauto. rewrite Ho2. apply Ht.
  - apply (exclusive_store id (new_mapping id req now)); [|done].
    intros k m'. rewrite im_get_insert.
    destruct (decide (k = id)) as [->|]; [intros [= <-]; by left|].
    intros Hk' Hm'. right. split_and!; try done. eapply (owner_none c req Ho); eauto.
Qed.

(** C2. No call gives an attribute a second active mapping: device
    churn, lease expiry, updates, baseline actions and the creation of
    mappings keep the owner of every attribute unique, and so does the
    redirection of a mapping to a target no other mapping owns. *)
Theorem ownership_preserved op c :
  mapping_ids_ok c → exclusive c →
  (∀ id req now, op = OpUpdate id req now → target_free c id req) →
  exclusive (exec_op op c).
Proof.
  intros Hids Hex Hup. destruct (is_mapping_op op) eqn:Hop.
  - destruct op; try discriminate Hop; cbn [exec_op].
    + by apply create_mapping_exclusive.
    + rewrite set_mapping_lock_outcome. destruct (decide _); [done|].
      destruct (im_get id _) as [m0|] eqn:E; [|done]. apply exclusive_mono; [|done].
      intros k m'. rewrite im_get_get_mut. case_decide; [|by eauto]. subst.
      rewrite E. simpl. intros [= <-]. eauto.
    + rewrite remove_mapping_outcome. destruct (decide _); [done|].
      destruct (im_get id _) as [m0|]; [|done]. apply exclusive_mono; [|done].
      intros k m'. rewrite im_get_shift_remove. case_decide; [done|by eauto].
    + rewrite update_mapping_outcome. destruct (decide _); [done|].
      destruct (request_check _ _); [|done..]. destruct (im_get id _) as [m0|] eqn:E; [|done].
      destruct (lock m0); [done|]. apply (exclusive_store id (retarget req now_ns m0)); [|done].
      intros k m'. rewrite im_get_get_mut. destruct (decide (k = id)) as [->|Hne].
      * rewrite E. simpl. intros [= <-]. by left.
      * intros Hk Hm. right. split_and!; try done. by eapply (Hup _ _ _ eq_refl).
  - destruct (op_volatile op c Hop) as (f & Hf & He).
    assert (∀ k, im_get k (exec_op op c).(mappings) = f <$> im_get k c.(mappings)) as Hg.
    { intros k. by rewrite !im_get_spec, He, assoc_get_values_mut. }
    intros k k' m m'. rewrite !Hg.
    destruct (im_get k _) as [m1|] eqn:E1, (im_get k' _) as [m1'|] eqn:E1'; try done.
    simpl. intros [= <-] [= <-] Hm Hm' Ht.
    destruct (Hf m1) as [Hb1 Ha1], (Hf m1') as [Hb1' Ha1'].
    apply (Hex k k' m1 m1'); auto. unfold binding, target in *. congruence.
Qed.
(** ** Recording *)

(** One call made while the runtime records. *)
Definition recording_step c c' : Prop := c.(mode) = Recording ∧ core_step c c'.

Lemma recording_mapping_op op c :
  c.(mode) = Recording → is_mapping_op op = true → exec_op op c = c.
Proof.
  intros Hm Hop. destruct op; try discriminate Hop; cbn [exec_op];
    rewrite ?set_mapping_lock_outcome, ?remove_mapping_outcome, ?update_mapping_outcome;
    try (by rewrite decide_True).
  unfold create_mapping. unfold_prog. by rewrite Hm.
Qed.

(** C3. A recording has fixed bindings: from the moment the runtime records
    until the call that leaves the mode, no sequence of calls adds, removes,
    redirects, remasks, locks or reorders a mapping, and none is
    reactivated. *)
Theorem recording_freezes_bindings c c' :
  rtc recording_step c c' →
  binding <$> im_values c'.(mappings) = binding <$> im_values c.(mappings) ∧
  ∀ k m', im_get k c'.(mappings) = Some m' → m'.(state) = MActive →
    ∃ m, im_get k c.(mappings) = Some m ∧ m.(state) = MActive.
Proof.
  induction 1 as [c|c1 c2 c3 [Hrec (op & _ & ->)] _ [IHb IHa]]; [by eauto|].
  destruct (is_mapping_op op) eqn:Hop.
  { rewrite recording_mapping_op in IHb, IHa by done. done. }
  destruct (op_volatile op c1 Hop) as (f & Hf & He). split.
  - rewrite IHb. unfold im_values. rewrite He. unfold assoc_values_mut.
    rewrite <-!list_fmap_compose. apply list_fmap_ext. intros i [k m] _. simpl. apply Hf.
  - intros k m' Hk Hm'. destruct (IHa k m' Hk Hm') as (m & Hm & Ha).
    rewrite im_get_spec, He, assoc_get_values_mut, <-im_get_spec in Hm.
    destruct (im_get k c1.(mappings)) as [m1|] eqn:E; [|done]. injection Hm as <-.
    exists m1. split; [done|]. by apply (Hf m1).
Qed.
End inv.

(** ** Instances *)

(** A scene whose attribute has an integer default and a float for its
    current value is taken as it is; the well-formed stage beside it keeps its
    types under the updates of device 7. *)
Definition odd_scene : Scene :=
  with_object (with_attribute (set_current_value (Float64 F64.one) (SceneAttribute_new "pos" (Int32 1)))
    (SceneObject_new 6%N "prop")) (Scene_new 5%N "odd").

Definition mixed_ops : list core_op :=
  OpLoadScene odd_scene :: setup ++
  [OpSetActive 1%N; OpSetMode Live; OpApply 7%N [mkUpdate "pose" (f32_vec3 1 2 3)] 5; OpCommitScene 1%N].

Definition mixed : core := run (H:=decimal_uuid) mixed_ops (RuntimeCore_new cfg).

Lemma reachable_core_wf_witness : ∃ s a,
  im_get 1%N mixed.(scenes) = Some s ∧ scene_evolves stage s ∧
  lookup_attribute mixed 1%N 2%N "position" = Some a ∧ a.(default_value) = f32_vec3 1 2 3 ∧
  last_loaded mixed_ops 5%N = Some odd_scene ∧ ¬ scene_wf odd_scene.
Proof.
  destruct (reachable_core_wf (M:=alist_map Uuid) (H:=decimal_uuid) cfg mixed_ops) as (_ & _ & _ & Hs);
    [repeat constructor|].
  destruct (option_Forall2_Some _ _ _ _ (eq_refl : last_loaded mixed_ops 1%N = Some stage) (Hs 1%N))
    as (s & Hg & Hev).
  exists s. eexists.
  split_and!; [exact Hg|exact Hev|vm_compute; reflexivity|vm_compute; reflexivity|reflexivity|].
  intros Hwf. destruct (Hwf 6%N _ eq_refl) as [_ Ho].
  by destruct (Ho "pos" _ eq_refl) as (_ & ? & _).
Defined.

Lemma ready_exclusive : exclusive ready.
Proof.
  intros k k' m m' Hk Hk'. rewrite im_get_spec in Hk, Hk'.
  set (l := im_entries (mappings ready)) in *. vm_compute in l. subst l. simpl in Hk, Hk'.
  repeat (case_decide; simplify_eq/=; try done); intros _ _ Ht; vm_compute in Ht; discriminate Ht.
Qed.

(** A second device asks for the position that device 7 drives. *)
Lemma ownership_preserved_witness :
  exclusive (exec_op (H:=decimal_uuid) (OpCreate 102%N (bind 8%N "pose" "position") 10) ready).
Proof.
  apply ownership_preserved; [|apply ready_exclusive|intros ??? [=]].
  apply (wf_mapping_ids _ (reachable_wf (H:=decimal_uuid) cfg ready ready_reachable)).
Defined.

(** The operator removes a mapping in the middle of a recording. *)
Definition recording_core : core := run (H:=decimal_uuid) [OpSetMode Live; OpSetMode Recording] ready.

Lemma recording_freezes_bindings_witness :
  binding <$> im_values (exec_op (H:=decimal_uuid) (OpRemove 100%N) recording_core).(mappings)
    = binding <$> im_values recording_core.(mappings).
Proof.
  refine (proj1 (recording_freezes_bindings _ _ (rtc_l _ _ _ _ _ (rtc_refl _ _)))).
  split; [reflexivity|]. by exists (OpRemove 100%N).
Defined.

(** [update_mapping] does not look for the owner of the new target: a
    reachable runtime in which device 8's mapping is redirected to the
    position that device 7 drives has two active mappings for it, where
    [create_mapping] refuses the same request. *)
Theorem update_mapping_steals_target :
  reachable (H:=decimal_uuid) cfg ready ∧ exclusive ready ∧
  result (create_mapping 102%N (bind 8%N "pose" "position") 10) ready
    = Err (MappingDenied "target attribute already owned by active mapping") ∧
  result (update_mapping 101%N (bind 8%N "pose" "position") 10) ready = Ok () ∧
  ¬ exclusive (exec (update_mapping 101%N (bind 8%N "pose" "position") 10) ready).
Proof.
  split_and!; [apply ready_reachable|apply ready_exclusive|vm_compute; reflexivity..|].
  intros Hex. enough (100%N = 101%N) as [=].
  eapply Hex; [vm_compute; reflexivity..].
Qed.
