(* ===== verification/RuntimeLaws.v ===== *)
(** What the methods of the [RuntimeCore] do: which requests create a mapping,
    which masks are accepted and why they then work, what an update batch may
    touch, when the scheduler releases a mapping, and the baseline actions. *)

From S2P Require Import Prelude Float IndexMap Protocol Model Transform Runtime RuntimeSpec.
From S2P Require Import Fixtures RuntimeInv.
From stdpp Require Import relations.

Local Open Scope Z_scope.

Section laws.
Context {M : Type → Type} `{!IndexMap Uuid M} {fmt : UuidFormat}.
Implicit Types c : RuntimeCore M.

(** ** Creating mappings *)

Lemma ensure_target_exists_spec c s o n :
  ensure_target_exists c s o n = Ok () ↔ is_Some (lookup_attribute c s o n).
Proof.
  unfold ensure_target_exists, lookup_attribute.
  destruct (im_get s _) as [sc|]; simpl; [|split; [done|intros [? [=]]]].
  destruct (objects sc !! o) as [ob|]; simpl; [|split; [done|intros [? [=]]]].
  destruct (attributes ob !! n); simpl; [by split; eauto|]. split; [done|intros [? [=]]].
Qed.

Lemma target_attribute_value_spec c s o n a :
  lookup_attribute c s o n = Some a → target_attribute_value c s o n = Ok a.(current_value).
Proof.
  unfold target_attribute_value, lookup_attribute.
  destruct (im_get s _) as [sc|]; simpl; [|done].
  destruct (objects sc !! o) as [ob|]; simpl; [|done]. by intros ->.
Qed.

Lemma lookup_attribute_wf c s o n a :
  core_wf c → lookup_attribute c s o n = Some a → attribute_wf n a.
Proof.
  unfold lookup_attribute. intros Hwf.
  destruct (im_get s _) as [sc|] eqn:Es; simpl; [|done].
  destruct (objects sc !! o) as [ob|] eqn:Eo; simpl; [|done]. intros Ha.
  destruct (wf_scenes c Hwf s sc Es) as [_ Hsc]. destruct (Hsc o ob Eo) as [_ Hob]. by apply Hob.
Qed.

(** The mask loop accepts duplicate-free lists of indices in range. *)
Lemma check_mask_spec len mask seen :
  is_ok (res_foldl (λ (seen : gset nat) index,
      if decide (len ≤ index)%nat then
        @Err CoreError _ (InvalidComponentMask ("index " +:+ show_nat index
          +:+ " is out of bounds for target length " +:+ show_nat len))
      else if decide (index ∈ seen) then
        Err (InvalidComponentMask ("index " +:+ show_nat index +:+ " appears multiple times"))
      else Ok ({[index]} ∪ seen)) seen mask) = true ↔
  Forall (λ i, (i < len)%nat) mask ∧ NoDup mask ∧ ∀ i, i ∈ mask → i ∉ seen.
Proof.
  revert seen. induction mask as [|i mask IH]; intros seen; cbn -[show_nat].
  { split; [|done]. intros _. split_and!; [constructor..|set_solver]. }
  rewrite Forall_cons, NoDup_cons.
  destruct (decide (len ≤ i)%nat); cbn -[show_nat]; [split; [done|intros; lia]|].
  destruct (decide (i ∈ seen)); cbn -[show_nat].
  - split; [done|]. intros (_ & _ & Hs). destruct (Hs i); [set_solver|done].
  - rewrite IH. split.
    + intros (Hf & Hn & Hs). split_and!; try done; [lia|set_solver|set_solver].
    + intros ([_ Hf] & [Hi Hn] & Hs). split_and!; try done. set_solver.
Qed.

Lemma check_mask_ok len mask :
  is_ok (check_mask len mask ≫= λ _, @Ok CoreError _ ()) = true ↔
  Forall (λ i, (i < len)%nat) mask ∧ NoDup mask.
Proof.
  assert (∀ r : res CoreError (gset nat), is_ok (r ≫= λ _, @Ok CoreError _ ()) = is_ok r) as ->
    by (by intros []).
  unfold check_mask. rewrite check_mask_spec. set_solver.
Qed.

(** Which masks a mapping may carry: none; on a vector target the
    non-empty lists of distinct indices below its length; on a scalar target
    exactly one component; never one on a matrix. *)
Theorem validate_component_mask_spec c s o n a mask :
  lookup_attribute c s o n = Some a →
  is_ok (validate_component_mask c s o n mask) = true ↔
  match mask with
  | None => True
  | Some mask =>
      match vector_len a.(current_value) with
      | Some len => mask ≠ [] ∧ Forall (λ i, (i < len)%nat) mask ∧ NoDup mask
      | None => length mask = 1%nat ∧ ∀ v, a.(current_value) ≠ Mat4f v
      end
  end.
Proof.
  intros Ha. unfold validate_component_mask. destruct mask as [[|i mask]|]; [|..|done].
  { destruct (vector_len _); simpl; naive_solver. }
  rewrite (target_attribute_value_spec _ _ _ _ _ Ha). unfold mbind at 1, res_bind at 1.
  destruct (vector_len (current_value a)) as [len|] eqn:Hl.
  - rewrite <-check_mask_ok. destruct (current_value a); try discriminate Hl; naive_solver.
  - destruct (current_value a); try discriminate Hl; try (case_decide; simpl; naive_solver).
    simpl. split; [done|]. intros [_ Hm]. by edestruct Hm.
Qed.

(** A mask that was accepted when the mapping was made never fails later:
    every scalar source, and every vector source that has the masked
    components, is transformed for a vector attribute, with or without
    relative composition. *)
Theorem accepted_mask_transforms c s o n a mask src g :
  core_wf c → lookup_attribute c s o n = Some a → is_Some (vector_len a.(current_value)) →
  validate_component_mask c s o n (Some mask) = Ok () →
  mask_source src = Some g → (∀ i, i ∈ mask → is_Some (g i)) →
  ∃ v, transform_update a src (Some mask) = Ok v ∧ type_name v = type_name a.(default_value).
Proof.
  intros Hwf Ha [len Hl] Hv Hg Hsrc.
  assert (is_ok (validate_component_mask c s o n (Some mask)) = true) as Hok by (by rewrite Hv).
  rewrite (validate_component_mask_spec _ _ _ _ _ _ Ha), Hl in Hok.
  destruct Hok as (Hne & Hlt & _). rewrite Forall_forall in Hlt.
  destruct (lookup_attribute_wf _ _ _ _ _ Hwf Ha) as (_ & Hty & _ & _).
  apply vector_len_components in Hl as (cs & Hcs & <-).
  unfold transform_update. destruct (supports_relative_composition _) eqn:Hs.
  - destruct (components_type _ (default_value a) Hty) as [bs Hbs]; [by eauto|].
    assert (length cs = length bs) as Hlen by (by eapply components_length).
    destruct (masked_vector_delta _ _ _ _ mask Hbs Hg Hne) as (d & err & Hd & Heq).
    rewrite Heq. destruct (default_delta_components _ _ _ Hbs Hd) as (ds & Hds & Hdl).
    destruct (write_masked_ok g err mask d ds Hds) as (w & ws & -> & Hw & _).
    { intros i Hi. split; [|by apply Hsrc]. rewrite Hdl, <-Hlen. by apply Hlt. }
    assert (type_name w = type_name (default_value a)) as Htw.
    { rewrite Hw. by eapply default_delta_type. }
    destruct (compose_relative_value_ok (default_value a) w) as [v Hv']; [done..|].
    exists v. split; [done|]. by apply compose_relative_value_type in Hv' as [? _].
  - destruct (masked_vector_transform _ _ _ _ mask Hcs Hg Hne) as [err ->].
    destruct (write_masked_ok g err mask _ cs Hcs) as (w & ws & -> & Hw & _).
    { intros i Hi. split; [by apply Hlt|by apply Hsrc]. }
    exists w. by rewrite Hw.
Qed.

Lemma res_foldl_no_panic {E A B} (f : B → A → res E B) b l :
  (∀ b x, f b x ≠ Panicked) → res_foldl f b l ≠ Panicked.
Proof.
  intros Hf. revert b. induction l as [|x l IH]; intros b; simpl; [done|].
  specialize (Hf b x). by destruct (f b x); simpl; [apply IH| |].
Qed.

Lemma request_check_no_panic c req : request_check c req ≠ Panicked.
Proof.
  unfold request_check, ensure_target_exists, validate_component_mask, target_attribute_value.
  destruct (im_get _ _) as [sc|]; simpl; [|done].
  destruct (objects sc !! _) as [ob|]; simpl; [|done].
  destruct (attributes ob !! _) as [a|]; simpl; [|done].
  destruct (rq_component_mask req) as [[|i mask]|]; simpl; try done.
  destruct (current_value a); simpl; try done; try (by case_match);
    unfold check_mask; match goal with |- context [res_foldl ?f ?b ?l] =>
      pose proof (res_foldl_no_panic f b l) as Hp end;
    (match goal with Hp : _ → ?r ≠ Panicked |- _ => destruct r end; try done;
     exfalso; apply Hp; [|done]; intros seen x; by repeat case_decide).
Qed.

(** The mapping that [create_mapping] replaces. *)
Definition replaces c req k : bool :=
  match owner c req with Some m => bool_decide (k = m.(m_id)) | None => false end.

(** C19. A mapping is created exactly when the runtime is not recording, the
    target exists, the mask is valid and the target has no active owner, or an
    unlocked one whose lease can be reclaimed. The new mapping is then
    active under the drawn identifier, the reclaimed owner is gone and every
    other mapping is as it was; a refused request changes nothing, and none
    panics. *)
Theorem create_mapping_spec id req now c :
  mapping_ids_ok c →
  let c' := exec (create_mapping id req now) c in
  let r := result (create_mapping id req now) c in
  (r = Ok id ↔ c.(mode) ≠ Recording ∧ request_check c req = Ok () ∧
     ∀ m, owner c req = Some m → m.(lock) = false ∧ can_reclaim c m now = true) ∧
  (r = Ok id → ∀ k, im_get k c'.(mappings) =
     if decide (k = id) then Some (new_mapping id req now)
     else if replaces c req k then None else im_get k c.(mappings)) ∧
  (is_ok r = false → c' = c) ∧ r ≠ Panicked.
Proof.
  intros Hids c' r. subst c' r. rewrite create_mapping_outcome by done.
  assert (request_check c req ≠ Panicked) as Hnp by apply request_check_no_panic.
  unfold create_result, replaces. destruct (decide (mode c = Recording)) as [|Hm].
  { split_and!; simpl; try done. split; [done|]. by intros [? _]. }
  destruct (request_check c req) as [[]|e|] eqn:Hc; [| |done].
  2: { split_and!; simpl; try done. split; [done|]. by intros (_ & ? & _). }
  destruct (owner c req) as [m|] eqn:Ho; simpl.
  - destruct (lock m) eqn:Hl; simpl.
    { split_and!; try done. split; [done|]. intros (_ & _ & H). destruct (H m); congruence. }
    destruct (can_reclaim c m now) eqn:Hr; simpl.
    + split_and!; try done; [naive_solver|]. intros _ k.
      rewrite im_get_insert, im_get_shift_remove. case_decide; [done|].
      by case_decide; [rewrite bool_decide_eq_true_2|rewrite bool_decide_eq_false_2].
    + split_and!; try done. split; [done|]. intros (_ & _ & H). destruct (H m); congruence.
  - split_and!; try done. intros _ k. by rewrite im_get_insert.
Qed.

(** ** Leases *)

(** The scheduler releases exactly the active mappings whose device is
    disconnected and whose last heartbeat is a lease timeout old; it never
    touches another mapping, nor anything else of the runtime. *)
Theorem scheduler_tick_spec now c :
  let c' := exec (scheduler_tick now) c in
  (∀ k, im_get k c'.(mappings) = tick_mapping c now <$> im_get k c.(mappings)) ∧
  (∀ m, tick_mapping c now m =
     if decide (m.(state) = MActive ∧ m.(source_device) ∉ c.(connected_devices) ∧
                c.(lease).(timeout_ns) ≤ u64_saturating_sub now m.(last_heartbeat_ns))
     then set_state MReleased m else m) ∧
  c' = set_mappings c'.(mappings) c.
Proof.
  split_and!; [intros k; apply im_get_values_mut| |done].
  intros m. unfold tick_mapping. destruct (decide (state m ≠ MActive)) as [Hs|Hs].
  - rewrite decide_False by tauto. done.
  - destruct (decide (source_device m ∈ connected_devices c)) as [Hd|Hd].
    + rewrite bool_decide_eq_true_2 by done. simpl. rewrite decide_False by tauto. done.
    + rewrite bool_decide_eq_false_2 by done. simpl.
      destruct (decide (c.(lease).(timeout_ns) ≤ u64_saturating_sub now m.(last_heartbeat_ns))).
      * rewrite bool_decide_eq_true_2 by done. rewrite decide_True; [done|].
        split_and!; [by apply dec_stable|done..].
      * rewrite bool_decide_eq_false_2 by done. rewrite decide_False by tauto. done.
Qed.

(** A call after which the mapping [k] is still stored. *)
Definition keeping k c c' : Prop := core_step c c' ∧ is_Some (im_get k c'.(mappings)).

Lemma release_step k op c m :
  mapping_ids_ok c → op_ok c op → im_get k c.(mappings) = Some m → m.(state) = MReleased →
  is_Some (im_get k (exec_op op c).(mappings)) →
  ∃ m', im_get k (exec_op op c).(mappings) = Some m' ∧ m'.(state) = MReleased.
Proof.
  intros Hids Hop Hk Hm [m' Hk']. exists m'. split; [done|].
  destruct (is_mapping_op op) eqn:Hmop.
  - destruct op as [| | | | | |id req now|id b|id|id req now| | | | |]; try discriminate Hmop;
      cbn [exec_op op_ok] in *.
    + assert (k ≠ id) as Hne by congruence.
      rewrite create_mapping_outcome in Hk' by done. unfold create_result in Hk'.
      repeat case_match; simpl in Hk'; try congruence; rewrite im_get_insert, decide_False in Hk' by done;
        rewrite ?im_get_shift_remove in Hk'; try case_decide; congruence.
    + rewrite set_mapping_lock_outcome in Hk'. destruct (decide (mode c = _)); [simpl in *; congruence|].
      destruct (im_get id _); simpl in Hk'; [|congruence]. rewrite im_get_get_mut, Hk in Hk'.
      destruct (decide (k = id)); simplify_eq/=; done.
    + rewrite remove_mapping_outcome in Hk'. destruct (decide (mode c = _)); [simpl in *; congruence|].
      destruct (im_get id _); simpl in Hk'; [|congruence]. rewrite im_get_shift_remove, Hk in Hk'.
      destruct (decide (k = id)); simplify_eq/=; done.
    + rewrite update_mapping_outcome in Hk'. destruct (decide (mode c = _)); [simpl in *; congruence|].
      destruct (request_check c req); simpl in Hk'; [|congruence..].
      destruct (im_get id _) as [m0|]; simpl in Hk'; [|congruence].
      destruct (lock m0); simpl in Hk'; [congruence|]. rewrite im_get_get_mut, Hk in Hk'.
      destruct (decide (k = id)); simplify_eq/=; done.
  - destruct (op_volatile op c Hmop) as (f & Hf & He).
    rewrite im_get_spec, He, assoc_get_values_mut, <-im_get_spec, Hk in Hk'. injection Hk' as <-.
    destruct (Hf m) as [_ Ha]. destruct (state (f m)); [|done]. rewrite Ha in Hm; done.
Qed.

(** Release is final: whatever calls follow, a released mapping stays
    released for as long as it is stored, so a device that comes back late
    has to be mapped again. *)
Theorem released_is_final k c c' m :
  core_wf c → rtc (keeping k) c c' →
  im_get k c.(mappings) = Some m → m.(state) = MReleased →
  ∃ m', im_get k c'.(mappings) = Some m' ∧ m'.(state) = MReleased.
Proof.
  intros Hwf Hs. revert m Hwf. induction Hs as [c|c c1 c2 [(op & Hop & ->) Hk] _ IH];
    intros m Hwf Hm Hr; [by eauto|].
  destruct (release_step k op c m) as (m1 & Hm1 & Hr1); [apply Hwf|done..|].
  eapply IH; eauto. by apply exec_op_wf.
Qed.
End laws.

(** ** Instances *)

Lemma ready_wf : core_wf ready.
Proof. apply (reachable_wf (H:=decimal_uuid) cfg ready ready_reachable). Qed.

Definition position0 : SceneAttribute := SceneAttribute_new "position" (f32_vec3 0 0 0).

Lemma validate_component_mask_spec_witness :
  is_ok (validate_component_mask ready 1%N 2%N "position" (Some [2%nat; 0%nat])) = true ∧
  is_ok (validate_component_mask ready 1%N 2%N "position" (Some [1%nat; 1%nat])) = false.
Proof.
  split.
  - apply (validate_component_mask_spec ready 1%N 2%N "position" position0); [reflexivity|].
    simpl. split_and!; [done|repeat constructor|repeat constructor; set_solver].
  - apply not_true_is_false. intros H.
    apply (validate_component_mask_spec ready 1%N 2%N "position" position0) in H; [|reflexivity].
    simpl in H. destruct H as (_ & _ & H). apply NoDup_cons in H as [H _]. set_solver.
Defined.

Lemma accepted_mask_transforms_witness : ∃ v,
  transform_update position0 (Int32 3) (Some [1%nat]) = Ok v ∧ type_name v = "vec3f".
Proof.
  apply (accepted_mask_transforms ready 1%N 2%N "position" position0 [1%nat] (Int32 3)
    (λ _, Some (F32.of_Z 3))); [apply ready_wf|reflexivity|by eexists|reflexivity|reflexivity|].
  intros i _. by eexists.
Defined.

(** Device 8 asks for the position that the connected device 7 drives. *)
Lemma create_mapping_spec_witness :
  result (create_mapping 102%N (bind 8%N "pose" "position") 10) ready ≠ Ok 102%N.
Proof.
  intros H. destruct (create_mapping_spec 102%N (bind 8%N "pose" "position") 10 ready) as ([Hr _] & _).
  { apply (wf_mapping_ids _ ready_wf). }
  destruct (Hr H) as (_ & _ & Ho).
  destruct (owner ready (bind 8%N "pose" "position")) as [m|] eqn:E; [|discriminate E].
  destruct (Ho m eq_refl) as [_ Hc]. vm_compute in E. injection E as <-. discriminate Hc.
Defined.

(** Device 7 stays away past its lease and comes back. *)
Definition lost : core :=
  run (H:=decimal_uuid) [OpDisconnected 7%N 0; OpTick 2000000000] ready.

Lemma lost_steps : rtc (core_step (H:=decimal_uuid)) ready lost.
Proof. by apply run_steps. Qed.

Lemma released_is_final_witness : ∃ m',
  im_get 100%N (exec_op (H:=decimal_uuid) (OpConnected 7%N) lost).(mappings) = Some m' ∧
  m'.(state) = MReleased.
Proof.
  destruct (im_get 100%N lost.(mappings)) as [m|] eqn:E; [|discriminate E].
  apply (released_is_final (fmt:=decimal_uuid) 100%N lost _ m); [|..|done|].
  - apply (reachable_wf (H:=decimal_uuid) cfg). unfold reachable. etrans; [|apply lost_steps].
    apply ready_reachable.
  - eapply rtc_l; [|apply rtc_refl]. split; [by exists (OpConnected 7%N)|by eexists].
  - vm_compute in E. by injection E as <-.
Defined.

(** The grace period of a disconnected owner is cut short by the
    scheduler: with the default lease, three seconds after device 7 left (the
    grace is five) its target is still protected, unless a scheduler tick ran
    after the two-second heartbeat timeout, which releases the mapping and lets
    device 8 take the target at once. *)
Theorem scheduler_cuts_reclaim_grace :
  let away := exec_op (H:=decimal_uuid) (OpDisconnected 7%N 0) ready in
  let take := create_mapping 102%N (bind 8%N "pose" "position") 3000000000 in
  cfg.(reclaim_grace_ns) = 5000000000 ∧
  result take away = Err (MappingDenied "target attribute already owned by active mapping") ∧
  result take (exec (scheduler_tick 2000000000) away) = Ok 102%N.
Proof. split_and!; vm_compute; reflexivity. Qed.
