(* ===== verification/RuntimeUpdates.v ===== *)
(** Update batches and baseline actions: all that they change, what an update
    through a component mask gives, and that relative updates do not drift. *)

From S2P Require Import Prelude Float IndexMap Protocol Model Transform Runtime RuntimeSpec.
From S2P Require Import Fixtures RuntimeInv RuntimeLaws.
From stdpp Require Import relations.

Local Open Scope Z_scope.

Section updates.
Context {M : Type → Type} `{!IndexMap Uuid M} {fmt : UuidFormat}.
Implicit Types c : RuntimeCore M.

(** Device [d] has an active mapping onto the attribute. *)
Definition drives c (d : Uuid) (s : SceneId) (o : ObjectId) (n : string) : Prop :=
  ∃ k m, im_get k c.(mappings) = Some m ∧ m.(state) = MActive ∧ m.(source_device) = d ∧
    target m = (s, o, n).

(** The fields that no batch touches. *)
Definition same_setup c c' : Prop :=
  c'.(mode) = c.(mode) ∧ c'.(active_scene) = c.(active_scene) ∧ c'.(lease) = c.(lease) ∧
  c'.(connected_devices) = c.(connected_devices).

Lemma feeds_spec d a out m :
  feeds d a out m = true ↔
    m.(state) = MActive ∧ m.(source_device) = d ∧
    source_output_matches m.(source_output) d out = true ∧ m.(target_scene) = a.
Proof.
  unfold feeds. rewrite !andb_true_iff, !bool_decide_eq_true. naive_solver.
Qed.

(** The heartbeat of a batch does not change what drives what. *)
Lemma heartbeat_drives d now c d' s o n :
  drives (exec (heartbeat d now) c) d' s o n → drives c d' s o n.
Proof.
  intros (k & m & Hk & Hm & Hd & Ht). cbn in Hk. rewrite im_get_values_mut in Hk.
  destruct (im_get k _) as [m0|] eqn:E; simpl in Hk; [|done]. injection Hk as <-.
  exists k, m0. split; [done|]. revert Hm Hd Ht. by destruct (fed_by d m0).
Qed.

(** The heartbeat of a mapping, as [apply_updates] writes it: the active
    mappings of the device are marked as heard from at [now]. *)
Definition beat (d : Uuid) (now : Z) (m : Mapping) : Mapping :=
  if fed_by d m then set_disconnected None (set_heartbeat now m) else m.

(** The identifiers and names of a scene and of an object of it. *)
Definition identities c (s : SceneId) (o : ObjectId) :=
  (λ sc, (sc.(sc_id), sc.(sc_name), (λ ob, (ob.(obj_id), ob.(obj_name))) <$> sc.(objects) !! o))
    <$> im_get s c.(scenes).

Lemma identities_write c m v s o : identities (write_current c m v) s o = identities c s o.
Proof.
  unfold identities, write_current, update_attribute. simpl. rewrite im_get_get_mut.
  case_decide as Hs; [subst|done]. destruct (im_get (target_scene m) _) as [sc|]; simpl; [|done].
  do 2 f_equal. destruct (decide (o = target_object m)) as [->|Ho].
  - rewrite lookup_alter_eq. by destruct (objects sc !! _).
  - by rewrite lookup_alter_ne.
Qed.

(** The counter of the world advances by one for every batch that was
    applied outside idle mode, and for no other; an idle batch is a heartbeat
    that applies nothing. *)
Theorem apply_updates_ticks d us now c :
  (exec (apply_updates d us now) c).(world).(tick_count) =
    (if is_ok (result (apply_updates d us now) c) && negb (bool_decide (c.(mode) = Idle))
     then wrap64 (c.(world).(tick_count) + 1) else c.(world).(tick_count)) ∧
  (c.(mode) = Idle → apply_updates d us now c = (exec (heartbeat d now) c, Ok ∅)).
Proof.
  split; [|intros Hm; unfold apply_updates; unfold_prog; cbn; by rewrite decide_True].
  unfold apply_updates. unfold_prog. cbn [heartbeat modify fst snd].
  set (c1 := set_mappings _ c). assert (world c1 = world c) as Hw by done.
  change (mode c1) with (mode c). change (active_scene c1) with (active_scene c).
  destruct (decide (mode c = Idle)) as [Hm|Hm]; simpl.
  { by rewrite bool_decide_eq_true_2. }
  destruct (active_scene c) as [a|]; simpl; [|done].
  assert (world (exec (prog_foldl (apply_update d a) ∅ us) c1) = world c) as Hl.
  { apply (prog_foldl_inv (λ c', world c' = world c)); [done|]. intros ap u c2 _ Hc2.
    destruct (apply_update_cases d a ap u c2) as [(r & -> & _)|(m & at' & v & ap' & _ & ->)]; done. }
  rewrite bool_decide_eq_false_2 by done.
  destruct (prog_foldl _ _ _ _) as [c2 [ap| |]]; simpl in *; by rewrite Hl.
Qed.

(** C12. All that a batch changes: the current values of live attributes of
    the active scene that an active mapping of the sending device drives, the
    heartbeat of the device's active mappings, and the tick counter, by one,
    when the batch was applied outside idle mode.  Every other attribute, the
    defaults, filters, flags, names and identifiers, what the mappings bind
    and their order, the mode, the active scene, the lease and the devices
    stay as they were, even when the batch fails half way; in idle mode no
    value changes. *)
Theorem apply_updates_frame d us now c :
  let c' := exec (apply_updates d us now) c in
  same_setup c c' ∧
  c'.(world).(tick_count) =
    (if is_ok (result (apply_updates d us now) c) && negb (bool_decide (c.(mode) = Idle))
     then wrap64 (c.(world).(tick_count) + 1) else c.(world).(tick_count)) ∧
  im_entries c'.(mappings) = assoc_values_mut (beat d now) (im_entries c.(mappings)) ∧
  (∀ s o, identities c' s o = identities c s o) ∧
  ∀ s o n,
    match lookup_attribute c s o n with
    | None => lookup_attribute c' s o n = None
    | Some a => ∃ v, lookup_attribute c' s o n = Some (set_current_value v a) ∧
        (v = a.(current_value) ∨
         a.(live_enabled) = true ∧ c.(mode) ≠ Idle ∧ c.(active_scene) = Some s ∧ drives c d s o n)
    end.
Proof.
  set (P c' := same_setup c c' ∧ c'.(mappings) = (exec (heartbeat d now) c).(mappings) ∧
    (∀ s o, identities c' s o = identities c s o) ∧ ∀ s o n,
    match lookup_attribute c s o n with
    | None => lookup_attribute c' s o n = None
    | Some a => ∃ v, lookup_attribute c' s o n = Some (set_current_value v a) ∧
        (v = a.(current_value) ∨
         a.(live_enabled) = true ∧ c.(mode) ≠ Idle ∧ c.(active_scene) = Some s ∧ drives c d s o n)
    end).
  enough (P (exec (apply_updates d us now) c)) as (Hsame & Hms & Hid & Hl).
  { split_and!; [done|apply apply_updates_ticks| |done|done].
    rewrite Hms. apply im_entries_values_mut. }
  apply apply_updates_inv.
  - split_and!; [done..|]. intros s o n.
    change (lookup_attribute (exec (heartbeat d now) c) s o n) with (lookup_attribute c s o n).
    destruct (lookup_attribute c s o n) as [a|]; [|done]. exists (current_value a).
    split; [by destruct a|by left].
  - intros c1 a u m attr v Hmode Ha _ (Hs & Hms & Hid & Hl) (Hf & Hat & Hlive & _).
    split_and!; [by destruct Hs as (?&?&?&?)|done|intros s o; by rewrite identities_write|].
    intros s o n. specialize (Hl s o n). rewrite lookup_attribute_write.
    destruct (lookup_attribute c s o n) as [b|] eqn:Eb; [|by case_decide; [rewrite Hl|]].
    destruct Hl as (w & Hw & Hor). case_decide as Hd; [|by eauto].
    destruct Hd as (-> & -> & ->). rewrite Hw. exists v. split; [done|]. right.
    rewrite Hw in Hat. injection Hat as <-. apply find_elem in Hf as [Hin Hf].
    apply feeds_spec in Hf as (Hst & Hdev & _ & Hsc). rewrite Hms in Hin.
    apply im_elem_values in Hin as [k Hk]. split_and!; [done..|by rewrite Hsc|].
    eapply heartbeat_drives. exists k, m. by split_and!.
  - intros c1 (?&?&?&?). by split_and!.
Qed.

(** ** One update, in full *)

(** What [u] finds: the mapping that feeds it, the object and the attribute it
    is bound to. *)
Definition update_target (d : Uuid) (a : SceneId) (u : AttributeUpdate) c (m : Mapping)
    (sc : Scene) (ob : SceneObject) (attr : SceneAttribute) : Prop :=
  find (feeds d a u.(output_attribute)) (im_values c.(mappings)) = Some m ∧
  im_get m.(target_scene) c.(scenes) = Some sc ∧ sc.(objects) !! m.(target_object) = Some ob ∧
  ob.(attributes) !! m.(target_attribute) = Some attr.

Definition update_value (u : AttributeUpdate) (m : Mapping) (attr : SceneAttribute) :
    res CoreError AttributeValue :=
  t ← transform_update attr u.(value) m.(component_mask);
  apply_filters attr.(current_value) t attr.(filter_chain).

Lemma apply_update_eq d a ap u c m sc ob attr :
  update_target d a u c m sc ob attr →
  apply_update d a ap u c =
    if negb attr.(live_enabled) then (c, Ok ap)
    else match update_value u m attr with
         | Ok v => (write_current c m v, Ok (<[ob.(obj_name) +:+ "." +:+ attr.(attr_name) := v]> ap))
         | Err e => (c, Err e)
         | Panicked => (c, Panicked)
         end.
Proof.
  intros (Hf & Hsc & Hob & Hat). unfold apply_update, update_value. unfold_prog. cbn.
  rewrite Hf. cbn. rewrite Hsc. cbn. rewrite Hob. cbn. rewrite Hat. cbn.
  destruct (live_enabled attr); cbn; [|done]. unfold res_bind.
  destruct (transform_update _ _ _); cbn; [|done..]. by destruct (apply_filters _ _ _).
Qed.

(** A batch of one, outside idle mode. *)
Lemma apply_updates_one d u now a c :
  c.(mode) ≠ Idle → c.(active_scene) = Some a →
  apply_updates d [u] now c =
    match apply_update d a ∅ u (exec (heartbeat d now) c) with
    | (c', Ok ap) => (set_world (mkStats (wrap64 (c'.(world).(tick_count) + 1))) c', Ok ap)
    | (c', Err e) => (c', Err e)
    | (c', Panicked) => (c', Panicked)
    end.
Proof.
  intros Hm Ha. unfold apply_updates. unfold_prog. cbn [heartbeat modify fst snd].
  set (c1 := set_mappings _ c). change (mode c1) with (mode c).
  change (active_scene c1) with (active_scene c). rewrite Ha, decide_False by done. cbn.
  unfold mbind, prog_bind, mret, prog_ret. by destruct (apply_update d a ∅ u c1) as [c2 [| |]].
Qed.

Lemma find_fmap {A} (p : A → bool) (f : A → A) (l : list A) :
  (∀ x, p (f x) = p x) → find p (f <$> l) = f <$> find p l.
Proof.
  intros Hp. induction l as [|x l IH]; simpl; [done|]. rewrite Hp. by destruct (p x).
Qed.

Lemma beat_target d now m : target (beat d now m) = target m.
Proof. unfold beat. by case_match. Qed.

Lemma heartbeat_target d a u now c m sc ob attr :
  update_target d a u c m sc ob attr →
  update_target d a u (exec (heartbeat d now) c) (beat d now m) sc ob attr.
Proof.
  intros (Hf & Hsc & Hob & Hat). pose proof (beat_target d now m) as Ht. unfold target in Ht.
  injection Ht as Hs Ho Hn. unfold update_target. rewrite Hs, Ho, Hn.
  split_and!; [|done..]. cbn. rewrite im_values_values_mut.
  rewrite (find_fmap _ (beat d now)); [by rewrite Hf|].
  intros x. unfold beat, feeds. by destruct (fed_by d x).
Qed.

(** After the write the update still finds the same attribute, with the value
    written. *)
Lemma write_target d a u c m sc ob attr v w :
  update_target d a u c m sc ob attr →
  ∃ sc' ob', update_target d a u (set_world w (write_current c m v)) m sc' ob' (set_current_value v attr) ∧
    ob'.(obj_name) = ob.(obj_name).
Proof.
  intros (Hf & Hsc & Hob & Hat). unfold update_target, write_current, update_attribute. cbn.
  rewrite im_get_get_mut, decide_True, Hsc by done. cbn.
  eexists _, _. split; [split_and!; [done|reflexivity|..]|].
  - cbn. rewrite lookup_alter_eq, Hob. reflexivity.
  - cbn. by rewrite lookup_alter_eq, Hat.
  - done.
Qed.

Lemma lookup_target d a u c m sc ob attr :
  update_target d a u c m sc ob attr →
  lookup_attribute c m.(target_scene) m.(target_object) m.(target_attribute) = Some attr.
Proof. intros (_ & Hsc & Hob & Hat). unfold lookup_attribute. rewrite Hsc. cbn. by rewrite Hob. Qed.

(** The filters that do not look at the current value. *)
Definition history_free (f : AttributeFilter) : bool :=
  match f with Passthrough | Clamp _ _ => true | Ema _ | Deadband _ => false end.

Lemma apply_filters_history_free fs prev prev' v :
  forallb history_free fs = true → apply_filters prev v fs = apply_filters prev' v fs.
Proof.
  unfold apply_filters. revert v. induction fs as [|f fs IH]; intros v; [done|]. simpl.
  intros [Hf Hfs]%andb_true_iff.
  replace (apply_filter prev v f) with (apply_filter prev' v f) by by destruct f.
  destruct (apply_filter prev' v f); simpl; [by apply IH|done..].
Qed.

(** C27. Relative updates do not drift: outside idle mode, for an attribute
    whose baseline composes relatively and whose filters do not look at the
    current value (no moving average, no dead band), sending the same single
    sample again, at any later time, applies the same values and leaves every
    attribute as the first one left it, because the result is composed from
    the baseline and not from the current value. *)
Theorem relative_update_no_drift d a u now now' c ap m sc ob attr :
  c.(mode) ≠ Idle → c.(active_scene) = Some a → update_target d a u c m sc ob attr →
  supports_relative_composition attr.(default_value) = true →
  forallb history_free attr.(filter_chain) = true →
  result (apply_updates d [u] now) c = Ok ap →
  let c1 := exec (apply_updates d [u] now) c in
  result (apply_updates d [u] now') c1 = Ok ap ∧
  ∀ s o n, lookup_attribute (exec (apply_updates d [u] now') c1) s o n = lookup_attribute c1 s o n.
Proof.
  intros Hm Ha Htg Hrel Hfc Hok c1. subst c1. revert Hok.
  pose proof (heartbeat_target _ _ _ now _ _ _ _ _ Htg) as Ht1.
  rewrite (apply_updates_one d u now a c), (apply_update_eq _ _ _ _ _ _ _ _ _ Ht1) by done.
  set (h := exec (heartbeat d now) c) in *. set (m1 := beat d now m) in *.
  destruct (live_enabled attr) eqn:Hlive; cbn [negb].
  - destruct (update_value u m1 attr) as [v| |] eqn:Hv; cbn [fst snd]; [|done..]. intros [= <-].
    set (w := mkStats _). set (c1 := set_world w (write_current h m1 v)).
    destruct (write_target _ _ _ _ _ _ _ _ v w Ht1)
      as (sc' & ob' & Hw & Hn). fold c1 in Hw.
    pose proof (heartbeat_target _ _ _ now' _ _ _ _ _ Hw) as Ht2.
    rewrite (apply_updates_one d u now' a c1), (apply_update_eq _ _ _ _ _ _ _ _ _ Ht2) by done.
    cbn [live_enabled set_current_value]. rewrite Hlive. cbn [negb].
    assert (update_value u (beat d now' m1) (set_current_value v attr) = Ok v) as ->.
    { revert Hv. unfold update_value, transform_update. cbn. rewrite Hrel.
      assert (component_mask (beat d now' m1) = component_mask m1) as -> by (unfold beat; by case_match).
      intros Hv. apply res_bind_ok in Hv as (t & Ht & Hp). apply res_bind_ok. exists t.
      split; [exact Ht|]. rewrite <-Hp. by apply apply_filters_history_free. }
    cbn. rewrite Hn. split; [done|]. intros s o n.
    change (lookup_attribute (set_world ?w ?x) s o n) with (lookup_attribute x s o n).
    rewrite lookup_attribute_write. pose proof (beat_target d now' m1) as Hbt. unfold target in Hbt.
    injection Hbt as -> -> ->. case_decide as Hd; [|done]. destruct Hd as (-> & -> & ->).
    change (lookup_attribute (set_mappings ?w ?x) ?s ?o ?n) with (lookup_attribute x s o n).
    by rewrite (lookup_target _ _ _ _ _ _ _ _ Hw).
  - cbn [fst snd]. intros [= <-]. set (w := mkStats _). set (c1 := set_world w h).
    assert (update_target d a u c1 m1 sc ob attr) as Hw by done.
    pose proof (heartbeat_target _ _ _ now' _ _ _ _ _ Hw) as Ht2.
    rewrite (apply_updates_one d u now' a c1), (apply_update_eq _ _ _ _ _ _ _ _ _ Ht2) by done.
    rewrite Hlive. done.
Qed.

(** ** Component masks *)

(** The masked relative result exists only when every index does. *)
Lemma relative_mask_ok b bs src g mask d :
  is_additive_vector b = true → components b = Some bs → mask_source src = Some g → mask ≠ [] →
  apply_mapping_delta_transform b src (Some mask) = Ok d →
  ∀ i, i ∈ mask → (i < length bs)%nat ∧ is_Some (g i).
Proof.
  intros Ha Hb Hg Hne. destruct (masked_vector_delta _ _ _ _ _ Hb Hg Hne) as (d0 & err & Hd0 & ->).
  destruct (additive_delta b bs Ha Hb) as (d0' & ds0 & Hd0' & _ & Hc0 & <- & _).
  rewrite Hd0 in Hd0'. injection Hd0' as <-. intros Hd i Hi. by eapply write_masked_inv.
Qed.

(** [v] is the baseline [bs] with the source [g] added at the indices of the
    mask; the other components equal their baselines, unless these are NaN. *)
Definition baseline_plus (bs : list f32) (g : nat → option f32) (mask : list nat)
    (v : AttributeValue) : Prop :=
  ∃ vs, components v = Some vs ∧ length vs = length bs ∧
    ∀ j x, bs !! j = Some x → ∃ y, vs !! j = Some y ∧
      if decide (j ∈ mask) then ∃ z, g j = Some z ∧ y = F32.add x z
      else is_nan x = false → feq y x = true.

Lemma masked_update_value u m attr mask bs g :
  attr.(filter_chain) = [Passthrough] → m.(component_mask) = Some mask → mask ≠ [] →
  is_additive_vector attr.(default_value) = true → components attr.(default_value) = Some bs →
  mask_source u.(value) = Some g →
  (∀ v, update_value u m attr = Ok v → ∀ i, i ∈ mask → (i < length bs)%nat ∧ is_Some (g i)) ∧
  ((∀ i, i ∈ mask → (i < length bs)%nat ∧ is_Some (g i)) →
     ∃ v, update_value u m attr = Ok v ∧ baseline_plus bs g mask v).
Proof.
  intros Hfc Hmask Hne Hadd Hbs Hg.
  assert (update_value u m attr =
    (dl ← apply_mapping_delta_transform attr.(default_value) u.(value) (Some mask);
     compose_relative_value attr.(default_value) dl)) as ->.
  { unfold update_value, transform_update. rewrite Hmask, Hfc.
    replace (supports_relative_composition _) with true by by destruct (default_value attr).
    destruct (apply_mapping_delta_transform _ _ _) as [dl| |]; [|done..]. cbn.
    by destruct (compose_relative_value _ _). }
  split; [intros v (dl & Hdl & _)%res_bind_ok; by eapply relative_mask_ok|]. intros Hi.
  destruct (relative_mask_composition _ _ _ _ _ Hadd Hbs Hg Hne Hi) as (dl & v & vs & Hdl & Hv & Hvs).
  exists v. split; [by rewrite Hdl|by exists vs].
Qed.

(** C34. An update through a component mask: outside idle mode, for a live
    [vec2f], [vec3f] or [vec4f] attribute that only passes values through, the
    batch is applied exactly when every index of the mask exists in the
    target and in the source (a scalar source has every index); the
    components of the mask then become baseline + source, every other
    component equals its baseline (unless that is NaN), whatever the
    attribute held before. *)
Theorem masked_update_components d a u now c m sc ob attr mask bs g :
  c.(mode) ≠ Idle → c.(active_scene) = Some a → update_target d a u c m sc ob attr →
  attr.(live_enabled) = true → attr.(filter_chain) = [Passthrough] →
  m.(component_mask) = Some mask → mask ≠ [] →
  is_additive_vector attr.(default_value) = true → components attr.(default_value) = Some bs →
  mask_source u.(value) = Some g →
  let c' := exec (apply_updates d [u] now) c in
  (is_ok (result (apply_updates d [u] now) c) = true ↔
     ∀ i, i ∈ mask → (i < length bs)%nat ∧ is_Some (g i)) ∧
  (is_ok (result (apply_updates d [u] now) c) = true → ∃ v,
     lookup_attribute c' m.(target_scene) m.(target_object) m.(target_attribute)
       = Some (set_current_value v attr) ∧ baseline_plus bs g mask v).
Proof.
  intros Hm Ha Htg Hlive Hfc Hmask Hne Hadd Hbs Hg c'. subst c'.
  pose proof (heartbeat_target _ _ _ now _ _ _ _ _ Htg) as Ht1.
  rewrite (apply_updates_one d u now a c), (apply_update_eq _ _ _ _ _ _ _ _ _ Ht1) by done.
  rewrite Hlive. cbn [negb].
  destruct (masked_update_value u (beat d now m) attr mask bs g) as [Hinv Hok]; try done.
  { rewrite <-Hmask. unfold beat. by case_match. }
  destruct (update_value u (beat d now m) attr) as [v| |]; cbn [fst snd is_ok];
    [|split; [split; [done|]|done]; intros Hi; by destruct (Hok Hi) as (? & [=] & _)..].
  split; [split; [intros _; by eapply Hinv|done]|]. intros _.
  destruct (Hok (Hinv v eq_refl)) as (v' & [= <-] & Hv). exists v. split; [|done].
  pose proof (beat_target d now m) as Hbt. unfold target in Hbt. injection Hbt as Hs Ho Hn.
  change (lookup_attribute (set_world ?w ?x) ?s ?o ?n) with (lookup_attribute x s o n).
  rewrite lookup_attribute_write, Hs, Ho, Hn, decide_True by done.
  change (lookup_attribute (exec (heartbeat d now) c) ?s ?o ?n) with (lookup_attribute c s o n).
  by rewrite (lookup_target _ _ _ _ _ _ _ _ Htg).
Qed.

(** ** Baselines *)

(** Every float of every attribute of the scene, current and default, is a
    number. *)
Definition scene_nan_free (s : Scene) : bool :=
  forallb (λ ob : Uuid * SceneObject, forallb (λ a : string * SceneAttribute,
      value_nan_free a.2.(current_value) && value_nan_free a.2.(default_value))
    (map_to_list ob.2.(attributes))) (map_to_list s.(objects)).

Lemma scene_nan_free_lookup s o ob n a :
  scene_nan_free s = true → s.(objects) !! o = Some ob → ob.(attributes) !! n = Some a →
  value_nan_free a.(current_value) = true ∧ value_nan_free a.(default_value) = true.
Proof.
  unfold scene_nan_free. rewrite forallb_forall. intros Hs Ho Ha.
  specialize (Hs (o, ob)). rewrite <-list_elem_of_In, elem_of_map_to_list in Hs. specialize (Hs Ho).
  rewrite forallb_forall in Hs. specialize (Hs (n, a)).
  rewrite <-list_elem_of_In, elem_of_map_to_list in Hs. by apply andb_true_iff, Hs.
Qed.

Lemma count_attributes_zero p ob :
  (∀ n a, ob.(attributes) !! n = Some a → p a = false) → count_attributes p ob = 0%nat.
Proof.
  intros Hp. unfold count_attributes. apply map_size_empty_iff, map_empty. intros n.
  apply map_lookup_filter_None. right. intros a Ha. simpl. rewrite (Hp n a Ha). done.
Qed.

Lemma count_scene_zero p s :
  (∀ o ob n a, s.(objects) !! o = Some ob → ob.(attributes) !! n = Some a → p a = false) →
  count_scene p s = 0%nat.
Proof.
  unfold count_scene. generalize (objects s). intros os Hp. revert Hp.
  induction os as [|o ob os Ho Hfold IH] using map_first_key_ind; intros Hp; [done|].
  rewrite map_fold_insert_first_key by done. rewrite IH.
  - rewrite count_attributes_zero; [done|]. intros n a. apply (Hp o). apply lookup_insert_eq.
  - intros o' ob' n a Ho'. apply (Hp o'). rewrite lookup_insert_ne; [done|]. congruence.
Qed.

Lemma map_scene_lookup f s o ob n a :
  (map_scene f s).(objects) !! o = Some ob → ob.(attributes) !! n = Some a →
  ∃ ob0 a0, s.(objects) !! o = Some ob0 ∧ ob0.(attributes) !! n = Some a0 ∧ a = f a0.
Proof.
  simpl. rewrite lookup_fmap. destruct (objects s !! o) as [ob0|] eqn:Eo; simpl; [|done].
  intros [= <-]. simpl. rewrite lookup_fmap. destruct (attributes ob0 !! n) as [a0|] eqn:Ea; simpl; [|done].
  intros [= <-]. eauto.
Qed.

Lemma reset_attribute_settled a :
  value_nan_free a.(default_value) = true → differs (reset_attribute a) = false.
Proof.
  intros Hn. unfold reset_attribute. destruct (differs a) eqn:E; [|done].
  unfold differs. simpl. by rewrite value_eqb_refl, Hn.
Qed.

Lemma commit_attribute_settled a :
  value_nan_free a.(current_value) = true → differs (commit_attribute a) = false.
Proof.
  intros Hn. unfold commit_attribute, differs, baseline_differs.
  destruct (value_eqb (default_value a) (current_value a)) eqn:E; simpl.
  - by rewrite value_eqb_sym, E.
  - by rewrite value_eqb_refl, Hn.
Qed.

Lemma lookup_attribute_map f id c s o n :
  lookup_attribute (set_scenes (im_get_mut (map_scene f) id c.(scenes)) c) s o n =
    if decide (s = id) then f <$> lookup_attribute c s o n else lookup_attribute c s o n.
Proof.
  unfold lookup_attribute. simpl. rewrite im_get_get_mut. case_decide; [|done].
  destruct (im_get s _) as [sc|]; simpl; [|done]. rewrite lookup_fmap.
  destruct (objects sc !! o) as [ob|]; simpl; [|done]. apply lookup_fmap.
Qed.

Lemma reset_scene_outcome id c sc :
  im_get id c.(scenes) = Some sc →
  reset_scene_to_baseline id c =
    (set_scenes (im_get_mut (map_scene reset_attribute) id c.(scenes)) c,
     Ok (wrap32 (Z.of_nat (count_scene differs sc)))).
Proof. intros H. unfold reset_scene_to_baseline. unfold_prog. cbn. by rewrite H. Qed.

Lemma commit_scene_outcome id c sc :
  im_get id c.(scenes) = Some sc →
  commit_scene_baseline id c =
    (set_scenes (im_get_mut (map_scene commit_attribute) id c.(scenes)) c,
     Ok (wrap32 (Z.of_nat (count_scene baseline_differs sc)))).
Proof. intros H. unfold commit_scene_baseline. unfold_prog. cbn. by rewrite H. Qed.

Lemma map_scene_settled f sc :
  (∀ a, value_nan_free a.(current_value) = true → value_nan_free a.(default_value) = true →
     differs (f a) = false) →
  scene_nan_free sc = true → count_scene differs (map_scene f sc) = 0%nat.
Proof.
  intros Hf Hn. apply count_scene_zero. intros o ob n a Ho Ha.
  destruct (map_scene_lookup _ _ _ _ _ _ Ho Ha) as (ob0 & a0 & Ho0 & Ha0 & ->).
  by apply Hf; eapply scene_nan_free_lookup.
Qed.

(** C38. Resetting a scene in which no value is NaN gives every attribute of it
    that differs from its default the default back and touches no other
    scene; it leaves nothing to reset, so that a second reset reports 0
    changes, as does a reset after the current values were committed as the
    new baseline. *)
Theorem reset_scene_spec id c sc :
  im_get id c.(scenes) = Some sc → scene_nan_free sc = true →
  let c' := exec (reset_scene_to_baseline id) c in
  (∀ s o n, lookup_attribute c' s o n =
     if decide (s = id) then reset_attribute <$> lookup_attribute c s o n
     else lookup_attribute c s o n) ∧
  (∀ o n a, lookup_attribute c' id o n = Some a →
     value_eqb a.(current_value) a.(default_value) = true) ∧
  result (reset_scene_to_baseline id) c' = Ok 0 ∧
  result (reset_scene_to_baseline id) (exec (commit_scene_baseline id) c) = Ok 0.
Proof.
  intros Hsc Hn c'. subst c'. rewrite (reset_scene_outcome _ _ _ Hsc), (commit_scene_outcome _ _ _ Hsc).
  cbn [fst]. split_and!.
  - apply lookup_attribute_map.
  - intros o n a. rewrite lookup_attribute_map, decide_True by done.
    destruct (lookup_attribute c id o n) as [a0|] eqn:E; simpl; [|done]. intros [= <-].
    apply negb_false_iff, reset_attribute_settled.
    unfold lookup_attribute in E. rewrite Hsc in E. simpl in E.
    destruct (objects sc !! o) eqn:Eo; simpl in E; [|done]. by eapply scene_nan_free_lookup.
  - erewrite reset_scene_outcome.
    2: { simpl. by rewrite im_get_get_mut, decide_True, Hsc by done. }
    cbn [snd]. rewrite map_scene_settled; [done| |done]. intros; by apply reset_attribute_settled.
  - erewrite reset_scene_outcome.
    2: { simpl. by rewrite im_get_get_mut, decide_True, Hsc by done. }
    cbn [snd]. rewrite map_scene_settled; [done| |done]. intros; by apply commit_attribute_settled.
Qed.
End updates.

(** ** Instances *)

Definition live : core := exec (set_mode Live) ready.

Definition sample : AttributeUpdate := mkUpdate "pose" (f32_vec3 1 2 3).

(** The same pose twice. *)
Lemma relative_update_no_drift_witness :
  let c1 := exec (apply_updates (H:=decimal_uuid) 7%N [sample] 10) live in
  lookup_attribute (exec (apply_updates (H:=decimal_uuid) 7%N [sample] 20) c1) 1%N 2%N "position"
    = lookup_attribute c1 1%N 2%N "position".
Proof.
  destruct (find (feeds (H:=decimal_uuid) 7%N 1%N "pose") (im_values live.(mappings))) as [m|] eqn:Em;
    [|vm_compute in Em; discriminate Em].
  assert (target m = (1%N, 2%N, "position")) as Ht by (vm_compute in Em; by injection Em as <-).
  destruct (im_get 1%N live.(scenes)) as [sc|] eqn:Es; [|discriminate Es].
  destruct (sc.(objects) !! 2%N) as [ob|] eqn:Eo; [|vm_compute in Es; injection Es as <-; discriminate Eo].
  injection Ht as Ht1 Ht2 Ht3.
  apply (relative_update_no_drift (fmt:=decimal_uuid) 7%N 1%N sample 10 20 live
    {[ "camera.position" := f32_vec3 1 2 3 ]} m sc ob (SceneAttribute_new "position" (f32_vec3 0 0 0)));
    try done.
  - unfold update_target. rewrite Ht1, Ht2, Ht3. split_and!; [done..|].
    vm_compute in Es. injection Es as <-. vm_compute in Eo. by injection Eo as <-.
Defined.

(** The pose of the last sample is dropped by a reset. *)
Definition posed : core := exec (apply_updates (H:=decimal_uuid) 7%N [sample] 10) live.

Lemma reset_scene_spec_witness :
  result (reset_scene_to_baseline 1%N) posed = Ok 1 ∧
  result (reset_scene_to_baseline 1%N) (exec (reset_scene_to_baseline 1%N) posed) = Ok 0.
Proof.
  split; [vm_compute; reflexivity|].
  destruct (im_get 1%N posed.(scenes)) as [sc|] eqn:Es; [|vm_compute in Es; discriminate Es].
  apply (reset_scene_spec 1%N posed sc Es).
  vm_compute in Es. injection Es as <-. vm_compute. reflexivity.
Defined.

(** The position of a second stage, with baseline (10, 20, 30), is driven through
    the mask [0; 2]. *)
Definition masked_stage : Scene :=
  with_object (with_attribute (SceneAttribute_new "position" (f32_vec3 10 20 30))
    (SceneObject_new 2%N "camera")) (Scene_new 1%N "stage").

Definition masked_live : core :=
  run (H:=decimal_uuid)
    [OpLoadScene masked_stage; OpConnected 7%N;
     OpCreate 100%N (mkRequest 7%N "pose" 1%N 2%N "position" (Some [0%nat; 2%nat])) 0; OpSetMode Live]
    (RuntimeCore_new cfg).

Lemma masked_update_components_witness : ∃ v vs,
  lookup_attribute (exec (apply_updates (H:=decimal_uuid) 7%N [sample] 10) masked_live) 1%N 2%N "position"
    = Some (set_current_value v (SceneAttribute_new "position" (f32_vec3 10 20 30))) ∧
  components v = Some vs ∧ vs !! 0%nat = Some (F32.of_Z 11) ∧ vs !! 2%nat = Some (F32.of_Z 33).
Proof.
  destruct (find (feeds (H:=decimal_uuid) 7%N 1%N "pose") (im_values masked_live.(mappings))) as [m|] eqn:Em;
    [|vm_compute in Em; discriminate Em].
  assert (target m = (1%N, 2%N, "position") ∧ m.(component_mask) = Some [0%nat; 2%nat]) as [Ht Hmk]
    by (vm_compute in Em; by injection Em as <-).
  injection Ht as Ht1 Ht2 Ht3.
  assert (update_target (fmt:=decimal_uuid) 7%N 1%N sample masked_live m masked_stage
    (with_attribute (SceneAttribute_new "position" (f32_vec3 10 20 30)) (SceneObject_new 2%N "camera"))
    (SceneAttribute_new "position" (f32_vec3 10 20 30))) as Htg.
  { unfold update_target. rewrite Ht1, Ht2, Ht3. by split_and!. }
  destruct (masked_update_components (fmt:=decimal_uuid) 7%N 1%N sample 10 masked_live m _ _ _
    [0%nat; 2%nat] [F32.of_Z 10; F32.of_Z 20; F32.of_Z 30]
    (λ i, vector_component (f32_vec3 1 2 3) i) ltac:(done) eq_refl Htg eq_refl eq_refl Hmk ltac:(done)
    eq_refl eq_refl eq_refl) as [Hiff Hval].
  destruct Hval as (v & Hl & vs & Hc & _ & Hj).
  { apply Hiff. intros i Hi. rewrite !elem_of_cons, elem_of_nil in Hi.
    destruct Hi as [->|[->|[]]]; (split; [simpl; lia|by eexists]). }
  rewrite Ht1, Ht2, Ht3 in Hl. exists v, vs. split_and!; [exact Hl|exact Hc|..].
  - destruct (Hj 0%nat _ eq_refl) as (y & -> & Hy). rewrite decide_True in Hy by by apply (bool_decide_unpack _).
    destruct Hy as (z & [= <-] & ->). vm_compute. reflexivity.
  - destruct (Hj 2%nat _ eq_refl) as (y & -> & Hy). rewrite decide_True in Hy by by apply (bool_decide_unpack _).
    destruct Hy as (z & [= <-] & ->). vm_compute. reflexivity.
Defined.
