(* ===== verification/Media.v ===== *)
(** [crates/motionstage-media/src/lib.rs]: video descriptors and their
    negotiation, the signaling queues, the stream endpoints. *)

From S2P Require Import Prelude Protocol.

Local Open Scope Z_scope.

Inductive DynamicRange := Sdr | Hdr10.
Inductive ColorPrimaries := Bt709 | Bt2020.
Inductive TransferFunction := Srgb | Pq.
Inductive ToneMapMode := ToneMapNone | Hdr10ToSdr.

#[export] Instance DynamicRange_eq_dec : EqDecision DynamicRange.
Proof. solve_decision. Defined.
#[export] Instance ColorPrimaries_eq_dec : EqDecision ColorPrimaries.
Proof. solve_decision. Defined.
#[export] Instance TransferFunction_eq_dec : EqDecision TransferFunction.
Proof. solve_decision. Defined.

Record VideoStreamDescriptor := mkDescriptor {
  width : Z;
  height : Z;
  fps : Z;
  dynamic_range : DynamicRange;
  color_primaries : ColorPrimaries;
  transfer : TransferFunction;
  bit_depth : Z;
}.

Inductive MediaError :=
  | InvalidDescriptor (reason : string)
  | UnsupportedDescriptor (reason : string).

(** [VideoStreamDescriptor::validate]. *)
Definition validate (self : VideoStreamDescriptor) : res MediaError () :=
  if bool_decide (self.(width) = 0) || bool_decide (self.(height) = 0) || bool_decide (self.(fps) = 0)
  then Err (InvalidDescriptor "width, height and fps must be non-zero")
  else if decide (self.(dynamic_range) = Hdr10) then
    if decide (self.(color_primaries) ≠ Bt2020)
    then Err (InvalidDescriptor "HDR10 requires BT.2020 primaries")
    else if decide (self.(transfer) ≠ Pq)
    then Err (InvalidDescriptor "HDR10 requires PQ transfer")
    else if decide (self.(bit_depth) ≠ 10)
    then Err (InvalidDescriptor "HDR10 requires 10-bit pipeline")
    else Ok ()
  else Ok ().

Record VideoClientCapability := mkCapability {
  supports_hdr10 : bool;
  max_width : Z;
  max_height : Z;
  max_fps : Z;
}.

Record NegotiatedVideoStream := mkNegotiated {
  descriptor : VideoStreamDescriptor;
  tone_map : ToneMapMode;
}.

Definition negotiate_stream (master : VideoStreamDescriptor) (client : VideoClientCapability) :
    res MediaError NegotiatedVideoStream :=
  validate master ≫= λ _,
  if bool_decide (client.(max_width) < master.(width))
     || bool_decide (client.(max_height) < master.(height))
     || bool_decide (client.(max_fps) < master.(fps))
  then Err (UnsupportedDescriptor "client capability cannot satisfy DCC-authored descriptor")
  else if bool_decide (master.(dynamic_range) = Hdr10) && negb client.(supports_hdr10) then
    Ok (mkNegotiated
      (mkDescriptor master.(width) master.(height) master.(fps) Sdr Bt709 Srgb 8) Hdr10ToSdr)
  else Ok (mkNegotiated master ToneMapNone).

(** ** Endpoints *)

Record VideoFrame := mkFrame {
  vf_timestamp_ns : Z;
  vf_descriptor : VideoStreamDescriptor;
  vf_payload : list Byte.byte;
}.

Inductive StreamState := Started | Stopped.

Record FrameRequest := mkFrameRequest { fr_timestamp_ns : Z }.

(** The two traits of the host: a delegate is its [get_frame]; the calls on a
    sink are the values of [SinkCall], in the order they are dispatched to the
    host's main thread. *)
Definition FramePullDelegate := FrameRequest → option VideoFrame.
Inductive SinkCall := OnFrame (frame : VideoFrame) | OnStreamState (state : StreamState).

Inductive VideoStreamMode := Pull (delegate : FramePullDelegate) | Push.

Record VideoStreamEndpoint := mkEndpoint {
  ep_descriptor : VideoStreamDescriptor;
  ep_mode : VideoStreamMode;
}.

Definition from_pull (d : VideoStreamDescriptor) (delegate : FramePullDelegate) :
    res MediaError VideoStreamEndpoint :=
  validate d ≫= λ _, Ok (mkEndpoint d (Pull delegate)).

Definition from_push (d : VideoStreamDescriptor) : res MediaError VideoStreamEndpoint :=
  validate d ≫= λ _, Ok (mkEndpoint d Push).

Definition request_frame (self : VideoStreamEndpoint) (request : FrameRequest) : option VideoFrame :=
  match self.(ep_mode) with
  | Pull delegate => delegate request
  | Push => None
  end.

(** The job handed to the executor, if any. *)
Definition push_frame (self : VideoStreamEndpoint) (frame : VideoFrame) : option SinkCall :=
  match self.(ep_mode) with Push => Some (OnFrame frame) | Pull _ => None end.

Definition update_state (self : VideoStreamEndpoint) (state : StreamState) : option SinkCall :=
  match self.(ep_mode) with Push => Some (OnStreamState state) | Pull _ => None end.

(** ** Signaling *)

Record SignalingHub := mkHub { queues : gmap Uuid (list SignalMessage) }.

Definition SignalingHub_default : SignalingHub := mkHub ∅.

(** [self.queues.entry(to).or_default().push(message)]. *)
Definition enqueue (message : SignalMessage) (self : SignalingHub) : SignalingHub :=
  mkHub (<[message.(to_device) :=
    default [] (self.(queues) !! message.(to_device)) ++ [message]]> self.(queues)).

(** [self.queues.remove(&device_id).unwrap_or_default()]. *)
Definition drain_for (device_id : Uuid) (self : SignalingHub) : SignalingHub * list SignalMessage :=
  (mkHub (delete device_id self.(queues)), default [] (self.(queues) !! device_id)).

(** ** Negotiation *)

(** What a client can decode. *)
Definition client_accepts (client : VideoClientCapability) (d : VideoStreamDescriptor) : Prop :=
  d.(width) ≤ client.(max_width) ∧ d.(height) ≤ client.(max_height) ∧ d.(fps) ≤ client.(max_fps) ∧
  (d.(dynamic_range) = Hdr10 → client.(supports_hdr10) = true).

(** A consistent pipeline: a non-empty raster, and HDR10 only as BT.2020, PQ,
    10 bit. *)
Definition consistent (d : VideoStreamDescriptor) : Prop :=
  d.(width) ≠ 0 ∧ d.(height) ≠ 0 ∧ d.(fps) ≠ 0 ∧
  (d.(dynamic_range) = Hdr10 → d.(color_primaries) = Bt2020 ∧ d.(transfer) = Pq ∧ d.(bit_depth) = 10).

Lemma validate_spec d : validate d = Ok () ↔ consistent d.
Proof.
  unfold validate, consistent. destruct d as [w h f r c t b]; simpl.
  destruct (decide (w = 0)), (decide (h = 0)), (decide (f = 0));
    rewrite ?bool_decide_eq_true_2, ?bool_decide_eq_false_2 by done; simpl; try naive_solver.
  destruct r, c, t; simpl; try naive_solver. destruct (decide (b = 10)).
  - rewrite decide_False by (by intros []). naive_solver.
  - rewrite decide_True by done. naive_solver.
Qed.

(** C39. A stream is negotiated exactly when the authored descriptor is
    consistent and within the client's raster and frame rate; the result has
    the authored raster and rate, is itself consistent and something the
    client can decode, and is tone-mapped exactly when the source is HDR10
    and the client is not; otherwise it is the authored descriptor. *)
Theorem negotiate_stream_spec master client :
  (is_ok (negotiate_stream master client) = true ↔
     consistent master ∧ master.(width) ≤ client.(max_width) ∧
     master.(height) ≤ client.(max_height) ∧ master.(fps) ≤ client.(max_fps)) ∧
  ∀ n, negotiate_stream master client = Ok n →
    consistent n.(descriptor) ∧ client_accepts client n.(descriptor) ∧
    (n.(descriptor).(width), n.(descriptor).(height), n.(descriptor).(fps))
      = (master.(width), master.(height), master.(fps)) ∧
    (n.(tone_map) = Hdr10ToSdr ↔ master.(dynamic_range) = Hdr10 ∧ client.(supports_hdr10) = false) ∧
    (n.(tone_map) = ToneMapNone → n.(descriptor) = master).
Proof.
  unfold negotiate_stream. pose proof (validate_spec master) as Hv.
  destruct (validate master) as [[]| |]; simpl; [|naive_solver..].
  assert (consistent master) as Hc by naive_solver.
  destruct (bool_decide_reflect (max_width client < width master)); simpl;
    [split; [split; [done|intros (_ & ? & ? & ?); lia]|done]|].
  destruct (bool_decide_reflect (max_height client < height master)); simpl;
    [split; [split; [done|intros (_ & ? & ? & ?); lia]|done]|].
  destruct (bool_decide_reflect (max_fps client < fps master)); simpl;
    [split; [split; [done|intros (_ & ? & ? & ?); lia]|done]|].
  assert (consistent master ∧ width master ≤ max_width client ∧ height master ≤ max_height client ∧
    fps master ≤ max_fps client) as Hfit by (split; [done|lia]).
  unfold client_accepts.
  destruct (dynamic_range master) eqn:Er; simpl; [|destruct (supports_hdr10 client) eqn:Es; simpl];
    (split; [done|]); intros ? [= <-]; simpl; rewrite ?Er.
  - split_and!; try done || lia. split; [done|by intros [? _]].
  - split_and!; try done || lia. split; [done|by intros [_ ?]].
  - destruct Hc as (? & ? & ? & _). unfold consistent; simpl. split_and!; try done || lia.
Qed.

(** ** The signaling contract: one pending list *)

Inductive hub_op := Enqueue (m : SignalMessage) | DrainFor (d : Uuid).

(** The hub, and what its clients may assume: the messages pending in the
    order they came. *)
Definition hub_step (h : SignalingHub) (op : hub_op) : SignalingHub * list SignalMessage :=
  match op with
  | Enqueue m => (enqueue m h, [])
  | DrainFor d => drain_for d h
  end.

Definition pending_step (p : list SignalMessage) (op : hub_op) : list SignalMessage * list SignalMessage :=
  match op with
  | Enqueue m => (p ++ [m], [])
  | DrainFor d => (filter (λ m, m.(to_device) ≠ d) p, filter (λ m, m.(to_device) = d) p)
  end.

(** The answers of a sequence of calls. *)
Fixpoint answers {S} (step : S → hub_op → S * list SignalMessage) (s : S) (ops : list hub_op) :
    list (list SignalMessage) :=
  match ops with
  | [] => []
  | op :: ops => (step s op).2 :: answers step (step s op).1 ops
  end.

(** The queue of every device holds the pending messages for it. *)
Definition hub_rel (h : SignalingHub) (p : list SignalMessage) : Prop :=
  ∀ d, default [] (h.(queues) !! d) = filter (λ m, m.(to_device) = d) p.

Lemma filter_other (d d' : Uuid) (p : list SignalMessage) :
  d ≠ d' →
  filter (λ m, m.(to_device) = d) (filter (λ m, m.(to_device) ≠ d') p)
    = filter (λ m, m.(to_device) = d) p.
Proof.
  intros Hd. induction p as [|m p IH]; [done|]. rewrite !filter_cons.
  destruct (decide (to_device m = d)) as [<-|Hm].
  - rewrite decide_True by done. rewrite filter_cons, decide_True by done. by rewrite IH.
  - case_decide; [|done]. by rewrite filter_cons, decide_False.
Qed.

Lemma filter_self (d : Uuid) (p : list SignalMessage) :
  filter (λ m, m.(to_device) = d) (filter (λ m, m.(to_device) ≠ d) p) = [].
Proof.
  induction p as [|m p IH]; [done|]. rewrite filter_cons. case_decide; [|done].
  by rewrite filter_cons, decide_False.
Qed.

Lemma hub_step_rel h p op :
  hub_rel h p →
  (hub_step h op).2 = (pending_step p op).2 ∧ hub_rel (hub_step h op).1 (pending_step p op).1.
Proof.
  intros Hr. destruct op as [m|d]; simpl; (split; [done || apply Hr|]); intros d'; simpl.
  - rewrite filter_app, filter_cons, filter_nil. destruct (decide (to_device m = d')) as [<-|Hd].
    + rewrite lookup_insert_eq. simpl. by rewrite Hr.
    + rewrite lookup_insert_ne by done. by rewrite app_nil_r.
  - destruct (decide (d' = d)) as [->|Hd].
    + rewrite lookup_delete_eq. simpl. by rewrite filter_self.
    + rewrite lookup_delete_ne by done. by rewrite filter_other.
Qed.

(** C40. The signaling hub refines one list of pending messages: for every
    sequence of calls, each device receives exactly the messages addressed to
    it since its last drain, in the order they were queued, each of them
    once, whatever is queued or drained for others in between. *)
Theorem signaling_hub_refines ops :
  answers hub_step SignalingHub_default ops = answers pending_step [] ops.
Proof.
  assert (hub_rel SignalingHub_default []) as Hr by done.
  revert Hr. generalize SignalingHub_default ([] : list SignalMessage).
  induction ops as [|op ops IH]; intros h p Hr; simpl; [done|].
  destruct (hub_step_rel h p op Hr) as [-> Hr']. f_equal. by apply IH.
Qed.
