(* ===== verification/Codec.v ===== *)
(** Bytes on disk and on the wire: the interface of the [bincode] crate, the
    little-endian [u32] length prefix and a read cursor, shared by the
    recordings and the QUIC transport. *)

From S2P Require Import Prelude.
From Stdlib Require Strings.Byte.

Local Open Scope Z_scope.

Abbreviation byte := Byte.byte.

#[export] Instance byte_eq_dec : EqDecision byte := Byte.byte_eq_dec.

(** ** [u32::to_le_bytes] and [u32::from_le_bytes] *)

Definition byte_of_Z (z : Z) : byte :=
  default Byte.x00 (Byte.of_N (Z.to_N (z mod 256))).
Definition Z_of_byte (b : byte) : Z := Z.of_N (Byte.to_N b).

Definition to_le_bytes (z : Z) : list byte :=
  [byte_of_Z z; byte_of_Z (z / 2 ^ 8); byte_of_Z (z / 2 ^ 16); byte_of_Z (z / 2 ^ 24)].

Definition from_le_bytes (l : list byte) : Z :=
  foldr (λ b acc, Z_of_byte b + 2 ^ 8 * acc) 0 l.

Lemma Z_of_byte_range b : 0 ≤ Z_of_byte b < 256.
Proof. unfold Z_of_byte. pose proof (Byte.to_N_bounded b). lia. Qed.

Lemma Z_of_byte_of_Z z : Z_of_byte (byte_of_Z z) = z mod 256.
Proof.
  unfold byte_of_Z, Z_of_byte. pose proof (Z.mod_pos_bound z 256 ltac:(lia)) as Hb.
  destruct (Byte.of_N (Z.to_N (z mod 256))) as [b|] eqn:E; simpl.
  - apply Byte.to_of_N in E. rewrite E. lia.
  - apply Byte.of_N_None_iff in E. lia.
Qed.

Lemma byte_of_Z_of_byte b : byte_of_Z (Z_of_byte b) = b.
Proof.
  unfold byte_of_Z, Z_of_byte. rewrite Z.mod_small by apply (Z_of_byte_range b).
  by rewrite N2Z.id, Byte.of_to_N.
Qed.

Lemma le_bytes_roundtrip z : 0 ≤ z < 2 ^ 32 → from_le_bytes (to_le_bytes z) = z.
Proof.
  intros Hz. unfold from_le_bytes, to_le_bytes. cbn [foldr]. rewrite !Z_of_byte_of_Z.
  change (2 ^ 8) with 256. change (2 ^ 16) with 65536. change (2 ^ 24) with 16777216.
  change (2 ^ 32) with 4294967296 in Hz.
  pose proof (Z.div_mod z 256 ltac:(lia)). pose proof (Z.div_mod (z / 256) 256 ltac:(lia)).
  pose proof (Z.div_mod (z / 65536) 256 ltac:(lia)).
  rewrite (Z.mod_small (z / 16777216)) by (split; [apply Z.div_pos|apply Z.div_lt_upper_bound]; lia).
  assert (z / 65536 = z / 256 / 256) as E1 by (rewrite Z.div_div; [done|lia..]).
  assert (z / 16777216 = z / 65536 / 256) as E2 by (rewrite Z.div_div; [done|lia..]).
  lia.
Qed.

Lemma length_to_le_bytes z : length (to_le_bytes z) = 4%nat.
Proof. done. Qed.

(** ** The [bincode] crate

    [bincode::serialize] and [bincode::deserialize] at one type; the errors are
    kept as text. What the crate documents is that a value it serialized is
    read back. *)
Class Bincode (A : Type) := {
  serialize : A → string + list byte;
  deserialize : list byte → string + A;
  deserialize_serialize a bs : serialize a = inr bs → deserialize bs = inr a;
}.

(** [?] on its [Result], with the conversion of the error. *)
Definition bincode_result {E A} (f : string → E) (r : string + A) : res E A :=
  match r with inl e => Err (f e) | inr a => Ok a end.

(** ** A length-prefixed blob *)

(** [len as u32], little endian, then the bytes. *)
Definition blob (bs : list byte) : list byte :=
  to_le_bytes (wrap32 (Z.of_nat (length bs))) ++ bs.

Lemma length_blob bs : length (blob bs) = (4 + length bs)%nat.
Proof. done. Qed.

(** The prefix holds the length when it fits [u32]. *)
Definition blob_fits (bs : list byte) : Prop := Z.of_nat (length bs) < 2 ^ 32.

Lemma blob_length bs :
  blob_fits bs → from_le_bytes (to_le_bytes (wrap32 (Z.of_nat (length bs)))) = Z.of_nat (length bs).
Proof.
  unfold blob_fits, wrap32. intros H. rewrite Z.mod_small by lia. apply le_bytes_roundtrip. lia.
Qed.

(** ** A cursor over the bytes of a file or a stream *)

Record Cursor := mkCursor { content : list byte; pos : Z }.

Inductive IoError := UnexpectedEof | OtherIo (reason : string).

#[export] Instance IoError_eq_dec : EqDecision IoError.
Proof. solve_decision. Defined.

(** [read_exact] into a buffer of [n] bytes: an empty buffer is always filled;
    a short read leaves the cursor at the end. *)
Definition read_exact (n : Z) : prog Cursor IoError (list byte) := λ c,
  if decide (n ≤ 0) then (c, Ok [])
  else if decide (c.(pos) + n ≤ Z.of_nat (length c.(content))) then
    (mkCursor c.(content) (c.(pos) + n),
     Ok (take (Z.to_nat n) (drop (Z.to_nat c.(pos)) c.(content))))
  else (mkCursor c.(content) (Z.max c.(pos) (Z.of_nat (length c.(content)))), Err UnexpectedEof).

(** [stream_position] and [seek(SeekFrom::Current(n))]: a file may be
    positioned behind its end. *)
Definition stream_position : prog Cursor IoError Z := λ c, (c, Ok c.(pos)).
Definition seek_current (n : Z) : prog Cursor IoError () := λ c,
  (mkCursor c.(content) (c.(pos) + n), Ok ()).

(** Reading what is there. *)
Lemma read_exact_app pre bs post :
  read_exact (Z.of_nat (length bs)) (mkCursor (pre ++ bs ++ post) (Z.of_nat (length pre)))
    = (mkCursor (pre ++ bs ++ post) (Z.of_nat (length pre + length bs)), Ok bs).
Proof.
  unfold read_exact. simpl. case_decide as Hn.
  - destruct bs; simpl in *; [|lia]. by rewrite Nat.add_0_r.
  - rewrite decide_True by (rewrite !length_app; lia). rewrite !Nat2Z.id, drop_app_length, take_app_length.
    by rewrite Nat2Z.inj_add.
Qed.

(** Nothing is left. *)
Lemma read_exact_end l n :
  0 < n → read_exact n (mkCursor l (Z.of_nat (length l)))
    = (mkCursor l (Z.of_nat (length l)), Err UnexpectedEof).
Proof.
  intros Hn. unfold read_exact. simpl. rewrite decide_False, decide_False by lia.
  by rewrite Z.max_id.
Qed.

(** The length prefix of a blob, then its bytes. *)
Lemma read_prefix pre b post :
  read_exact 4 (mkCursor (pre ++ blob b ++ post) (Z.of_nat (length pre))) =
    (mkCursor (pre ++ blob b ++ post) (Z.of_nat (length pre + 4)),
     Ok (to_le_bytes (wrap32 (Z.of_nat (length b))))).
Proof.
  unfold blob. rewrite <-app_assoc.
  apply (read_exact_app pre (to_le_bytes (wrap32 (Z.of_nat (length b))))).
Qed.

Lemma read_payload pre b post :
  read_exact (Z.of_nat (length b)) (mkCursor (pre ++ blob b ++ post) (Z.of_nat (length pre + 4))) =
    (mkCursor (pre ++ blob b ++ post) (Z.of_nat (length (pre ++ blob b))), Ok b).
Proof.
  pose proof (read_exact_app (pre ++ to_le_bytes (wrap32 (Z.of_nat (length b)))) b post) as Hr.
  rewrite <-!app_assoc in Hr. rewrite length_app, length_to_le_bytes in Hr.
  change (to_le_bytes _ ++ b ++ post) with (blob b ++ post) in Hr.
  rewrite Hr. repeat f_equal. rewrite length_app, length_blob. lia.
Qed.

(** Numbers below 256 as one byte, for the example formats. *)
Definition small (z : Z) : bool := bool_decide (0 ≤ z < 256).

Lemma small_byte z : small z = true → Z_of_byte (byte_of_Z z) = z.
Proof. unfold small. rewrite bool_decide_eq_true, Z_of_byte_of_Z. apply Z.mod_small. Qed.
