(* ===== verification/Recording.v ===== *)
(** [crates/motionstage-recording/src/lib.rs]: the recording writer, the
    [CMTRK1]/[CMTRK2] file format, its reader and its index.

    A file is its bytes; creating and writing it may fail, reading it fails
    only where it ends. *)

From S2P Require Import Prelude Float Protocol Model Codec.

Local Open Scope Z_scope.

Inductive RecordingFormatVersion := V1 | V2.

#[export] Instance RecordingFormatVersion_eq_dec : EqDecision RecordingFormatVersion.
Proof. solve_decision. Defined.

(** The bytes of a string literal. *)
Definition byte_string (s : string) : list byte := String.list_byte_of_string s.
Definition MAGIC_V1 : list byte := byte_string "CMTRK1".
Definition MAGIC_V2 : list byte := byte_string "CMTRK2".

Record RecordingManifest := mkManifest {
  recording_id : Uuid;
  mf_scene_id : SceneId;
  started_ns : Z;
  stopped_ns : Z;
  frame_count : Z;
}.

Record RecordedAttribute := mkRecordedAttribute {
  ra_object_id : ObjectId;
  ra_attribute : string;
  ra_value : AttributeValue;
}.

Record RecordedFrame := mkRecordedFrame {
  rf_timestamp_ns : Z;
  rf_mode : Mode;
  rf_attributes : list RecordedAttribute;
}.

(** The fields [MappingCreated] and [MappingUpdated] share. *)
Record MappingFields := mkMappingFields {
  mk_mapping_id : MappingId;
  mk_source_device : Uuid;
  mk_source_output : string;
  mk_target_scene : SceneId;
  mk_target_object : ObjectId;
  mk_target_attribute : string;
  mk_component_mask : option (list nat);
}.

Inductive RecordingMarker :=
  | ModeTransition (timestamp_ns : Z) (from to : Mode)
  | MappingCreated (timestamp_ns : Z) (mapping : MappingFields)
  | MappingUpdated (timestamp_ns : Z) (mapping : MappingFields)
  | MappingRemoved (timestamp_ns : Z) (mapping_id : MappingId)
  | MappingLockSet (timestamp_ns : Z) (mapping_id : MappingId) (lock : bool).

Inductive RecordingError :=
  | Io (e : IoError)
  | Encoding (e : string)
  | InvalidFormat (reason : string).

(** ** The writer *)

Record RecordingWriter := mkWriter {
  manifest : RecordingManifest;
  frames : list RecordedFrame;
  markers : list RecordingMarker;
  version : RecordingFormatVersion;
}.

(** [id] is the identifier [Uuid::now_v7()] draws. *)
Definition start_with_format (id : Uuid) (scene_id : SceneId) (started : Z)
    (v : RecordingFormatVersion) : RecordingWriter :=
  mkWriter (mkManifest id scene_id started started 0) [] [] v.

Definition start (id : Uuid) (scene_id : SceneId) (started : Z) : RecordingWriter :=
  start_with_format id scene_id started V2.

Definition push_frame (frame : RecordedFrame) (self : RecordingWriter) : RecordingWriter :=
  let m := self.(manifest) in
  let fs := self.(frames) ++ [frame] in
  mkWriter (mkManifest m.(recording_id) m.(mf_scene_id) m.(started_ns) frame.(rf_timestamp_ns)
    (wrap64 (Z.of_nat (length fs)))) fs self.(markers) self.(version).

Definition push_marker (marker : RecordingMarker) (self : RecordingWriter) : RecordingWriter :=
  match self.(version) with
  | V2 => mkWriter self.(manifest) self.(frames) (self.(markers) ++ [marker]) self.(version)
  | V1 => self
  end.

Record RecordingFile := mkFile {
  file_manifest : RecordingManifest;
  file_markers : list RecordingMarker;
  file_frames : list RecordedFrame;
  file_version : RecordingFormatVersion;
}.

Record RecordingIndex := mkIndex {
  manifest_offset : Z;
  marker_offset : option Z;
  frame_offsets : list Z;
  index_version : RecordingFormatVersion;
}.

(** The operating system under [File::create] and [write_all]: what is in the
    file afterwards, and whether the call succeeded. *)
Class FileSystem := {
  fs_create : res IoError ();
  fs_write_all : list byte → list byte → list byte * res IoError ();
  fs_write_all_ok old bs new : fs_write_all old bs = (new, Ok ()) → new = old ++ bs;
}.

(** Cursor calls under [?]. *)
Definition io {A} (m : prog Cursor IoError A) : prog Cursor RecordingError A :=
  zoom (λ c, c) (λ c _, c) Io m.

Section recording.
Context `{FileSystem} `{!Bincode RecordingManifest} `{!Bincode (list RecordingMarker)}
  `{!Bincode RecordedFrame}.

Definition write_all (bs : list byte) : prog (list byte) RecordingError () := λ old,
  match fs_write_all old bs with (new, r) => (new, map_err Io r) end.

Definition write_blob `{Bincode A} (value : A) : prog (list byte) RecordingError () :=
  bytes ← lift (bincode_result Encoding (serialize value));
  write_all (to_le_bytes (wrap32 (Z.of_nat (length bytes))));;
  write_all bytes.

(** The state is the content of the created file. *)
Definition finish (self : RecordingWriter) : prog (list byte) RecordingError RecordingManifest :=
  lift (map_err Io fs_create);;
  put [];;
  match self.(version) with V1 => write_all MAGIC_V1 | V2 => write_all MAGIC_V2 end;;
  write_blob self.(manifest);;
  match self.(version) with V2 => write_blob self.(markers) | V1 => mret () end;;
  prog_foldl (λ _ frame, write_blob frame) () self.(frames);;
  mret self.(manifest).

(** ** The reader *)

Definition read_magic : prog Cursor RecordingError RecordingFormatVersion :=
  magic ← io (read_exact 6);
  if decide (magic = MAGIC_V1) then mret V1
  else if decide (magic = MAGIC_V2) then mret V2
  else throw (InvalidFormat "invalid magic").

Definition read_blob {A} `{Bincode A} : prog Cursor RecordingError A :=
  len_bytes ← io (read_exact 4);
  bytes ← io (read_exact (from_le_bytes len_bytes));
  lift (bincode_result Encoding (deserialize bytes)).

Definition skip_blob : prog Cursor RecordingError () :=
  len_bytes ← io (read_exact 4);
  io (seek_current (from_le_bytes len_bytes)).

(** The frame loops.  Every round that goes on has moved the cursor by at
    least the four bytes of a length, so the length of the file is enough
    fuel; running out of it would be [Panicked]. *)
Fixpoint read_frames (fuel : nat) (acc : list RecordedFrame) :
    prog Cursor RecordingError (list RecordedFrame) :=
  match fuel with
  | O => lift Panicked
  | S fuel =>
      r ← attempt (read_blob (A:=RecordedFrame));
      match r with
      | Ok frame => read_frames fuel (acc ++ [frame])
      | Err (Io UnexpectedEof) => mret acc
      | Err err => throw err
      | Panicked => lift Panicked
      end
  end.

Definition read_recording (file : list byte) : res RecordingError RecordingFile :=
  snd ((
    v ← read_magic;
    m ← read_blob (A:=RecordingManifest);
    ms ← match v with V2 => read_blob (A:=list RecordingMarker) | V1 => mret [] end;
    fs ← read_frames (S (length file)) [];
    mret (mkFile m ms fs v)) (mkCursor file 0)).

Fixpoint skip_frames (fuel : nat) (acc : list Z) : prog Cursor RecordingError (list Z) :=
  match fuel with
  | O => lift Panicked
  | S fuel =>
      start ← io stream_position;
      r ← attempt skip_blob;
      match r with
      | Ok _ => skip_frames fuel (acc ++ [start])
      | Err (Io UnexpectedEof) => mret acc
      | Err err => throw err
      | Panicked => lift Panicked
      end
  end.

Definition build_index (file : list byte) : res RecordingError RecordingIndex :=
  snd ((
    v ← read_magic;
    mo ← io stream_position;
    skip_blob;;
    ko ← match v with
         | V2 => offset ← io stream_position; skip_blob;; mret (Some offset)
         | V1 => mret None
         end;
    offs ← skip_frames (S (length file)) [];
    mret (mkIndex mo ko offs v)) (mkCursor file 0)).
End recording.
