(* ===== verification/RecordingSpec.v ===== *)
(** The file format: what [finish] writes, that [read_recording] and
    [build_index] find it again, and what both make of truncated files. *)

From S2P Require Import Prelude Float Protocol Model Codec Recording.

Local Open Scope Z_scope.

(** ** Sequences of blobs *)

Definition blobs (bl : list (list byte)) : list byte := concat (blob <$> bl).

(** Where each blob starts, from position [p] on. *)
Fixpoint offsets (p : Z) (bl : list (list byte)) : list Z :=
  match bl with
  | [] => []
  | b :: bl => p :: offsets (p + Z.of_nat (length (blob b))) bl
  end.

Lemma length_blobs bl : (length bl ≤ length (blobs bl))%nat.
Proof.
  unfold blobs. induction bl as [|b bl IH]; [done|]. rewrite fmap_cons. cbn [concat].
  rewrite length_app, length_blob. cbn. lia.
Qed.

Section spec.
Context {fs : FileSystem} {bm : Bincode RecordingManifest} {bk : Bincode (list RecordingMarker)}
  {bf : Bincode RecordedFrame}.

(** Reading through [io]. *)
Lemma io_ok {A} (m : prog Cursor IoError A) c c' a : m c = (c', Ok a) → io m c = (c', Ok a).
Proof. unfold io, zoom. by intros ->. Qed.
Lemma io_err {A} (m : prog Cursor IoError A) c c' e : m c = (c', Err e) → io m c = (c', Err (Io e)).
Proof. unfold io, zoom. by intros ->. Qed.

Lemma read_blob_at {A} {BA : Bincode A} (a : A) b pre post :
  serialize a = inr b → blob_fits b →
  read_blob (mkCursor (pre ++ blob b ++ post) (Z.of_nat (length pre))) =
    (mkCursor (pre ++ blob b ++ post) (Z.of_nat (length (pre ++ blob b))), Ok a).
Proof.
  intros Hs Hfit. unfold read_blob.
  rewrite (prog_bind_ok _ _ _ _ _ (io_ok _ _ _ _ (read_prefix pre b post))), blob_length by done.
  rewrite (prog_bind_ok _ _ _ _ _ (io_ok _ _ _ _ (read_payload pre b post))).
  unfold lift. by rewrite (deserialize_serialize _ _ Hs).
Qed.

Lemma skip_blob_at b pre post :
  blob_fits b →
  skip_blob (mkCursor (pre ++ blob b ++ post) (Z.of_nat (length pre))) =
    (mkCursor (pre ++ blob b ++ post) (Z.of_nat (length (pre ++ blob b))), Ok ()).
Proof.
  intros Hfit. unfold skip_blob.
  rewrite (prog_bind_ok _ _ _ _ _ (io_ok _ _ _ _ (read_prefix pre b post))), blob_length by done.
  unfold io, zoom, seek_current. simpl. repeat f_equal. rewrite length_app, length_blob. lia.
Qed.

(** A blob cut short is the end of the file for the reader. *)
Lemma read_blob_cut {A} {BA : Bincode A} b k pre :
  blob_fits b → (k < length (blob b))%nat →
  ∃ c', read_blob (A:=A) (mkCursor (pre ++ take k (blob b)) (Z.of_nat (length pre)))
    = (c', Err (Io UnexpectedEof)).
Proof.
  intros Hfit Hk. unfold read_blob. rewrite length_blob in Hk.
  destruct (decide (k < 4)%nat) as [Hk4|Hk4].
  - eexists. apply prog_bind_err, io_err. unfold read_exact. cbn [pos content].
    rewrite decide_False by lia. rewrite decide_False; [done|].
    rewrite length_app, length_take. lia.
  - assert (∃ k', k = 4 + k' ∧ k' < length b)%nat as (k' & -> & Hk') by (exists (k - 4)%nat; lia).
    unfold blob. rewrite take_app_ge by (rewrite length_to_le_bytes; lia).
    rewrite length_to_le_bytes. replace (4 + k' - 4)%nat with k' by lia.
    pose proof (read_exact_app pre (to_le_bytes (wrap32 (Z.of_nat (length b)))) (take k' b)) as Hr.
    rewrite (prog_bind_ok _ _ _ _ _ (io_ok _ _ _ _ Hr)), blob_length by done.
    eexists. apply prog_bind_err, io_err. unfold read_exact. cbn [pos content].
    rewrite decide_False by lia. rewrite decide_False; [done|].
    rewrite !length_app, length_take, length_to_le_bytes. lia.
Qed.

(** The reader stops silently at [post]. *)
Definition ends (post : list byte) : Prop :=
  ∀ pre, ∃ c', read_blob (A:=RecordedFrame) (mkCursor (pre ++ post) (Z.of_nat (length pre)))
    = (c', Err (Io UnexpectedEof)).

Lemma ends_nil : ends [].
Proof.
  intros pre. rewrite app_nil_r. eexists. apply prog_bind_err, io_err, read_exact_end. lia.
Qed.

Lemma ends_cut b k : blob_fits b → (k < length (blob b))%nat → ends (take k (blob b)).
Proof. intros ?? pre. by apply read_blob_cut. Qed.

(** The frames and their bytes. *)
Definition encoded (fr : list RecordedFrame) (bl : list (list byte)) : Prop :=
  Forall2 (λ f b, serialize f = inr b ∧ blob_fits b) fr bl.

Lemma read_frames_at fr bl pre post fuel acc :
  encoded fr bl → ends post → (length fr < fuel)%nat →
  ∃ c', read_frames fuel acc (mkCursor (pre ++ blobs bl ++ post) (Z.of_nat (length pre)))
    = (c', Ok (acc ++ fr)).
Proof.
  intros He Hend. revert pre fuel acc.
  induction He as [|f b fr bl [Hs Hfit] _ IH]; intros pre [|fuel] acc Hfuel; try (simpl in Hfuel; lia).
  - destruct (Hend pre) as [c' Hc]. exists c'. cbn [read_frames].
    unfold attempt, mbind, prog_bind. cbn [blobs fmap list_fmap concat app]. rewrite Hc.
    by rewrite app_nil_r.
  - unfold blobs. cbn [fmap list_fmap concat]. fold (blobs bl). rewrite <-app_assoc.
    cbn [read_frames]. unfold attempt at 1, mbind at 1, prog_bind at 1.
    rewrite (read_blob_at f b pre (blobs bl ++ post) Hs Hfit).
    rewrite app_assoc. destruct (IH (pre ++ blob b) fuel (acc ++ [f])) as [c' Hc]; [simpl in Hfuel; lia|].
    rewrite Hc. exists c'. by rewrite <-app_assoc.
Qed.

(** The index stops at [post] after listing [extra]. *)
Lemma skip_frames_at bl pre post extra fuel acc :
  Forall blob_fits bl →
  (∀ pre fuel acc, (1 < fuel)%nat →
     ∃ c', skip_frames fuel acc (mkCursor (pre ++ post) (Z.of_nat (length pre)))
       = (c', Ok (acc ++ (if extra : bool then [Z.of_nat (length pre)] else [])))) →
  (length bl + 1 < fuel)%nat →
  ∃ c', skip_frames fuel acc (mkCursor (pre ++ blobs bl ++ post) (Z.of_nat (length pre)))
    = (c', Ok (acc ++ offsets (Z.of_nat (length pre)) bl ++
        if extra then [Z.of_nat (length (pre ++ blobs bl))] else [])).
Proof.
  intros Hb Hend. revert pre fuel acc.
  induction Hb as [|b bl Hfit _ IH]; intros pre [|fuel] acc Hfuel; try (simpl in Hfuel; lia).
  - destruct (Hend pre (S fuel) acc) as [c' Hc]; [simpl in Hfuel; lia|]. exists c'.
    cbn [blobs fmap list_fmap concat app offsets]. rewrite app_nil_r. exact Hc.
  - unfold blobs. cbn [fmap list_fmap concat]. fold (blobs bl). rewrite <-app_assoc.
    cbn [skip_frames]. unfold io at 1, zoom at 1, stream_position, attempt at 1, mbind, prog_bind.
    cbn [map_err pos]. rewrite (skip_blob_at b pre (blobs bl ++ post) Hfit).
    rewrite app_assoc. destruct (IH (pre ++ blob b) fuel (acc ++ [Z.of_nat (length pre)])) as [c' Hc];
      [simpl in Hfuel; lia|].
    rewrite Hc. exists c'. cbn [offsets]. rewrite <-!app_assoc. cbn [app].
    repeat f_equal. rewrite length_app. lia.
Qed.

(** ** The layout of a file *)

Definition magic (v : RecordingFormatVersion) : list byte :=
  match v with V1 => MAGIC_V1 | V2 => MAGIC_V2 end.

(** Manifest and markers, as blobs. *)
Definition head (v : RecordingFormatVersion) (mb kb : list byte) : list (list byte) :=
  match v with V1 => [mb] | V2 => [mb; kb] end.

Definition layout (v : RecordingFormatVersion) (mb kb : list byte) (bl : list (list byte)) : list byte :=
  magic v ++ blobs (head v mb kb) ++ blobs bl.

Lemma write_all_ok bs old new u : write_all bs old = (new, Ok u) → new = old ++ bs.
Proof.
  unfold write_all. destruct (fs_write_all old bs) as [n r] eqn:E.
  destruct r as [[]| |]; simpl; intros; simplify_eq. by eapply fs_write_all_ok.
Qed.

Lemma write_blob_ok {A} {BA : Bincode A} (a : A) old new u :
  write_blob a old = (new, Ok u) → ∃ b, serialize a = inr b ∧ new = old ++ blob b.
Proof.
  unfold write_blob. intros H. apply prog_bind_inv_ok in H as (s1 & b & H1 & H).
  unfold lift in H1. destruct (serialize a) as [|b'] eqn:Eb; simpl in H1; simplify_eq.
  apply prog_bind_inv_ok in H as (s2 & u1 & H2 & H3). apply write_all_ok in H2, H3. subst.
  exists b. split; [done|]. by rewrite <-app_assoc.
Qed.

Lemma write_frames_ok (fr : list RecordedFrame) : ∀ old new u,
  prog_foldl (λ _ frame, write_blob frame) () fr old = (new, Ok u) →
  ∃ bl, Forall2 (λ f b, serialize f = inr b) fr bl ∧ new = old ++ blobs bl.
Proof.
  induction fr as [|f fr IH]; intros old new u H; simpl in H.
  - injection H as <- _. exists []. split; [constructor|]. by rewrite app_nil_r.
  - apply prog_bind_inv_ok in H as (s1 & [] & H1 & H). apply write_blob_ok in H1 as (b & Hb & ->).
    destruct (IH _ _ _ H) as (bl & Hbl & ->). exists (b :: bl). split; [by constructor|].
    unfold blobs. rewrite fmap_cons. cbn [concat]. by rewrite app_assoc.
Qed.

(** What [finish] wrote when it succeeded. *)
Lemma finish_layout w old file m :
  finish w old = (file, Ok m) →
  m = w.(manifest) ∧ ∃ mb kb bl, serialize w.(manifest) = inr mb ∧
    (w.(version) = V2 → serialize w.(markers) = inr kb) ∧
    Forall2 (λ f b, serialize f = inr b) w.(frames) bl ∧ file = layout w.(version) mb kb bl.
Proof.
  unfold finish. intros H.
  apply prog_bind_inv_ok in H as (s1 & ? & H1 & H).
  apply prog_bind_inv_ok in H as (s2 & ? & [= <- _] & H).
  apply prog_bind_inv_ok in H as (s3 & ? & H3 & H).
  assert (s3 = magic (version w)) as -> by (destruct (version w); by apply write_all_ok in H3).
  apply prog_bind_inv_ok in H as (s4 & ? & H4 & H). apply write_blob_ok in H4 as (mb & Hmb & ->).
  apply prog_bind_inv_ok in H as (s5 & ? & H5 & H).
  apply prog_bind_inv_ok in H as (s6 & ? & H6 & [= <- <-]). split; [done|].
  apply write_frames_ok in H6 as (bl & Hbl & ->). unfold layout, head, blobs in *.
  destruct (version w).
  - injection H5 as <- _. exists mb, [], bl. split_and!; try done.
    cbn [fmap list_fmap concat]. by rewrite app_nil_r.
  - apply write_blob_ok in H5 as (kb & Hkb & ->). exists mb, kb, bl. split_and!; try done.
    cbn [fmap list_fmap concat]. by rewrite app_nil_r, <-!app_assoc.
Qed.

Lemma read_magic_ok v rest :
  read_magic (mkCursor (magic v ++ rest) 0) = (mkCursor (magic v ++ rest) 6, Ok v).
Proof.
  unfold read_magic.
  pose proof (read_exact_app [] (magic v) rest) as Hr.
  assert (length (magic v) = 6%nat) as Hl by (by destruct v).
  rewrite Hl in Hr. cbn [app length] in Hr.
  rewrite (prog_bind_ok _ _ _ _ _ (io_ok _ _ _ _ Hr)). by destruct v.
Qed.

(** Reading a layout, with anything the frame loop stops at behind it. *)
Lemma read_layout v m ms mb kb fr bl post :
  serialize m = inr mb → blob_fits mb →
  (v = V2 → serialize ms = inr kb ∧ blob_fits kb) →
  encoded fr bl → ends post →
  read_recording (layout v mb kb bl ++ post) =
    Ok (mkFile m (match v with V2 => ms | V1 => [] end) fr v).
Proof.
  intros Hm Hmf Hk He Hend. unfold read_recording, layout. rewrite <-!app_assoc.
  rewrite (prog_bind_ok _ _ _ _ _ (read_magic_ok v _)).
  set (file := magic v ++ _) in *. set (fuel := S (length file)).
  assert (length (magic v) = 6%nat) as Hl by (by destruct v).
  assert (length fr < fuel)%nat as Hfuel.
  { subst fuel file. rewrite !length_app. pose proof (length_blobs bl).
    apply Forall2_length in He. lia. }
  destruct v; unfold head, blobs in file; cbn [fmap list_fmap concat] in file.
  - pose proof (read_blob_at m mb (magic V1) (blobs bl ++ post) Hm Hmf) as Hr.
    destruct (read_frames_at fr bl (magic V1 ++ blob mb) post fuel [] He Hend Hfuel) as [c' Hf].
    subst file. rewrite app_nil_r in *. rewrite Hl in Hr. rewrite (prog_bind_ok _ _ _ _ _ Hr).
    rewrite <-app_assoc in Hf. unfold mbind, prog_bind, mret, prog_ret. cbn [app]. by rewrite Hf.
  - destruct (Hk eq_refl) as [Hks Hkf].
    pose proof (read_blob_at m mb (magic V2) (blob kb ++ blobs bl ++ post) Hm Hmf) as Hr.
    pose proof (read_blob_at ms kb (magic V2 ++ blob mb) (blobs bl ++ post) Hks Hkf) as Hr2.
    destruct (read_frames_at fr bl ((magic V2 ++ blob mb) ++ blob kb) post fuel [] He Hend Hfuel)
      as [c' Hf].
    subst file. rewrite app_nil_r in *. rewrite Hl in Hr. rewrite <-!app_assoc in *.
    rewrite (prog_bind_ok _ _ _ _ _ Hr), (prog_bind_ok _ _ _ _ _ Hr2).
    unfold mbind, prog_bind, mret, prog_ret. cbn [app]. by rewrite Hf.
Qed.
End spec.
