(* ===== verification/RecordingProps.v ===== *)
(** The properties of recordings: the writer's bookkeeping, the round trip,
    the index, truncated files, and that reading always ends. *)

From S2P Require Import Prelude Float Protocol Model Codec Recording RecordingSpec.

Local Open Scope Z_scope.

(** ** The writer *)

Inductive push := PushFrame (f : RecordedFrame) | PushMarker (m : RecordingMarker).

Definition do_push (w : RecordingWriter) (p : push) : RecordingWriter :=
  match p with PushFrame f => push_frame f w | PushMarker m => push_marker m w end.

Definition pushed_frames (ps : list push) : list RecordedFrame :=
  omap (λ p, match p with PushFrame f => Some f | _ => None end) ps.
Definition pushed_markers (ps : list push) : list RecordingMarker :=
  omap (λ p, match p with PushMarker m => Some m | _ => None end) ps.

(** A writer holds exactly what was pushed, in order: the frames, the
    markers in the V2 format only, and a manifest whose frame count is the
    number of frames (as a [u64]) and whose stop time is the time of the last
    frame, or the start time before the first one. *)
Lemma writer_contents id scene t v ps :
  let w := foldl do_push (start_with_format id scene t v) ps in
  w.(frames) = pushed_frames ps ∧
  w.(markers) = match v with V2 => pushed_markers ps | V1 => [] end ∧
  w.(version) = v ∧
  w.(manifest) = mkManifest id scene t
    (match last (pushed_frames ps) with Some f => f.(rf_timestamp_ns) | None => t end)
    (wrap64 (Z.of_nat (length (pushed_frames ps)))).
Proof.
  induction ps as [|p ps IH] using rev_ind; [by destruct v|].
  unfold pushed_frames, pushed_markers in *. rewrite foldl_snoc, !omap_app.
  set (w := foldl do_push _ ps) in *. destruct IH as (Hf & Hk & Hv & Hm).
  destruct p as [f|k]; cbn [do_push omap list_omap]; rewrite ?app_nil_r.
  - unfold push_frame. cbn. rewrite Hf, Hm, last_snoc. cbn. by rewrite Hv.
  - unfold push_marker. rewrite Hv. destruct v; cbn; by rewrite ?Hk.
Qed.

Section props.
Context {fs : FileSystem} {bm : Bincode RecordingManifest} {bk : Bincode (list RecordingMarker)}
  {bf : Bincode RecordedFrame}.

(** Every blob of the recording is shorter than 4 GiB. *)
Definition fits (w : RecordingWriter) : Prop :=
  (∀ b, serialize w.(manifest) = inr b → blob_fits b) ∧
  (∀ b, serialize w.(markers) = inr b → blob_fits b) ∧
  (∀ f b, f ∈ w.(frames) → serialize f = inr b → blob_fits b).

Lemma fits_encoded w bl :
  fits w → Forall2 (λ f b, serialize f = inr b) w.(frames) bl → encoded w.(frames) bl.
Proof.
  intros (_ & _ & Hf). revert bl. induction (frames w) as [|f fr IH]; intros bl Hbl;
    inversion Hbl; subst; constructor.
  - split; [done|]. eapply Hf; [left|done].
  - apply IH; [|done]. intros f' b Hin. apply Hf. by right.
Qed.

(** What [finish] wrote, [read_recording] reads. *)
Lemma finish_reads_back w old file m :
  fits w → finish w old = (file, Ok m) →
  m = w.(manifest) ∧ fs_create = Ok () ∧
  read_recording file = Ok (mkFile w.(manifest)
    (match w.(version) with V2 => w.(markers) | V1 => [] end) w.(frames) w.(version)).
Proof.
  intros Hfit Hw. assert (fs_create = Ok ()) as Hc.
  { unfold finish in Hw. apply prog_bind_inv_ok in Hw as (? & [] & Hw & _). unfold lift in Hw.
    by destruct fs_create as [[]| |]. }
  apply finish_layout in Hw as (-> & mb & kb & bl & Hmb & Hkb & Hbl & ->).
  split_and!; [done|done|]. rewrite <-(app_nil_r (layout _ _ _ _)).
  pose proof Hfit as (Hm & Hk & _).
  apply read_layout; [done|by apply Hm| |by apply fits_encoded|apply ends_nil].
  intros Hv. split; [by apply Hkb|by apply Hk, Hkb].
Qed.

(** C18. Whatever [finish] reports as written is read back unchanged, as long as
    the manifest, the markers and each frame fit the 4 GiB that the format has
    for a part: the manifest, the frames in order, the version and, in a V2
    file, the markers. *)
Theorem recording_roundtrip w old file m :
  fits w → finish w old = (file, Ok m) →
  m = w.(manifest) ∧
  read_recording file = Ok (mkFile w.(manifest)
    (match w.(version) with V2 => w.(markers) | V1 => [] end) w.(frames) w.(version)).
Proof. intros Hfit Hw. destruct (finish_reads_back w old file m Hfit Hw) as (? & _ & ?). done. Qed.

Lemma position_ok l p : io stream_position (mkCursor l p) = (mkCursor l p, Ok p).
Proof. done. Qed.

(** The index of a layout. *)
Lemma index_layout v mb kb bl post extra :
  blob_fits mb → (v = V2 → blob_fits kb) → Forall blob_fits bl →
  (∀ pre fuel acc, (1 < fuel)%nat →
     ∃ c', skip_frames fuel acc (mkCursor (pre ++ post) (Z.of_nat (length pre)))
       = (c', Ok (acc ++ (if extra : bool then [Z.of_nat (length pre)] else [])))) →
  let hd := magic v ++ blobs (head v mb kb) in
  build_index (layout v mb kb bl ++ post) =
    Ok (mkIndex 6 (match v with V2 => Some (Z.of_nat (length (magic v ++ blob mb))) | V1 => None end)
      (offsets (Z.of_nat (length hd)) bl ++
         if extra then [Z.of_nat (length (hd ++ blobs bl))] else []) v).
Proof.
  intros Hm Hk Hbl Hend hd. unfold build_index, layout. rewrite <-!app_assoc.
  rewrite (prog_bind_ok _ _ _ _ _ (read_magic_ok v _)).
  set (file := magic v ++ blobs (head v mb kb) ++ blobs bl ++ post). set (fuel := S (length file)).
  assert (length (magic v) = 6%nat) as Hl by (by destruct v).
  assert (length bl + 1 < fuel)%nat as Hfuel.
  { subst fuel file. rewrite !length_app. pose proof (length_blobs bl). lia. }
  rewrite (prog_bind_ok _ _ _ _ _ (position_ok file 6)).
  destruct (skip_frames_at bl hd post extra fuel [] Hbl Hend Hfuel) as [c' Hs].
  subst hd. rewrite <-!app_assoc in Hs. fold file in Hs.
  destruct v; subst file; unfold head, blobs in *; cbn [fmap list_fmap concat] in *;
    rewrite app_nil_r in *.
  - pose proof (skip_blob_at mb (magic V1) (concat (blob <$> bl) ++ post) Hm) as Hr.
    rewrite Hl in Hr. rewrite (prog_bind_ok _ _ _ _ _ Hr).
    unfold mbind, prog_bind, mret, prog_ret. by rewrite Hs.
  - pose proof (skip_blob_at mb (magic V2) (blob kb ++ concat (blob <$> bl) ++ post) Hm) as Hr.
    pose proof (skip_blob_at kb (magic V2 ++ blob mb) (concat (blob <$> bl) ++ post) (Hk eq_refl)) as Hr2.
    rewrite Hl in Hr. rewrite <-!app_assoc in *.
    rewrite (prog_bind_ok _ _ _ _ _ Hr), !prog_bind_assoc.
    rewrite (prog_bind_ok _ _ _ _ _ (position_ok _ _)), !prog_bind_assoc.
    rewrite (prog_bind_ok _ _ _ _ _ Hr2).
    unfold mbind, prog_bind, mret, prog_ret. by rewrite Hs.
Qed.

Lemma offsets_lookup p bl i b :
  bl !! i = Some b →
  offsets p bl !! i = Some (p + Z.of_nat (length (blobs (take i bl)))) ∧
  blobs bl = blobs (take i bl) ++ blob b ++ blobs (drop (S i) bl).
Proof.
  revert p i. induction bl as [|b0 bl IH]; intros p i Hi; [done|].
  change (blobs (b0 :: bl)) with (blob b0 ++ blobs bl). destruct i as [|i].
  - injection Hi as ->. change (blobs (take 0 (b :: bl))) with (@nil byte).
    by rewrite Z.add_0_r.
  - destruct (IH (p + Z.of_nat (length (blob b0))) i Hi) as [Ho Hb].
    change (blobs (take (S i) (b0 :: bl))) with (blob b0 ++ blobs (take i bl)). split.
    + etransitivity; [exact Ho|]. f_equal. rewrite length_app. lia.
    + rewrite Hb at 1. by rewrite <-app_assoc.
Qed.

Lemma length_offsets p bl : length (offsets p bl) = length bl.
Proof. revert p. induction bl as [|b bl IH]; intros p; simpl; [done|]. by rewrite IH. Qed.

Lemma skip_end pre fuel acc :
  (1 < fuel)%nat →
  ∃ c', skip_frames fuel acc (mkCursor (pre ++ []) (Z.of_nat (length pre)))
    = (c', Ok (acc ++ (if false then [Z.of_nat (length pre)] else []))).
Proof.
  intros Hf. destruct fuel as [|fuel]; [lia|]. rewrite !app_nil_r. cbn [skip_frames].
  rewrite (prog_bind_ok _ _ _ _ _ (position_ok _ _)).
  unfold attempt, mbind, prog_bind, skip_blob.
  rewrite (prog_bind_err _ _ _ _ _ (io_err _ _ _ _ (read_exact_end pre 4 ltac:(lia)))).
  by eexists.
Qed.

(** C35. The index of a written recording finds everything: reading at the
    manifest offset gives the manifest, at the marker offset of a V2 file the
    markers, and the i-th of as many frame offsets as there are frames gives
    the i-th frame. *)
Theorem index_finds_frames w old file m :
  fits w → finish w old = (file, Ok m) →
  ∃ idx, build_index file = Ok idx ∧ idx.(index_version) = w.(version) ∧
    (∃ c, read_blob (mkCursor file idx.(manifest_offset)) = (c, Ok w.(manifest))) ∧
    match w.(version) with
    | V1 => idx.(marker_offset) = None
    | V2 => ∃ off c, idx.(marker_offset) = Some off ∧
        read_blob (mkCursor file off) = (c, Ok w.(markers))
    end ∧
    length idx.(frame_offsets) = length w.(frames) ∧
    ∀ i f, w.(frames) !! i = Some f → ∃ off c, idx.(frame_offsets) !! i = Some off ∧
      read_blob (mkCursor file off) = (c, Ok f).
Proof.
  intros Hfit Hw. apply finish_layout in Hw as (-> & mb & kb & bl & Hmb & Hkb & Hbl & ->).
  pose proof (fits_encoded w bl Hfit Hbl) as He. destruct Hfit as (Hm & Hk & _).
  pose proof (index_layout w.(version) mb kb bl [] false) as Hi. rewrite !app_nil_r in Hi.
  eexists. split; [apply Hi|].
  { by apply Hm. }
  { intros Hv. by apply Hk, Hkb. }
  { clear -He. induction He as [|? ? ? ? [? ?] ? IH]; constructor; done. }
  { apply skip_end. }
  cbn [index_version manifest_offset marker_offset frame_offsets]. split; [done|].
  rewrite app_nil_r, length_offsets, (Forall2_length _ _ _ Hbl). unfold layout.
  set (hd := magic (version w) ++ blobs (head (version w) mb kb)). split_and!.
  - pose proof (read_blob_at (manifest w) mb (magic (version w))) as Hr.
    replace (Z.of_nat (length (magic (version w)))) with 6 in Hr by (by destruct (version w)).
    unfold head, blobs. destruct (version w); cbn [fmap list_fmap concat]; rewrite <-!app_assoc;
      eexists; apply Hr; auto.
  - destruct (version w); [done|]. eexists _, _. split; [done|].
    unfold head, blobs. cbn [fmap list_fmap concat]. rewrite <-!app_assoc, (app_assoc (magic V2)).
    apply (read_blob_at (markers w) kb); auto.
  - done.
  - intros i f Hf. destruct (Forall2_lookup_l _ _ _ _ _ He Hf) as (b & Hb & Hs & Hfb).
    destruct (offsets_lookup (Z.of_nat (length hd)) bl i b Hb) as [Ho Hsplit].
    eexists _, _. split; [apply Ho|]. rewrite app_assoc. fold hd. rewrite Hsplit, (app_assoc hd).
    rewrite <-Nat2Z.inj_add, <-length_app. by apply read_blob_at.
Qed.

Lemma layout_snoc v mb kb bl b : layout v mb kb (bl ++ [b]) = layout v mb kb bl ++ blob b.
Proof.
  unfold layout, blobs. rewrite fmap_app, concat_app. cbn [fmap list_fmap concat].
  by rewrite app_nil_r, <-!app_assoc.
Qed.

(** The index walks over a blob whose payload is cut: its length is there. *)
Lemma skip_cut b k pre fuel acc :
  blob_fits b → (4 ≤ k < length (blob b))%nat → (1 < fuel)%nat →
  ∃ c', skip_frames fuel acc (mkCursor (pre ++ take k (blob b)) (Z.of_nat (length pre)))
    = (c', Ok (acc ++ (if true then [Z.of_nat (length pre)] else []))).
Proof.
  intros Hfit [Hk Hkl] Hf. destruct fuel as [|[|fuel]]; [lia..|]. rewrite length_blob in Hkl.
  assert (∃ k', k = 4 + k' ∧ k' < length b)%nat as (k' & -> & Hk') by (exists (k - 4)%nat; lia).
  unfold blob. rewrite take_app_ge by (rewrite length_to_le_bytes; lia).
  rewrite length_to_le_bytes. replace (4 + k' - 4)%nat with k' by lia.
  set (file := pre ++ _). cbn [skip_frames].
  rewrite (prog_bind_ok _ _ _ _ _ (position_ok _ _)).
  pose proof (read_exact_app pre (to_le_bytes (wrap32 (Z.of_nat (length b)))) (take k' b)) as Hr.
  fold file in Hr. rewrite length_to_le_bytes in Hr.
  assert (skip_blob (mkCursor file (Z.of_nat (length pre))) =
    (mkCursor file (Z.of_nat (length pre + 4) + Z.of_nat (length b)), Ok ())) as Hskip.
  { unfold skip_blob. rewrite (prog_bind_ok _ _ _ _ _ (io_ok _ _ _ _ Hr)), blob_length by done. done. }
  rewrite (prog_bind_ok _ _ _ _ _ (attempt_ok _ _ _ _ Hskip)).
  rewrite (prog_bind_ok _ _ _ _ _ (position_ok _ _)).
  assert (∃ c', skip_blob (mkCursor file (Z.of_nat (length pre + 4) + Z.of_nat (length b)))
    = (c', Err (Io UnexpectedEof))) as [c' Hend].
  { eexists. apply prog_bind_err, io_err. unfold read_exact. cbn [pos content].
    rewrite decide_False by lia. rewrite decide_False; [done|].
    subst file. rewrite !length_app, length_take, length_to_le_bytes. lia. }
  rewrite (prog_bind_ok _ _ _ _ _ (attempt_err _ _ _ _ Hend)). by eexists.
Qed.

(** A file that lost up to the whole payload of its last frame still
    loads, without the frame and with a manifest that counts it; the index of
    the same file still lists the frame, at an offset where it cannot be
    read. *)
Theorem truncated_recording w old file m fr f b cut :
  fits w → finish w old = (file, Ok m) → w.(frames) = fr ++ [f] → serialize f = inr b →
  (1 ≤ cut ≤ length b)%nat →
  let file' := take (length file - cut) file in
  read_recording file' = Ok (mkFile w.(manifest)
    (match w.(version) with V2 => w.(markers) | V1 => [] end) fr w.(version)) ∧
  ∃ idx off c, build_index file' = Ok idx ∧ length idx.(frame_offsets) = S (length fr) ∧
    last idx.(frame_offsets) = Some off ∧
    read_blob (A:=RecordedFrame) (mkCursor file' off) = (c, Err (Io UnexpectedEof)).
Proof.
  intros Hfit Hw Hfr Hb Hcut file'. subst file'.
  apply finish_layout in Hw as (-> & mb & kb & bl0 & Hmb & Hkb & Hbl & ->).
  pose proof (fits_encoded w bl0 Hfit Hbl) as He. rewrite Hfr in He, Hbl.
  apply Forall2_app_inv_l in He as (bl & bl1 & He & He1 & ->).
  inversion He1 as [|? b1 ? ? [Hb1 Hbf] Hnil]; subst. inversion Hnil; subst. rewrite Hb in Hb1.
  injection Hb1 as <-. destruct Hfit as (Hm & Hk & _).
  assert (take (length (layout (version w) mb kb (bl ++ [b])) - cut) (layout (version w) mb kb (bl ++ [b]))
    = layout (version w) mb kb bl ++ take (length (blob b) - cut) (blob b)) as ->.
  { rewrite layout_snoc, length_app, take_app. f_equal; [|f_equal; rewrite length_blob; lia].
    apply take_ge. rewrite length_blob. lia. }
  assert (length (blob b) - cut < length (blob b))%nat as Hlt by (rewrite length_blob; lia).
  split.
  - apply read_layout; [done|by apply Hm| |done|by apply ends_cut].
    intros Hv. split; [by apply Hkb|by apply Hk, Hkb].
  - set (post := take _ (blob b)).
    pose proof (index_layout w.(version) mb kb bl post true) as Hi.
    destruct (read_blob_cut (A:=RecordedFrame) b (length (blob b) - cut)
      ((magic (version w) ++ blobs (head (version w) mb kb)) ++ blobs bl) Hbf Hlt) as [c Hc].
    eexists _, _, c. split; [apply Hi|].
    { by apply Hm. }
    { intros Hv. by apply Hk, Hkb. }
    { clear -He. induction He as [|? ? ? ? [? ?] ? IH]; constructor; done. }
    { intros pre fuel acc Hf. apply skip_cut; [done| |done]. rewrite length_blob. lia. }
    cbn [frame_offsets]. rewrite length_app, length_offsets, (Forall2_length _ _ _ He). split; [simpl; lia|].
    rewrite last_snoc. split; [done|]. unfold layout. rewrite !app_assoc. exact Hc.
Qed.

(** ** Termination *)

(** A step of the loops: it does not panic, and when it succeeds it consumed
    the four bytes of a length that were there. *)
Definition steps {A} (m : prog Cursor RecordingError A) : Prop :=
  ∀ c, 0 ≤ c.(pos) → ∃ c' r, m c = (c', r) ∧ r ≠ Panicked ∧ c'.(content) = c.(content) ∧
    ∀ a, r = Ok a → c.(pos) + 4 ≤ Z.of_nat (length c.(content)) ∧ c.(pos) + 4 ≤ c'.(pos).

Lemma from_le_bytes_nonneg l : 0 ≤ from_le_bytes l.
Proof.
  induction l as [|b l IH]; [done|]. unfold from_le_bytes in *. cbn [foldr].
  pose proof (Z_of_byte_range b). lia.
Qed.

Lemma read_exact_cases n c :
  ∃ c' r, read_exact n c = (c', r) ∧ r ≠ Panicked ∧ c'.(content) = c.(content) ∧
    c.(pos) ≤ c'.(pos) ∧
    ∀ bs, r = Ok bs → 0 < n → c'.(pos) = c.(pos) + n ∧ c.(pos) + n ≤ Z.of_nat (length c.(content)).
Proof.
  unfold read_exact. repeat case_decide; eexists _, _; (split; [done|]); simpl; split_and!; try done;
    try lia; intros; simplify_eq; lia.
Qed.

Lemma read_blob_steps {A} {BA : Bincode A} : steps (read_blob (A:=A)).
Proof.
  intros c Hc. unfold read_blob, io, zoom. unfold_prog.
  destruct (read_exact_cases 4 c) as (c1 & r1 & -> & Hr1 & Hcc1 & _ & Hp1).
  destruct r1 as [lb|e|]; simpl; [|by eexists _, _|done].
  destruct (Hp1 lb eq_refl) as [Hp Hl]; [lia|].
  destruct (read_exact_cases (from_le_bytes lb) c1) as (c2 & r2 & -> & Hr2 & Hcc2 & Hp2 & _).
  destruct r2 as [bs|e|]; simpl; [|by eexists _, _; split_and!; try done; congruence|done].
  eexists _, _. split; [done|]. split_and!; [|congruence|intros; lia].
  by destruct (deserialize bs).
Qed.

Lemma skip_blob_steps : steps skip_blob.
Proof.
  intros c Hc. unfold skip_blob, io, zoom. unfold_prog.
  destruct (read_exact_cases 4 c) as (c1 & r1 & -> & Hr1 & Hcc1 & _ & Hp1).
  destruct r1 as [lb|e|]; simpl; [|by eexists _, _|done].
  destruct (Hp1 lb eq_refl) as [Hp Hl]; [lia|]. pose proof (from_le_bytes_nonneg lb).
  eexists _, _. split; [done|]. split_and!; [done|done|simpl; lia].
Qed.

Lemma frames_no_panic fuel c acc :
  0 ≤ c.(pos) → (Z.to_nat (Z.of_nat (length c.(content)) - c.(pos)) < fuel)%nat →
  result (read_frames fuel acc) c ≠ Panicked.
Proof.
  revert c acc. induction fuel as [|fuel IH]; intros c acc Hc Hf; [lia|]. cbn [read_frames].
  destruct (read_blob_steps (A:=RecordedFrame) c Hc) as (c' & r & Hr & Hnp & Hcc & Hok).
  destruct r as [f|e|]; [| |done].
  - rewrite (prog_bind_ok _ _ _ _ _ (attempt_ok _ _ _ _ Hr)). destruct (Hok f eq_refl).
    apply IH; rewrite ?Hcc; lia.
  - rewrite (prog_bind_ok _ _ _ _ _ (attempt_err _ _ _ _ Hr)). by destruct e as [[]| |].
Qed.

Lemma offsets_no_panic fuel c acc :
  0 ≤ c.(pos) → (Z.to_nat (Z.of_nat (length c.(content)) - c.(pos)) < fuel)%nat →
  result (skip_frames fuel acc) c ≠ Panicked.
Proof.
  revert c acc. induction fuel as [|fuel IH]; intros c acc Hc Hf; [lia|]. cbn [skip_frames].
  destruct c as [l p]. rewrite (prog_bind_ok _ _ _ _ _ (position_ok l p)).
  destruct (skip_blob_steps (mkCursor l p) Hc) as (c' & r & Hr & Hnp & Hcc & Hok).
  destruct r as [f|e|]; [| |done].
  - rewrite (prog_bind_ok _ _ _ _ _ (attempt_ok _ _ _ _ Hr)). destruct (Hok f eq_refl).
    simpl in *. apply IH; rewrite ?Hcc; lia.
  - rewrite (prog_bind_ok _ _ _ _ _ (attempt_err _ _ _ _ Hr)). by destruct e as [[]| |].
Qed.

(** Sequencing of steps that do not panic. *)
Lemma bind_no_panic {A B} (m : prog Cursor RecordingError A) (f : A → prog Cursor RecordingError B) c :
  steps m → 0 ≤ c.(pos) →
  (∀ a c', c'.(content) = c.(content) → 0 ≤ c'.(pos) → result (f a) c' ≠ Panicked) →
  result (m ≫= f) c ≠ Panicked.
Proof.
  intros Hm Hc Hf. destruct (Hm c Hc) as (c' & r & Hr & Hnp & Hcc & Hok).
  unfold mbind, prog_bind. rewrite Hr. destruct r as [a|e|]; [|done..].
  destruct (Hok a eq_refl). apply Hf; [done|lia].
Qed.

Lemma read_magic_steps : steps read_magic.
Proof.
  intros c Hc. unfold read_magic, io, zoom. unfold_prog.
  destruct (read_exact_cases 6 c) as (c1 & r1 & -> & Hr1 & Hcc1 & _ & Hp1).
  destruct r1 as [mg|e|]; simpl; [|by eexists _, _|done].
  destruct (Hp1 mg eq_refl) as [Hp Hl]; [lia|].
  repeat case_decide; eexists _, _; (split; [done|]); split_and!; try done; lia.
Qed.

(** C36. Reading and indexing end for every sequence of bytes, well formed or
    not: the frame loops stop within as many rounds as the file has bytes,
    and neither function panics. *)
Theorem reading_terminates file :
  read_recording file ≠ Panicked ∧ build_index file ≠ Panicked.
Proof.
  assert (∀ c, content c = file → 0 ≤ pos c →
    (Z.to_nat (Z.of_nat (length (content c)) - pos c) < S (length file))%nat) as Hfuel.
  { intros c -> ?. lia. }
  assert (∀ {A B} (m : prog Cursor RecordingError A) (f : A → B) c,
    result m c ≠ Panicked → result (a ← m; mret (f a)) c ≠ Panicked) as Hret.
  { intros A B m f c. unfold mbind, prog_bind, mret, prog_ret. by destruct (m c) as [? [| |]]. }
  split.
  - apply bind_no_panic; [apply read_magic_steps|done|]. intros v c Hc Hp.
    apply bind_no_panic; [apply read_blob_steps|done|]. intros m c1 Hc1 Hp1.
    destruct v.
    + apply Hret, frames_no_panic; [done|]. apply Hfuel; [|done]. by rewrite Hc1, Hc.
    + apply bind_no_panic; [apply read_blob_steps|done|]. intros ms c2 Hc2 Hp2.
      apply Hret, frames_no_panic; [done|]. apply Hfuel; [|done]. by rewrite Hc2, Hc1, Hc.
  - apply bind_no_panic; [apply read_magic_steps|done|]. intros v [l p] Hc Hp.
    rewrite (prog_bind_ok _ _ _ _ _ (position_ok l p)).
    apply bind_no_panic; [apply skip_blob_steps|done|]. intros [] [l1 p1] Hc1 Hp1.
    destruct v.
    + apply Hret, offsets_no_panic; [done|]. apply Hfuel; [|done]. by rewrite Hc1.
    + rewrite prog_bind_assoc, (prog_bind_ok _ _ _ _ _ (position_ok l1 p1)), prog_bind_assoc.
      apply bind_no_panic; [apply skip_blob_steps|done|]. intros [] c2 Hc2 Hp2.
      apply Hret, offsets_no_panic; [done|]. apply Hfuel; [|done]. by rewrite Hc2, Hc1.
Qed.
End props.

(** ** Instances: a disk that works, and a small format in the place of
    [bincode] *)

#[local] Instance good_disk : FileSystem.
Proof. refine {| fs_create := Ok (); fs_write_all old bs := (old ++ bs, Ok ()) |}. naive_solver. Defined.

#[local] Instance small_manifests : Bincode RecordingManifest.
Proof.
  refine {|
    serialize m :=
      let l := [Z.of_N m.(recording_id); Z.of_N m.(mf_scene_id); m.(started_ns); m.(stopped_ns);
                m.(frame_count)] in
      if forallb small l then inr (byte_of_Z <$> l) else inl "too large";
    deserialize bs :=
      match Z_of_byte <$> bs with
      | [a; b; c; d; e] => inr (mkManifest (Z.to_N a) (Z.to_N b) c d e)
      | _ => inl "length"
      end |}.
  intros m bs. cbv zeta. destruct (forallb _ _) eqn:E; [|done]. intros [= <-].
  cbn [forallb] in E. rewrite !andb_true_iff in E. destruct E as (E1 & E2 & E3 & E4 & E5 & _).
  cbn [fmap list_fmap]. rewrite !small_byte, !N2Z.id by done. by destruct m.
Defined.

Definition mode_byte (m : Mode) : byte :=
  match m with Idle => Byte.x00 | Live => Byte.x01 | Recording => Byte.x02 end.
Definition byte_mode (b : byte) : Mode :=
  match b with Byte.x00 => Idle | Byte.x01 => Live | _ => Recording end.

#[local] Instance small_frames : Bincode RecordedFrame.
Proof.
  refine {|
    serialize f := match f.(rf_attributes) with
      | [] => if small f.(rf_timestamp_ns) then inr [byte_of_Z f.(rf_timestamp_ns); mode_byte f.(rf_mode)]
              else inl "late"
      | _ => inl "attributes" end;
    deserialize bs := match bs with
      | [t; m] => inr (mkRecordedFrame (Z_of_byte t) (byte_mode m) [])
      | _ => inl "length" end |}.
  intros [t m [|]] bs; cbn -[small]; [|done]. destruct (small t) eqn:E; [|done].
  intros [= <-]. rewrite small_byte by done. by destruct m.
Defined.

(** Mode transitions, three bytes each. *)
Fixpoint marker_bytes (ms : list RecordingMarker) : string + list byte :=
  match ms with
  | [] => inr []
  | ModeTransition t m m' :: ms =>
      if small t then
        match marker_bytes ms with
        | inr bs => inr (byte_of_Z t :: mode_byte m :: mode_byte m' :: bs)
        | inl e => inl e
        end
      else inl "late"
  | _ => inl "markers"
  end.

Fixpoint bytes_markers (bs : list byte) : string + list RecordingMarker :=
  match bs with
  | [] => inr []
  | t :: m :: m' :: bs =>
      match bytes_markers bs with
      | inr ms => inr (ModeTransition (Z_of_byte t) (byte_mode m) (byte_mode m') :: ms)
      | inl e => inl e
      end
  | _ => inl "length"
  end.

#[local] Instance small_markers : Bincode (list RecordingMarker).
Proof.
  refine {| serialize := marker_bytes; deserialize := bytes_markers |}.
  intros ms. induction ms as [|[t m m'| | | |] ms IH]; intros bs; cbn -[small]; try done.
  { by intros [= <-]. }
  destruct (small t) eqn:E; [|done]. destruct (marker_bytes ms) as [|bs']; [done|].
  intros [= <-]. cbn. rewrite (IH bs') by done. rewrite small_byte by done. by destruct m, m'.
Defined.

(** Two frames after the switch to recording. *)
Definition take2 : RecordingWriter :=
  foldl do_push (start 9%N 1%N 100)
    [PushMarker (ModeTransition 100 Live Recording); PushFrame (mkRecordedFrame 101 Recording []);
     PushFrame (mkRecordedFrame 102 Recording [])].

Definition take2_file : list byte := (finish take2 []).1.

Lemma take2_fits : fits take2.
Proof.
  split_and!.
  - intros b H. vm_compute in H. injection H as <-. vm_compute. reflexivity.
  - intros b H. vm_compute in H. injection H as <-. vm_compute. reflexivity.
  - intros f b Hf H. change (frames take2) with
      [mkRecordedFrame 101 Recording []; mkRecordedFrame 102 Recording []] in Hf.
    apply elem_of_cons in Hf as [->|Hf]; [|apply list_elem_of_singleton in Hf as ->];
      vm_compute in H; injection H as <-; vm_compute; reflexivity.
Qed.

Lemma recording_roundtrip_witness :
  read_recording take2_file = Ok (mkFile take2.(manifest) take2.(markers) take2.(frames) V2).
Proof.
  apply (recording_roundtrip take2 [] take2_file take2.(manifest) take2_fits).
  vm_compute. reflexivity.
Defined.

Lemma index_finds_frames_witness : ∃ idx,
  build_index take2_file = Ok idx ∧ length idx.(frame_offsets) = 2%nat.
Proof.
  destruct (index_finds_frames take2 [] take2_file take2.(manifest) take2_fits)
    as (idx & Hi & _ & _ & _ & Hl & _); [vm_compute; reflexivity|].
  exists idx. by split.
Defined.

(** One byte short. *)
Lemma truncated_recording_witness : ∃ r,
  read_recording (take (length take2_file - 1) take2_file) = Ok r ∧
  length r.(file_frames) = 1%nat ∧ r.(file_manifest).(frame_count) = 2.
Proof.
  eexists. split.
  - eapply (truncated_recording take2 [] take2_file take2.(manifest)
      [mkRecordedFrame 101 Recording []] (mkRecordedFrame 102 Recording []) _ 1 take2_fits);
      [vm_compute; reflexivity|reflexivity|vm_compute; reflexivity|simpl; lia].
  - split; reflexivity.
Defined.
