(* ===== verification/Export.v ===== *)
(** The exporters of a loaded recording: [motionstage-export-chan/src/lib.rs]
    (one line per channel and sample) and [motionstage-export-usd/src/lib.rs]
    (a USD stage in text form, one scope per frame).

    Each is stated to lose nothing by a reader of its format that recovers what
    was exported, as long as the names of attributes stay clear of the
    characters the formats use as separators; nothing in the program checks
    that they do ([export_gaps]). *)

From S2P Require Import Prelude Text Float FloatText Protocol Model Recording Fixtures.

Local Open Scope Z_scope.

Definition newline : char := char_of_Z 10.
Definition space : char := char_of_Z 32.
Definition quote : char := char_of_Z 34.

Definition chars (c : char) : string := String c "".

Section export.
Context `{UuidFormat}.

(** ** Chan *)

(** [encode_value] of motionstage-export-chan. *)
Definition chan_encode_value (value : AttributeValue) : string :=
  match value with
  | VBool v => show_bool v
  | Int32 v => show_Z v
  | Float32 v => show_f32 v
  | Float64 v => show_f64 v
  | Vec2f v => join " " (show_f32 <$> vec_to_list v)
  | Vec3f v => join " " (show_f32 <$> vec_to_list v)
  | Vec4f v => join " " (show_f32 <$> vec_to_list v)
  | Quatf v => join " " (show_f32 <$> vec_to_list v)
  | Mat4f v => join " " (show_f32 <$> (vec_to_list v ≫= vec_to_list))
  | Trigger v => show_bool v
  end.

(** [format!("{} {} {} {}", timestamp_ns, object_id, channel, text)]. *)
Definition chan_line (timestamp_ns : Z) (object_id : ObjectId) (channel text : string) : string :=
  join " " [show_Z timestamp_ns; uuid_to_string object_id; channel; text].

(** The lines of one attribute: positions and rotations have one per axis. *)
Definition chan_attribute (timestamp_ns : Z) (attr : RecordedAttribute) : list string :=
  let line suffix text := chan_line timestamp_ns attr.(ra_object_id) (attr.(ra_attribute) +:+ suffix) text in
  match attr.(ra_value) with
  | Vec3f v => zip_with (λ suffix x, line suffix (show_f32 x)) [".tx"; ".ty"; ".tz"] (vec_to_list v)
  | Quatf v => zip_with (λ suffix x, line suffix (show_f32 x)) [".qx"; ".qy"; ".qz"; ".qw"] (vec_to_list v)
  | value => [line "" (chan_encode_value value)]
  end.

Definition chan_lines (recording : RecordingFile) : list string :=
  frame ← recording.(file_frames);
  attr ← frame.(rf_attributes);
  chan_attribute frame.(rf_timestamp_ns) attr.

Definition chan_export (recording : RecordingFile) : string :=
  join (chars newline) (chan_lines recording).

(** ** USD *)

(** [encode_value] of motionstage-export-usd. *)
Definition usd_encode_value (value : AttributeValue) : string :=
  match value with
  | VBool v => show_bool v
  | Int32 v => show_Z v
  | Float32 v => show_f32 v
  | Float64 v => show_f64 v
  | Vec2f v => join " " (show_f32 <$> vec_to_list v)
  | Vec3f v => join " " (show_f32 <$> vec_to_list v)
  | Vec4f v => join " " (show_f32 <$> vec_to_list v)
  | Quatf v => join " " (show_f32 <$> vec_to_list v)
  | Mat4f v => join " " (show_f32 <$> (vec_to_list v ≫= vec_to_list))
  | Trigger v => show_bool v
  end.

Definition quoted (s : string) : string := chars quote +:+ s +:+ chars quote.
Definition ln (s : string) : string := s +:+ chars newline.

(** The name of the USD property an attribute becomes. *)
Definition usd_property (attr : RecordedAttribute) : string :=
  "o" +:+ uuid_to_string attr.(ra_object_id) +:+ "_" +:+ attr.(ra_attribute).

Definition usd_attribute (attr : RecordedAttribute) : string :=
  "            custom string " +:+ usd_property attr +:+ " = " +:+ quoted (usd_encode_value attr.(ra_value)).

Definition usd_frame (frame : RecordedFrame) : list string :=
  ["        def Scope " +:+ quoted ("f_" +:+ show_Z frame.(rf_timestamp_ns)) +:+ " {"]
  ++ (usd_attribute <$> frame.(rf_attributes))
  ++ ["        }"].

(** Every [push_str] ends in a newline. *)
Definition usd_lines (recording : RecordingFile) : list string :=
  ["#usda 1.0";
   "def Xform " +:+ quoted "MotionStageTake" +:+ " {";
   "    custom string recording_id = " +:+ quoted (uuid_to_string recording.(file_manifest).(recording_id));
   "    def Scope " +:+ quoted "Frames" +:+ " {"]
  ++ (recording.(file_frames) ≫= usd_frame)
  ++ ["    }"; "}"].

Definition usd_export (recording : RecordingFile) : string :=
  foldr (λ line out, ln line +:+ out) "" (usd_lines recording).
End export.

(** * Readers

    What a consumer of the files does, written to state that the exports keep
    the samples apart. *)
Section readers.
Context `{UuidText}.

(** One line of a chan file: time, object, channel and the values. *)
Record Sample := mkSample { s_time : Z; s_object : ObjectId; s_channel : string; s_values : list string }.

Definition chan_read_line (line : string) : option Sample :=
  match split_at space line with
  | time :: object :: channel :: values =>
      t ← parse_unsigned u64_max time;
      o ← uuid_parse object;
      Some (mkSample t o channel values)
  | _ => None
  end.
Definition chan_read (text : string) : option (list Sample) :=
  if is_empty text then Some [] else mapM chan_read_line (split_at newline text).

(** The printed components of a value. *)
Definition components (value : AttributeValue) : list string :=
  match value with
  | VBool v | Trigger v => [show_bool v]
  | Int32 v => [show_Z v]
  | Float32 v => [show_f32 v]
  | Float64 v => [show_f64 v]
  | Vec2f v => show_f32 <$> vec_to_list v
  | Vec3f v => show_f32 <$> vec_to_list v
  | Vec4f v | Quatf v => show_f32 <$> vec_to_list v
  | Mat4f v => show_f32 <$> (vec_to_list v ≫= vec_to_list)
  end.

(** What a recording holds, channel by channel. *)
Definition samples_of (t : Z) (attr : RecordedAttribute) : list Sample :=
  let channel suffix values := mkSample t attr.(ra_object_id) (attr.(ra_attribute) +:+ suffix) values in
  match attr.(ra_value) with
  | Vec3f v => zip_with (λ suffix x, channel suffix [x]) [".tx"; ".ty"; ".tz"] (components (Vec3f v))
  | Quatf v => zip_with (λ suffix x, channel suffix [x]) [".qx"; ".qy"; ".qz"; ".qw"] (components (Quatf v))
  | value => [channel "" (components value)]
  end.
Definition samples (recording : RecordingFile) : list Sample :=
  frame ← recording.(file_frames);
  attr ← frame.(rf_attributes);
  samples_of frame.(rf_timestamp_ns) attr.

(** The lines of a USD file, read by indentation: the frames with their time,
    and in each the object, name and printed value of every property. *)
Definition Property : Type := ObjectId * string * string.

Definition usd_read_attribute (line : string) : option Property :=
  s ← strip_prefix "            custom string o" line;
  '(property, s) ← split_once space s;
  '(object, attribute) ← split_once (char_of_Z 95) property;
  o ← uuid_parse object;
  s ← strip_prefix ("= " +:+ chars quote) s;
  value ← strip_suffix (chars quote) s;
  Some (o, attribute, value).

Definition usd_read_frame (line : string) : option Z :=
  s ← strip_prefix ("        def Scope " +:+ chars quote +:+ "f_") line;
  time ← strip_suffix (chars quote +:+ " {") s;
  parse_unsigned u64_max time.

Fixpoint usd_read_body (cur : option (Z * list Property)) (lines : list string) :
    option (list (Z * list Property)) :=
  match lines with
  | [] => None
  | line :: lines =>
      match cur with
      | None =>
          if decide (line = "    }") then Some []
          else t ← usd_read_frame line; usd_read_body (Some (t, [])) lines
      | Some (t, props) =>
          if decide (line = "        }")
          then frames ← usd_read_body None lines; Some ((t, reverse props) :: frames)
          else p ← usd_read_attribute line; usd_read_body (Some (t, p :: props)) lines
      end
  end.

Definition usd_read (text : string) : option (Uuid * list (Z * list Property)) :=
  match split_at newline text with
  | _ :: _ :: id :: _ :: body =>
      s ← strip_prefix ("    custom string recording_id = " +:+ chars quote) id;
      s ← strip_suffix (chars quote) s;
      u ← uuid_parse s;
      frames ← usd_read_body None body;
      Some (u, frames)
  | _ => None
  end.

Definition property_of (attr : RecordedAttribute) : Property :=
  (attr.(ra_object_id), attr.(ra_attribute), join " " (components attr.(ra_value))).
Definition frame_of (frame : RecordedFrame) : Z * list Property :=
  (frame.(rf_timestamp_ns), property_of <$> frame.(rf_attributes)).

(** A name without the separators of the formats. *)
Definition clean_char (c : char) : bool :=
  negb (bool_decide (newline = c)) && negb (bool_decide (space = c)).
Definition clean : string → bool := string_forall clean_char.

(** Timestamps are [u64], names are clean. *)
Definition exportable (recording : RecordingFile) : Prop :=
  Forall (λ frame, 0 ≤ frame.(rf_timestamp_ns) ≤ u64_max ∧
    Forall (λ attr, clean attr.(ra_attribute) = true) frame.(rf_attributes)) recording.(file_frames).

#[global] Instance exportable_dec recording : Decision (exportable recording).
Proof. unfold exportable. apply _. Defined.

(** ** Laws of clean texts *)

Lemma clean_app s t : clean (s +:+ t) = clean s && clean t.
Proof. apply string_forall_app. Qed.

Lemma clean_of p s : (∀ c, p c = true → clean_char c = true) → string_forall p s = true → clean s = true.
Proof. intros Hp. by apply string_forall_impl. Qed.

Lemma clean_split c s : c = newline ∨ c = space → clean s = true →
  string_forall (λ d, negb (bool_decide (c = d))) s = true.
Proof.
  intros Hc. apply string_forall_impl. intros d [Hn Hs]%andb_true_iff. by destruct Hc as [->| ->].
Qed.

Lemma digit_clean c : is_digit c = true → clean_char c = true.
Proof.
  intros Hd. unfold clean_char. rewrite !bool_decide_eq_false_2; [done| |]; intros <-; discriminate Hd.
Qed.

Lemma float_char_clean c : is_float_char c = true → clean_char c = true.
Proof.
  unfold is_float_char. intros [Hd|Hd]%orb_true_iff; [by apply digit_clean|].
  apply bool_decide_eq_true in Hd. cbn [fmap list_fmap] in Hd. set_unfold in Hd.
  by repeat (destruct Hd as [->|Hd]; [done|]).
Qed.

Lemma show_float_clean prec x : clean (show_float prec x) = true.
Proof. eapply clean_of, show_float_chars. apply float_char_clean. Qed.

Lemma show_Z_clean z : clean (show_Z z) = true.
Proof.
  assert (∀ n : N, clean (pretty n) = true) as Hn.
  { intros n. eapply clean_of, show_N_digits. apply digit_clean. }
  unfold show_Z, pretty, pretty_Z. destruct z; [done|apply Hn|].
  rewrite clean_app. apply (Hn (Npos p)).
Qed.

Lemma uuid_clean u : clean (uuid_to_string u) = true.
Proof.
  eapply clean_of, uuid_chars. intros c Hc. unfold clean_char.
  rewrite !bool_decide_eq_false_2; [done| |]; intros <-; discriminate Hc.
Qed.

Lemma components_clean value : Forall (λ s, clean s = true) (components value).
Proof.
  assert (∀ l, Forall (λ s, clean s = true) (show_f32 <$> l)) as Hf.
  { intros l. apply Forall_fmap, Forall_true. intros x. apply show_float_clean. }
  destruct value as [b|z|v|v| | | | | |b]; unfold components; try apply Hf; apply Forall_singleton;
    [by destruct b|apply show_Z_clean|apply show_float_clean..|by destruct b].
Qed.

Lemma components_nonempty value : components value ≠ [].
Proof.
  intros Hv%(f_equal length). destruct value as [| | | |v|v|v|v|v|]; unfold components in Hv; try done;
    rewrite length_fmap in Hv; [by rewrite length_vec_to_list in Hv..|].
  revert Hv. inv_vec v. intros v. by inv_vec v.
Qed.

(** Joining twice is joining once. *)
Lemma join_app sep l m : m ≠ [] → join sep (l ++ [join sep m]) = join sep (l ++ m).
Proof.
  intros Hm. induction l as [|x l IH]; [done|]. cbn [app].
  assert (∀ k, k ≠ [] → join sep (x :: k) = x +:+ sep +:+ join sep k) as Hj by (by intros []).
  rewrite !Hj, IH; [done|by destruct l|by destruct l].
Qed.

Lemma chan_line_split t u channel values :
  clean channel = true → Forall (λ s, clean s = true) values → values ≠ [] →
  split_at space (chan_line t u channel (join " " values)) = [show_Z t; uuid_to_string u; channel] ++ values.
Proof.
  intros Hc Hv Hne. pose proof (join_app " " [show_Z t; uuid_to_string u; channel] values Hne) as Hj.
  cbn [app] in Hj |- *. unfold chan_line. rewrite Hj.
  apply split_at_join; [done|]. apply (Forall_impl (λ s, clean s = true)).
  - repeat constructor; auto using show_Z_clean, uuid_clean.
  - intros s. apply clean_split. by right.
Qed.

Lemma chan_read_line_spec t u channel values :
  0 ≤ t ≤ u64_max → clean channel = true → Forall (λ s, clean s = true) values → values ≠ [] →
  chan_read_line (chan_line t u channel (join " " values)) = Some (mkSample t u channel values).
Proof.
  intros Ht Hc Hv Hne. unfold chan_read_line. rewrite chan_line_split by done. cbn [app].
  by rewrite parse_unsigned_show, uuid_parse_to_string.
Qed.

Lemma chan_encode_value_components value : chan_encode_value value = join " " (components value).
Proof. by destruct value. Qed.

(** The lines of an attribute are its samples, printed. *)
Definition print_sample (s : Sample) : string :=
  chan_line s.(s_time) s.(s_object) s.(s_channel) (join " " s.(s_values)).
Definition sample_ok (s : Sample) : Prop :=
  0 ≤ s.(s_time) ≤ u64_max ∧ clean s.(s_channel) = true
  ∧ Forall (λ v, clean v = true) s.(s_values) ∧ s.(s_values) ≠ [].

Lemma print_sample_read s : sample_ok s → chan_read_line (print_sample s) = Some s.
Proof. intros (Ht & Hc & Hv & Hne). unfold print_sample. rewrite chan_read_line_spec by done. by destruct s. Qed.

Lemma chan_attribute_samples t attr : chan_attribute t attr = print_sample <$> samples_of t attr.
Proof.
  unfold chan_attribute, samples_of. destruct (ra_value attr) as [| | | |v|v|v|v|v|] eqn:Hv;
    try (cbn [fmap list_fmap]; unfold print_sample; cbn [s_time s_object s_channel s_values];
         by rewrite chan_encode_value_components).
  - by inv_all_vec_fin.
  - by inv_all_vec_fin.
Qed.

Lemma sample_ok_intro t u attribute suffix values :
  0 ≤ t ≤ u64_max → clean attribute = true → clean suffix = true →
  Forall (λ v, clean v = true) values → values ≠ [] →
  sample_ok (mkSample t u (attribute +:+ suffix) values).
Proof. 
  intros ? Hc Hs ??. split; [done|]. split; [|done].
  change (clean (attribute +:+ suffix) = true). by rewrite clean_app, Hc.
Qed.

Lemma samples_of_ok t attr :
  0 ≤ t ≤ u64_max → clean attr.(ra_attribute) = true → Forall sample_ok (samples_of t attr).
Proof.
  intros Ht Hc. pose proof (components_clean attr.(ra_value)) as Hv.
  pose proof (components_nonempty attr.(ra_value)) as Hne.
  unfold samples_of. destruct (ra_value attr) as [| | | |v|v|v|v|v|];
    try (apply Forall_singleton; by apply sample_ok_intro);
    inv_all_vec_fin; repeat apply Forall_cons_2; try apply Forall_nil_2;
    apply sample_ok_intro; try done; apply Forall_singleton, show_float_clean.
Qed.

Lemma chan_lines_samples recording : chan_lines recording = print_sample <$> samples recording.
Proof.
  unfold chan_lines, samples. induction (file_frames recording) as [|frame frames IH]; [done|].
  rewrite !bind_cons, fmap_app, <-IH. f_equal.
  induction (rf_attributes frame) as [|attr attrs IHa]; [done|].
  by rewrite !bind_cons, fmap_app, <-IHa, chan_attribute_samples.
Qed.

Lemma samples_ok recording : exportable recording → Forall sample_ok (samples recording).
Proof.
  unfold exportable, samples. induction 1 as [|frame frames [Ht Ha] _ IH]; [constructor|].
  rewrite bind_cons. apply Forall_app. split; [|done].
  induction Ha as [|attr attrs Hc _ IHa]; [constructor|]. rewrite bind_cons.
  apply Forall_app. split; [by apply samples_of_ok|done].
Qed.

Lemma clean_print_sample s : sample_ok s →
  string_forall (λ d, negb (bool_decide (newline = d))) (print_sample s) = true ∧ print_sample s ≠ "".
Proof.
  intros (Ht & Hc & Hv & Hne). unfold print_sample, chan_line. split.
  - apply string_forall_join; [done|].
    repeat apply Forall_cons_2; try apply Forall_nil_2; try apply string_forall_join; try done;
      try (apply clean_split; [by left|]); auto using show_Z_clean, uuid_clean.
    eapply Forall_impl; [done|]. intros v. apply clean_split. by left.
  - assert (show_Z s.(s_time) ≠ "") as Hz by (rewrite show_Z_nonneg by lia; apply show_N_digits).
    cbn [join]. by destruct (show_Z s.(s_time)).
Qed.

(** C31. A chan file of a recording whose timestamps are 64-bit and whose
    attribute names have no space and no newline ([clean]; nothing checks
    that, see [export_gaps]) keeps every sample apart: read line by line it gives back the time, object, channel and
    printed components of each attribute of each frame in order, three lines
    for a position and four for a rotation. *)
Theorem chan_roundtrip recording :
  exportable recording → chan_read (chan_export recording) = Some (samples recording).
Proof.
  intros Hok%samples_ok. unfold chan_read, chan_export. rewrite chan_lines_samples.
  destruct (samples recording) as [|s l] eqn:Hs; [done|]. rewrite <-Hs in *.
  assert (is_empty (join (chars newline) (print_sample <$> samples recording)) = false) as ->.
  { rewrite Hs in Hok |- *. apply Forall_cons_1 in Hok as [[_ Hne]%clean_print_sample _].
    cbn [fmap list_fmap join]. destruct (print_sample s) eqn:Hp; [done|]. by destruct l. }
  rewrite split_at_join.
  - apply mapM_Some. rewrite Forall2_fmap_l. apply Forall_Forall2_diag.
    eapply Forall_impl; [done|]. apply print_sample_read.
  - by rewrite Hs.
  - apply Forall_fmap. eapply Forall_impl; [done|]. intros x Hx. by apply clean_print_sample.
Qed.

Lemma usd_encode_value_components value : usd_encode_value value = join " " (components value).
Proof. by destruct value. Qed.

Lemma usd_read_attribute_spec attr :
  clean attr.(ra_attribute) = true → usd_read_attribute (usd_attribute attr) = Some (property_of attr).
Proof.
  intros Hc. unfold usd_read_attribute.
  change (usd_attribute attr) with ("            custom string o"
    +:+ ((uuid_to_string attr.(ra_object_id) +:+ String (char_of_Z 95) attr.(ra_attribute))
    +:+ String space ("= " +:+ chars quote +:+ (usd_encode_value attr.(ra_value) +:+ chars quote)))).
  rewrite strip_prefix_app, usd_encode_value_components. cbn [mbind option_bind].
  rewrite split_once_app.
  2:{ apply clean_split; [by right|]. rewrite clean_app, uuid_clean. exact Hc. }
  cbn [mbind option_bind]. rewrite split_once_app.
  2:{ eapply string_forall_impl, uuid_chars. intros c Hcc. apply negb_true_iff, bool_decide_eq_false.
      intros <-. discriminate Hcc. }
  cbn [mbind option_bind]. rewrite uuid_parse_to_string. cbn [mbind option_bind].
  rewrite (string_app_assoc "= " (chars quote)), strip_prefix_app. cbn [mbind option_bind].
  by rewrite strip_suffix_app.
Qed.

Lemma usd_read_frame_spec t :
  0 ≤ t ≤ u64_max →
  usd_read_frame ("        def Scope " +:+ quoted ("f_" +:+ show_Z t) +:+ " {") = Some t.
Proof.
  intros Ht. unfold usd_read_frame.
  assert ("        def Scope " +:+ quoted ("f_" +:+ show_Z t) +:+ " {"
    = ("        def Scope " +:+ chars quote +:+ "f_") +:+ (show_Z t +:+ (chars quote +:+ " {"))) as ->.
  { unfold quoted. rewrite (string_app_assoc (show_Z t)). done. }
  rewrite strip_prefix_app. cbn [mbind option_bind]. rewrite strip_suffix_app. cbn [mbind option_bind].
  by apply parse_unsigned_show.
Qed.

(** A frame is read until its closing brace, then the reader goes on. *)
Lemma usd_read_attributes t props attrs lines :
  Forall (λ attr, clean attr.(ra_attribute) = true) attrs →
  usd_read_body (Some (t, props)) ((usd_attribute <$> attrs) ++ "        }" :: lines)
  = (λ frames, (t, reverse props ++ (property_of <$> attrs)) :: frames) <$> usd_read_body None lines.
Proof.
  intros Hc. revert props. induction Hc as [|attr attrs Ha Hc IH]; intros props.
  - simpl. rewrite app_nil_r. by destruct (usd_read_body None lines).
  - rewrite fmap_cons. cbn [app usd_read_body].
    rewrite decide_False by done. rewrite usd_read_attribute_spec by done. cbn [mbind option_bind].
    rewrite IH, reverse_cons, <-(assoc_L (++)). done.
Qed.

Lemma usd_read_frames frames lines :
  Forall (λ frame, 0 ≤ frame.(rf_timestamp_ns) ≤ u64_max ∧
    Forall (λ attr, clean attr.(ra_attribute) = true) frame.(rf_attributes)) frames →
  usd_read_body None ((frames ≫= usd_frame) ++ "    }" :: lines) = Some (frame_of <$> frames).
Proof.
  induction 1 as [|frame frames [Ht Ha] _ IH]; [done|].
  rewrite bind_cons, <-(assoc_L (++)). unfold usd_frame at 1. rewrite <-!(assoc_L (++)).
  cbn [app usd_read_body]. rewrite decide_False by done. rewrite usd_read_frame_spec by done.
  cbn [mbind option_bind]. rewrite usd_read_attributes by done. by rewrite IH.
Qed.

Definition no_newline (s : string) : bool := string_forall (λ d, negb (bool_decide (newline = d))) s.

Lemma no_newline_app s t : no_newline (s +:+ t) = no_newline s && no_newline t.
Proof. apply string_forall_app. Qed.
Lemma clean_no_newline s : clean s = true → no_newline s = true.
Proof. apply clean_split. by left. Qed.

Lemma usd_attribute_no_newline attr : clean attr.(ra_attribute) = true → no_newline (usd_attribute attr) = true.
Proof.
  intros Hc. unfold usd_attribute, usd_property, quoted. rewrite !no_newline_app, usd_encode_value_components.
  rewrite (clean_no_newline (uuid_to_string _)) by apply uuid_clean. rewrite (clean_no_newline _ Hc).
  assert (no_newline (join " " (components attr.(ra_value))) = true) as ->; [|done].
  apply string_forall_join; [done|]. eapply Forall_impl; [apply components_clean|]. apply clean_no_newline.
Qed.

Lemma usd_lines_no_newline recording :
  exportable recording → Forall (λ s, no_newline s = true) (usd_lines recording).
Proof.
  intros Hok. unfold usd_lines. apply Forall_app. split; [|apply Forall_app; split; [|by repeat constructor]].
  - repeat apply Forall_cons_2; try apply Forall_nil_2; try done.
    unfold quoted. rewrite !no_newline_app, (clean_no_newline (uuid_to_string _)) by apply uuid_clean. done.
  - unfold exportable in Hok. induction Hok as [|frame frames [Ht Ha] _ IH]; [constructor|].
    rewrite bind_cons. apply Forall_app. split; [|done]. unfold usd_frame.
    apply Forall_app. split; [|apply Forall_app; split; [|by repeat constructor]].
    + apply Forall_singleton. unfold quoted. rewrite !no_newline_app, (clean_no_newline (show_Z _)); [done|].
      apply show_Z_clean.
    + apply Forall_fmap. eapply Forall_impl; [done|]. apply usd_attribute_no_newline.
Qed.

Lemma split_export lines :
  Forall (λ s, no_newline s = true) lines →
  split_at newline (foldr (λ line out, ln line +:+ out) "" lines) = lines ++ [""].
Proof.
  induction 1 as [|l lines Hl _ IH]; [done|]. cbn [foldr app].
  assert (∀ x, ln l +:+ x = l +:+ String newline x) as Hln.
  { intros x. unfold ln. by rewrite <-string_app_assoc. }
  by rewrite Hln, split_at_app, IH.
Qed.

(** C22. A USD file of a recording whose timestamps are 64-bit and whose
    attribute names are clean (nothing checks that, see [export_gaps]), read
    back by indentation, gives the identifier of the recording and, frame by
    frame and in order, the time and each object, name and printed value. The
    rest of the manifest, the markers and the modes of the frames are not in
    the file. *)
Theorem usd_roundtrip recording :
  exportable recording →
  usd_read (usd_export recording)
  = Some (recording.(file_manifest).(recording_id), frame_of <$> recording.(file_frames)).
Proof.
  intros Hok. unfold usd_read, usd_export. rewrite split_export by by apply usd_lines_no_newline.
  unfold usd_lines. rewrite <-!(assoc_L (++)). cbn [app].
  assert (∀ u, "    custom string recording_id = " +:+ quoted (uuid_to_string u)
    = ("    custom string recording_id = " +:+ chars quote) +:+ (uuid_to_string u +:+ chars quote)) as -> by done.
  rewrite strip_prefix_app. cbn [mbind option_bind]. rewrite strip_suffix_app. cbn [mbind option_bind].
  rewrite uuid_parse_to_string. cbn [mbind option_bind]. by rewrite usd_read_frames.
Qed.
End readers.

(** * Witnesses and gaps *)

Definition take_of (attrs : list RecordedAttribute) : RecordingFile :=
  mkFile (mkManifest 9%N 1%N 0 2 1) [] [mkRecordedFrame 16 Protocol.Recording attrs] V2.
Definition sample_take : RecordingFile :=
  take_of [mkRecordedAttribute 2%N "position" (Vec3f [# F32.of_Z 1; F32.of_Z (-2); F32.of_Z 3]);
           mkRecordedAttribute 2%N "fov" (Float32 (F32.of_Z 35))].

Lemma sample_take_ok : exportable sample_take.
Proof. apply (bool_decide_eq_true_1 _). vm_compute. reflexivity. Qed.

Lemma chan_roundtrip_witness :
  chan_read (H0:=decimal_text) (chan_export (H:=decimal_uuid) sample_take)
  = Some (samples sample_take) ∧ length (samples sample_take) = 4%nat.
Proof. split; [apply (chan_roundtrip (H0:=decimal_text) sample_take sample_take_ok)|reflexivity]. Defined.

Lemma usd_roundtrip_witness :
  usd_read (H0:=decimal_text) (usd_export (H:=decimal_uuid) sample_take)
  = Some (9%N, frame_of <$> sample_take.(file_frames)).
Proof. apply (usd_roundtrip (H0:=decimal_text) sample_take sample_take_ok). Defined.

(** Names are written as they are: a name with a space makes two takes with
    different attributes one chan file, and a name with a quote and a newline
    makes one attribute of a USD file two properties. *)
Theorem export_gaps :
  let spaced := take_of [mkRecordedAttribute 2%N "a 1" (Int32 2)] in
  let pair := take_of [mkRecordedAttribute 2%N "a" (Vec2f [# F32.of_Z 1; F32.of_Z 2])] in
  let injected := take_of [mkRecordedAttribute 2%N
    ("a = " +:+ quoted "1" +:+ chars newline +:+ "            custom string o2_b") (Int32 2)] in
  let two := take_of [mkRecordedAttribute 2%N "a" (Int32 1); mkRecordedAttribute 2%N "b" (Int32 2)] in
  chan_export (H:=decimal_uuid) spaced = chan_export (H:=decimal_uuid) pair
  ∧ usd_export (H:=decimal_uuid) injected = usd_export (H:=decimal_uuid) two.
Proof. split; vm_compute; reflexivity. Qed.
