(* ===== verification/Transport.v ===== *)
(** [crates/motionstage-transport-quic/src/lib.rs]: the wire values, the
    versioned envelopes, the length-prefixed control channel and the motion
    datagrams.

    The QUIC connection itself ([quinn]) is a reliable byte stream for the
    control channel and delivers a datagram whole or not at all; its set-up is
    in [Quic.v], and the stream as it arrives in pieces in [Stream.v]. *)

From S2P Require Import Prelude Float Protocol Model Codec.

Local Open Scope Z_scope.

Inductive AttributeValueFrame :=
  | FBool (b : bool)
  | FInt32 (z : Z)
  | FFloat32 (v : f32)
  | FFloat64 (v : f64)
  | FVec2f (v : vec f32 2)
  | FVec3f (v : vec f32 3)
  | FVec4f (v : vec f32 4)
  | FQuatf (v : vec f32 4)
  | FMat4f (v : vec (vec f32 4) 4)
  | FTrigger (b : bool).

(** [impl From<AttributeValueFrame> for AttributeValue] and back. *)
Definition value_of_frame (value : AttributeValueFrame) : AttributeValue :=
  match value with
  | FBool v => VBool v
  | FInt32 v => Int32 v
  | FFloat32 v => Float32 v
  | FFloat64 v => Float64 v
  | FVec2f v => Vec2f v
  | FVec3f v => Vec3f v
  | FVec4f v => Vec4f v
  | FQuatf v => Quatf v
  | FMat4f v => Mat4f v
  | FTrigger v => Trigger v
  end.

Definition frame_of_value (value : AttributeValue) : AttributeValueFrame :=
  match value with
  | VBool v => FBool v
  | Int32 v => FInt32 v
  | Float32 v => FFloat32 v
  | Float64 v => FFloat64 v
  | Vec2f v => FVec2f v
  | Vec3f v => FVec3f v
  | Vec4f v => FVec4f v
  | Quatf v => FQuatf v
  | Mat4f v => FMat4f v
  | Trigger v => FTrigger v
  end.

Record AttributeUpdateFrame := mkUpdateFrame {
  uf_output_attribute : string;
  uf_value : AttributeValueFrame;
}.

Definition update_of_frame (f : AttributeUpdateFrame) : AttributeUpdate :=
  mkUpdate f.(uf_output_attribute) (value_of_frame f.(uf_value)).
Definition frame_of_update (u : AttributeUpdate) : AttributeUpdateFrame :=
  mkUpdateFrame u.(output_attribute) (frame_of_value u.(value)).

Record MotionDatagram := mkDatagram {
  md_device_id : Uuid;
  md_timestamp_ns : Z;
  md_updates : list AttributeUpdateFrame;
}.

Record MotionDatagramEnvelope := mkDatagramEnvelope {
  de_protocol_major : Z;
  de_protocol_minor : Z;
  de_datagram : MotionDatagram;
}.

Record ControlEnvelope := mkControlEnvelope {
  ce_protocol_major : Z;
  ce_protocol_minor : Z;
  ce_message : ControlMessage;
}.

(** The errors of the libraries below are kept as their texts; those of a read
    from the stream as what they are. *)
Inductive QuicTransportError :=
  | Io (e : string)
  | Tls (e : string)
  | Cert (e : string)
  | Connect (e : string)
  | Connection (e : string)
  | Read (e : IoError)
  | Write (e : string)
  | Serialization (e : string)
  | Datagram (e : string)
  | Crypto (e : string)
  | Handshake (e : string)
  | UnsupportedProtocolVersion (major minor supported_major supported_minor : Z).

Definition validate_wire_version (major minor : Z) : res QuicTransportError () :=
  if bool_decide (major ≠ PROTOCOL_MAJOR) || bool_decide (PROTOCOL_MINOR < minor)
  then Err (UnsupportedProtocolVersion major minor PROTOCOL_MAJOR PROTOCOL_MINOR)
  else Ok ().

Section transport.
Context {be : Bincode ControlEnvelope} {bd : Bincode MotionDatagramEnvelope}.

(** [ControlChannel::send]: the bytes written to the stream. *)
Definition send (message : ControlMessage) : res QuicTransportError (list byte) :=
  bytes ← bincode_result Serialization
    (serialize (mkControlEnvelope PROTOCOL_MAJOR PROTOCOL_MINOR message));
  Ok (to_le_bytes (wrap32 (Z.of_nat (length bytes))) ++ bytes).

(** [read_control_message], on the receive half of the stream. *)
Definition read_control_message : prog Cursor QuicTransportError ControlMessage :=
  len_bytes ← zoom (λ c, c) (λ c _, c) Read (read_exact 4);
  bytes ← zoom (λ c, c) (λ c _, c) Read (read_exact (from_le_bytes len_bytes));
  envelope ← lift (bincode_result Serialization (deserialize (A:=ControlEnvelope) bytes));
  lift (validate_wire_version envelope.(ce_protocol_major) envelope.(ce_protocol_minor));;
  mret envelope.(ce_message).

(** [QuicPeer::send_motion_datagram] and [QuicPeer::recv_motion_datagram]. *)
Definition send_motion_datagram (datagram : MotionDatagram) : res QuicTransportError (list byte) :=
  bincode_result Serialization (serialize (mkDatagramEnvelope PROTOCOL_MAJOR PROTOCOL_MINOR datagram)).

Definition recv_motion_datagram (bytes : list byte) : res QuicTransportError MotionDatagram :=
  envelope ← bincode_result Serialization (deserialize (A:=MotionDatagramEnvelope) bytes);
  validate_wire_version envelope.(de_protocol_major) envelope.(de_protocol_minor);;
  Ok envelope.(de_datagram).

(** ** Properties *)

(** The wire gate and the handshake agree: an envelope is let through
    exactly when its version would pass [negotiate_version] against the
    server's. *)
Theorem wire_version_agrees major minor :
  is_ok (validate_wire_version major minor) =
    is_ok (negotiate_version (mkVersion PROTOCOL_MAJOR PROTOCOL_MINOR) (mkVersion major minor)).
Proof.
  rewrite negotiate_version_outcome. unfold validate_wire_version. cbn [Protocol.major Protocol.minor].
  destruct (decide (PROTOCOL_MAJOR = major)) as [<-|Hm].
  - rewrite bool_decide_eq_false_2 by (intros []; done). simpl.
    destruct (decide (minor ≤ PROTOCOL_MINOR)).
    + by rewrite bool_decide_eq_false_2 by lia.
    + by rewrite bool_decide_eq_true_2 by lia.
  - by rewrite bool_decide_eq_true_2 by congruence.
Qed.

(** Reading every message of a stream. *)
Fixpoint read_messages (n : nat) : prog Cursor QuicTransportError (list ControlMessage) :=
  match n with
  | O => mret []
  | S n => m ← read_control_message; ms ← read_messages n; mret (m :: ms)
  end.

Lemma read_message_at m b pre post :
  serialize (mkControlEnvelope PROTOCOL_MAJOR PROTOCOL_MINOR m) = inr b → blob_fits b →
  read_control_message (mkCursor (pre ++ blob b ++ post) (Z.of_nat (length pre))) =
    (mkCursor (pre ++ blob b ++ post) (Z.of_nat (length (pre ++ blob b))), Ok m).
Proof.
  intros Hs Hfit. unfold read_control_message, zoom. unfold_prog.
  rewrite (read_prefix pre b post). cbn [map_err]. rewrite blob_length by done.
  rewrite (read_payload pre b post). cbn [map_err].
  rewrite (deserialize_serialize _ _ Hs). cbn. done.
Qed.

(** What is written for a message. *)
Definition encodes (m : ControlMessage) (bs : list byte) : Prop :=
  send m = Ok bs ∧ Z.of_nat (length bs) < 2 ^ 32.

Lemma encodes_blob m bs :
  encodes m bs → ∃ b, bs = blob b ∧ blob_fits b ∧
    serialize (mkControlEnvelope PROTOCOL_MAJOR PROTOCOL_MINOR m) = inr b.
Proof.
  intros [Hs Hlen]. unfold send in Hs. destruct (serialize _) as [|b] eqn:Eb in Hs; [done|].
  assert (bs = blob b) as -> by (by injection Hs as <-). exists b. split_and!; [done| |done].
  unfold blob_fits. rewrite length_blob in Hlen. lia.
Qed.

(** A control channel delivers what was sent: reading the concatenated
    output of any sequence of sends gives the same messages in the same
    order, and stops exactly at the end of the stream. *)
Theorem control_channel_roundtrip ms bss :
  Forall2 encodes ms bss →
  read_messages (length ms) (mkCursor (concat bss) 0)
    = (mkCursor (concat bss) (Z.of_nat (length (concat bss))), Ok ms).
Proof.
  intros H.
  enough (∀ pre, read_messages (length ms) (mkCursor (pre ++ concat bss) (Z.of_nat (length pre)))
    = (mkCursor (pre ++ concat bss) (Z.of_nat (length (pre ++ concat bss))), Ok ms)) as Hg
    by apply (Hg []).
  induction H as [|m bs ms bss Hm _ IH]; intros pre.
  { cbn. by rewrite app_nil_r. }
  destruct (encodes_blob _ _ Hm) as (b & -> & Hfit & Eb).
  cbn [length read_messages concat].
  rewrite (prog_bind_ok _ _ _ _ _ (read_message_at m b pre (concat bss) Eb Hfit)), app_assoc.
  by rewrite (prog_bind_ok _ _ _ _ _ (IH (pre ++ blob b))).
Qed.

Lemma value_frame_roundtrip v : value_of_frame (frame_of_value v) = v.
Proof. by destruct v. Qed.
Lemma frame_value_roundtrip f : frame_of_value (value_of_frame f) = f.
Proof. by destruct f. Qed.

(** The updates a device packs into a datagram are the updates the server
    unpacks, with the same device and timestamp; the two conversions of
    values are inverse to each other. *)
Theorem motion_datagram_roundtrip device t us bs :
  send_motion_datagram (mkDatagram device t (frame_of_update <$> us)) = Ok bs →
  ∃ d, recv_motion_datagram bs = Ok d ∧ d.(md_device_id) = device ∧ d.(md_timestamp_ns) = t ∧
    update_of_frame <$> d.(md_updates) = us ∧
    frame_of_update <$> (update_of_frame <$> d.(md_updates)) = d.(md_updates).
Proof.
  unfold send_motion_datagram, recv_motion_datagram. intros H.
  destruct (serialize _) as [|b] eqn:Eb in H; simpl in H; [done|]. injection H as <-.
  rewrite (deserialize_serialize _ _ Eb). cbn. eexists. split; [done|]. cbn. split_and!; [done..| |].
  - rewrite <-list_fmap_compose. rewrite <-(list_fmap_id us) at 2. apply list_fmap_ext.
    intros i [o v] _. unfold compose, update_of_frame, frame_of_update. cbn.
    by rewrite value_frame_roundtrip.
  - rewrite <-list_fmap_compose, <-list_fmap_compose. apply list_fmap_ext. intros i [o v] _.
    unfold compose, update_of_frame, frame_of_update. cbn. by rewrite value_frame_roundtrip.
Qed.
End transport.

(** ** Instances: a small format in the place of [bincode] *)

#[local] Instance small_control : Bincode ControlEnvelope.
Proof.
  refine {|
    serialize e :=
      if small e.(ce_protocol_major) && small e.(ce_protocol_minor) then
        match e.(ce_message) with
        | CPing => inr [byte_of_Z e.(ce_protocol_major); byte_of_Z e.(ce_protocol_minor); Byte.x00]
        | CPong => inr [byte_of_Z e.(ce_protocol_major); byte_of_Z e.(ce_protocol_minor)]
        | _ => inl "message"
        end
      else inl "version";
    deserialize bs := match bs with
      | [a; b] => inr (mkControlEnvelope (Z_of_byte a) (Z_of_byte b) CPong)
      | [a; b; _] => inr (mkControlEnvelope (Z_of_byte a) (Z_of_byte b) CPing)
      | _ => inl "length"
      end |}.
  intros [a b m] bs. cbn -[small]. destruct (small a && small b) eqn:E; [|done].
  apply andb_true_iff in E as [Ea Eb].
  destruct m; intros [= <-]; cbn -[small]; by rewrite !small_byte.
Defined.

Definition tap (b : bool) : AttributeUpdateFrame := mkUpdateFrame "tap" (FTrigger b).
Definition tapped (us : list AttributeUpdateFrame) : option bool :=
  match us with
  | [mkUpdateFrame o (FTrigger b)] => if decide (o = "tap") then Some b else None
  | _ => None
  end.

Lemma tapped_some us b : tapped us = Some b → us = [tap b].
Proof.
  destruct us as [|[o f] [|]]; simpl; try done; destruct f; try done.
  case_decide; [|done]. by intros [= ->]; subst.
Qed.

#[local] Instance small_motion : Bincode MotionDatagramEnvelope.
Proof.
  refine {|
    serialize e :=
      if small e.(de_protocol_major) && small e.(de_protocol_minor)
         && small (Z.of_N e.(de_datagram).(md_device_id)) && small e.(de_datagram).(md_timestamp_ns) then
        match tapped e.(de_datagram).(md_updates) with
        | Some b =>
            inr [byte_of_Z e.(de_protocol_major); byte_of_Z e.(de_protocol_minor);
                 byte_of_Z (Z.of_N e.(de_datagram).(md_device_id));
                 byte_of_Z e.(de_datagram).(md_timestamp_ns); if b then Byte.x01 else Byte.x00]
        | None => inl "updates"
        end
      else inl "range";
    deserialize bs := match bs with
      | [a; b; d; t; u] => inr (mkDatagramEnvelope (Z_of_byte a) (Z_of_byte b)
          (mkDatagram (Z.to_N (Z_of_byte d)) (Z_of_byte t)
            [tap (bool_decide (u = Byte.x01))]))
      | _ => inl "length"
      end |}.
  intros [a b [d t us]] bs. cbn -[small]. destruct (small a && _ && _ && _) eqn:E; [|done].
  rewrite !andb_true_iff in E. destruct E as [[[Ea Eb] Ed] Et].
  cbn -[small] in *. destruct (tapped us) as [u|] eqn:Eu; [|done]. apply tapped_some in Eu as ->.
  intros [= <-]. rewrite !small_byte, N2Z.id by done. by destruct u.
Defined.

(** A ping and a pong on one stream. *)
Lemma control_channel_roundtrip_witness : ∃ bs1 bs2,
  send CPing = Ok bs1 ∧ send CPong = Ok bs2 ∧
  result (read_messages 2) (mkCursor (bs1 ++ bs2) 0) = Ok [CPing; CPong].
Proof.
  destruct (send CPing) as [bs1| |] eqn:E1; [|vm_compute in E1; discriminate E1..].
  destruct (send CPong) as [bs2| |] eqn:E2; [|vm_compute in E2; discriminate E2..].
  exists bs1, bs2. split_and!; [done..|].
  rewrite <-(app_nil_r bs2). change (bs1 ++ bs2 ++ []) with (concat [bs1; bs2]).
  rewrite (control_channel_roundtrip [CPing; CPong] [bs1; bs2]); [done|].
  vm_compute in E1, E2. injection E1 as <-. injection E2 as <-. repeat constructor.
Defined.

Lemma motion_datagram_roundtrip_witness : ∃ bs d,
  recv_motion_datagram bs = Ok d ∧ update_of_frame <$> d.(md_updates) = [mkUpdate "tap" (Trigger true)].
Proof.
  destruct (send_motion_datagram (mkDatagram 7%N 42 (frame_of_update <$> [mkUpdate "tap" (Trigger true)])))
    as [bs| |] eqn:E; [|vm_compute in E; discriminate E..].
  destruct (motion_datagram_roundtrip 7%N 42 [mkUpdate "tap" (Trigger true)] bs E)
    as (d & Hd & _ & _ & Hu & _). by exists bs, d.
Defined.
