(* ===== verification/WebRtc.v ===== *)
(** [crates/motionstage-webrtc/src/lib.rs]: the peer session of the server, a
    wrapper of one connection of the [webrtc] crate. *)

From S2P Require Import Prelude Protocol.

Local Open Scope Z_scope.

(** What the session uses of the [webrtc] crate.  Its state [rtc_world] is outside
    of the server; every call may change it and may fail with a text. *)
Class WebRtcCrate := {
  rtc_world : Type;
  RTCPeerConnection : Type;
  RTCSessionDescription : Type;
  rd_text : RTCSessionDescription → string;
  rtc_register_default_codecs : rtc_world → rtc_world * res string ();
  rtc_register_default_interceptors : rtc_world → rtc_world * res string ();
  rtc_new_peer_connection : rtc_world → rtc_world * res string RTCPeerConnection;
  rtc_create_offer : RTCPeerConnection → rtc_world → rtc_world * res string RTCSessionDescription;
  rtc_create_answer : RTCPeerConnection → rtc_world → rtc_world * res string RTCSessionDescription;
  rtc_set_local_description : RTCPeerConnection → RTCSessionDescription → rtc_world → rtc_world * res string ();
  rtc_set_remote_description : RTCPeerConnection → RTCSessionDescription → rtc_world → rtc_world * res string ();
  rtc_parse_offer : string → res string RTCSessionDescription;
  rtc_parse_answer : string → res string RTCSessionDescription;
  rtc_add_ice_candidate : RTCPeerConnection → IceCandidate → rtc_world → rtc_world * res string ();
  rtc_add_track : RTCPeerConnection → string → string → rtc_world → rtc_world * res string ();
}.

Inductive WebRtcError :=
  | PeerError (e : string)
  | SdpError (e : string)
  | IceError (e : string)
  | TrackError (e : string).

(** The derived [Display]. *)
Definition webrtc_error_text (e : WebRtcError) : string :=
  match e with
  | PeerError e => "peer error: " +:+ e
  | SdpError e => "sdp error: " +:+ e
  | IceError e => "ice error: " +:+ e
  | TrackError e => "track error: " +:+ e
  end.

Section webrtc.
Context `{WebRtcCrate}.

(** A call of the crate under [.map_err(f)?]. *)
Definition rtc_call {A} (f : string → WebRtcError) (m : rtc_world → rtc_world * res string A) :
    prog rtc_world WebRtcError A := λ w,
  match m w with (w', r) => (w', map_err f r) end.

Definition WebRtcSession_new : prog rtc_world WebRtcError RTCPeerConnection :=
  rtc_call PeerError rtc_register_default_codecs;;
  rtc_call PeerError rtc_register_default_interceptors;;
  rtc_call PeerError rtc_new_peer_connection.

Definition create_offer (peer : RTCPeerConnection) : prog rtc_world WebRtcError SdpMessage :=
  offer ← rtc_call SdpError (rtc_create_offer peer);
  rtc_call SdpError (rtc_set_local_description peer offer);;
  mret (mkSdp Offer (rd_text offer)).

Definition create_answer (peer : RTCPeerConnection) : prog rtc_world WebRtcError SdpMessage :=
  answer ← rtc_call SdpError (rtc_create_answer peer);
  rtc_call SdpError (rtc_set_local_description peer answer);;
  mret (mkSdp Answer (rd_text answer)).

Definition apply_remote_sdp (peer : RTCPeerConnection) (message : SdpMessage) :
    prog rtc_world WebRtcError () :=
  description ← match message.(sdp_ty) with
    | Offer => lift (map_err SdpError (rtc_parse_offer message.(sdp_text)))
    | Answer => lift (map_err SdpError (rtc_parse_answer message.(sdp_text)))
    end;
  rtc_call SdpError (rtc_set_remote_description peer description).

Definition add_ice_candidate (peer : RTCPeerConnection) (candidate : IceCandidate) :
    prog rtc_world WebRtcError () :=
  rtc_call IceError (rtc_add_ice_candidate peer candidate).

(** A local H.264 sample track at 90 kHz. *)
Definition add_h264_track (peer : RTCPeerConnection) (stream_id track_id : string) :
    prog rtc_world WebRtcError () :=
  rtc_call TrackError (rtc_add_track peer track_id stream_id).
End webrtc.
