(* ===== verification/Server.v ===== *)
(** [crates/motionstage-server/src/lib.rs], the server state and the life of a
    session: discovery, handshake steps, registration, closing.

    Every method takes the write lock of the state once (unless it says
    otherwise), so it is one atomic step on [ServerState]. *)

From S2P Require Import Prelude Float IndexMap Protocol Model Transform Runtime Media Codec.
From S2P Require Import Recording WebRtc.

Local Open Scope Z_scope.

Inductive SecurityMode := TrustedLan | PairingRequired | ApiKey | ApiKeyPlusPairing.

(** [SecurityMode::as_str]. *)
Definition as_str (self : SecurityMode) : string :=
  match self with
  | TrustedLan => "trusted_lan"
  | PairingRequired => "pairing_required"
  | ApiKey => "api_key"
  | ApiKeyPlusPairing => "api_key_plus_pairing"
  end.

(** [SocketAddr]: the address and whether it is unspecified, and the port. *)
Record SocketAddr := mkAddr { ip : string; ip_is_unspecified : bool; port : Z }.

Record ServerConfig := mkConfig {
  name : string;
  quic_bind_addr : SocketAddr;
  security_mode : SecurityMode;
  enable_discovery : bool;
  max_sessions : nat;
  tick_hz : Z;
  publish_hz : Z;
  supported_features : list Feature;
  cfg_lease : LeaseConfig;
  pairing_token : option string;
  api_key : option string;
}.

(** [ServerConfig::default]. *)
Definition ServerConfig_default : ServerConfig :=
  mkConfig "motionstage" (mkAddr "0.0.0.0" true 7788) TrustedLan true 256 120 60
    [Motion; MappingFeature; RecordingFeature; Video; Hdr10Feature; SdrFallback]
    LeaseConfig_default None None.

Record SessionInfo := mkSession {
  s_device_id : Uuid;
  s_device_name : string;
  s_session_id : option Uuid;
  s_roles : list ClientRole;
  s_features : list Feature;
  s_advertised_attributes : list string;
  s_state : SessionState;
}.

Definition set_s_state (st : SessionState) (s : SessionInfo) : SessionInfo :=
  mkSession s.(s_device_id) s.(s_device_name) s.(s_session_id) s.(s_roles) s.(s_features)
    s.(s_advertised_attributes) st.
Definition set_s_session_id (id : Uuid) (s : SessionInfo) : SessionInfo :=
  mkSession s.(s_device_id) s.(s_device_name) (Some id) s.(s_roles) s.(s_features)
    s.(s_advertised_attributes) s.(s_state).
Definition set_s_hello (hello : ClientHello) (s : SessionInfo) : SessionInfo :=
  mkSession s.(s_device_id) s.(s_device_name) s.(s_session_id) hello.(ch_roles)
    hello.(ch_features) hello.(ch_advertised_attributes) s.(s_state).

(** An entry of the session map that is not closed. *)
Definition is_open (entry : Uuid * SessionInfo) : Prop := entry.2.(s_state) ≠ Closed.
#[export] Instance is_open_dec entry : Decision (is_open entry).
Proof. unfold is_open. apply _. Defined.

Record ActiveRecording := mkActiveRecording { path : string; writer : RecordingWriter }.

Record ServerMetrics := mkMetrics {
  accepted_sessions : Z;
  rejected_sessions : Z;
  motion_datagrams : Z;
  motion_updates : Z;
  signaling_messages : Z;
  scheduler_ticks : Z;
  publish_ticks : Z;
}.

Record DiscoveryAdvertisement := mkAdvertisement {
  service_name : string;
  bind_host : string;
  bind_port : Z;
  protocol_major : Z;
  protocol_minor : Z;
  adv_features : list Feature;
  adv_security_mode : string;
}.

Inductive ServerError :=
  | ECore (e : CoreError)
  | EProtocol (e : ProtocolError)
  | ESessionNotFound (device_id : Uuid)
  | ERegisterRejected (r : RegisterRejected)
  | ERecording (reason : string)
  | EVideo (reason : string)
  | EWebRtc (reason : string)
  | EDiscovery (reason : string)
  | ESignaling (reason : string)
  | ERuntime (reason : string).

(** The derived [Display] texts that end up in other errors or on the wire. *)
Class ErrorText := {
  server_error_text : ServerError → string;
  recording_error_text : RecordingError → string;
  media_error_text : MediaError → string;
}.

(** [rejected(code, reason)], as it is written out in the source. *)
Definition rejected (code : RejectCode) (reason : string) : ServerError :=
  ERegisterRejected {| rj_code := code; rj_reason := reason |}.

Record VideoPeerSession (P : Type) := mkPeer { peer : P; track_added : bool }.
Arguments mkPeer {P} _ _.
Arguments peer {P} _.
Arguments track_added {P} _.

(** The state behind the lock.  The last two fields are not of the server but
    of the world it acts on: the [webrtc] crate's and the files. *)
Record ServerState (M : Type → Type) `{WebRtcCrate} := mkServer {
  config : ServerConfig;
  runtime : RuntimeCore M;
  sessions : gmap Uuid SessionInfo;
  metrics : ServerMetrics;
  running : bool;
  active_recording : option ActiveRecording;
  master_video_descriptor : option VideoStreamDescriptor;
  signaling : SignalingHub;
  video_peers : gmap Uuid (VideoPeerSession RTCPeerConnection);
  runtime_resources : option bool;
  active_advertisement : option DiscoveryAdvertisement;
  last_published_snapshot : option (RuntimeSnapshot M);
  webrtc : rtc_world;
  disk : gmap string (list byte);
}.
Arguments mkServer {M _} _ _ _ _ _ _ _ _ _ _ _ _ _ _.
Arguments config {M _} _.
Arguments runtime {M _} _.
Arguments sessions {M _} _.
Arguments metrics {M _} _.
Arguments running {M _} _.
Arguments active_recording {M _} _.
Arguments master_video_descriptor {M _} _.
Arguments signaling {M _} _.
Arguments video_peers {M _} _.
Arguments runtime_resources {M _} _.
Arguments active_advertisement {M _} _.
Arguments last_published_snapshot {M _} _.
Arguments webrtc {M _} _.
Arguments disk {M _} _.

Section setters.
Context {M : Type → Type} `{WebRtcCrate}.
Implicit Types s : ServerState M.

Definition set_runtime r s : ServerState M :=
  mkServer s.(config) r s.(sessions) s.(metrics) s.(running) s.(active_recording)
    s.(master_video_descriptor) s.(signaling) s.(video_peers) s.(runtime_resources)
    s.(active_advertisement) s.(last_published_snapshot) s.(webrtc) s.(disk).
Definition set_sessions ss s : ServerState M :=
  mkServer s.(config) s.(runtime) ss s.(metrics) s.(running) s.(active_recording)
    s.(master_video_descriptor) s.(signaling) s.(video_peers) s.(runtime_resources)
    s.(active_advertisement) s.(last_published_snapshot) s.(webrtc) s.(disk).
Definition set_metrics m s : ServerState M :=
  mkServer s.(config) s.(runtime) s.(sessions) m s.(running) s.(active_recording)
    s.(master_video_descriptor) s.(signaling) s.(video_peers) s.(runtime_resources)
    s.(active_advertisement) s.(last_published_snapshot) s.(webrtc) s.(disk).
Definition set_recording r s : ServerState M :=
  mkServer s.(config) s.(runtime) s.(sessions) s.(metrics) s.(running) r
    s.(master_video_descriptor) s.(signaling) s.(video_peers) s.(runtime_resources)
    s.(active_advertisement) s.(last_published_snapshot) s.(webrtc) s.(disk).
Definition set_descriptor d s : ServerState M :=
  mkServer s.(config) s.(runtime) s.(sessions) s.(metrics) s.(running) s.(active_recording)
    d s.(signaling) s.(video_peers) s.(runtime_resources)
    s.(active_advertisement) s.(last_published_snapshot) s.(webrtc) s.(disk).
Definition set_signaling h s : ServerState M :=
  mkServer s.(config) s.(runtime) s.(sessions) s.(metrics) s.(running) s.(active_recording)
    s.(master_video_descriptor) h s.(video_peers) s.(runtime_resources)
    s.(active_advertisement) s.(last_published_snapshot) s.(webrtc) s.(disk).
Definition set_video_peers p s : ServerState M :=
  mkServer s.(config) s.(runtime) s.(sessions) s.(metrics) s.(running) s.(active_recording)
    s.(master_video_descriptor) s.(signaling) p s.(runtime_resources)
    s.(active_advertisement) s.(last_published_snapshot) s.(webrtc) s.(disk).
Definition set_lifecycle addr run res adv s : ServerState M :=
  mkServer (mkConfig s.(config).(name) addr s.(config).(security_mode) s.(config).(enable_discovery)
      s.(config).(max_sessions) s.(config).(tick_hz) s.(config).(publish_hz)
      s.(config).(supported_features) s.(config).(cfg_lease) s.(config).(pairing_token)
      s.(config).(api_key))
    s.(runtime) s.(sessions) s.(metrics) run s.(active_recording)
    s.(master_video_descriptor) s.(signaling) s.(video_peers) res
    adv s.(last_published_snapshot) s.(webrtc) s.(disk).
Definition set_published p s : ServerState M :=
  mkServer s.(config) s.(runtime) s.(sessions) s.(metrics) s.(running) s.(active_recording)
    s.(master_video_descriptor) s.(signaling) s.(video_peers) s.(runtime_resources)
    s.(active_advertisement) p s.(webrtc) s.(disk).
Definition set_webrtc w s : ServerState M :=
  mkServer s.(config) s.(runtime) s.(sessions) s.(metrics) s.(running) s.(active_recording)
    s.(master_video_descriptor) s.(signaling) s.(video_peers) s.(runtime_resources)
    s.(active_advertisement) s.(last_published_snapshot) w s.(disk).
Definition set_disk d s : ServerState M :=
  mkServer s.(config) s.(runtime) s.(sessions) s.(metrics) s.(running) s.(active_recording)
    s.(master_video_descriptor) s.(signaling) s.(video_peers) s.(runtime_resources)
    s.(active_advertisement) s.(last_published_snapshot) s.(webrtc) d.
End setters.

(** [state.metrics.<counter> += 1] and the like, on [u64]. *)
Definition add_accepted (m : ServerMetrics) : ServerMetrics :=
  mkMetrics (wrap64 (m.(accepted_sessions) + 1)) m.(rejected_sessions) m.(motion_datagrams)
    m.(motion_updates) m.(signaling_messages) m.(scheduler_ticks) m.(publish_ticks).
Definition add_rejected (m : ServerMetrics) : ServerMetrics :=
  mkMetrics m.(accepted_sessions) (wrap64 (m.(rejected_sessions) + 1)) m.(motion_datagrams)
    m.(motion_updates) m.(signaling_messages) m.(scheduler_ticks) m.(publish_ticks).
Definition add_datagram (m : ServerMetrics) : ServerMetrics :=
  mkMetrics m.(accepted_sessions) m.(rejected_sessions) (wrap64 (m.(motion_datagrams) + 1))
    m.(motion_updates) m.(signaling_messages) m.(scheduler_ticks) m.(publish_ticks).
Definition add_updates (n : nat) (m : ServerMetrics) : ServerMetrics :=
  mkMetrics m.(accepted_sessions) m.(rejected_sessions) m.(motion_datagrams)
    (wrap64 (m.(motion_updates) + Z.of_nat n)) m.(signaling_messages) m.(scheduler_ticks)
    m.(publish_ticks).
Definition add_signal (m : ServerMetrics) : ServerMetrics :=
  mkMetrics m.(accepted_sessions) m.(rejected_sessions) m.(motion_datagrams) m.(motion_updates)
    (wrap64 (m.(signaling_messages) + 1)) m.(scheduler_ticks) m.(publish_ticks).
Definition add_scheduler_tick (m : ServerMetrics) : ServerMetrics :=
  mkMetrics m.(accepted_sessions) m.(rejected_sessions) m.(motion_datagrams) m.(motion_updates)
    m.(signaling_messages) (wrap64 (m.(scheduler_ticks) + 1)) m.(publish_ticks).
Definition add_publish_tick (m : ServerMetrics) : ServerMetrics :=
  mkMetrics m.(accepted_sessions) m.(rejected_sessions) m.(motion_datagrams) m.(motion_updates)
    m.(signaling_messages) m.(scheduler_ticks) (wrap64 (m.(publish_ticks) + 1)).

Section sessions.
Context {M : Type → Type} `{!IndexMap Uuid M} `{WebRtcCrate}.
Abbreviation Server := (ServerState M).
Abbreviation method := (prog Server ServerError).
Implicit Types self : Server.

(** [ServerHandle::new]; the world is as it is. *)
Definition ServerHandle_new (cfg : ServerConfig) (w : rtc_world) (d : gmap string (list byte)) : Server :=
  mkServer cfg (RuntimeCore_new cfg.(cfg_lease)) ∅ (mkMetrics 0 0 0 0 0 0 0) false None None
    SignalingHub_default ∅ None None None w d.

(** [state.runtime.method(..)], and the same under [.map_err(Core)?]. *)
Definition on_runtime {A} (m : prog (RuntimeCore M) CoreError A) : method A :=
  zoom runtime set_runtime ECore m.

Definition change_session_state (device_id : Uuid) (next : SessionState) : method () :=
  self ← get;
  session ← lift (ok_or (self.(sessions) !! device_id) (ESessionNotFound device_id));
  fail_if (negb (can_transition_to session.(s_state) next))
    (EProtocol (InvalidTransition session.(s_state) next));;
  put (set_sessions (<[device_id := set_s_state next session]> self.(sessions)) self).

Definition ensure_auth self (req : RegisterRequest) : res RejectCode () :=
  let pair := default "motionstage" self.(config).(pairing_token) in
  let key := default "motionstage" self.(config).(api_key) in
  match self.(config).(security_mode) with
  | TrustedLan => Ok ()
  | PairingRequired =>
      match req.(rr_pairing_token) with
      | Some token => if decide (token = pair) then Ok () else Err AuthFailed
      | None => Err AuthFailed
      end
  | ApiKey =>
      match req.(rr_api_key) with
      | Some k => if decide (k = key) then Ok () else Err AuthFailed
      | None => Err AuthFailed
      end
  | ApiKeyPlusPairing =>
      match req.(rr_pairing_token), req.(rr_api_key) with
      | Some p, Some k => if decide (p = pair ∧ k = key) then Ok () else Err AuthFailed
      | _, _ => Err AuthFailed
      end
  end.

(** Sessions that are not closed: [session_count]. *)
Definition session_count self : nat := size (filter is_open self.(sessions)).

Definition enforce_capacity self : res ServerError () :=
  if decide (self.(config).(max_sessions) ≤ session_count self)%nat
  then Err (rejected CapacityExceeded "session capacity exceeded")
  else Ok ().

(** The predicate of [enforce_unique_device_name]. *)
Definition name_conflict (device_id : Uuid) (normalized : string) (session : SessionInfo) : bool :=
  bool_decide (session.(s_device_id) ≠ device_id)
  && bool_decide (session.(s_state) ≠ Closed)
  && bool_decide (is_Some session.(s_session_id))
  && bool_decide (session.(s_device_name) = normalized).

Definition enforce_unique_device_name self (device_id : Uuid) (device_name : string) :
    res ServerError () :=
  let normalized := trim device_name in
  if is_empty normalized then Err (rejected RoleDenied "device name must not be empty")
  else if existsb (name_conflict device_id normalized) (map_to_list self.(sessions)).*2
  then Err (rejected RoleDenied ("device name '" +:+ normalized +:+ "' is already active"))
  else Ok ().

Definition server_hello self : ServerHello :=
  mkServerHello PROTOCOL_MAJOR PROTOCOL_MINOR self.(config).(supported_features)
    (as_str self.(config).(security_mode)).

Definition discovered (device_id : Uuid) (device_name : string) : method () :=
  self ← get;
  (if decide (self.(sessions) !! device_id = None) then lift (enforce_capacity self) else mret ());;
  put (set_sessions (<[device_id :=
    mkSession device_id device_name None [] [] [] Discovered]> self.(sessions)) self).

Definition transport_connected (device_id : Uuid) : method () :=
  change_session_state device_id TransportConnected.

Definition hello_exchanged (hello : ClientHello) : method () :=
  self ← get;
  lift (map_err EProtocol (negotiate_version (mkVersion PROTOCOL_MAJOR PROTOCOL_MINOR)
    (mkVersion hello.(ch_protocol_major) hello.(ch_protocol_minor))));;
  fail_if (bool_decide (hello.(ch_features) = [])) (rejected NoCommonFeature "client has no features");;
  fail_if (bool_decide (hello.(ch_roles) = []))
    (rejected RoleDenied "client must declare at least one role");;
  fail_if (bool_decide (MotionSource ∈ hello.(ch_roles))
           && bool_decide (hello.(ch_advertised_attributes) = []))
    (rejected RoleDenied "motion source must advertise at least one attribute");;
  session ← lift (ok_or (self.(sessions) !! hello.(ch_device_id)) (ESessionNotFound hello.(ch_device_id)));
  put (set_sessions (<[hello.(ch_device_id) := set_s_hello hello session]> self.(sessions)) self);;
  change_session_state hello.(ch_device_id) HelloExchanged.

Definition authenticate (device_id : Uuid) : method () :=
  change_session_state device_id Authenticated.

(** The features both sides have, in the client's order. *)
Definition negotiated (supported features : list Feature) : list Feature :=
  filter (λ f, f ∈ supported) features.

Definition reject {A} (e : ServerError) : method A :=
  modify (λ self, set_metrics (add_rejected self.(metrics)) self);; throw e.

(** [session_id] is the identifier [Uuid::now_v7()] draws. *)
Definition register (session_id : Uuid) (device_id : Uuid) (req : RegisterRequest) :
    method RegisterAccepted :=
  self ← get;
  match ensure_auth self req with
  | Err code => reject (rejected code "auth failed")
  | Panicked => lift Panicked
  | Ok _ =>
      session ← lift (ok_or (self.(sessions) !! device_id) (ESessionNotFound device_id));
      match enforce_unique_device_name self device_id session.(s_device_name) with
      | Err err => reject err
      | Panicked => lift Panicked
      | Ok _ =>
          let negotiated_features :=
            negotiated self.(config).(supported_features) session.(s_features) in
          if decide (negotiated_features = []) then
            reject (rejected NoCommonFeature "no compatible feature")
          else
            put (set_sessions (<[device_id := set_s_session_id session_id session]> self.(sessions)) self);;
            change_session_state device_id Registered;;
            modify (λ self, set_metrics (add_accepted self.(metrics)) self);;
            mret (mkRegisterAccepted session_id negotiated_features)
      end
  end.

Definition scene_synced (device_id : Uuid) : method () :=
  change_session_state device_id SceneSynced.

Definition activate (device_id : Uuid) : method () :=
  on_runtime (register_device_connected device_id);;
  change_session_state device_id Active.

Definition close_session (device_id : Uuid) (now_ns : Z) : method () :=
  on_runtime (register_device_disconnected device_id now_ns);;
  modify (λ self, set_video_peers (delete device_id self.(video_peers)) self);;
  change_session_state device_id Closed.
End sessions.
