(* ===== verification/ServerRuntime.v ===== *)
(** [crates/motionstage-server/src/lib.rs], the methods of [ServerHandle] that
    drive the runtime: mode, baselines, mappings, motion ingest, recording,
    the scheduler loops and the life cycle of the server.

    [now] is what [now_ns()] reads and [id] what [Uuid::now_v7()] draws. *)

From S2P Require Import Prelude Float Net IndexMap Protocol Model Transform Runtime Media Codec.
From S2P Require Import Recording WebRtc Transport Server.

Local Open Scope Z_scope.

(** [source_output_matches] of the server, its own copy of the function. *)
Definition source_output_matches `{UuidFormat} (mapping_output : string) (device_id : Uuid)
    (update_output : string) : bool :=
  if decide (mapping_output = update_output) then true
  else
    let prefix := device_prefix device_id in
    bool_decide (strip_prefix prefix mapping_output = Some update_output)
    || bool_decide (strip_prefix prefix update_output = Some mapping_output).

(** [advertised_host_for]. *)
Definition advertised_host_for (addr : SocketAddr) : string :=
  if addr.(ip_is_unspecified) then "127.0.0.1" else addr.(ip).

(** The period of a loop of [hz] rounds per second, in nanoseconds. *)
Definition period_ns (hz : Z) : Z := Z.max 1 (1000000000 / Z.max 1 hz).

(** The network under [start] and [stop]: [QuicServer::bind] with
    [local_addr], the discovery publisher, and the joining of the tasks. *)
Class Network := {
  net_bind : SocketAddr → res string SocketAddr;
  net_advertise : DiscoveryAdvertisement → res string ();
  net_join : res string ();
  net_withdraw : res string ();
}.

Section server.
Context {M : Type → Type} `{!IndexMap Uuid M} {fmt : UuidFormat} {crate : WebRtcCrate}
  {fs : FileSystem} {bm : Bincode RecordingManifest} {bk : Bincode (list RecordingMarker)}
  {bf : Bincode RecordedFrame} {texts : ErrorText}.
Abbreviation Server := (ServerState M).
Abbreviation method := (prog Server ServerError).
Implicit Types self : Server.

(** [if let Some(recording) = active_recording { recording.writer.f() }]. *)
Definition on_writer (f : RecordingWriter → RecordingWriter) : method () :=
  modify (λ self, set_recording
    ((λ r, mkActiveRecording r.(path) (f r.(writer))) <$> self.(active_recording)) self).

Definition load_scene (scene : Scene) : method SceneId := on_runtime (Runtime.load_scene scene).

Definition set_active_scene (scene_id : SceneId) : method () :=
  on_runtime (Runtime.set_active_scene scene_id).

Definition set_mode (mode : Mode) (now : Z) : method () :=
  self ← get;
  let from := self.(runtime).(Runtime.mode) in
  on_runtime (Runtime.set_mode mode);;
  on_writer (push_marker (ModeTransition now from mode)).

Definition resolve_scene_for_baseline self (requested_scene : option SceneId) :
    res ServerError SceneId :=
  match requested_scene with
  | Some scene_id => Ok scene_id
  | None => ok_or self.(runtime).(active_scene) (ECore (MappingDenied "no active scene"))
  end.

Definition reset_scene_to_baseline (scene_id : option SceneId) : method Z :=
  self ← get;
  resolved ← lift (resolve_scene_for_baseline self scene_id);
  on_runtime (Runtime.reset_scene_to_baseline resolved).

Definition commit_scene_baseline (scene_id : option SceneId) : method Z :=
  self ← get;
  resolved ← lift (resolve_scene_for_baseline self scene_id);
  on_runtime (Runtime.commit_scene_baseline resolved).

Definition commit_object_baseline (scene_id : option SceneId) (object_id : ObjectId) : method Z :=
  self ← get;
  resolved ← lift (resolve_scene_for_baseline self scene_id);
  on_runtime (Runtime.commit_object_baseline resolved object_id).

(** The fields of a mapping that its markers carry. *)
Definition marker_fields (id : MappingId) (m : Mapping) : MappingFields :=
  mkMappingFields id m.(source_device) m.(source_output) m.(target_scene) m.(target_object)
    m.(target_attribute) m.(component_mask).

Definition create_mapping (id : MappingId) (req : MappingRequest) (now : Z) : method MappingId :=
  mapping_id ← on_runtime (Runtime.create_mapping id req now);
  self ← get;
  match im_get mapping_id self.(runtime).(mappings) with
  | Some mapping => on_writer (push_marker (MappingCreated now (marker_fields mapping_id mapping)))
  | None => mret ()
  end;;
  mret mapping_id.

Definition update_mapping (mapping_id : MappingId) (req : MappingRequest) (now : Z) : method () :=
  on_runtime (Runtime.update_mapping mapping_id req now);;
  self ← get;
  match im_get mapping_id self.(runtime).(mappings) with
  | Some mapping => on_writer (push_marker (MappingUpdated now (marker_fields mapping_id mapping)))
  | None => mret ()
  end.

Definition remove_mapping (mapping_id : MappingId) (now : Z) : method () :=
  on_runtime (Runtime.remove_mapping mapping_id);;
  on_writer (push_marker (MappingRemoved now mapping_id)).

Definition set_mapping_lock (mapping_id : MappingId) (lock : bool) (now : Z) : method () :=
  on_runtime (Runtime.set_mapping_lock mapping_id lock);;
  on_writer (push_marker (MappingLockSet now mapping_id lock)).

(** The search predicate of [ingest_motion_samples]. *)
Definition recorded_by (device_id : Uuid) (active : SceneId) (output : string) (m : Mapping) : bool :=
  bool_decide (m.(source_device) = device_id)
  && source_output_matches m.(source_output) device_id output
  && bool_decide (m.(state) = MActive) && bool_decide (m.(target_scene) = active).

(** What an update is recorded as: its target with the value it has now. *)
Definition record_update (core : RuntimeCore M) (device_id : Uuid) (active : SceneId)
    (update : AttributeUpdate) : res ServerError RecordedAttribute :=
  mapping ← ok_or
    (find (recorded_by device_id active update.(output_attribute)) (im_values core.(mappings)))
    (ECore (MappingDenied ("no active mapping for output '" +:+ update.(output_attribute) +:+ "'")));
  resolved ← ok_or
    (scene ← im_get mapping.(target_scene) core.(scenes);
     object ← scene.(objects) !! mapping.(target_object);
     attribute ← object.(attributes) !! mapping.(target_attribute);
     Some attribute.(current_value))
    (ECore (AttributeNotFound mapping.(target_attribute)));
  Ok (mkRecordedAttribute mapping.(target_object) mapping.(target_attribute) resolved).

(** The frame of a batch. *)
Definition record_frame (core : RuntimeCore M) (device_id : Uuid) (updates : list AttributeUpdate)
    (timestamp_ns : Z) : res ServerError RecordedFrame :=
  active ← ok_or core.(active_scene) (ECore (MappingDenied "no active scene"));
  attrs ← res_foldl (λ attrs update,
    a ← record_update core device_id active update; Ok (attrs ++ [a])) [] updates;
  Ok (mkRecordedFrame timestamp_ns core.(Runtime.mode) attrs).

Definition ingest_motion_samples (device_id : Uuid) (updates : list AttributeUpdate)
    (timestamp_ns : Z) : method () :=
  modify (λ self, set_metrics (add_updates (length updates) self.(metrics)) self);;
  on_runtime (apply_updates device_id updates timestamp_ns);;
  self ← get;
  match self.(active_recording) with
  | Some _ =>
      frame ← lift (record_frame self.(runtime) device_id updates timestamp_ns);
      on_writer (push_frame frame)
  | None => mret ()
  end.

(** Two critical sections: the counter, then the samples. *)
Definition ingest_motion_datagram (datagram : MotionDatagram) : method () :=
  modify (λ self, set_metrics (add_datagram self.(metrics)) self);;
  ingest_motion_samples datagram.(md_device_id) (update_of_frame <$> datagram.(md_updates))
    datagram.(md_timestamp_ns).

(** The markers [start_recording] writes for the mappings in place. *)
Definition initial_markers (now : Z) (core : RuntimeCore M) : list RecordingMarker :=
  (λ m, MappingCreated now (marker_fields m.(m_id) m)) <$>
    filter (λ m, m.(state) = MActive) (im_values core.(mappings)).

Definition start_recording (id : Uuid) (file : string) (now : Z) : method Uuid :=
  self ← get;
  from_mode ←
    (if decide (self.(runtime).(Runtime.mode) = Idle)
     then on_runtime (Runtime.set_mode Live);; mret Live
     else mret self.(runtime).(Runtime.mode));
  on_runtime (Runtime.set_mode Protocol.Recording);;
  self ← get;
  active_scene ← lift (ok_or self.(runtime).(active_scene) (ERecording "no active scene"));
  let w := Recording.start id active_scene now in
  let markers := ModeTransition now from_mode Protocol.Recording :: initial_markers now self.(runtime) in
  put (set_recording (Some (mkActiveRecording file (foldl (λ w m, push_marker m w) w markers))) self);;
  mret w.(manifest).(recording_id).

Definition stop_recording (now : Z) : method RecordingManifest :=
  self ← get;
  match self.(active_recording) with
  | None => throw (ERecording "no active recording")
  | Some recording =>
      put (set_recording None self);;
      let w := push_marker (ModeTransition now Protocol.Recording Live) recording.(writer) in
      match finish w (default [] (self.(disk) !! recording.(path))) with
      | (content, r) =>
          modify (λ self, if is_ok fs_create
            then set_disk (<[recording.(path) := content]> self.(disk)) self else self);;
          manifest ← lift (map_err (λ e, ERecording (recording_error_text e)) r);
          on_runtime (Runtime.set_mode Live);;
          mret manifest
      end
  end.

(** ** The scheduler loops *)

(** One round of the tick loop and of the publish loop of
    [spawn_scheduler_loops]. *)
Definition tick_round (now : Z) : method () :=
  self ← get;
  if negb self.(running) then mret ()
  else
    on_runtime (Runtime.scheduler_tick now);;
    modify (λ self, set_metrics (add_scheduler_tick self.(metrics)) self).

Definition publish_round : method () :=
  self ← get;
  if negb self.(running) then mret ()
  else
    put (set_published (Some (snapshot self.(runtime))) self);;
    modify (λ self, set_metrics (add_publish_tick self.(metrics)) self).

(** ** Start and stop *)

Context {net : Network}.

(** What is shared with the running tasks is whether they were started with a
    discovery publisher. *)
Definition server_start : method DiscoveryAdvertisement :=
  self ← get;
  match self.(running), self.(active_advertisement) with
  | true, Some adv => mret adv
  | _, _ =>
      let cfg := self.(config) in
      local_addr ← lift (map_err ERuntime (net_bind cfg.(quic_bind_addr)));
      let advertisement := mkAdvertisement cfg.(name) (advertised_host_for local_addr)
        local_addr.(port) PROTOCOL_MAJOR PROTOCOL_MINOR cfg.(supported_features)
        (as_str cfg.(security_mode)) in
      (if cfg.(enable_discovery)
       then lift (map_err EDiscovery (net_advertise advertisement)) else mret ());;
      modify (set_lifecycle local_addr true (Some cfg.(enable_discovery)) (Some advertisement));;
      mret advertisement
  end.

Definition server_stop : method () :=
  self ← get;
  put (set_lifecycle self.(config).(quic_bind_addr) false None None self);;
  match self.(runtime_resources) with
  | Some discovery =>
      lift (map_err ERuntime net_join);;
      (if discovery : bool then lift (map_err EDiscovery net_withdraw) else mret ())
  | None => mret ()
  end.

(** ** What is only read

    [quic_bind_addr] and [last_published_snapshot] are fields. *)

Definition server_mode self : Mode := self.(runtime).(Runtime.mode).
Definition server_metrics self : ServerMetrics := self.(metrics).
Definition server_tick_count self : Z := self.(runtime).(world).(tick_count).
Definition runtime_snapshot self : RuntimeSnapshot M := snapshot self.(runtime).
Definition has_video_session (device_id : Uuid) self : bool :=
  bool_decide (is_Some (self.(video_peers) !! device_id)).
Definition session_info (device_id : Uuid) self : option SessionInfo := self.(sessions) !! device_id.
Definition server_sessions self : list SessionInfo := by_id self.(sessions).

(** Roles decide who may change the mode; allowlists are ignored. *)
Definition set_mode_control_allowlist (device_ids : list Uuid) : method () := mret ().
Definition mode_control_allowlist self : list Uuid := [].
Definition mode_control_allowed (device_id : Uuid) self : bool := true.
End server.
