(* ===== verification/Lifecycle.v ===== *)
(** [crates/motionstage-server/src/lib.rs]: the life cycle of the server with
    the loops it spawns, [start], [start_quic_runtime],
    [spawn_scheduler_loops], [QuicRuntime::shutdown] and [stop], step by step.

    A [watch] channel is its value, the number of sends, and whether its sender
    is there. A loop is a spawned task that goes round until its channel tells
    it to stop; the accept loop hands each connection to a task of its own
    ([ServerTasks.handle_quic_peer]), which the life cycle does not know. *)

From S2P Require Import Prelude Tasks Float IndexMap Protocol Model Transform Runtime Media Codec.
From S2P Require Import Recording WebRtc Transport Server ServerRuntime.
From stdpp Require Import relations.

Local Open Scope Z_scope.

(** [tokio::sync::watch], the sender's side. *)
Record Watch := mkWatch { value : bool; version : nat; sender_alive : bool }.

Inductive LoopKind := TickLoop | PublishLoop | AcceptLoop.

(** A spawned loop: the channel it listens to, the version it has seen, and
    whether it has ended. *)
Record LoopTask := mkLoop {
  kind : LoopKind;
  period : Z;
  shutdown_rx : nat;
  seen_version : nat;
  finished : bool;
}.

Record QuicRuntime := mkQuicRuntime {
  local_addr : SocketAddr;
  shutdown_tx : nat;
  quic_join : nat;
}.

Record RuntimeResources := mkResources {
  quic_runtime : QuicRuntime;
  discovery : bool;
  scheduler_shutdown_tx : nat;
  tick_join : nat;
  publish_join : nat;
}.

(** What a round of a loop comes from: its channel, its interval, or the
    endpoint. *)
Inductive LoopEvent := Changed | Interval (now : Z) | Accepted | AcceptFailed.

(** The server with its spawned tasks. [resources] are the handles in
    [runtime_resources] of the state, [connections] counts the spawned
    connection tasks. *)
Record Site (M : Type → Type) `{WebRtcCrate} := mkSite {
  state : ServerState M;
  channels : list Watch;
  loops : list LoopTask;
  resources : option RuntimeResources;
  connections : nat;
}.
Arguments mkSite {M _} _ _ _ _ _.
Arguments state {M _} _.
Arguments channels {M _} _.
Arguments loops {M _} _.
Arguments resources {M _} _.
Arguments connections {M _} _.

Section lifecycle.
Context {M : Type → Type} `{!IndexMap Uuid M} {fmt : UuidFormat} {crate : WebRtcCrate}
  {fs : FileSystem} {bm : Bincode RecordingManifest} {bk : Bincode (list RecordingMarker)}
  {bf : Bincode RecordedFrame} {texts : ErrorText} {net : Network}.
Implicit Types s : Site M.
Abbreviation method := (prog (Site M) ServerError).
Abbreviation async := (task (Site M) ServerError).

Definition set_state st s : Site M := mkSite st s.(channels) s.(loops) s.(resources) s.(connections).
Definition set_channels cs s : Site M := mkSite s.(state) cs s.(loops) s.(resources) s.(connections).
Definition set_loops ls s : Site M := mkSite s.(state) s.(channels) ls s.(resources) s.(connections).
Definition set_resources r s : Site M := mkSite s.(state) s.(channels) s.(loops) r s.(connections).
Definition set_connections n s : Site M := mkSite s.(state) s.(channels) s.(loops) s.(resources) n.

(** ** Channels *)

(** [watch::channel(false)]. *)
Definition watch_channel : method nat :=
  s ← get;
  put (set_channels (s.(channels) ++ [mkWatch false 0 true]) s);;
  mret (length s.(channels)).

(** [let _ = tx.send(true)], and the sender going out of scope. *)
Definition send_true (tx : nat) : method () :=
  modify (λ s, set_channels (alter (λ w, mkWatch true (S w.(version)) w.(sender_alive)) tx s.(channels)) s).
Definition drop_sender (tx : nat) : method () :=
  modify (λ s, set_channels (alter (λ w, mkWatch w.(value) w.(version) false) tx s.(channels)) s).

(** [rx.changed().await] of a receiver that has seen [v]: [None] while it
    waits, [Some false] for an error. *)
Definition changed (v : nat) (w : Watch) : option bool :=
  if decide (w.(version) ≠ v) then Some true
  else if w.(sender_alive) then None else Some false.

(** ** Loops *)

(** [tokio::spawn] of a loop, and its handle. *)
Definition spawn_loop (k : LoopKind) (period_ns : Z) (rx : nat) : method nat :=
  s ← get;
  put (set_loops (s.(loops) ++ [mkLoop k period_ns rx 0 false]) s);;
  mret (length s.(loops)).

(** One round of [tokio::select!] in loop [i]; [None] when the event is not one
    of it or it has ended. *)
Definition loop_round (i : nat) (ev : LoopEvent) s : option (Site M) :=
  l ← s.(loops) !! i;
  if l.(finished) then None else
  match ev, l.(kind) with
  | Changed, _ =>
      w ← s.(channels) !! l.(shutdown_rx);
      ok ← changed l.(seen_version) w;
      if ok : bool then
        Some (set_loops (<[i := mkLoop l.(kind) l.(period) l.(shutdown_rx) w.(version) w.(value)]>
          s.(loops)) s)
      else Some s
  | Interval now, TickLoop => Some (set_state (exec (tick_round now) s.(state)) s)
  | Interval _, PublishLoop => Some (set_state (exec publish_round s.(state)) s)
  | Accepted, AcceptLoop => Some (set_connections (S s.(connections)) s)
  | AcceptFailed, AcceptLoop => Some s
  | _, _ => None
  end.

(** [handle.await]: waits for the loop. *)
Definition join_loop (i : nat) : async () :=
  wait (λ s, l ← s.(loops) !! i; if l.(finished) then Some () else None).

(** ** The methods *)

(** A read of the state under its lock. *)
Definition reads {A} (f : ServerState M → A) : async A := atomic (s ← get; mret (f s.(state))).

Definition shutdown (q : QuicRuntime) : async () :=
  atomic (send_true q.(shutdown_tx));;
  join_loop q.(quic_join).

Definition start_quic_runtime : async QuicRuntime :=
  bind_addr ← reads (λ st, st.(config).(quic_bind_addr));
  local ← Done (map_err ERuntime (net_bind bind_addr));
  atomic (tx ← watch_channel;
          i ← spawn_loop AcceptLoop 0 tx;
          mret (mkQuicRuntime local tx i)).

Definition spawn_scheduler_loops (tick_hz publish_hz : Z) : method (nat * nat * nat) :=
  tx ← watch_channel;
  tick ← spawn_loop TickLoop (period_ns tick_hz) tx;
  publish ← spawn_loop PublishLoop (period_ns publish_hz) tx;
  mret (tx, tick, publish).

(** The last block of [start]: what was in [runtime_resources] is dropped. *)
Definition install (adv : DiscoveryAdvertisement) (r : RuntimeResources) : method () :=
  s ← get;
  put (set_resources (Some r)
    (set_state (set_lifecycle r.(quic_runtime).(local_addr) true (Some r.(discovery)) (Some adv) s.(state)) s));;
  match s.(resources) with
  | Some old => drop_sender old.(quic_runtime).(shutdown_tx);; drop_sender old.(scheduler_shutdown_tx)
  | None => mret ()
  end.

(** The rest of [start], when the server does not run yet. *)
Definition launch : async DiscoveryAdvertisement :=
  cfg ← reads config;
  quic ← start_quic_runtime;
  let advertisement := mkAdvertisement cfg.(name) (advertised_host_for quic.(local_addr))
    quic.(local_addr).(port) PROTOCOL_MAJOR PROTOCOL_MINOR cfg.(supported_features)
    (as_str cfg.(security_mode)) in
  match (if cfg.(enable_discovery) then net_advertise advertisement else Ok ()) with
  | Err e => atomic (drop_sender quic.(shutdown_tx));; Done (Err (EDiscovery e))
  | Panicked => Done Panicked
  | Ok _ =>
      '(tx, tick, publish) ← atomic (spawn_scheduler_loops cfg.(tick_hz) cfg.(publish_hz));
      atomic (install advertisement (mkResources quic cfg.(enable_discovery) tx tick publish));;
      mret advertisement
  end.

Definition start : async DiscoveryAdvertisement :=
  early ← reads (λ st, if st.(running) then st.(active_advertisement) else None);
  match early with
  | Some adv => mret adv
  | None => launch
  end.

(** The first block of [stop]. *)
Definition take_resources : method (option RuntimeResources) :=
  s ← get;
  put (set_resources None
    (set_state (set_lifecycle s.(state).(config).(quic_bind_addr) false None None s.(state)) s));;
  mret s.(resources).

Definition stop : async () :=
  taken ← atomic take_resources;
  match taken with
  | None => mret ()
  | Some r =>
      atomic (send_true r.(scheduler_shutdown_tx));;
      join_loop r.(tick_join);;
      join_loop r.(publish_join);;
      shutdown r.(quic_runtime);;
      if r.(discovery) then Done (map_err EDiscovery net_withdraw) else mret ()
  end.

(** [ServerHandle::new]: no tasks yet. *)
Definition Site_new (st : ServerState M) : Site M := mkSite st [] [] None 0.

End lifecycle.
