(* ===== verification/LifecycleProps.v ===== *)
(** Starting and stopping: what [start] and [stop] leave behind, whatever the
    loops do meanwhile, and that neither waits for ever. *)

From S2P Require Import Prelude Tasks Float IndexMap Protocol Model Transform Runtime Media Codec.
From S2P Require Import Recording WebRtc Transport Server ServerRuntime Lifecycle.
From stdpp Require Import relations.

Local Open Scope Z_scope.

Section lifecycle.
Context {M : Type → Type} `{!IndexMap Uuid M} {fmt : UuidFormat} {crate : WebRtcCrate}
  {fs : FileSystem} {bm : Bincode RecordingManifest} {bk : Bincode (list RecordingMarker)}
  {bf : Bincode RecordedFrame} {texts : ErrorText} {net : Network}.
Implicit Types s : Site M.

(** ** What runs beside the caller *)

(** What [start] and [stop] write. *)
Definition life (st : ServerState M) : bool * option DiscoveryAdvertisement * option bool :=
  (st.(running), st.(active_advertisement), st.(runtime_resources)).

(** A round of a loop, or any change of the server but by [start] and [stop]. *)
Inductive loops_run s : Site M → Prop :=
  | run_round i ev s' : loop_round i ev s = Some s' → loops_run s s'
  | run_call st : life st = life s.(state) → loops_run s (set_state st s).

Abbreviation others := (rtc loops_run).

Lemma tick_round_life now (st : ServerState M) : life (exec (tick_round now) st) = life st.
Proof.
  assert (∀ v, keeps life v (tick_round (M:=M) now)) as Hk by (intros v; unfold tick_round, on_runtime; keeps_walk).
  by apply (Hk (life st)).
Qed.

Lemma publish_round_life (st : ServerState M) : life (exec publish_round st) = life st.
Proof.
  assert (∀ v, keeps life v (publish_round (M:=M))) as Hk by (intros v; unfold publish_round; keeps_walk).
  by apply (Hk (life st)).
Qed.

(** ** Loops that wait and loops that were told *)

(** Loop [i] listens to [tx]: it has been told to stop and will see it, or it
    waits for that. *)
Definition loop_at s (x : nat * nat * bool) : Prop :=
  let '(i, tx, told) := x in
  ∃ l w, s.(loops) !! i = Some l ∧ l.(shutdown_rx) = tx ∧ s.(channels) !! tx = Some w ∧
  if told : bool
  then w.(value) = true ∧ (l.(finished) = true ∨ w.(version) ≠ l.(seen_version))
  else w = mkWatch false l.(seen_version) true ∧ l.(finished) = false.

(** The site of one caller: what [runtime_resources] holds, what it wrote, the
    loops that count, and that no other loop runs. *)
Record phase (r : option RuntimeResources) (v : bool * option DiscoveryAdvertisement * option bool)
    (live : list (nat * nat * bool)) s : Prop := {
  ph_resources : s.(resources) = r;
  ph_life : life s.(state) = v;
  ph_live x : x ∈ live → loop_at s x;
  ph_rest i l : s.(loops) !! i = Some l → l.(finished) = true ∨ ∃ tx b, (i, tx, b) ∈ live;
}.

(** What a round does to the loops. *)
Lemma loop_round_frame i ev s s' :
  loop_round i ev s = Some s' →
  s'.(resources) = s.(resources) ∧ s'.(channels) = s.(channels) ∧ life s'.(state) = life s.(state) ∧
  ∃ l, s.(loops) !! i = Some l ∧ l.(finished) = false ∧
    (s'.(loops) = s.(loops) ∨
     ∃ w, s.(channels) !! l.(shutdown_rx) = Some w ∧ w.(version) ≠ l.(seen_version) ∧
       s'.(loops) = <[i := mkLoop l.(kind) l.(period) l.(shutdown_rx) w.(version) w.(value)]> s.(loops)).
Proof.
  unfold loop_round. intros (l & Hl & Hr)%bind_Some. destruct (finished l) eqn:Hf; [done|].
  destruct ev; [|destruct (kind l); simplify_eq; split_and!; try done..].
  - apply bind_Some in Hr as (w & Hw & (ok & Hok & Hr)%bind_Some). unfold changed in Hok.
    case_decide as Hv; simplify_eq/=; [|destruct (sender_alive w); simplify_eq/=]; split_and!; try done;
      exists l; split_and!; eauto.
  - apply tick_round_life.
  - exists l. eauto.
  - apply publish_round_life.
  - exists l. eauto.
  - exists l. eauto.
  - exists l. eauto.
Qed.

Lemma loop_at_round i ev s s' x : loop_round i ev s = Some s' → loop_at s x → loop_at s' x.
Proof.
  intros (_ & Hch & _ & l & Hl & Hf & Hloops)%loop_round_frame. destruct x as [[j tx] told].
  intros (l' & w' & Hl' & Hrx & Hw' & Htold). unfold loop_at. rewrite Hch.
  destruct Hloops as [->|(w & Hw & Hv & ->)]; [by exists l', w'|].
  destruct (decide (i = j)) as [<-|Hne]; [|exists l', w'; by rewrite list_lookup_insert_ne].
  simplify_eq. exists (mkLoop l.(kind) l.(period) l.(shutdown_rx) w.(version) w.(value)), w.
  rewrite list_lookup_insert_eq by by eapply lookup_lt_Some.
  split_and!; [done..|]. destruct told; [destruct Htold as [? _]; auto|]. by destruct Htold as [-> _].
Qed.

Lemma phase_run r v live s s' : loops_run s s' → phase r v live s → phase r v live s'.
Proof.
  intros [i ev s1 Hr|st Hst] [Hres Hlife Hlive Hrest]; [|by constructor; cbn; rewrite ?Hst].
  pose proof (loop_round_frame _ _ _ _ Hr) as (Hre & Hch & Hli & l & Hl & Hf & Hloops).
  constructor; [congruence..| |].
  - intros x Hx. eapply loop_at_round; [done|by apply Hlive].
  - intros j l' Hl'. destruct Hloops as [Heq|(w & Hw & Hv & Heq)]; rewrite Heq in Hl'; [by eapply Hrest|].
    apply list_lookup_insert_Some in Hl' as [(-> & <- & _)|[Hne Hl']]; [|by eapply Hrest].
    destruct (Hrest j l Hl) as [|?]; [congruence|by right].
Qed.

Lemma phase_others r v live s s' : others s s' → phase r v live s → phase r v live s'.
Proof. induction 1; [done|]. eauto using phase_run. Qed.

(** ** Steps of the caller *)

(** A read; only what [start] and [stop] write is known of the result. *)
Lemma ends_read {A} (f : ServerState M → A) (Q : res ServerError A → Site M → Prop) r v live s :
  phase r v live s →
  (∀ st s', life st = v → phase r v live s' → Q (Ok (f st)) s') →
  ends others (reads f) Q s.
Proof.
  intros Hp HQ. apply (ends_atomic _). intros s1 H1 s2 H2. cbn in *.
  pose proof (phase_others _ _ _ _ _ H1 Hp) as Hp1. apply (HQ s1.(state)); [by apply Hp1|].
  by apply (phase_others _ _ _ s1).
Qed.

(** A step that takes one phase to another. *)
Lemma ends_phase {A} (m : prog (Site M) ServerError A) (Q : res ServerError A → Site M → Prop) r v live s :
  phase r v live s →
  (∀ s1, phase r v live s1 → ∃ a r' v' live', result m s1 = Ok a ∧ phase r' v' live' (exec m s1) ∧
     ∀ s2, phase r' v' live' s2 → Q (Ok a) s2) →
  ends others (atomic m) Q s.
Proof.
  intros Hp Hm. apply (ends_atomic _). intros s1 H1 s2 H2.
  destruct (Hm s1 (phase_others _ _ _ _ _ H1 Hp)) as (a & r' & v' & live' & Ha & Hp1 & HQ).
  rewrite Ha. apply HQ. by apply (phase_others _ _ _ (exec m s1)).
Qed.

Lemma ends_result {A} (x : res ServerError A) (Q : res ServerError A → Site M → Prop) r v live s :
  phase r v live s → (∀ s', phase r v live s' → Q x s') → ends others (Done x) Q s.
Proof. intros Hp HQ s' Hs. apply HQ. by apply (phase_others _ _ _ s). Qed.

(** ** Spawning *)

Lemma loop_at_append s ws ls x :
  loop_at s x → loop_at (set_loops (s.(loops) ++ ls) (set_channels (s.(channels) ++ ws) s)) x.
Proof.
  destruct x as [[i tx] told]. intros (l & w & Hl & Hrx & Hw & Ht). exists l, w. cbn.
  by rewrite !lookup_app_l by by eapply lookup_lt_Some.
Qed.

(** A new channel and loops that listen to it. *)
Definition spawned (ls : list (LoopKind * Z)) s : Site M :=
  set_loops (s.(loops) ++ ((λ '(k, hz), mkLoop k hz (length s.(channels)) 0 false) <$> ls))
    (set_channels (s.(channels) ++ [mkWatch false 0 true]) s).

Lemma phase_spawned ls r v live s :
  phase r v live s →
  phase r v (live ++ imap (λ i _, ((length s.(loops) + i)%nat, length s.(channels), false)) ls) (spawned ls s).
Proof.
  intros [Hres Hlife Hlive Hrest]. constructor; [done|done|..].
  - intros x [Hx|(i & k & -> & Hk)%elem_of_lookup_imap]%elem_of_app.
    { by apply loop_at_append, Hlive. }
    exists (mkLoop k.1 k.2 (length s.(channels)) 0 false), (mkWatch false 0 true). cbn.
    rewrite lookup_app_r by lia. replace (length s.(loops) + i - length s.(loops))%nat with i by lia.
    rewrite list_lookup_fmap, Hk. destruct k as [k hz]. cbn.
    split_and!; [done|done| |done|done]. by rewrite lookup_app_r, Nat.sub_diag.
  - intros i l. cbn. intros [Hi|[Hge Hi]]%lookup_app_Some.
    { destruct (Hrest i l Hi) as [?|(tx & b & Hx)]; [by left|]. right. exists tx, b. apply elem_of_app. by left. }
    apply list_lookup_fmap_Some in Hi as ([k hz] & -> & Hk). right. exists (length s.(channels)), false.
    apply elem_of_app. right. apply elem_of_lookup_imap. exists (i - length s.(loops))%nat, (k, hz).
    split; [f_equal; f_equal; lia|done].
Qed.

(** ** Start *)

(** No task runs. *)
Definition idle : Site M → Prop := phase None (false, None, None) [].

(** The loops of a running server, and who of them was told to stop. *)
Definition owned (r : RuntimeResources) (quic_told loops_told : bool) : list (nat * nat * bool) :=
  [(r.(quic_runtime).(quic_join), r.(quic_runtime).(shutdown_tx), quic_told);
   (r.(tick_join), r.(scheduler_shutdown_tx), loops_told);
   (r.(publish_join), r.(scheduler_shutdown_tx), loops_told)].

(** The server advertises [adv]; exactly the three loops in its resources run. *)
Definition up (adv : DiscoveryAdvertisement) (r : RuntimeResources) s : Prop :=
  r.(scheduler_shutdown_tx) ≠ r.(quic_runtime).(shutdown_tx) ∧
  phase (Some r) (true, Some adv, Some r.(discovery)) (owned r false false) s.

Lemma up_others adv r s s' : others s s' → up adv r s → up adv r s'.
Proof. intros Hs [Hne Hp]. split; [done|by apply (phase_others _ _ _ s)]. Qed.

(** ** [start_quic_runtime] *)

Lemma ends_start_quic v (Q : res ServerError QuicRuntime → Site M → Prop) s :
  phase None v [] s →
  (∀ a, net_bind a ≠ Panicked) → (∀ e s', phase None v [] s' → Q (Err e) s') →
  (∀ q s', phase None v [(q.(quic_join), q.(shutdown_tx), false)] s' → Q (Ok q) s') →
  ends others start_quic_runtime Q s.
Proof.
  intros Hp Hbind He HQ. apply (ends_bind _), (ends_read _ _ None v []); [done|]. intros st s1 _ Hp1.
  apply (ends_bind _). eapply ends_result; [exact Hp1|]. intros s2 Hp2.
  destruct (net_bind _) as [local|e|] eqn:Hb; cbn; [|by apply He|by destruct (Hbind (quic_bind_addr (config st)))].
  eapply ends_phase; [exact Hp2|]. intros s3 Hp3.
  exists (mkQuicRuntime local (length s3.(channels)) (length s3.(loops))), None, v,
    [(length s3.(loops), length s3.(channels), false)].
  split_and!; [done| |intros s4 Hp4; by apply HQ].
  pose proof (phase_spawned [(AcceptLoop, 0)] _ _ _ _ Hp3) as H4. cbn in H4. by rewrite Nat.add_0_r in H4.
Qed.

Lemma phase_install adv r v live s :
  phase None v live s →
  phase (Some r) (true, Some adv, Some r.(discovery)) live (exec (install adv r) s).
Proof.
  intros [Hres Hlife Hlive Hrest]. unfold install. change ((get ≫= ?f) s) with (f s s). cbv beta.
  rewrite Hres. by constructor.
Qed.

(** With a publisher that works, [start] brings the server up, or leaves
    nothing behind. *)
Lemma start_idle s :
  (∀ adv, net_advertise adv = Ok ()) → (∀ a, net_bind a ≠ Panicked) → idle s →
  ends others start
    (λ x s', match x with Ok adv => ∃ r, up adv r s' | Err _ => idle s' | Panicked => False end) s.
Proof.
  intros Hadv Hbind Hp. unfold start, launch. apply (ends_bind _). eapply ends_read; [exact Hp|].
  intros st s1 Hst Hp1. injection Hst as -> _ _.
  apply (ends_bind _). eapply ends_read; [exact Hp1|]. intros st2 s2 _ Hp2.
  apply (ends_bind _), (ends_start_quic (false, None, None)); [done|done|done|].
  intros q s3 Hp3. set (adv := mkAdvertisement _ _ _ _ _ _ _).
  assert ((if (config st2).(enable_discovery) then net_advertise adv else Ok ()) = Ok ()) as ->
    by (by destruct (enable_discovery _)).
  apply (ends_bind _). eapply ends_phase; [exact Hp3|]. intros s4 Hp4.
  set (c := length s4.(channels)). set (n := length s4.(loops)).
  exists (c, n, S n), None, (false, None, None),
    [(q.(quic_join), q.(shutdown_tx), false); (n, c, false); (S n, c, false)].
  assert (c ≠ q.(shutdown_tx)) as Hne.
  { destruct (ph_live _ _ _ _ Hp4 (q.(quic_join), q.(shutdown_tx), false)) as (l & w & _ & _ & Hw & _); [by left|].
    apply lookup_lt_Some in Hw. unfold c. lia. }
  split_and!.
  { unfold n. change (S (length (loops s4))) with (1 + length (loops s4))%nat.
    rewrite (Nat.add_comm 1). unfold spawn_scheduler_loops, watch_channel, spawn_loop. unfold_prog. cbn.
    by rewrite length_app. }
  { pose proof (phase_spawned [(TickLoop, period_ns (config st2).(tick_hz));
      (PublishLoop, period_ns (config st2).(publish_hz))] _ _ _ _ Hp4) as H5. cbn in H5.
    rewrite Nat.add_0_r, Nat.add_1_r in H5.
    unfold spawn_scheduler_loops, watch_channel, spawn_loop. unfold_prog. cbn.
    unfold spawned in H5. cbn in H5. by rewrite <-app_assoc. }
  intros s5 Hp5. apply (ends_bind _). eapply ends_phase; [exact Hp5|]. intros s6 Hp6.
  set (r := mkResources q (config st2).(enable_discovery) c n (S n)).
  exists (), (Some r), (true, Some adv, Some r.(discovery)), (owned r false false). split_and!.
  { unfold install. change ((get ≫= ?f) s6) with (f s6 s6). cbv beta. by rewrite (ph_resources _ _ _ _ Hp6). }
  { by apply phase_install with (false, None, None). }
  intros s7 Hp7. eapply ends_result; [exact Hp7|]. intros s8 Hp8. by exists r.
Qed.

(** A running server only says again what it advertises. *)
Lemma start_up adv r s :
  up adv r s → ends others start (λ x s', x = Ok adv ∧ up adv r s') s.
Proof.
  intros [Hne Hp]. unfold start. apply (ends_bind _). eapply ends_read; [exact Hp|].
  intros st s1 Hst Hp1. injection Hst as -> -> _. eapply ends_result; [exact Hp1|]. by intros s2 Hp2.
Qed.

(** ** Stop *)

Lemma phase_equiv r v live live' s :
  (∀ x, x ∈ live ↔ x ∈ live') → phase r v live s → phase r v live' s.
Proof.
  intros Heq [Hres Hlife Hlive Hrest]. constructor; [done|done| |].
  - intros x Hx. by apply Hlive, Heq.
  - intros i l Hl. destruct (Hrest i l Hl) as [?|(tx & b & Hx)]; [by left|]. right. exists tx, b. by apply Heq.
Qed.

(** What a send makes of the loops that had not been told. *)
Definition told_by (tx : nat) (x : nat * nat * bool) : nat * nat * bool :=
  if decide (x.1.2 = tx) then (x.1, true) else x.

Lemma loop_at_send tx s x :
  (x.1.2 = tx → x.2 = false) → loop_at s x → loop_at (exec (send_true tx) s) (told_by tx x).
Proof.
  destruct x as [[i rx] told]. cbn. intros Hnew (l & w & Hl & Hrx & Hw & Ht). unfold told_by. cbn.
  destruct (decide (rx = tx)) as [->|Hne].
  - rewrite Hnew in Ht by done. destruct Ht as [-> Hf].
    exists l, (mkWatch true (S l.(seen_version)) true). cbn.
    rewrite list_lookup_alter_eq, Hw. split_and!; [done..|]. right. cbn. lia.
  - exists l, w. cbn. by rewrite list_lookup_alter_ne.
Qed.

Lemma phase_send r v live tx s :
  (∀ x, x ∈ live → x.1.2 = tx → x.2 = false) → phase r v live s →
  phase r v (told_by tx <$> live) (exec (send_true tx) s).
Proof.
  intros Hnew [Hres Hlife Hlive Hrest]. constructor; [done|done|..].
  - intros x (y & -> & Hy)%list_elem_of_fmap. apply loop_at_send; [by apply Hnew|by apply Hlive].
  - intros i l Hl. destruct (Hrest i l Hl) as [?|(rx & b & Hx)]; [by left|]. right.
    unfold told_by. destruct (decide (rx = tx)) as [->|Hne].
    + exists tx, true. apply list_elem_of_fmap. exists (i, tx, b). cbn. by rewrite decide_True.
    + exists rx, b. apply list_elem_of_fmap. exists (i, rx, b). cbn. by rewrite decide_False.
Qed.

Lemma ends_send tx (Q : res ServerError () → Site M → Prop) r v live s :
  (∀ x, x ∈ live → x.1.2 = tx → x.2 = false) → phase r v live s →
  (∀ s', phase r v (told_by tx <$> live) s' → Q (Ok ()) s') → ends others (atomic (send_true tx)) Q s.
Proof.
  intros Hnew Hp HQ. eapply ends_phase; [exact Hp|]. intros s1 Hp1.
  exists (), r, v, (told_by tx <$> live). split_and!; [done|by apply phase_send|done].
Qed.

(** A loop that was told can always be waited for, and is then gone. *)
Lemma ends_join i tx (Q : res ServerError () → Site M → Prop) r v live s :
  phase r v ((i, tx, true) :: live) s → (∀ s', phase r v live s' → Q (Ok ()) s') →
  ends others (join_loop i) Q s.
Proof.
  intros Hp HQ. apply (ends_wait _). intros s1 H1. pose proof (phase_others _ _ _ _ _ H1 Hp) as Hp1.
  destruct (ph_live _ _ _ _ Hp1 (i, tx, true)) as (l & w & Hl & Hrx & Hw & Hval & Htold); [by left|]. split.
  - destruct (finished l) eqn:Hf; [exists s1; split; [done|]; rewrite Hl; cbn; by rewrite Hf|].
    destruct Htold as [?|Hv]; [congruence|].
    exists (set_loops (<[i := mkLoop l.(kind) l.(period) l.(shutdown_rx) w.(version) w.(value)]> s1.(loops)) s1).
    split.
    + apply rtc_once, run_round with i Changed. unfold loop_round. rewrite Hl. cbn. rewrite Hf, Hrx, Hw. cbn.
      unfold changed. by rewrite decide_True.
    + cbn. rewrite list_lookup_insert_eq by by eapply lookup_lt_Some. cbn. by rewrite Hval.
  - intros a Ha s2 H2. rewrite Hl in Ha. cbn in Ha. destruct (finished l) eqn:Hf; [|done].
    destruct a. apply HQ, (phase_others _ _ _ s1 _ H2).
    destruct Hp1 as [Hres Hlife Hlive Hrest]. constructor; [done|done| |].
    + intros x Hx. apply Hlive. by right.
    + intros j l' Hl'. destruct (Hrest j l' Hl') as [?|(rx & b & [[= -> _ _]|Hx]%elem_of_cons)]; [by left| |].
      * left. congruence.
      * right. eauto.
Qed.

Lemma phase_take r v live s :
  phase r v live s → result take_resources s = Ok r ∧
  phase None (false, None, None) live (exec take_resources s).
Proof. intros [Hres Hlife Hlive Hrest]. split; [unfold take_resources; unfold_prog; cbn; by rewrite Hres|by constructor]. Qed.

(** What [stop] returns once the loops have ended. *)
Definition withdrawn (r : RuntimeResources) : res ServerError () :=
  if r.(discovery) then map_err EDiscovery net_withdraw else Ok ().

Lemma stop_idle s : idle s → ends others stop (λ x s', x = Ok () ∧ idle s') s.
Proof.
  intros Hp. unfold stop. apply (ends_bind _). eapply ends_phase; [exact Hp|]. intros s1 Hp1.
  destruct (phase_take _ _ _ _ Hp1) as [Hr Hp2].
  exists None, None, (false, None, None), []. split_and!; [done|done|]. intros s2 Hp3.
  eapply ends_result; [exact Hp3|]. done.
Qed.

Lemma stop_up adv r s : up adv r s → ends others stop (λ x s', x = withdrawn r ∧ idle s') s.
Proof.
  intros [Hne Hp]. unfold stop. apply (ends_bind _). eapply ends_phase; [exact Hp|]. intros s1 Hp1.
  destruct (phase_take _ _ _ _ Hp1) as [Hr Hp2].
  exists (Some r), None, (false, None, None), (owned r false false). split_and!; [done|done|].
  intros s2 Hp3. apply (ends_bind _). eapply ends_send; [|exact Hp3|].
  { intros x Hx Htx. unfold owned in Hx. repeat (apply elem_of_cons in Hx as [->|Hx]; [done|]).
    by apply not_elem_of_nil in Hx. }
  intros s3 Hp4. assert (phase None (false, None, None) [(r.(tick_join), r.(scheduler_shutdown_tx), true);
    (r.(publish_join), r.(scheduler_shutdown_tx), true);
    (r.(quic_runtime).(quic_join), r.(quic_runtime).(shutdown_tx), false)] s3) as Hp5.
  { eapply phase_equiv; [|exact Hp4]. unfold owned, told_by. cbn.
    rewrite (decide_False (P := shutdown_tx _ = _)) by done. rewrite !decide_True by done. intros x. set_solver. }
  apply (ends_bind _). eapply ends_join; [exact Hp5|]. intros s4 Hp6.
  apply (ends_bind _). eapply ends_join; [exact Hp6|]. intros s5 Hp7.
  apply (ends_bind _). unfold shutdown. apply (ends_bind _). eapply ends_send; [|exact Hp7|].
  { by intros x ->%list_elem_of_singleton. }
  intros s6 Hp8. unfold told_by in Hp8. cbn in Hp8. rewrite decide_True in Hp8 by done.
  eapply ends_join; [exact Hp8|]. intros s7 Hp9. unfold withdrawn.
  destruct (discovery r); eapply ends_result; [exact Hp9| |exact Hp9|]; done.
Qed.

(** ** One caller *)

Inductive Command := Start | Stop.

(** A host that starts and stops the server, one call after the other, and
    goes on when a call fails. *)
Fixpoint performs (cs : list Command) : task (Site M) ServerError () :=
  match cs with
  | [] => mret ()
  | Start :: cs => attempt_task start ≫= λ _ : res ServerError DiscoveryAdvertisement, performs cs
  | Stop :: cs => attempt_task stop ≫= λ _ : res ServerError (), performs cs
  end.

(** Between the calls. *)
Definition settled s : Prop := idle s ∨ ∃ adv r, up adv r s.

(** C6. A host that starts and stops the server one call at a time never
    hangs, whatever the loops and the rest of the server do meanwhile: every
    call comes to its end. Once [stop] has returned, whatever was called
    before, the server is marked stopped, its resources are gone, and no tick,
    publish or accept loop that was ever spawned still runs. This needs the
    publisher to work and the calls of the network not to panic. The handlers
    of connections are not among the loops: they are spawned detached, and
    [stop] neither ends them nor waits for them. *)
Theorem start_stop_spec cs s :
  (∀ adv, net_advertise adv = Ok ()) → (∀ a, net_bind a ≠ Panicked) → net_withdraw ≠ Panicked →
  settled s →
  ends (rtc loops_run) (performs (cs ++ [Stop]))
    (λ x s', x = Ok () ∧ s'.(resources) = None ∧ s'.(state).(running) = false ∧
       s'.(state).(active_advertisement) = None ∧
       ∀ i l, s'.(loops) !! i = Some l → l.(finished) = true) s.
Proof.
  intros Hadv Hbind Hwith. revert s.
  assert (∀ s (Q : res ServerError (res ServerError ()) → Site M → Prop), settled s →
    (∀ x s', idle s' → Q (Ok x) s') → ends others (attempt_task stop) Q s) as Hstop.
  { intros s Q [Hs|(adv & r & Hs)] HQ; apply ends_attempt.
    - eapply ends_conseq; [by apply stop_idle|]. intros x s' [-> Hi]. by apply HQ.
    - eapply ends_conseq; [by apply (stop_up adv r)|]. intros x s' [-> Hi]. unfold withdrawn.
      destruct (discovery r); [|by apply HQ]. destruct net_withdraw; [by apply HQ..|done]. }
  induction cs as [|c cs IH]; intros s Hs; cbn [app performs].
  - apply (ends_bind _), Hstop; [done|]. intros x s' Hi. eapply ends_result; [exact Hi|].
    intros s2 [Hres Hlife _ Hrest]. unfold life in Hlife. injection Hlife as Hrun Hact _. split_and!; try done.
    intros i l Hl. destruct (Hrest i l Hl) as [|(tx & b & Hx%not_elem_of_nil)]; done.
  - destruct c; cbn [performs]; apply (ends_bind _).
    + apply ends_attempt. destruct Hs as [Hs|(adv & r & Hs)].
      * eapply ends_conseq; [by apply start_idle|]. intros [adv|e|] s' H'; [..|done]; apply IH.
        -- right. by exists adv.
        -- by left.
      * eapply ends_conseq; [by apply start_up|]. intros x s' [-> H']. apply IH. right. eauto.
    + apply Hstop; [done|]. intros x s' Hi. apply IH. by left.
Qed.

Lemma run_reads {A} (f : ServerState M → A) s : run (reads f) s = Some (s, Ok (f s.(state))).
Proof. done. Qed.

Lemma run_start_quic s :
  run start_quic_runtime s =
    Some (match net_bind s.(state).(config).(quic_bind_addr) with
          | Ok local => (spawned [(AcceptLoop, 0)] s,
              Ok (mkQuicRuntime local (length s.(channels)) (length s.(loops))))
          | Err e => (s, Err (ERuntime e))
          | Panicked => (s, Panicked)
          end).
Proof.
  unfold start_quic_runtime. rewrite run_bind, run_reads. cbv beta iota. rewrite run_bind.
  by destruct (net_bind _).
Qed.

Lemma run_launch s : ∃ s' r,
  run launch s = Some (s', r) ∧
  let cfg := s.(state).(config) in
  match net_bind cfg.(quic_bind_addr) with
  | Ok local =>
      let adv := mkAdvertisement cfg.(name) (advertised_host_for local) local.(port)
        PROTOCOL_MAJOR PROTOCOL_MINOR cfg.(supported_features) (as_str cfg.(security_mode)) in
      match (if cfg.(enable_discovery) then net_advertise adv else Ok ()) with
      | Ok _ => r = Ok adv ∧
          s'.(state) = set_lifecycle local true (Some cfg.(enable_discovery)) (Some adv) s.(state)
      | Err e => r = Err (EDiscovery e) ∧ s'.(state) = s.(state)
      | Panicked => r = Panicked ∧ s'.(state) = s.(state)
      end
  | Err e => r = Err (ERuntime e) ∧ s'.(state) = s.(state)
  | Panicked => r = Panicked ∧ s'.(state) = s.(state)
  end.
Proof.
  unfold launch. rewrite run_bind, run_reads. cbv beta iota. rewrite run_bind, run_start_quic. cbn zeta.
  destruct (net_bind _) as [local|e|]; [|by do 2 eexists..]. cbn [local_addr].
  set (adv := mkAdvertisement _ _ _ _ _ _ _).
  destruct (if enable_discovery _ then _ else _) as [[]|e|]; [|by do 2 eexists..].
  unfold spawn_scheduler_loops, watch_channel, spawn_loop, install. unfold_prog. cbn.
  destruct (resources s); cbn; do 2 eexists; (split; [reflexivity|]); done.
Qed.

(** With no loop and no other caller in between, [start] does what its
    sequential reading does to the server, and returns what it returns. *)
Theorem start_alone s : ∃ s',
  run start s = Some (s', result server_start s.(state)) ∧ s'.(state) = exec server_start s.(state).
Proof.
  unfold start, server_start. rewrite run_bind, run_reads. change ((get ≫= ?f) ?st) with (f st st). cbv beta iota.
  destruct (run_launch s) as (s' & r & Hrun & Hr). cbn zeta in Hr.
  destruct (running (state s)), (active_advertisement (state s)) as [adv|]; [by exists s|..];
    exists s'; rewrite Hrun; clear Hrun; revert Hr; unfold_prog;
    (destruct (net_bind _) as [local|e|]; cbn; [|by intros [-> ->]..]);
    (destruct (enable_discovery _); [destruct (net_advertise _) as [[]|e|]; cbn; by intros [-> ->]|by intros [-> ->]]).
Qed.

(** The rounds of the scheduler loops end without an error, so that joining
    them succeeds. *)
Lemma rounds_never_panic now (st : ServerState M) :
  result (tick_round now) st = Ok () ∧ result publish_round st = Ok ().
Proof.
  unfold tick_round, publish_round, on_runtime, Runtime.scheduler_tick. unfold_prog.
  split; by destruct (running st).
Qed.
End lifecycle.
