(* ===== verification/ServerVideo.v ===== *)
(** [crates/motionstage-server/src/lib.rs], signaling and video: the message
    queues between devices and the WebRTC peer of each device.

    The video methods take the lock several times with [.await]s in between;
    here they are the sequence of these critical sections, and [ServerTasks.v]
    lets other tasks in between. *)

From S2P Require Import Prelude Float IndexMap Protocol Model Transform Runtime Media Codec.
From S2P Require Import Recording WebRtc Transport Server.

Local Open Scope Z_scope.

Section video.
Context {M : Type → Type} `{!IndexMap Uuid M} {fmt : UuidFormat} {crate : WebRtcCrate}
  {texts : ErrorText}.
Abbreviation Server := (ServerState M).
Abbreviation method := (prog Server ServerError).
Implicit Types self : Server.

Definition set_master_video_descriptor (d : VideoStreamDescriptor) : method () :=
  lift (map_err (λ e, EVideo (media_error_text e)) (validate d));;
  modify (set_descriptor (Some d)).

Definition negotiate_video_for_client self (capability : VideoClientCapability) :
    res ServerError NegotiatedVideoStream :=
  d ← ok_or self.(master_video_descriptor) (EVideo "master video descriptor not set");
  map_err (λ e, EVideo (media_error_text e)) (negotiate_stream d capability).

Definition push_signaling_message (message : SignalMessage) : method () :=
  self ← get;
  from ← lift (ok_or (self.(sessions) !! message.(from_device)) (ESessionNotFound message.(from_device)));
  to ← lift (ok_or (self.(sessions) !! message.(to_device)) (ESessionNotFound message.(to_device)));
  fail_if (bool_decide (from.(s_state) ≠ Active) || bool_decide (to.(s_state) ≠ Active))
    (ESignaling "both signaling peers must be active");;
  put (set_signaling (enqueue message self.(signaling)) self);;
  modify (λ self, set_metrics (add_signal self.(metrics)) self).

Definition drain_signaling_messages (device_id : Uuid) : method (list SignalMessage) :=
  self ← get;
  fail_if (bool_decide (self.(sessions) !! device_id = None)) (ESessionNotFound device_id);;
  let '(hub, messages) := drain_for device_id self.(signaling) in
  put (set_signaling hub self);;
  mret messages.

Definition ensure_video_session_ready self (device_id : Uuid) : res ServerError () :=
  match self.(sessions) !! device_id with
  | None => Err (ESessionNotFound device_id)
  | Some session =>
      if decide (session.(s_state) ≠ Active) then
        Err (EVideo ("device " +:+ uuid_to_string device_id +:+ " is not active for video session"))
      else if decide (Video ∉ session.(s_features)) then
        Err (EVideo ("device " +:+ uuid_to_string device_id +:+ " did not negotiate video feature"))
      else match self.(master_video_descriptor) with
      | None => Err (EVideo "master video descriptor not set")
      | Some _ => Ok ()
      end
  end.

(** A call on a peer, under [.map_err(|err| ServerError::WebRtc(err.to_string()))?]. *)
Definition on_peer {A} (m : prog rtc_world WebRtcError A) : method A :=
  zoom webrtc set_webrtc (λ e, EWebRtc (webrtc_error_text e)) m.

Definition ensure_video_peer (device_id : Uuid) : method RTCPeerConnection :=
  self ← get;
  match self.(video_peers) !! device_id with
  | Some existing => mret existing.(peer)
  | None =>
      created ← on_peer WebRtcSession_new;
      self ← get;
      match self.(video_peers) !! device_id with
      | Some entry => mret entry.(peer)
      | None =>
          put (set_video_peers (<[device_id := mkPeer created false]> self.(video_peers)) self);;
          mret created
      end
  end.

Definition video_peer (device_id : Uuid) : method RTCPeerConnection :=
  self ← get;
  lift (peer <$> ok_or (self.(video_peers) !! device_id)
    (EVideo ("no video peer exists for device " +:+ uuid_to_string device_id))).

(** The part [create_video_offer] and [handle_video_signal] share: a track is
    added to a peer once. *)
Definition ensure_track (device_id : Uuid) (p : RTCPeerConnection) (stream_id track_id : string) :
    method () :=
  self ← get;
  let needs_track := match self.(video_peers) !! device_id with
                     | Some entry => negb entry.(track_added)
                     | None => true
                     end in
  if needs_track then
    on_peer (add_h264_track p stream_id track_id);;
    modify (λ self, set_video_peers
      (alter (λ entry, mkPeer entry.(peer) true) device_id self.(video_peers)) self)
  else mret ().

Definition create_video_offer (device_id : Uuid) (stream_id track_id : string) : method SdpMessage :=
  self ← get;
  lift (ensure_video_session_ready self device_id);;
  p ← ensure_video_peer device_id;
  ensure_track device_id p stream_id track_id;;
  on_peer (create_offer p).

Definition handle_video_signal (device_id : Uuid) (signal : SignalPayload) :
    method (option SdpMessage) :=
  self ← get;
  lift (ensure_video_session_ready self device_id);;
  match signal with
  | Sdp sdp =>
      if decide (sdp.(sdp_ty) = Offer) then
        p ← ensure_video_peer device_id;
        on_peer (apply_remote_sdp p sdp);;
        ensure_track device_id p ("motionstage-" +:+ uuid_to_string device_id) "video";;
        answer ← on_peer (create_answer p);
        mret (Some answer)
      else
        p ← video_peer device_id;
        on_peer (apply_remote_sdp p sdp);;
        mret None
  | Ice candidate =>
      p ← video_peer device_id;
      on_peer (add_ice_candidate p candidate);;
      mret None
  end.
End video.
