(* ===== verification/ServerLoop.v ===== *)
(** [crates/motionstage-server/src/lib.rs], [handle_quic_peer]: the handshake
    of one connection and its control loop.

    A connection is what the client gets ([sent]) and what becomes of the next
    sends of the server ([link], [true] for delivered; a send past its end is
    delivered). What the server receives are the arguments: the results of
    the two [recv]s of the handshake, then the events of the loop in the order
    [tokio::select!] takes them, each with the clock at that time; [Stream.v] says
    how they come about. *)

From S2P Require Import Prelude Float IndexMap Protocol Model Transform Runtime Media Codec.
From S2P Require Import Recording WebRtc Transport Server ServerRuntime ServerVideo.

Local Open Scope Z_scope.

Record Conn (M : Type → Type) `{WebRtcCrate} := mkConn {
  server : ServerState M;
  sent : list ControlMessage;
  link : list bool;
}.
Arguments mkConn {M _} _ _ _.
Arguments server {M _} _.
Arguments sent {M _} _.
Arguments link {M _} _.

(** [None]: the receive failed. *)
Inductive PeerEvent :=
  | CtrlReceived (now : Z) (msg : option ControlMessage)
  | DatagramReceived (now : Z) (datagram : option MotionDatagram).

(** Whether the loop goes on after an event. *)
Inductive LoopStep := Continue | Break.

(** [map_server_error_to_reject]. *)
Definition map_server_error_to_reject (err : ServerError) : RejectCode :=
  match err with
  | EProtocol _ => VersionMismatch
  | ESessionNotFound _ => RoleDenied
  | ERegisterRejected r => r.(rj_code)
  | EVideo _ | ESignaling _ => RoleDenied
  | ECore _ | ERecording _ | EWebRtc _ => ServerBusy
  | EDiscovery _ | ERuntime _ => ServerBusy
  end.

Section peer.
Context {M : Type → Type} `{!IndexMap Uuid M} {fmt : UuidFormat} {crate : WebRtcCrate}
  {fs : FileSystem} {bm : Bincode RecordingManifest} {bk : Bincode (list RecordingMarker)}
  {bf : Bincode RecordedFrame} {texts : ErrorText}.
Abbreviation Connection := (Conn M).
Abbreviation handler := (prog Connection ServerError).

(** A method of the server, on the shared state. *)
Definition call {A} (m : prog (ServerState M) ServerError A) : handler A :=
  zoom server (λ s c, mkConn s c.(sent) c.(link)) (λ e, e) m.

(** [control.send(..).await.map_err(Runtime)?]. *)
Definition control_send (message : ControlMessage) : handler () := λ c,
  match c.(link) with
  | false :: link => (mkConn c.(server) c.(sent) link, Err (ERuntime "write"))
  | true :: link => (mkConn c.(server) (c.(sent) ++ [message]) link, Ok ())
  | [] => (mkConn c.(server) (c.(sent) ++ [message]) [], Ok ())
  end.

Definition send_protocol_error (code : RejectCode) (reason : string) : handler () :=
  control_send (CError code reason).

(** [let _ = server.close_session(..).await]. *)
Definition close_quietly (device_id : Uuid) (now : Z) : handler () :=
  attempt (call (close_session device_id now)) ≫= λ _ : res ServerError (), mret ().

(** The error reply: a failed reply ends the session and the loop. *)
Definition reply_error (hello : ClientHello) (now : Z) (code : RejectCode) (reason : string) :
    handler LoopStep :=
  r ← attempt (send_protocol_error code reason);
  match r with
  | Ok _ => mret Continue
  | _ => close_quietly hello.(ch_device_id) now;; mret Break
  end.

Definition reply_failure (hello : ClientHello) (now : Z) (err : ServerError) : handler LoopStep :=
  reply_error hello now (map_server_error_to_reject err) (server_error_text err).

(** The match on the [Result] of a server call. *)
Definition answer {A} (hello : ClientHello) (now : Z) (m : prog (ServerState M) ServerError A)
    (on_ok : A → handler ()) : handler LoopStep :=
  r ← attempt (call m);
  match r with
  | Ok a => on_ok a;; mret Continue
  | Err err => reply_failure hello now err
  | Panicked => lift Panicked
  end.

(** The arms that require the operator role. *)
Definition operator_only (hello : ClientHello) (now : Z) (reason : string) (arm : handler LoopStep) :
    handler LoopStep :=
  if decide (Operator ∉ hello.(ch_roles)) then reply_error hello now RoleDenied reason else arm.

Definition baseline_applied (action : BaselineAction) (changed : Z) : handler () :=
  control_send (CBaselineActionApplied action changed).

(** What the loop does with a control message. *)
Definition on_control (hello : ClientHello) (now : Z) (msg : ControlMessage) : handler LoopStep :=
  let device_id := hello.(ch_device_id) in
  match msg with
  | CPing =>
      control_send CPong;;
      c ← get;
      control_send (CModeState c.(server).(runtime).(Runtime.mode));;
      mret Continue
  | CPong => mret Continue
  | CSetMode requested_mode =>
      operator_only hello now "operator role is required to change mode"
        (answer hello now (ServerRuntime.set_mode requested_mode now) (λ _,
          c ← get;
          control_send (CModeState c.(server).(runtime).(Runtime.mode))))
  | CResetSceneToBaseline scene_id =>
      operator_only hello now "operator role is required to reset baseline"
        (answer hello now (ServerRuntime.reset_scene_to_baseline scene_id)
          (baseline_applied ResetScene))
  | CCommitSceneBaseline scene_id =>
      operator_only hello now "operator role is required to commit scene baseline"
        (answer hello now (ServerRuntime.commit_scene_baseline scene_id)
          (baseline_applied CommitScene))
  | CCommitObjectBaseline scene_id object_id =>
      operator_only hello now "operator role is required to commit object baseline"
        (answer hello now (ServerRuntime.commit_object_baseline scene_id object_id)
          (baseline_applied CommitObject))
  | CCreateVideoOffer stream_id track_id =>
      answer hello now (create_video_offer device_id stream_id track_id)
        (λ offer, control_send (CVideoOffer offer))
  | CVideoSignal signal =>
      if decide (signal.(from_device) ≠ device_id) then
        reply_error hello now RoleDenied "signal from_device does not match active session"
      else if decide (signal.(to_device) = device_id) then
        answer hello now (handle_video_signal device_id signal.(payload)) (λ reply,
          match reply with
          | Some sdp => control_send (CVideoOffer sdp)
          | None => mret ()
          end)
      else answer hello now (push_signaling_message signal) (λ _, mret ())
  | CDrainSignals =>
      answer hello now (drain_signaling_messages device_id) (λ messages,
        control_send (CSignalsBatch messages))
  | CSignalsBatch _ | CVideoOffer _ | CModeState _ | CBaselineActionApplied _ _ | CError _ _
  | CServerHello _ | CClientHello _ | CRegisterRequest _ | CRegisterAccepted _
  | CRegisterRejected _ =>
      reply_error hello now RoleDenied "unsupported control message in active loop"
  end.

(** One round of the loop. *)
Definition loop_round (hello : ClientHello) (ev : PeerEvent) : handler LoopStep :=
  match ev with
  | CtrlReceived now (Some msg) => on_control hello now msg
  | CtrlReceived now None => close_quietly hello.(ch_device_id) now;; mret Break
  | DatagramReceived now (Some frame) =>
      r ← attempt (call (ingest_motion_datagram frame));
      match (r : res ServerError ()) with
      | Panicked => lift Panicked
      | _ => mret Continue
      end
  | DatagramReceived now None => close_quietly hello.(ch_device_id) now;; mret Break
  end.

(** The loop over the events that arrived so far: [Continue] when it still
    waits for the next one. *)
Fixpoint control_loop (hello : ClientHello) (evs : list PeerEvent) : handler LoopStep :=
  match evs with
  | [] => mret Continue
  | ev :: evs =>
      r ← loop_round hello ev;
      match r with
      | Break => mret Break
      | Continue => control_loop hello evs
      end
  end.

(** [control.recv().await.map_err(Runtime)?]. *)
Definition received (r : res string ControlMessage) : handler ControlMessage :=
  lift (map_err ERuntime r).

(** The handshake up to the loop: the accepted hello, or [None] when the
    registration was rejected. *)
Definition handshake (now : Z) (session_id : Uuid) (first second : res string ControlMessage) :
    handler (option ClientHello) :=
  c ← get;
  control_send (CServerHello (server_hello c.(server)));;
  m ← received first;
  match m with
  | CClientHello hello =>
      let device_id := hello.(ch_device_id) in
      call (discovered device_id hello.(ch_device_name));;
      call (transport_connected device_id);;
      call (hello_exchanged hello);;
      call (authenticate device_id);;
      m ← received second;
      match m with
      | CRegisterRequest req =>
          r ← attempt (call (register session_id device_id req));
          match r with
          | Ok accepted =>
              control_send (CRegisterAccepted accepted);;
              call (scene_synced device_id);;
              call (activate device_id);;
              mret (Some hello)
          | Err (ERegisterRejected rej) =>
              control_send (CRegisterRejected rej);;
              close_quietly device_id now;;
              mret None
          | Err err => close_quietly device_id now;; throw err
          | Panicked => lift Panicked
          end
      | _ => throw (ERuntime "expected RegisterRequest after ClientHello")
      end
  | _ => throw (ERuntime "expected ClientHello as first control message")
  end.

(** The handler of a connection whose control stream was opened. *)
Definition handle_quic_peer (now : Z) (session_id : Uuid) (first second : res string ControlMessage)
    (evs : list PeerEvent) : handler () :=
  h ← handshake now session_id first second;
  match h with
  | Some hello => control_loop hello evs;; mret ()
  | None => mret ()
  end.
End peer.
