(* ===== verification/ServerTasks.v ===== *)
(** [crates/motionstage-server/src/lib.rs]: the code that awaits in the middle,
    cut at its [.await]s, over the same state as its sequential reading in
    [ServerVideo.v] and [ServerLoop.v].

    A step is what runs under one lock of the server, one call of the WebRTC
    crate, or one send. Alone, each task does what its sequential definition
    does ([handler_alone], [offer_alone], [signal_alone]). *)

From S2P Require Import Prelude Tasks Float IndexMap Protocol Model Transform Runtime Media Codec.
From S2P Require Import Recording WebRtc Transport Server ServerRuntime ServerVideo ServerLoop.

Local Open Scope Z_scope.

Section video.
Context {M : Type → Type} `{!IndexMap Uuid M} {fmt : UuidFormat} {crate : WebRtcCrate}
  {texts : ErrorText}.
Abbreviation method := (task (ServerState M) ServerError).
Implicit Types self : ServerState M.

(** What is read off the server under its read lock. *)
Definition read_lock {A} (f : ServerState M → res ServerError A) : method A :=
  atomic (self ← get; lift (f self)).

(** A call of the WebRTC crate, awaited without the lock. *)
Definition rtc_await {A} (m : prog rtc_world WebRtcError A) : method A := atomic (on_peer m).

(** [entry(device_id).or_insert_with(..)]. *)
Definition insert_video_peer (device_id : Uuid) (created : RTCPeerConnection) :
    prog (ServerState M) ServerError RTCPeerConnection :=
  self ← get;
  match self.(video_peers) !! device_id with
  | Some entry => mret entry.(peer)
  | None =>
      put (set_video_peers (<[device_id := mkPeer created false]> self.(video_peers)) self);;
      mret created
  end.

Definition existing_peer (device_id : Uuid) self : option RTCPeerConnection :=
  peer <$> self.(video_peers) !! device_id.

Definition ensure_video_peer (device_id : Uuid) : method RTCPeerConnection :=
  existing ← read_lock (λ self, Ok (existing_peer device_id self));
  match existing with
  | Some p => mret p
  | None =>
      created ← rtc_await WebRtcSession_new;
      atomic (insert_video_peer device_id created)
  end.

Definition needs_track (device_id : Uuid) self : bool :=
  match self.(video_peers) !! device_id with
  | Some entry => negb entry.(track_added)
  | None => true
  end.

(** [if let Some(entry) = state.video_peers.get_mut(..) { entry.track_added = true }]. *)
Definition mark_track (device_id : Uuid) : prog (ServerState M) ServerError () :=
  modify (λ self, set_video_peers
    (alter (λ entry, mkPeer entry.(peer) true) device_id self.(video_peers)) self).

Definition ensure_track (device_id : Uuid) (p : RTCPeerConnection) (stream_id track_id : string) :
    method () :=
  needed ← read_lock (λ self, Ok (needs_track device_id self));
  if needed : bool then
    rtc_await (add_h264_track p stream_id track_id);;
    atomic (mark_track device_id)
  else mret ().

Definition create_video_offer (device_id : Uuid) (stream_id track_id : string) : method SdpMessage :=
  read_lock (λ self, ensure_video_session_ready self device_id);;
  p ← ensure_video_peer device_id;
  ensure_track device_id p stream_id track_id;;
  rtc_await (create_offer p).

Definition handle_video_signal (device_id : Uuid) (signal : SignalPayload) :
    method (option SdpMessage) :=
  read_lock (λ self, ensure_video_session_ready self device_id);;
  match signal with
  | Sdp sdp =>
      if decide (sdp.(sdp_ty) = Offer) then
        p ← ensure_video_peer device_id;
        rtc_await (apply_remote_sdp p sdp);;
        ensure_track device_id p ("motionstage-" +:+ uuid_to_string device_id) "video";;
        answer ← rtc_await (create_answer p);
        mret (Some answer)
      else
        p ← atomic (video_peer device_id);
        rtc_await (apply_remote_sdp p sdp);;
        mret None
  | Ice candidate =>
      p ← atomic (video_peer device_id);
      rtc_await (add_ice_candidate p candidate);;
      mret None
  end.
End video.

Section peer.
Context {M : Type → Type} `{!IndexMap Uuid M} {fmt : UuidFormat} {crate : WebRtcCrate}
  {fs : FileSystem} {bm : Bincode RecordingManifest} {bk : Bincode (list RecordingMarker)}
  {bf : Bincode RecordedFrame} {texts : ErrorText}.
Abbreviation handler := (task (Conn M) ServerError).

(** A method of the server in several steps. *)
Definition call_task {A} (m : task (ServerState M) ServerError A) : handler A :=
  zoom_task server (λ s c, mkConn s c.(sent) c.(link)) (λ e, e) m.

(** A method under one lock, and a send. *)
Definition call {A} (m : prog (ServerState M) ServerError A) : handler A := atomic (ServerLoop.call m).
Definition control_send (message : ControlMessage) : handler () :=
  atomic (ServerLoop.control_send message).

Definition close_quietly (device_id : Uuid) (now : Z) : handler () :=
  attempt_task (call (close_session device_id now)) ≫= λ _ : res ServerError (), mret ().

Definition reply_error (hello : ClientHello) (now : Z) (code : RejectCode) (reason : string) :
    handler LoopStep :=
  r ← attempt_task (control_send (CError code reason));
  match (r : res ServerError ()) with
  | Ok _ => mret Continue
  | _ => close_quietly hello.(ch_device_id) now;; mret Break
  end.

Definition reply_failure (hello : ClientHello) (now : Z) (err : ServerError) : handler LoopStep :=
  reply_error hello now (map_server_error_to_reject err) (server_error_text err).

Definition answer {A} (hello : ClientHello) (now : Z) (m : handler A) (on_ok : A → handler ()) :
    handler LoopStep :=
  r ← attempt_task m;
  match r with
  | Ok a => on_ok a;; mret Continue
  | Err err => reply_failure hello now err
  | Panicked => Done Panicked
  end.

Definition operator_only (hello : ClientHello) (now : Z) (reason : string) (arm : handler LoopStep) :
    handler LoopStep :=
  if decide (Operator ∉ hello.(ch_roles)) then reply_error hello now RoleDenied reason else arm.

Definition baseline_applied (action : BaselineAction) (changed : Z) : handler () :=
  control_send (CBaselineActionApplied action changed).

(** [server.mode().await], then the reply. *)
Definition send_mode : handler () :=
  mode ← call (self ← get; mret self.(runtime).(Runtime.mode));
  control_send (CModeState mode).

Definition on_control (hello : ClientHello) (now : Z) (msg : ControlMessage) : handler LoopStep :=
  let device_id := hello.(ch_device_id) in
  match msg with
  | CPing => control_send CPong;; send_mode;; mret Continue
  | CPong => mret Continue
  | CSetMode requested_mode =>
      operator_only hello now "operator role is required to change mode"
        (answer hello now (call (ServerRuntime.set_mode requested_mode now)) (λ _, send_mode))
  | CResetSceneToBaseline scene_id =>
      operator_only hello now "operator role is required to reset baseline"
        (answer hello now (call (ServerRuntime.reset_scene_to_baseline scene_id))
          (baseline_applied ResetScene))
  | CCommitSceneBaseline scene_id =>
      operator_only hello now "operator role is required to commit scene baseline"
        (answer hello now (call (ServerRuntime.commit_scene_baseline scene_id))
          (baseline_applied CommitScene))
  | CCommitObjectBaseline scene_id object_id =>
      operator_only hello now "operator role is required to commit object baseline"
        (answer hello now (call (ServerRuntime.commit_object_baseline scene_id object_id))
          (baseline_applied CommitObject))
  | CCreateVideoOffer stream_id track_id =>
      answer hello now (call_task (create_video_offer device_id stream_id track_id))
        (λ offer, control_send (CVideoOffer offer))
  | CVideoSignal signal =>
      if decide (signal.(from_device) ≠ device_id) then
        reply_error hello now RoleDenied "signal from_device does not match active session"
      else if decide (signal.(to_device) = device_id) then
        answer hello now (call_task (handle_video_signal device_id signal.(payload))) (λ reply,
          match reply with
          | Some sdp => control_send (CVideoOffer sdp)
          | None => mret ()
          end)
      else answer hello now (call (push_signaling_message signal)) (λ _, mret ())
  | CDrainSignals =>
      answer hello now (call (drain_signaling_messages device_id)) (λ messages,
        control_send (CSignalsBatch messages))
  | CSignalsBatch _ | CVideoOffer _ | CModeState _ | CBaselineActionApplied _ _ | CError _ _
  | CServerHello _ | CClientHello _ | CRegisterRequest _ | CRegisterAccepted _
  | CRegisterRejected _ =>
      reply_error hello now RoleDenied "unsupported control message in active loop"
  end.

(** The two critical sections of [ingest_motion_datagram]. *)
Definition ingest_motion_datagram (datagram : MotionDatagram) : handler () :=
  call (modify (λ self, set_metrics (add_datagram self.(metrics)) self));;
  call (ingest_motion_samples datagram.(md_device_id) (update_of_frame <$> datagram.(md_updates))
    datagram.(md_timestamp_ns)).

Definition loop_round (hello : ClientHello) (ev : PeerEvent) : handler LoopStep :=
  match ev with
  | CtrlReceived now (Some msg) => on_control hello now msg
  | DatagramReceived now (Some frame) =>
      r ← attempt_task (ingest_motion_datagram frame);
      match (r : res ServerError ()) with
      | Panicked => Done Panicked
      | _ => mret Continue
      end
  | CtrlReceived now None | DatagramReceived now None =>
      close_quietly hello.(ch_device_id) now;; mret Break
  end.

Fixpoint control_loop (hello : ClientHello) (evs : list PeerEvent) : handler LoopStep :=
  match evs with
  | [] => mret Continue
  | ev :: evs =>
      r ← loop_round hello ev;
      match r with
      | Break => mret Break
      | Continue => control_loop hello evs
      end
  end.

(** [match server.register(..).await { .. }]: whether the client is let in. *)
Definition let_in (now : Z) (session_id : Uuid) (device_id : Uuid) (req : RegisterRequest) :
    handler bool :=
  r ← attempt_task (call (register session_id device_id req));
  match r with
  | Ok accepted =>
      control_send (CRegisterAccepted accepted);;
      mret true
  | Err (ERegisterRejected rej) =>
      control_send (CRegisterRejected rej);;
      close_quietly device_id now;;
      mret false
  | Err err => close_quietly device_id now;; Done (Err err)
  | Panicked => Done Panicked
  end.

Definition handshake (now : Z) (session_id : Uuid) (first second : res string ControlMessage) :
    handler (option ClientHello) :=
  hello ← call (self ← get; mret (server_hello self));
  control_send (CServerHello hello);;
  m ← Done (map_err ERuntime first);
  match m with
  | CClientHello hello =>
      let device_id := hello.(ch_device_id) in
      call (discovered device_id hello.(ch_device_name));;
      call (transport_connected device_id);;
      call (hello_exchanged hello);;
      call (authenticate device_id);;
      m ← Done (map_err ERuntime second);
      match m with
      | CRegisterRequest req =>
          ok ← let_in now session_id device_id req;
          if ok : bool then
            call (scene_synced device_id);;
            call (activate device_id);;
            mret (Some hello)
          else mret None
      | _ => Done (Err (ERuntime "expected RegisterRequest after ClientHello"))
      end
  | _ => Done (Err (ERuntime "expected ClientHello as first control message"))
  end.

(** The handler, with the client it serves and how its loop ended, or how it
    stands when all that arrived is handled; an error of the loop is the
    error of the handler. *)
Definition serve (now : Z) (session_id : Uuid) (first second : res string ControlMessage)
    (evs : list PeerEvent) : handler (option (ClientHello * res ServerError LoopStep)) :=
  h ← handshake now session_id first second;
  match h with
  | Some hello => r ← attempt_task (control_loop hello evs); mret (Some (hello, r))
  | None => mret None
  end.

Definition handle_quic_peer (now : Z) (session_id : Uuid) (first second : res string ControlMessage)
    (evs : list PeerEvent) : handler () :=
  served ← serve now session_id first second evs;
  match served with
  | Some (_, r) => Done r;; mret ()
  | None => mret ()
  end.
End peer.

(** ** Alone *)

Section video_alone.
Context {M : Type → Type} `{!IndexMap Uuid M} {fmt : UuidFormat} {crate : WebRtcCrate}
  {texts : ErrorText}.

Lemma ensure_video_peer_alone d :
  runs (ensure_video_peer (M:=M) d) (ServerVideo.ensure_video_peer d).
Proof.
  apply (runs_ext _ (existing ← (self ← get; lift (Ok (existing_peer d self)));
    match existing with
    | Some p => mret p
    | None => created ← on_peer WebRtcSession_new; insert_video_peer d created
    end)).
  - unfold ensure_video_peer, read_lock, rtc_await. runs_walk.
  - intros s. unfold ServerVideo.ensure_video_peer, existing_peer. unfold_prog.
    by destruct (video_peers s !! d).
Qed.

Lemma ensure_track_alone d p a b :
  runs (ensure_track (M:=M) d p a b) (ServerVideo.ensure_track d p a b).
Proof.
  apply (runs_ext _ (needed ← (self ← get; lift (Ok (needs_track d self)));
    if needed : bool then on_peer (add_h264_track p a b);; mark_track d else mret ())).
  - unfold ensure_track, read_lock, rtc_await. runs_walk.
  - done.
Qed.

Lemma offer_alone d a b :
  runs (create_video_offer (M:=M) d a b) (ServerVideo.create_video_offer d a b).
Proof.
  apply (runs_ext _ ((self ← get; lift (ensure_video_session_ready self d));;
    p ← ServerVideo.ensure_video_peer d;
    ServerVideo.ensure_track d p a b;;
    on_peer (create_offer p))).
  - pose proof ensure_video_peer_alone. pose proof ensure_track_alone.
    unfold create_video_offer, read_lock, rtc_await. runs_walk.
  - done.
Qed.

Lemma signal_alone d signal :
  runs (handle_video_signal (M:=M) d signal) (ServerVideo.handle_video_signal d signal).
Proof.
  apply (runs_ext _ ((self ← get; lift (ensure_video_session_ready self d));;
    match signal with
    | Sdp sdp =>
        if decide (sdp.(sdp_ty) = Offer) then
          p ← ServerVideo.ensure_video_peer d;
          on_peer (apply_remote_sdp p sdp);;
          ServerVideo.ensure_track d p ("motionstage-" +:+ uuid_to_string d) "video";;
          answer ← on_peer (create_answer p);
          mret (Some answer)
        else p ← video_peer d; on_peer (apply_remote_sdp p sdp);; mret None
    | Ice candidate => p ← video_peer d; on_peer (add_ice_candidate p candidate);; mret None
    end)).
  - pose proof ensure_video_peer_alone. pose proof ensure_track_alone.
    unfold handle_video_signal, read_lock, rtc_await. runs_walk.
  - done.
Qed.
End video_alone.

#[export] Hint Resolve offer_alone signal_alone : tasks.

Section alone.
Context {M : Type → Type} `{!IndexMap Uuid M} {fmt : UuidFormat} {crate : WebRtcCrate}
  {fs : FileSystem} {bm : Bincode RecordingManifest} {bk : Bincode (list RecordingMarker)}
  {bf : Bincode RecordedFrame} {texts : ErrorText}.
Abbreviation handler := (task (Conn M) ServerError).

Lemma call_task_alone {A} (t : task (ServerState M) ServerError A) m :
  runs t m → runs (call_task t) (ServerLoop.call m).
Proof. intros Ht. apply runs_zoom; [done|done|by intros []|done]. Qed.

Lemma call_alone {A} (m : prog (ServerState M) ServerError A) : runs (call m) (ServerLoop.call m).
Proof. apply runs_atomic. Qed.

Lemma send_alone msg : runs (control_send (M:=M) msg) (ServerLoop.control_send msg).
Proof. apply runs_atomic. Qed.

#[local] Hint Resolve call_task_alone call_alone send_alone : tasks.

Lemma close_quietly_alone d now :
  runs (close_quietly (M:=M) d now) (ServerLoop.close_quietly d now).
Proof. unfold close_quietly, ServerLoop.close_quietly. runs_walk. Qed.

#[local] Hint Resolve close_quietly_alone : tasks.

Lemma reply_error_alone hello now code reason :
  runs (reply_error (M:=M) hello now code reason) (ServerLoop.reply_error hello now code reason).
Proof. unfold reply_error, ServerLoop.reply_error, send_protocol_error. runs_walk. Qed.

#[local] Hint Resolve reply_error_alone : tasks.

Lemma answer_alone {A} hello now (t : handler A) m on_ok on_ok' :
  runs t (ServerLoop.call m) → (∀ a, runs (on_ok a) (on_ok' a)) →
  runs (answer hello now t on_ok) (ServerLoop.answer hello now m on_ok').
Proof. intros Ht Hok. unfold answer, ServerLoop.answer, reply_failure, ServerLoop.reply_failure. runs_walk. Qed.

Lemma operator_only_alone hello now reason (t : handler LoopStep) m :
  runs t m → runs (operator_only hello now reason t) (ServerLoop.operator_only hello now reason m).
Proof. intros Ht. unfold operator_only, ServerLoop.operator_only. runs_walk. Qed.

Lemma send_mode_alone :
  runs (send_mode (M:=M))
    (c ← get; ServerLoop.control_send (CModeState c.(server).(runtime).(Runtime.mode))).
Proof.
  apply (runs_ext _ (mode ← ServerLoop.call (self ← get; mret self.(runtime).(Runtime.mode));
    ServerLoop.control_send (CModeState mode))).
  - unfold send_mode. runs_walk.
  - by intros [].
Qed.

#[local] Hint Resolve answer_alone operator_only_alone send_mode_alone : tasks.

Lemma ping_alone :
  runs (send_mode (M:=M);; mret Continue)
    (c ← get;
     ServerLoop.control_send (CModeState c.(server).(runtime).(Runtime.mode));; mret Continue).
Proof.
  apply (runs_ext _ ((c ← get;
    ServerLoop.control_send (CModeState c.(server).(runtime).(Runtime.mode)));; mret Continue)).
  - runs_walk.
  - done.
Qed.

#[local] Hint Resolve ping_alone : tasks.

Lemma on_control_alone hello now msg :
  runs (on_control (M:=M) hello now msg) (ServerLoop.on_control hello now msg).
Proof.
  destruct msg; cbn [on_control ServerLoop.on_control];
    unfold baseline_applied, ServerLoop.baseline_applied;
    repeat first [progress auto with tasks nocore | runs_step
      | apply operator_only_alone | apply answer_alone; [|intros]].
Qed.

Lemma ingest_alone datagram :
  runs (ingest_motion_datagram (M:=M) datagram)
    (ServerLoop.call (ServerRuntime.ingest_motion_datagram datagram)).
Proof.
  apply (runs_ext _
    (ServerLoop.call (modify (λ self, set_metrics (add_datagram self.(metrics)) self));;
     ServerLoop.call (ingest_motion_samples datagram.(md_device_id)
       (update_of_frame <$> datagram.(md_updates)) datagram.(md_timestamp_ns)))).
  - unfold ingest_motion_datagram. runs_walk.
  - done.
Qed.

#[local] Hint Resolve on_control_alone ingest_alone : tasks.

Lemma loop_round_alone hello ev :
  runs (loop_round (M:=M) hello ev) (ServerLoop.loop_round hello ev).
Proof. destruct ev as [now [msg|]|now [frame|]]; cbn [loop_round ServerLoop.loop_round]; runs_walk. Qed.

#[local] Hint Resolve loop_round_alone : tasks.

Lemma control_loop_alone hello evs :
  runs (control_loop (M:=M) hello evs) (ServerLoop.control_loop hello evs).
Proof. induction evs as [|ev evs IH]; cbn [control_loop ServerLoop.control_loop]; runs_walk. Qed.

(** The sequential reading of [let_in] with what follows it. *)
Definition admission (now : Z) (session_id device_id : Uuid) (req : RegisterRequest) :
    prog (Conn M) ServerError bool :=
  r ← attempt (ServerLoop.call (register session_id device_id req));
  match r with
  | Ok accepted => ServerLoop.control_send (CRegisterAccepted accepted);; mret true
  | Err (ERegisterRejected rej) =>
      ServerLoop.control_send (CRegisterRejected rej);;
      ServerLoop.close_quietly device_id now;;
      mret false
  | Err err => ServerLoop.close_quietly device_id now;; throw err
  | Panicked => lift Panicked
  end.

Lemma admit_alone now id d req : runs (let_in (M:=M) now id d req) (admission now id d req).
Proof. unfold let_in, admission. runs_walk. Qed.

#[local] Hint Resolve admit_alone : tasks.

Lemma handshake_alone now id first second :
  runs (handshake (M:=M) now id first second) (ServerLoop.handshake now id first second).
Proof.
  apply (runs_ext _ (hello ← ServerLoop.call (self ← get; mret (server_hello self));
    ServerLoop.control_send (CServerHello hello);;
    m ← lift (map_err ERuntime first);
    match m with
    | CClientHello hello =>
        let d := hello.(ch_device_id) in
        ServerLoop.call (discovered d hello.(ch_device_name));;
        ServerLoop.call (transport_connected d);;
        ServerLoop.call (hello_exchanged hello);;
        ServerLoop.call (authenticate d);;
        m ← lift (map_err ERuntime second);
        match m with
        | CRegisterRequest req =>
            ok ← admission now id d req;
            if ok : bool then
              ServerLoop.call (scene_synced d);; ServerLoop.call (activate d);; mret (Some hello)
            else mret None
        | _ => throw (ERuntime "expected RegisterRequest after ClientHello")
        end
    | _ => throw (ERuntime "expected ClientHello as first control message")
    end)).
  - unfold handshake. runs_walk.
  - intros c. unfold ServerLoop.handshake. change ((get ≫= ?f) c) with (f c c). cbv beta.
    rewrite (prog_bind_ok (ServerLoop.call _) _ c c (server_hello (server c))) by by destruct c.
    apply prog_bind_ext. intros _ c1. apply prog_bind_ext. intros m c2. destruct m; try done.
    do 4 (apply prog_bind_ext; intros _ ?). apply prog_bind_ext. intros [] ?; try done.
    unfold admission. rewrite prog_bind_assoc. apply prog_bind_ext. intros [acc|[]|] ?; try done;
      rewrite ?prog_bind_assoc; try done.
    all: unfold_prog; cbn; by repeat case_match; simplify_eq.
Qed.

#[local] Hint Resolve handshake_alone control_loop_alone : tasks.

(** A connection that no other task interrupts does exactly what the
    sequential reading of its handler does: the same server, the same
    messages, the same result, whatever arrives and whichever send fails. *)
Theorem handler_alone now id first second evs c :
  run (handle_quic_peer (M:=M) now id first second evs) c =
    Some (ServerLoop.handle_quic_peer now id first second evs c).
Proof.
  revert c. apply (runs_ext _ (served ← (h ← ServerLoop.handshake now id first second;
      match h with
      | Some hello => r ← attempt (ServerLoop.control_loop hello evs); mret (Some (hello, r))
      | None => mret None
      end);
    match served with
    | Some (_, r) => lift r;; mret ()
    | None => mret ()
    end)).
  - unfold handle_quic_peer, serve. runs_walk.
  - intros c. rewrite prog_bind_assoc. apply prog_bind_ext. intros [hello|] c1; [|done].
    unfold attempt, lift. unfold_prog. by destruct (ServerLoop.control_loop hello evs c1) as [c2 [a|e|]].
Qed.
End alone.
