(* ===== verification/Stream.v ===== *)
(** [crates/motionstage-transport-quic/src/lib.rs] and
    [crates/motionstage-server/src/lib.rs]: the control stream as it is really
    read, in pieces, by a receive that [tokio::select!] polls and drops.

    [read_control_message] awaits twice, so it is a future with a state
    ([RecvFuture]). In the loop of the handler every round makes a new one and
    throws it away when a datagram comes first, with all that it has read. *)

From S2P Require Import Prelude Tasks Float IndexMap Protocol Model Transform Runtime Media Codec.
From S2P Require Import Recording WebRtc Transport Server ServerRuntime ServerVideo ServerLoop.

Local Open Scope Z_scope.

(** The receive half of a stream: what has arrived and was not read, and how
    the stream ended. *)
Record RecvStream := mkRecv { arrived : list byte; recv_end : option IoError }.

(** [quinn::RecvStream::read_exact], polled with what it has read so far. It
    takes bytes in order, and how many it takes before it waits is its own. *)
Class StreamReader := {
  poll_read_exact : Z → list byte → RecvStream → RecvStream * Poll (list byte) (res IoError (list byte));
  read_full n filled s :
    (Z.to_nat n ≤ length (filled ++ s.(arrived)))%nat → (length filled ≤ Z.to_nat n)%nat →
    poll_read_exact n filled s =
      (mkRecv (drop (Z.to_nat n) (filled ++ s.(arrived))) s.(recv_end),
       Ready (Ok (take (Z.to_nat n) (filled ++ s.(arrived)))));
  read_waits n filled s :
    (length (filled ++ s.(arrived)) < Z.to_nat n)%nat → s.(recv_end) = None →
    ∃ filled' rest, poll_read_exact n filled s = (mkRecv rest None, Pending filled') ∧
      filled' ++ rest = filled ++ s.(arrived);
  read_ends n filled s e :
    (length (filled ++ s.(arrived)) < Z.to_nat n)%nat → s.(recv_end) = Some e →
    (poll_read_exact n filled s).2 = Ready (Err e);
}.

(** The future of [read_control_message]: at its first [.await] or at its
    second. *)
Inductive RecvFuture :=
  | ReadLength (filled : list byte)
  | ReadBody (len_bytes filled : list byte).

(** [control.recv()], not polled yet. *)
Definition recv_future : RecvFuture := ReadLength [].

(** What the future has taken off the stream. *)
Definition held (fut : RecvFuture) : list byte :=
  match fut with
  | ReadLength filled => filled
  | ReadBody len_bytes filled => len_bytes ++ filled
  end.

(** What the two branches of [tokio::select!] give. *)
Inductive Selected :=
  | CtrlReady (r : res QuicTransportError ControlMessage)
  | DatagramReady (r : res QuicTransportError MotionDatagram).

(** The receiving end of a connection: the control stream with the pending
    receive of this round, the datagrams that have arrived, and how the
    connection was lost. *)
Record Inlet := mkInlet {
  stream : RecvStream;
  receiving : RecvFuture;
  packets : list (list byte);
  lost : option string;
}.

(** What happens at the inlet. [PollLoop] is a poll of the handler's task, with
    the branch that [tokio::select!] tries first and the clock. *)
Inductive InletEvent :=
  | Bytes (bs : list byte)
  | StreamEnd (e : IoError)
  | Packet (bs : list byte)
  | Lost (e : string)
  | PollLoop (control_first : bool) (now : Z).

Section inlet.
Context {be : Bincode ControlEnvelope} {bd : Bincode MotionDatagramEnvelope} {sr : StreamReader}.

(** The end of [read_control_message], behind its last [.await]. *)
Definition decode_message (bytes : list byte) : res QuicTransportError ControlMessage :=
  envelope ← bincode_result Serialization (deserialize (A:=ControlEnvelope) bytes);
  validate_wire_version envelope.(ce_protocol_major) envelope.(ce_protocol_minor);;
  Ok envelope.(ce_message).

Definition poll_body (len_bytes filled : list byte) (s : RecvStream) :
    RecvStream * Poll RecvFuture (res QuicTransportError ControlMessage) :=
  match poll_read_exact (from_le_bytes len_bytes) filled s with
  | (s, Pending filled) => (s, Pending (ReadBody len_bytes filled))
  | (s, Ready r) => (s, Ready (bytes ← map_err Read r; decode_message bytes))
  end.

Definition poll_recv (fut : RecvFuture) (s : RecvStream) :
    RecvStream * Poll RecvFuture (res QuicTransportError ControlMessage) :=
  match fut with
  | ReadBody len_bytes filled => poll_body len_bytes filled s
  | ReadLength filled =>
      match poll_read_exact 4 filled s with
      | (s, Pending filled) => (s, Pending (ReadLength filled))
      | (s, Ready (Ok len_bytes)) => poll_body len_bytes [] s
      | (s, Ready (Err e)) => (s, Ready (Err (Read e)))
      | (s, Ready Panicked) => (s, Ready Panicked)
      end
  end.

(** ** The round of the handler's loop *)

(** The next round makes a new [control.recv()]. *)
Definition poll_control (l : Inlet) : Inlet * option Selected :=
  match poll_recv l.(receiving) l.(stream) with
  | (s, Pending fut) => (mkInlet s fut l.(packets) l.(lost), None)
  | (s, Ready r) => (mkInlet s recv_future l.(packets) l.(lost), Some (CtrlReady r))
  end.

Definition poll_datagram (l : Inlet) : Inlet * option Selected :=
  match l.(packets), l.(lost) with
  | bs :: packets, _ =>
      (mkInlet l.(stream) recv_future packets l.(lost), Some (DatagramReady (recv_motion_datagram bs)))
  | [], Some e => (mkInlet l.(stream) recv_future [] l.(lost), Some (DatagramReady (Err (Connection e))))
  | [], None => (l, None)
  end.

Definition poll_select (control_first : bool) (l : Inlet) : Inlet * option Selected :=
  let '(first, second) :=
    if control_first then (poll_control, poll_datagram) else (poll_datagram, poll_control) in
  match first l with
  | (l, Some r) => (l, Some r)
  | (l, None) => second l
  end.

Definition received {E A} (r : res E A) : option A := match r with Ok a => Some a | _ => None end.

(** What the arms of the loop see of a result. *)
Definition peer_event (now : Z) (r : Selected) : PeerEvent :=
  match r with
  | CtrlReady r => CtrlReceived now (received r)
  | DatagramReady r => DatagramReceived now (received r)
  end.

Definition inlet_step (ev : InletEvent) (l : Inlet) : Inlet * option PeerEvent :=
  match ev with
  | Bytes bs => (mkInlet (mkRecv (l.(stream).(arrived) ++ bs) l.(stream).(recv_end)) l.(receiving)
      l.(packets) l.(lost), None)
  | StreamEnd e => (mkInlet (mkRecv l.(stream).(arrived) (Some e)) l.(receiving) l.(packets) l.(lost), None)
  | Packet bs => (mkInlet l.(stream) l.(receiving) (l.(packets) ++ [bs]) l.(lost), None)
  | Lost e => (mkInlet l.(stream) l.(receiving) l.(packets) (Some e), None)
  | PollLoop control_first now =>
      let '(l, r) := poll_select control_first l in (l, peer_event now <$> r)
  end.

(** The events that the handler's loop gets ([ServerLoop.control_loop],
    [ServerTasks.control_loop]), and the inlet afterwards. *)
Fixpoint peer_events (evs : list InletEvent) (l : Inlet) : list PeerEvent :=
  match evs with
  | [] => []
  | ev :: evs => let '(l, e) := inlet_step ev l in option_list e ++ peer_events evs l
  end.

Definition inlet_after (evs : list InletEvent) (l : Inlet) : Inlet :=
  foldl (λ l ev, (inlet_step ev l).1) l evs.

(** The connection behind its handshake, with nothing on its way. *)
Definition quiet_inlet : Inlet := mkInlet (mkRecv [] None) recv_future [] None.

(** ** What is lost *)

(** The bytes that a step throws away with the receive it drops. *)
Definition dropped (ev : InletEvent) (l : Inlet) : list byte :=
  match ev with
  | PollLoop control_first _ =>
      match (if control_first then poll_control l else (l, None)) with
      | (l, None) => match poll_datagram l with (_, Some _) => held l.(receiving) | _ => [] end
      | _ => []
      end
  | _ => []
  end.

Fixpoint intact (evs : list InletEvent) (l : Inlet) : Prop :=
  match evs with
  | [] => True
  | ev :: evs => dropped ev l = [] ∧ intact evs (inlet_step ev l).1
  end.
End inlet.

(** ** One poll *)

Section laws.
Context {be : Bincode ControlEnvelope} {bd : Bincode MotionDatagramEnvelope} {sr : StreamReader}.

(** What the future and the stream hold together, and that the future is one
    that polling makes of [recv_future]. *)
Definition at_hand (fut : RecvFuture) (s : RecvStream) : list byte := held fut ++ s.(arrived).

Definition fits (fut : RecvFuture) : Prop :=
  match fut with
  | ReadLength filled => (length filled ≤ 4)%nat
  | ReadBody len_bytes filled =>
      length len_bytes = 4%nat ∧ (length filled ≤ Z.to_nat (from_le_bytes len_bytes))%nat
  end.

Lemma waiting n filled s :
  (length (filled ++ s.(arrived)) < Z.to_nat n)%nat → s.(recv_end) = None →
  ∃ filled' rest, poll_read_exact n filled s = (mkRecv rest None, Pending filled') ∧
    filled' ++ rest = filled ++ s.(arrived) ∧ (length filled' ≤ Z.to_nat n)%nat.
Proof.
  intros Hn He. destruct (read_waits n filled s Hn He) as (f & rest & Hp & Hf).
  exists f, rest. split_and!; [done..|]. rewrite <-Hf, length_app in Hn. lia.
Qed.

Lemma blob_prefix b post :
  blob_fits b → from_le_bytes (take 4 (blob b ++ post)) = Z.of_nat (length b).
Proof. intros Hb. exact (blob_length b Hb). Qed.

Lemma poll_body_full b filled post s :
  blob_fits b → filled ++ s.(arrived) = b ++ post → (length filled ≤ length b)%nat →
  poll_body (take 4 (blob b)) filled s = (mkRecv post s.(recv_end), Ready (decode_message b)).
Proof.
  intros Hb Hs Hf. unfold poll_body.
  assert (from_le_bytes (take 4 (blob b)) = Z.of_nat (length b)) as ->
    by (rewrite <-(app_nil_r (blob b)); by apply blob_prefix).
  rewrite read_full by (rewrite ?Hs, ?Nat2Z.id, ?length_app; lia).
  by rewrite Hs, Nat2Z.id, drop_app_length, take_app_length.
Qed.

(** All bytes of a message are there. *)
Lemma poll_recv_full b fut post s :
  blob_fits b → fits fut → at_hand fut s = blob b ++ post →
  poll_recv fut s = (mkRecv post s.(recv_end), Ready (decode_message b)).
Proof.
  intros Hb Hf Hs. destruct fut as [filled|len_bytes filled]; cbn [at_hand held fits poll_recv] in *.
  - unfold at_hand, held in Hs.
    rewrite read_full by (rewrite ?Hs, ?length_app, ?length_blob; cbn; lia).
    rewrite Hs. change (Z.to_nat 4) with 4%nat. rewrite take_app_le, drop_app_le by (rewrite length_blob; lia).
    cbv beta iota. rewrite (poll_body_full b [] post); [done..|cbn; lia].
  - unfold at_hand, held in Hs. destruct Hf as [Hl Hf]. rewrite <-app_assoc in Hs.
    unfold blob in Hs. rewrite <-app_assoc in Hs.
    apply app_inj_1 in Hs as [Hlen Hs]; [|done].
    assert (len_bytes = take 4 (blob b)) as -> by by rewrite Hlen.
    apply poll_body_full; [done..|]. pose proof (blob_prefix b [] Hb) as Hp.
    rewrite app_nil_r in Hp. rewrite Hp in Hf. lia.
Qed.

Lemma poll_body_waits b filled s :
  blob_fits b → (length (filled ++ s.(arrived)) < length b)%nat → s.(recv_end) = None →
  ∃ filled' rest, poll_body (take 4 (blob b)) filled s =
      (mkRecv rest None, Pending (ReadBody (take 4 (blob b)) filled')) ∧
    filled' ++ rest = filled ++ s.(arrived) ∧ fits (ReadBody (take 4 (blob b)) filled').
Proof.
  intros Hb Hn He. unfold poll_body, fits.
  assert (from_le_bytes (take 4 (blob b)) = Z.of_nat (length b)) as ->
    by (rewrite <-(app_nil_r (blob b)); by apply blob_prefix).
  destruct (waiting (Z.of_nat (length b)) filled s) as (f & rest & Hp & Hf & Hl); [by rewrite Nat2Z.id|done|].
  rewrite Hp. exists f, rest. by repeat split.
Qed.

(** Bytes of a message are missing. *)
Lemma poll_recv_waits b fut s missing :
  blob_fits b → fits fut → s.(recv_end) = None → at_hand fut s ++ missing = blob b → missing ≠ [] →
  ∃ fut' rest, poll_recv fut s = (mkRecv rest None, Pending fut') ∧
    held fut' ++ rest = at_hand fut s ∧ fits fut'.
Proof.
  intros Hb Hf He Hs Hm. assert (0 < length missing)%nat as Hm' by (destruct missing; [done|cbn; lia]).
  pose proof (f_equal length Hs) as Hlen. rewrite length_app, length_blob in Hlen.
  destruct fut as [filled|len_bytes filled]; unfold at_hand, held in *; cbn [fits poll_recv] in *.
  - destruct (decide (4 ≤ length (filled ++ s.(arrived)))%nat) as [H4|H4].
    + rewrite read_full by (cbn; lia). change (Z.to_nat 4) with 4%nat.
      assert (take 4 (filled ++ s.(arrived)) = take 4 (blob b)) as Ht.
      { rewrite <-Hs. symmetry. by apply take_app_le. }
      rewrite Ht. destruct (poll_body_waits b [] (mkRecv (drop 4 (filled ++ s.(arrived))) s.(recv_end)))
        as (f & rest & Hp & Hfr & Hfit); [done| |exact He|].
      { rewrite app_nil_l. cbn [arrived]. rewrite length_drop. lia. }
      cbn [arrived] in *. rewrite Hp. exists (ReadBody (take 4 (blob b)) f), rest.
      split_and!; [done| |done]. cbn [held]. rewrite <-app_assoc, Hfr. cbn [arrived].
      rewrite <-Ht. by rewrite app_nil_l, take_drop.
    + destruct (waiting 4 filled s) as (f & rest & Hp & Hfr & Hl); [cbn; lia|done|].
      rewrite Hp. exists (ReadLength f), rest. by repeat split.
  - destruct Hf as [Hl Hf]. rewrite <-!app_assoc in Hs. unfold blob in Hs.
    apply app_inj_1 in Hs as [Hlb Hs]; [|done].
    assert (len_bytes = take 4 (blob b)) as Hlb' by by rewrite Hlb.
    rewrite Hlb' in *.
    edestruct (poll_body_waits b filled s) as (f & rest & Hp & Hfr & Hfit); [done| |done|].
    { apply (f_equal length) in Hs. rewrite !length_app in Hs. rewrite length_app. lia. }
    exists (ReadBody (take 4 (blob b)) f), rest. rewrite Hp. cbn [held].
    by rewrite <-!app_assoc, Hfr.
Qed.
End laws.

(** ** Whole runs *)

(** What came in with a list of events, and what the loop saw of it. *)
Definition stream_pieces (evs : list InletEvent) : list (list byte) :=
  omap (λ ev, match ev with Bytes bs => Some bs | _ => None end) evs.
Definition stream_packets (evs : list InletEvent) : list (list byte) :=
  omap (λ ev, match ev with Packet bs => Some bs | _ => None end) evs.
Definition control_messages (es : list PeerEvent) : list (option ControlMessage) :=
  omap (λ e, match e with CtrlReceived _ m => Some m | _ => None end) es.
Definition datagrams_seen (es : list PeerEvent) : list (option MotionDatagram) :=
  omap (λ e, match e with DatagramReceived _ d => Some d | _ => None end) es.

(** The stream and the connection stay open. *)
Definition open (evs : list InletEvent) : bool :=
  forallb (λ ev, match ev with StreamEnd _ | Lost _ => false | _ => true end) evs.

Section runs.
Context {be : Bincode ControlEnvelope} {bd : Bincode MotionDatagramEnvelope} {sr : StreamReader}.

Definition unpacked (bs : list byte) : option MotionDatagram := received (recv_motion_datagram bs).

(** The inlet of an open connection, with the messages that are still to be
    received, of which [rest] has not arrived. *)
Definition expects (ms : list ControlMessage) (rest : list byte) (l : Inlet) : Prop :=
  l.(stream).(recv_end) = None ∧ l.(lost) = None ∧ fits l.(receiving) ∧
  ∃ bss, Forall2 encodes ms bss ∧ at_hand l.(receiving) l.(stream) ++ rest = concat bss.

Lemma decode_sent m b :
  serialize (mkControlEnvelope PROTOCOL_MAJOR PROTOCOL_MINOR m) = inr b → decode_message b = Ok m.
Proof. intros Hb. unfold decode_message. by rewrite (deserialize_serialize _ _ Hb). Qed.

Lemma poll_control_step ms rest l :
  expects ms rest l →
  (∃ m ms' l', ms = m :: ms' ∧ poll_control l = (l', Some (CtrlReady (Ok m))) ∧
     l'.(receiving) = recv_future ∧ expects ms' rest l' ∧ l'.(packets) = l.(packets)) ∨
  (∃ l', poll_control l = (l', None) ∧ expects ms rest l' ∧ l'.(packets) = l.(packets) ∧
     (rest = [] → ms = [])).
Proof.
  intros (He & Hl & Hf & bss & Hms & Hs). unfold poll_control.
  assert (∀ b missing, blob_fits b → at_hand l.(receiving) l.(stream) ++ missing = blob b →
    missing ≠ [] → (rest = [] → ms = []) → ∃ l',
      (let '(s, x) := poll_recv (receiving l) (stream l) in
       match x with
       | Pending fut => (mkInlet s fut (packets l) (lost l), None)
       | Ready r => (mkInlet s recv_future (packets l) (lost l), Some (CtrlReady r))
       end) = (l', None) ∧ expects ms rest l' ∧ l'.(packets) = l.(packets) ∧ (rest = [] → ms = []))
    as Hwait.
  { intros b missing Hb Hbm Hm Hr.
    destruct (poll_recv_waits b _ _ missing Hb Hf He Hbm Hm) as (fut & rest' & Hp & Hh & Hfit).
    rewrite Hp. eexists. split; [done|]. split; [|done].
    repeat split; [done..|]. exists bss. split; [done|]. unfold at_hand. cbn [receiving stream arrived].
    by rewrite Hh. }
  destruct Hms as [|m bs ms bss Hm Hms].
  - cbn in Hs. apply app_eq_nil in Hs as [Hs ->]. right.
    by apply (Hwait [] (blob [])); [by vm_compute|by rewrite Hs| |].
  - destruct (encodes_blob _ _ Hm) as (b & -> & Hb & Eb). cbn [concat] in Hs.
    apply app_eq_inv in Hs as [(k & Hk & Hc)|(k & Hk & Hc)].
    + left. rewrite (poll_recv_full b _ k _ Hb Hf Hk), He, (decode_sent _ _ Eb).
      eexists m, ms, _. do 3 (split; [done|]). split; [|done]. repeat split; [done|cbn; lia|]. exists bss.
      split; [done|]. unfold at_hand. cbn. by rewrite Hc.
    + destruct k as [|x k].
      * left. rewrite app_nil_r in Hk. cbn in Hc. subst rest. rewrite <-(app_nil_r (blob b)) in Hk.
        rewrite (poll_recv_full b _ [] _ Hb Hf (eq_sym Hk)), He, (decode_sent _ _ Eb).
        eexists m, ms, _. do 3 (split; [done|]). split; [|done]. repeat split; [done|cbn; lia|].
        by exists bss.
      * right. apply (Hwait b (x :: k)); [done..|]. subst rest. done.
Qed.

(** A poll of the loop at which nothing is dropped. *)
Lemma poll_loop_step ms rest l control_first now :
  expects ms rest l → dropped (PollLoop control_first now) l = [] →
  ∃ l' e, inlet_step (PollLoop control_first now) l = (l', e) ∧
  (is_Some e → l'.(receiving) = recv_future) ∧
  ((∃ m ms', ms = m :: ms' ∧ e = Some (CtrlReceived now (Some m)) ∧ expects ms' rest l' ∧
     l'.(packets) = l.(packets)) ∨
   (∃ p, l.(packets) = p :: l'.(packets) ∧ e = Some (DatagramReceived now (unpacked p)) ∧
     expects ms rest l') ∨
   (e = None ∧ l.(packets) = [] ∧ l'.(packets) = [] ∧ expects ms rest l' ∧ (rest = [] → ms = []))).
Proof.
  assert (∀ l p ps, packets l = p :: ps → expects ms rest l → held l.(receiving) = [] →
    expects ms rest (mkInlet (stream l) recv_future ps (lost l))) as Hdrop.
  { intros l1 p ps Hp (He & Hl & Hf & bss & Hms & Hs) Hh. repeat split; [done..|cbn; lia|].
    exists bss. split; [done|]. unfold at_hand in *. by rewrite Hh in Hs. }
  intros Hx Hd. assert (lost l = None) as Hlost by apply Hx.
  unfold inlet_step, poll_select, dropped in *. destruct control_first.
  - destruct (poll_control_step _ _ _ Hx) as
      [(m & ms' & l' & -> & Hp & Hf & Hx' & Hps)|(l' & Hp & Hx' & Hps & Hr)]; rewrite Hp in *.
    + eexists l', _. do 2 (split; [done|]). left. by exists m, ms'.
    + assert (lost l' = None) as Hlost' by apply Hx'. unfold poll_datagram in *. rewrite Hlost' in *.
      destruct (packets l') as [|p ps] eqn:Eps; cbn in *; eexists _, _; (split; [done|]);
        (split; [by intros []|]); right.
      * right. by rewrite <-Hps.
      * left. exists p. rewrite <-Hps. cbn. split_and!; [done..|]. rewrite <-Hlost'. by eapply Hdrop.
  - unfold poll_datagram in *. rewrite Hlost in *. destruct (packets l) as [|p ps] eqn:Eps.
    + destruct (poll_control_step _ _ _ Hx) as
        [(m & ms' & l' & -> & Hp & Hf & Hx' & Hps)|(l' & Hp & Hx' & Hps & Hr)]; rewrite Hp in *.
      * eexists l', _. do 2 (split; [done|]). left. exists m, ms'. by rewrite Hps, Eps.
      * eexists l', _. split; [done|]. split; [by intros []|]. do 2 right. by rewrite Hps, Eps.
    + eexists _, _. do 2 (split; [done|]). right; left. exists p. split_and!; [done..|].
      rewrite <-Hlost. cbn in Hd. by eapply Hdrop.
Qed.

(** What arrives joins what is at hand. *)
Lemma arrival_step ms ev evs rest l :
  (∀ control_first now, ev ≠ PollLoop control_first now) →
  expects ms (concat (stream_pieces (ev :: evs)) ++ rest) l → open (ev :: evs) = true →
  ∃ l', inlet_step ev l = (l', None) ∧ expects ms (concat (stream_pieces evs) ++ rest) l' ∧
    l'.(packets) = l.(packets) ++ stream_packets [ev] ∧ l'.(receiving) = l.(receiving) ∧ open evs = true.
Proof.
  intros Hev (He & Hl & Hf & bss & Hms & Hs) Ho.
  destruct ev as [bs|e|bs|e|cf now]; [..|by destruct (Hev cf now)]; cbn in *; try done;
    eexists; (split; [done|]);
    rewrite ?app_nil_r; repeat split; try done; exists bss; split; try done.
  unfold at_hand in *. cbn [receiving stream arrived]. by rewrite <-Hs, <-!app_assoc.
Qed.

Lemma run_spec ms evs rest l :
  expects ms (concat (stream_pieces evs) ++ rest) l → open evs = true → intact evs l →
  ∃ ms1 ms2, ms = ms1 ++ ms2 ∧ control_messages (peer_events evs l) = Some <$> ms1 ∧
    expects ms2 rest (inlet_after evs l) ∧
    datagrams_seen (peer_events evs l) ++ (unpacked <$> (inlet_after evs l).(packets)) =
      unpacked <$> l.(packets) ++ stream_packets evs.
Proof.
  revert ms l. induction evs as [|ev evs IH]; intros ms l Hx Ho Hi.
  { exists [], ms. cbn in *. by rewrite app_nil_r. }
  destruct Hi as [Hd Hi]. cbn [peer_events inlet_after foldl].
  assert ((∃ cf now, ev = PollLoop cf now) ∨ ∀ cf now, ev ≠ PollLoop cf now) as [(cf & now & ->)|Hev]
    by (destruct ev; naive_solver).
  - destruct (poll_loop_step _ _ l cf now Hx Hd) as (l' & e & Hs & _ & Hcase). rewrite Hs in *. cbn [fst] in *.
    cbn in Ho. destruct Hcase as [(m & ms' & -> & -> & Hx' & Hp)|[(p & Hp & -> & Hx')|(-> & Hp & Hp' & Hx' & _)]].
    + destruct (IH ms' l' Hx' Ho Hi) as (ms1 & ms2 & -> & Hc & Hx2 & Hq). exists (m :: ms1), ms2.
      split; [done|]. split; [cbn; by f_equal|]. split; [done|]. rewrite Hp in Hq. exact Hq.
    + destruct (IH ms l' Hx' Ho Hi) as (ms1 & ms2 & -> & Hc & Hx2 & Hq). exists ms1, ms2.
      do 3 (split; [done|]). rewrite Hp. cbn. by f_equal.
    + destruct (IH ms l' Hx' Ho Hi) as (ms1 & ms2 & -> & Hc & Hx2 & Hq). exists ms1, ms2.
      do 3 (split; [done|]). rewrite Hp. by rewrite Hp' in Hq.
  - destruct (arrival_step ms ev evs rest l Hev Hx Ho) as (l' & Hs & Hx' & Hp & _ & Ho').
    rewrite Hs in *. cbn [fst] in *. destruct (IH ms l' Hx' Ho' Hi) as (ms1 & ms2 & -> & Hc & Hx2 & Hq).
    exists ms1, ms2. do 3 (split; [done|]). rewrite Hp, <-app_assoc in Hq.
    etrans; [exact Hq|]. do 2 f_equal. by destruct ev.
Qed.

(** With everything there, enough polls deliver it. *)
Lemma polls_drain ms polls l :
  expects ms [] l → intact ((λ p, PollLoop p.1 p.2) <$> polls) l →
  (length ms + length l.(packets) ≤ length polls)%nat →
  control_messages (peer_events ((λ p, PollLoop p.1 p.2) <$> polls) l) = Some <$> ms ∧
  datagrams_seen (peer_events ((λ p, PollLoop p.1 p.2) <$> polls) l) = unpacked <$> l.(packets).
Proof.
  revert ms l. induction polls as [|[cf now] polls IH]; intros ms l Hx Hi Hlen.
  { destruct ms, (packets l); cbn in *; [done|lia..]. }
  destruct Hi as [Hd Hi]. cbn [fmap list_fmap peer_events].
  destruct (poll_loop_step _ _ l cf now Hx Hd) as (l' & e & Hs & _ & Hcase).
  cbn [fst snd] in *. rewrite Hs in *. cbn [fst] in *.
  destruct Hcase as [(m & ms' & -> & -> & Hx' & Hp)|[(p & Hp & -> & Hx')|(-> & Hp & Hp' & Hx' & Hr)]].
  - rewrite <-Hp in *. cbn in Hlen. destruct (IH ms' l' Hx' Hi) as [Hc Hq]; [lia|].
    split; [cbn; by f_equal|done].
  - rewrite Hp in *. cbn in Hlen. destruct (IH ms l' Hx' Hi) as [Hc Hq]; [lia|].
    split; [done|cbn; by f_equal].
  - specialize (Hr eq_refl) as ->. destruct (IH [] l' Hx' Hi) as [Hc Hq]; [rewrite Hp'; cbn; lia|].
    rewrite Hp. by rewrite Hp' in Hq.
Qed.

Lemma peer_events_app evs evs' l :
  peer_events (evs ++ evs') l = peer_events evs l ++ peer_events evs' (inlet_after evs l).
Proof.
  revert l. induction evs as [|ev evs IH]; intros l; [done|]. cbn. destruct (inlet_step ev l) as [l' e].
  by rewrite IH, app_assoc.
Qed.

Lemma intact_app evs evs' l : intact (evs ++ evs') l ↔ intact evs l ∧ intact evs' (inlet_after evs l).
Proof.
  revert l. induction evs as [|ev evs IH]; intros l; cbn; [naive_solver|]. rewrite IH. naive_solver.
Qed.

Lemma expects_quiet ms bss : Forall2 encodes ms bss → expects ms (concat bss) quiet_inlet.
Proof. intros Hms. repeat split; [cbn; lia|]. by exists bss. Qed.

(** C8. However the bytes of a control stream are cut into pieces, whenever
    they arrive, and however datagrams come in between: the loop of the handler
    receives the messages that were sent, in order and without a gap, and the
    datagrams in theirs, as long as no receive is dropped with bytes in it.
    Once everything has arrived, a poll for each delivers it all. *)
Theorem stream_delivers ms bss evs rest :
  Forall2 encodes ms bss → concat (stream_pieces evs) ++ rest = concat bss → open evs = true →
  intact evs quiet_inlet →
  (∃ ms1, ms1 `prefix_of` ms ∧ control_messages (peer_events evs quiet_inlet) = Some <$> ms1) ∧
  datagrams_seen (peer_events evs quiet_inlet) `prefix_of` (unpacked <$> stream_packets evs) ∧
  (rest = [] → ∀ polls, let all := evs ++ ((λ p, PollLoop p.1 p.2) <$> polls) in
     intact all quiet_inlet → (length ms + length (stream_packets evs) ≤ length polls)%nat →
     control_messages (peer_events all quiet_inlet) = Some <$> ms ∧
     datagrams_seen (peer_events all quiet_inlet) = unpacked <$> stream_packets evs).
Proof.
  intros Hms Hs Ho Hi. pose proof (expects_quiet ms bss Hms) as Hx. rewrite <-Hs in Hx.
  destruct (run_spec ms evs rest _ Hx Ho Hi) as (ms1 & ms2 & -> & Hc & Hx2 & Hq). cbn in Hq.
  split_and!; [exists ms1; by split; [apply prefix_app_r|]|by eexists; rewrite <-Hq|].
  intros -> polls all [_ Hi2]%intact_app Hlen. unfold all. rewrite peer_events_app.
  destruct (polls_drain ms2 polls _ Hx2 Hi2) as [Hc2 Hq2].
  { apply (f_equal length) in Hq. rewrite length_app, !length_fmap in Hq. rewrite length_app in Hlen. lia. }
  unfold control_messages, datagrams_seen in *. rewrite !omap_app, Hc, Hc2, Hq2.
  by rewrite fmap_app, Hq.
Qed.

(** ** Messages that arrive in one piece *)

Lemma expects_more ms ms' bss l :
  expects ms [] l → Forall2 encodes ms' bss → expects (ms ++ ms') (concat bss) l.
Proof.
  intros (He & Hl & Hf & bss0 & Hms & Hs) Hms'. repeat split; [done..|]. exists (bss0 ++ bss).
  split; [by apply Forall2_app|]. rewrite app_nil_r in Hs. by rewrite Hs, concat_app.
Qed.

Lemma expects_nothing l : expects [] [] l → held l.(receiving) = [].
Proof.
  intros (_ & _ & _ & bss & ->%Forall2_nil_inv_l & Hs). rewrite app_nil_r in Hs.
  by apply app_eq_nil in Hs as [? _].
Qed.

Lemma nothing_dropped ms l control_first now :
  expects ms [] l → held l.(receiving) = [] → dropped (PollLoop control_first now) l = [].
Proof.
  intros Hx Hh. unfold dropped. destruct control_first.
  - destruct (poll_control_step _ _ _ Hx) as
      [(m & ms' & l' & -> & -> & _)|(l' & -> & Hx' & _ & Hr)]; [done|].
    rewrite (Hr eq_refl) in Hx'. rewrite (expects_nothing _ Hx'). by destruct (poll_datagram l') as [? []].
  - rewrite Hh. by destruct (poll_datagram l) as [? []].
Qed.

Lemma whole_intact ms0 ms evs l :
  expects ms0 [] l → held l.(receiving) = [] → Forall2 encodes ms (stream_pieces evs) →
  open evs = true → intact evs l.
Proof.
  revert ms0 ms l. induction evs as [|ev evs IH]; intros ms0 ms l Hx Hh Hms Ho; [done|].
  assert ((∃ cf now, ev = PollLoop cf now) ∨ ∀ cf now, ev ≠ PollLoop cf now) as [(cf & now & ->)|Hev]
    by (destruct ev; naive_solver).
  - pose proof (nothing_dropped ms0 l cf now Hx Hh) as Hd. split; [done|].
    destruct (poll_loop_step _ _ l cf now Hx Hd) as (l' & e & Hs & Hf & Hcase). rewrite Hs. cbn [fst].
    destruct Hcase as [(m & ms' & -> & -> & Hx' & _)|[(p & _ & -> & Hx')|(-> & _ & _ & Hx' & Hr)]];
      (eapply IH; [exact Hx'| |exact Hms|exact Ho]).
    1,2: by rewrite Hf.
    rewrite (Hr eq_refl) in Hx'. by apply expects_nothing.
  - assert (∃ ms1 ms2, ms = ms1 ++ ms2 ∧ Forall2 encodes ms1 (stream_pieces [ev]) ∧
      Forall2 encodes ms2 (stream_pieces evs)) as (ms1 & ms2 & -> & H1 & H2).
    { destruct ev; [|by exists [], ms..]. apply Forall2_cons_inv_r in Hms as (m & ms2 & ? & ? & ->).
      exists [m], ms2. split; [done|]. split; [|done]. by apply Forall2_cons. }
    destruct (arrival_step (ms0 ++ ms1) ev [] [] l Hev) as (l' & Hs & Hx' & _ & Hr & _).
    { rewrite app_nil_r. by apply expects_more. }
    { apply andb_true_iff in Ho as [Ho _]. by apply andb_true_iff. }
    split; [destruct ev; [done..|by destruct (Hev control_first now)]|]. rewrite Hs. cbn [fst]. eapply IH; [exact Hx'|by rewrite Hr|done|].
    by apply andb_true_iff in Ho as [_ ?].
Qed.

(** No receive is dropped with bytes in it when every message arrives in one
    piece, whenever that is and whatever else arrives. *)
Theorem whole_messages_intact ms evs :
  Forall2 encodes ms (stream_pieces evs) → open evs = true → intact evs quiet_inlet.
Proof. intros Hms Ho. eapply whole_intact; [apply (expects_quiet [] []); constructor|done..]. Qed.

(** ** Against the sequential reading *)

Lemma read_exact_at n pre bs :
  read_exact n (mkCursor (pre ++ bs) (Z.of_nat (length pre))) =
    if decide (Z.to_nat n ≤ length bs)%nat then
      (mkCursor (pre ++ bs) (Z.of_nat (length (pre ++ take (Z.to_nat n) bs))), Ok (take (Z.to_nat n) bs))
    else (mkCursor (pre ++ bs) (Z.of_nat (length (pre ++ bs))), Err UnexpectedEof).
Proof.
  unfold read_exact. cbn [pos content]. rewrite !length_app. case_decide as Hn.
  { replace (Z.to_nat n) with 0%nat by lia. cbn. rewrite Nat.add_0_r. by rewrite decide_True by lia. }
  case_decide as Hl; [rewrite decide_True by lia|rewrite decide_False by lia].
  - rewrite Nat2Z.id, drop_app_length, length_take. do 2 f_equal. lia.
  - do 2 f_equal. lia.
Qed.

(** A receive that is polled on a finished stream is [read_control_message] on
    its bytes. *)
Theorem recv_alone pre bs :
  (poll_recv recv_future (mkRecv bs (Some UnexpectedEof))).2 =
    Ready (result read_control_message (mkCursor (pre ++ bs) (Z.of_nat (length pre)))).
Proof.
  assert (∀ lb pre bs s, s.(arrived) = bs → s.(recv_end) = Some UnexpectedEof →
    (poll_body lb [] s).2 = Ready (bytes ← map_err Read
      (result (read_exact (from_le_bytes lb)) (mkCursor (pre ++ bs) (Z.of_nat (length pre))));
      decode_message bytes)) as Hbody.
  { intros lb pre' bs' s Hs He. unfold poll_body. rewrite read_exact_at. case_decide as Hn.
    - rewrite read_full by (cbn; rewrite ?Hs; lia). cbn. by rewrite Hs.
    - pose proof (read_ends (from_le_bytes lb) [] s _ ltac:(cbn; rewrite Hs; lia) He) as Hr.
      destruct (poll_read_exact _ _ _) as [s' x]. cbn in Hr. by rewrite Hr. }
  unfold poll_recv, recv_future, read_control_message, zoom. unfold_prog. rewrite (read_exact_at 4).
  case_decide as Hn.
  - rewrite read_full by (cbn in *; lia). cbn [map_err].
    rewrite (Hbody _ (pre ++ take 4 bs) (drop 4 bs)); [|done..].
    rewrite <-app_assoc, take_drop. cbn [result snd].
    change (Z.to_nat 4) with 4%nat. cbn [app arrived].
    destruct (read_exact (from_le_bytes (take 4 bs)) _) as [c [bytes|e|]]; [|done..]. cbn [map_err].
    unfold decode_message, lift, throw. unfold_prog.
    cbn [snd map_err res_bind]. destruct (deserialize bytes) as [e|env]; [done|].
    cbn [bincode_result res_bind]. by destruct (validate_wire_version _ _).
  - pose proof (read_ends 4 [] (mkRecv bs (Some UnexpectedEof)) _ ltac:(cbn in *; lia) eq_refl) as Hr.
    destruct (poll_read_exact _ _ _) as [s' x]. cbn in Hr. by rewrite Hr.
Qed.
End runs.
