(* ===== verification/ServerSpec.v ===== *)
(** Sessions: what each call of the server does to them, and the invariants of
    every reachable server. *)

From S2P Require Import Prelude Float IndexMap Protocol Model Transform Runtime Media Codec.
From S2P Require Import Recording WebRtc Transport Server ServerRuntime ServerVideo.
From stdpp Require Import relations.

Local Open Scope Z_scope.

(** One call on the server handle or round of its loops. *)
Inductive server_op :=
  | SDiscovered (d : Uuid) (device_name : string)
  | STransport (d : Uuid)
  | SHello (h : ClientHello)
  | SAuthenticate (d : Uuid)
  | SRegister (session_id d : Uuid) (req : RegisterRequest)
  | SSceneSynced (d : Uuid)
  | SActivate (d : Uuid)
  | SClose (d : Uuid) (now : Z)
  | SLoadScene (s : Scene)
  | SSetActive (s : SceneId)
  | SSetMode (m : Mode) (now : Z)
  | SReset (s : option SceneId)
  | SCommitScene (s : option SceneId)
  | SCommitObject (s : option SceneId) (o : ObjectId)
  | SCreate (id : MappingId) (req : MappingRequest) (now : Z)
  | SUpdate (id : MappingId) (req : MappingRequest) (now : Z)
  | SRemove (id : MappingId) (now : Z)
  | SLock (id : MappingId) (b : bool) (now : Z)
  | SIngest (d : Uuid) (us : list AttributeUpdate) (t : Z)
  | SDatagram (dg : MotionDatagram)
  | SStartRecording (id : Uuid) (file : string) (now : Z)
  | SStopRecording (now : Z)
  | STick (now : Z)
  | SPublish
  | SDescriptor (d : VideoStreamDescriptor)
  | SPushSignal (m : SignalMessage)
  | SDrain (d : Uuid)
  | SOffer (d : Uuid) (stream_id track_id : string)
  | SSignal (d : Uuid) (p : SignalPayload).

Section spec.
Context {M : Type → Type} `{!IndexMap Uuid M} {fmt : UuidFormat} {crate : WebRtcCrate}
  {fs : FileSystem} {bm : Bincode RecordingManifest} {bk : Bincode (list RecordingMarker)}
  {bf : Bincode RecordedFrame} {texts : ErrorText}.
Implicit Types s : ServerState M.

Definition exec_server (op : server_op) s : ServerState M :=
  match op with
  | SDiscovered d n => exec (discovered d n) s
  | STransport d => exec (transport_connected d) s
  | SHello h => exec (hello_exchanged h) s
  | SAuthenticate d => exec (authenticate d) s
  | SRegister id d req => exec (register id d req) s
  | SSceneSynced d => exec (scene_synced d) s
  | SActivate d => exec (activate d) s
  | SClose d now => exec (close_session d now) s
  | SLoadScene sc => exec (ServerRuntime.load_scene sc) s
  | SSetActive sc => exec (ServerRuntime.set_active_scene sc) s
  | SSetMode m now => exec (ServerRuntime.set_mode m now) s
  | SReset sc => exec (ServerRuntime.reset_scene_to_baseline sc) s
  | SCommitScene sc => exec (ServerRuntime.commit_scene_baseline sc) s
  | SCommitObject sc o => exec (ServerRuntime.commit_object_baseline sc o) s
  | SCreate id req now => exec (ServerRuntime.create_mapping id req now) s
  | SUpdate id req now => exec (ServerRuntime.update_mapping id req now) s
  | SRemove id now => exec (ServerRuntime.remove_mapping id now) s
  | SLock id b now => exec (ServerRuntime.set_mapping_lock id b now) s
  | SIngest d us t => exec (ingest_motion_samples d us t) s
  | SDatagram dg => exec (ingest_motion_datagram dg) s
  | SStartRecording id file now => exec (start_recording id file now) s
  | SStopRecording now => exec (stop_recording now) s
  | STick now => exec (tick_round now) s
  | SPublish => exec publish_round s
  | SDescriptor d => exec (set_master_video_descriptor d) s
  | SPushSignal m => exec (push_signaling_message m) s
  | SDrain d => exec (drain_signaling_messages d) s
  | SOffer d a b => exec (create_video_offer d a b) s
  | SSignal d p => exec (handle_video_signal d p) s
  end.

(** ** The calls that move sessions *)

(** The session a call is about. *)
Definition session_op (op : server_op) : option Uuid :=
  match op with
  | SDiscovered d _ | STransport d | SAuthenticate d | SRegister _ d _ | SSceneSynced d
  | SActivate d | SClose d _ => Some d
  | SHello h => Some h.(ch_device_id)
  | _ => None
  end.

Lemma keeps_on_writer {C} (g : ServerState M → C) v f :
  (∀ r s, g (set_recording r s) = g s) → keeps g v (on_writer f).
Proof. intros Hg. apply keeps_modify. intros. apply Hg. Qed.

Lemma other_op_sessions op s : session_op op = None → sessions (exec_server op s) = sessions s.
Proof.
  intros Hop.
  assert (∀ {A} (m : prog (ServerState M) ServerError A),
    (∀ v, keeps sessions v m) → sessions (exec m s) = sessions s) as Hk.
  { intros A m Hm. by apply (Hm (sessions s)). }
  destruct op; try discriminate Hop; cbn [exec_server]; apply Hk; intros v;
    unfold ServerRuntime.load_scene, ServerRuntime.set_active_scene, ServerRuntime.set_mode,
      ServerRuntime.reset_scene_to_baseline, ServerRuntime.commit_scene_baseline,
      ServerRuntime.commit_object_baseline, ServerRuntime.create_mapping,
      ServerRuntime.update_mapping, ServerRuntime.remove_mapping, ServerRuntime.set_mapping_lock,
      ingest_motion_datagram, ingest_motion_samples, start_recording, stop_recording, tick_round,
      publish_round, set_master_video_descriptor, push_signaling_message, drain_signaling_messages,
      create_video_offer, handle_video_signal, ensure_video_peer, video_peer, ensure_track,
      on_runtime, on_writer, on_peer; keeps_walk.
Qed.

Lemma change_session_state_outcome d next s :
  change_session_state d next s =
    match s.(sessions) !! d with
    | None => (s, Err (ESessionNotFound d))
    | Some x =>
        if can_transition_to x.(s_state) next
        then (set_sessions (<[d := set_s_state next x]> s.(sessions)) s, Ok ())
        else (s, Err (EProtocol (InvalidTransition x.(s_state) next)))
    end.
Proof.
  unfold change_session_state. unfold_prog. destruct (sessions s !! d) as [x|]; simpl; [|done].
  by destruct (can_transition_to _ _).
Qed.
End spec.
