(* ===== verification/ServerSessions.v ===== *)
(** The life of a session on the server: the order of its states, and who is
    admitted under which name. *)

From S2P Require Import Prelude Float IndexMap Protocol Model Transform Runtime Media Codec.
From S2P Require Import Recording WebRtc Transport Server ServerRuntime ServerVideo ServerSpec.
From stdpp Require Import relations.

Local Open Scope Z_scope.

Section sessions.
Context {M : Type → Type} `{!IndexMap Uuid M} {fmt : UuidFormat} {crate : WebRtcCrate}
  {fs : FileSystem} {bm : Bincode RecordingManifest} {bk : Bincode (list RecordingMarker)}
  {bf : Bincode RecordedFrame} {texts : ErrorText}.
Implicit Types s : ServerState M.

(** The state a plain call moves its session to. *)
Definition op_next (op : server_op) : option SessionState :=
  match op with
  | STransport _ => Some TransportConnected
  | SAuthenticate _ => Some Authenticated
  | SSceneSynced _ => Some SceneSynced
  | SActivate _ => Some Active
  | SClose _ _ => Some Closed
  | _ => None
  end.

(** What a registration request has to pass before it changes a session. *)
Definition admissible s (d : Uuid) (req : RegisterRequest) (x : SessionInfo) : Prop :=
  ensure_auth s req = Ok () ∧
  enforce_unique_device_name s d x.(s_device_name) = Ok () ∧
  negotiated s.(config).(supported_features) x.(s_features) ≠ [].

(** What a call can make of the session it is about. *)
Inductive moves s : server_op → option SessionInfo → SessionInfo → Prop :=
  | moves_discovered d n old : moves s (SDiscovered d n) old (mkSession d n None [] [] [] Discovered)
  | moves_next op x st :
      op_next op = Some st → can_transition_to x.(s_state) st = true →
      moves s op (Some x) (set_s_state st x)
  | moves_hello h x : moves s (SHello h) (Some x) (set_s_hello h x)
  | moves_hello_next h x :
      can_transition_to x.(s_state) HelloExchanged = true →
      moves s (SHello h) (Some x) (set_s_state HelloExchanged (set_s_hello h x))
  | moves_register id d req x :
      admissible s d req x → moves s (SRegister id d req) (Some x) (set_s_session_id id x)
  | moves_register_next id d req x :
      admissible s d req x → can_transition_to x.(s_state) Registered = true →
      moves s (SRegister id d req) (Some x) (set_s_state Registered (set_s_session_id id x)).

(** The effect of [change_session_state] on the sessions. *)
Lemma change_sessions d next s :
  sessions (exec (change_session_state d next) s) = sessions s ∨
  ∃ x, sessions s !! d = Some x ∧ can_transition_to x.(s_state) next = true ∧
    sessions (exec (change_session_state d next) s) = <[d := set_s_state next x]> (sessions s).
Proof.
  rewrite change_session_state_outcome. destruct (sessions s !! d) as [x|]; [|by left].
  destruct (can_transition_to _ _) eqn:E; [|by left]. right. by exists x.
Qed.

(** A call changes at most the session it is about, in one of these ways. *)
Lemma hello_moves h s :
  let s' := exec (hello_exchanged h) s in
  sessions s' = sessions s ∨
  ∃ y, sessions s' = <[h.(ch_device_id) := y]> (sessions s) ∧
    moves s (SHello h) (sessions s !! h.(ch_device_id)) y.
Proof.
  cbn zeta. unfold hello_exchanged. unfold_prog.
  destruct (map_err _ _); [|by left..]. destruct (bool_decide _); [by left|].
  destruct (bool_decide _); [by left|]. destruct (_ && _); [by left|].
  destruct (sessions s !! ch_device_id h) as [x|] eqn:Ex; cbn [ok_or]; [|by left].
  unfold mret, prog_ret. cbv beta iota.
  destruct (change_sessions (ch_device_id h) HelloExchanged
    (set_sessions (<[ch_device_id h:=set_s_hello h x]> (sessions s)) s)) as [->|(x' & Hx' & Ht & ->)].
  - right. eexists. split; [reflexivity|constructor].
  - cbn in Hx'. rewrite lookup_insert_eq in Hx'. injection Hx' as <-. right. eexists.
    cbn [sessions set_sessions]. rewrite insert_insert_eq. split; [reflexivity|by constructor].
Qed.

Lemma register_moves id d req s :
  let s' := exec (register id d req) s in
  sessions s' = sessions s ∨
  ∃ y, sessions s' = <[d := y]> (sessions s) ∧ moves s (SRegister id d req) (sessions s !! d) y.
Proof.
  cbn zeta. unfold register. unfold_prog. unfold reject.
  destruct (ensure_auth s req) as [[]| |] eqn:Ea; [|by left..].
  destruct (sessions s !! d) as [x|] eqn:Ex; cbn [ok_or]; [|by left].
  destruct (enforce_unique_device_name s d _) as [[]| |] eqn:En; [|by left..].
  destruct (decide _) as [|Hf]; [by left|].
  assert (admissible s d req x) as Had by done.
  set (s1 := set_sessions _ s). pose proof (change_sessions d Registered s1) as Hc.
  assert (sessions s1 !! d = Some (set_s_session_id id x)) as Hs1 by apply lookup_insert_eq.
  right. destruct (change_session_state d Registered s1) as [s2 r] eqn:E. simpl in Hc.
  assert (∃ y, sessions s2 = <[d:=y]> (sessions s) ∧ moves s (SRegister id d req) (Some x) y) as Hy.
  { destruct Hc as [->|(x' & Hx' & Ht & ->)].
    - eexists. split; [reflexivity|by constructor].
    - assert (Some x' = Some (set_s_session_id id x)) as [= ->] by (etransitivity; [symmetry; exact Hx'|exact Hs1]).
      eexists. unfold s1. cbn [sessions set_sessions]. rewrite insert_insert_eq. split; [reflexivity|by constructor]. }
  by destruct r.
Qed.

Lemma session_effect op d s :
  session_op op = Some d →
  sessions (exec_server op s) = sessions s ∨
  ∃ y, sessions (exec_server op s) = <[d := y]> (sessions s) ∧ moves s op (sessions s !! d) y.
Proof.
  assert (∀ op st s1, op_next op = Some st → sessions s1 = sessions s →
    sessions (exec (change_session_state d st) s1) = sessions s ∨
    ∃ y, sessions (exec (change_session_state d st) s1) = <[d := y]> (sessions s) ∧
      moves s op (sessions s !! d) y) as Hnext.
  { intros op' st s1 Hop Hs. destruct (change_sessions d st s1) as [->|(x & Hx & Ht & ->)]; [by left|].
    right. eexists. rewrite Hs in *. split; [reflexivity|]. rewrite Hx. by constructor. }
  intros Hop. destruct op; cbn [session_op] in Hop; simplify_eq; cbn [exec_server].
  - unfold discovered. unfold_prog. destruct (decide _).
    + destruct (enforce_capacity s); simpl; [|by left..]. right. eexists. split; [done|constructor].
    + right. eexists. split; [done|constructor].
  - by apply Hnext.
  - apply hello_moves.
  - by apply Hnext.
  - apply register_moves.
  - by apply Hnext.
  - unfold activate, on_runtime. unfold_prog. cbn.
    apply (Hnext (SActivate d) Active (set_runtime _ s)); done.
  - unfold close_session, on_runtime. unfold_prog. cbn.
    apply (Hnext (SClose d now) Closed (set_video_peers _ (set_runtime _ s))); done.
Qed.

(** ** The order of the states *)

Definition state_of s (d : Uuid) : option SessionState := s_state <$> sessions s !! d.

Lemma state_step op d s st :
  (∀ n, op ≠ SDiscovered d n) → state_of s d = Some st →
  ∃ st', state_of (exec_server op s) d = Some st' ∧ (st' = st ∨ can_transition_to st st' = true).
Proof.
  unfold state_of. intros Hop Hst. destruct (session_op op) as [d'|] eqn:Hd.
  2: { rewrite other_op_sessions by done. eauto. }
  destruct (session_effect op d' s Hd) as [->|(y & -> & Hm)]; [by eauto|].
  destruct (decide (d = d')) as [<-|Hne]; [|rewrite lookup_insert_ne by done; by eauto].
  rewrite lookup_insert_eq. destruct (sessions s !! d) as [x|]; simpl in Hst; [|done].
  injection Hst as <-. exists (s_state y). split; [done|].
  inversion Hm; subst; simpl in *; simplify_eq; auto; naive_solver.
Qed.

(** The states the session of [d] goes through while [ops] are executed. *)
Fixpoint changes (d : Uuid) s (ops : list server_op) : list SessionState :=
  match ops with
  | [] => []
  | op :: ops =>
      let s' := exec_server op s in
      match state_of s' d with
      | Some st => if decide (state_of s d = Some st) then changes d s' ops else st :: changes d s' ops
      | None => changes d s' ops
      end
  end.

Definition run_server (ops : list server_op) s : ServerState M :=
  foldl (λ s op, exec_server op s) s ops.

Lemma changes_path d ops : ∀ s st,
  (∀ n, SDiscovered d n ∉ ops) → state_of s d = Some st →
  ∃ st', state_of (run_server ops s) d = Some st' ∧ session_path st (changes d s ops) st'.
Proof.
  induction ops as [|op ops IH]; intros s st Hops Hst; simpl.
  { exists st. split; [done|constructor]. }
  destruct (state_step op d s st) as (st1 & Hst1 & Hor); [set_solver|done|].
  destruct (IH (exec_server op s) st1) as (st' & Hr & Hp); [set_solver|done|].
  exists st'. split; [done|]. rewrite Hst1, Hst. case_decide as Heq.
  - by injection Heq as <-.
  - destruct Hor as [->|Ht]; [done|]. by econstructor.
Qed.

(** C9. However the calls of all clients interleave, a session that was
    discovered and later is active went through transport, hello,
    authentication, registration and scene sync, each exactly once and in
    this order, since its discovery. *)
Theorem active_after_full_handshake d s ops :
  state_of s d = Some Discovered → (∀ n, SDiscovered d n ∉ ops) →
  state_of (run_server ops s) d = Some Active →
  changes d s ops = handshake_stages.
Proof.
  intros Hs Hops Ha. destruct (changes_path d ops s Discovered Hops Hs) as (st & Hst & Hp).
  rewrite Ha in Hst. injection Hst as <-. by apply session_active_only_by_handshake.
Qed.

(** ** Names *)

(** The session has passed registration. *)
Definition in_service (x : SessionInfo) : bool :=
  bool_decide (x.(s_state) ∈ [Registered; SceneSynced; Active]).

(** The session claims its name against others. *)
Definition claims_name (x : SessionInfo) : Prop := x.(s_state) ≠ Closed ∧ is_Some x.(s_session_id).

Record sessions_wf s : Prop := {
  swf_id d x : sessions s !! d = Some x → x.(s_device_id) = d;
  swf_trim d x : sessions s !! d = Some x → trim x.(s_device_name) = x.(s_device_name);
  swf_registered d x : sessions s !! d = Some x → in_service x = true → claims_name x;
  swf_names d d' x x' : sessions s !! d = Some x → sessions s !! d' = Some x' →
    claims_name x → claims_name x' → x.(s_device_name) = x'.(s_device_name) → d = d';
}.

(** Clients announce names without white space around them. *)
Definition server_op_ok (op : server_op) : Prop :=
  match op with SDiscovered _ n => trim n = n | _ => True end.

Definition server_step s s' : Prop := ∃ op, server_op_ok op ∧ s' = exec_server op s.

(** A registration that passed the name check is the only one of that name. *)
Lemma unique_name_ok s d name :
  enforce_unique_device_name s d name = Ok () → trim name = name →
  ∀ d' x', sessions s !! d' = Some x' → x'.(s_device_id) = d' → d' ≠ d → claims_name x' →
  x'.(s_device_name) ≠ name.
Proof.
  unfold enforce_unique_device_name. intros Hok Htrim d' x' Hx' Hid Hne [Hst Hsid] Hn.
  rewrite Htrim in Hok. destruct (is_empty name); [done|].
  destruct (existsb _ _) eqn:Ee; [done|]. apply not_true_iff_false in Ee. apply Ee.
  apply existsb_exists. exists x'. split.
  - apply list_elem_of_In, list_elem_of_fmap. exists (d', x'). split; [done|].
    by apply elem_of_map_to_list.
  - unfold name_conflict. rewrite Hid. by repeat rewrite bool_decide_eq_true_2 by done.
Qed.

(** A session that replaces one of the same name and claims nothing new. *)
Lemma sessions_wf_replace s s' d x y :
  sessions_wf s → sessions s' = <[d := y]> (sessions s) → sessions s !! d = Some x →
  y.(s_device_id) = x.(s_device_id) → y.(s_device_name) = x.(s_device_name) →
  (in_service y = true → claims_name y) →
  (claims_name y → claims_name x ∨ ∀ d' x', sessions s !! d' = Some x' → d' ≠ d →
     claims_name x' → x'.(s_device_name) ≠ x.(s_device_name)) →
  sessions_wf s'.
Proof.
  intros [Hid Htr Hreg Hnm] Hs' Hx Hyid Hyn Hyr Hcl. split; rewrite Hs'.
  - intros d1 x1 [[<- <-]|[? ?]]%lookup_insert_Some; [|by apply Hid]. rewrite Hyid. by apply Hid.
  - intros d1 x1 [[<- <-]|[? ?]]%lookup_insert_Some; [|by eapply Htr]. rewrite Hyn. by eapply Htr.
  - intros d1 x1 [[<- <-]|[? ?]]%lookup_insert_Some; [done|by eapply Hreg].
  - intros d1 d2 x1 x2 [[<- <-]|[Hn1 H1]]%lookup_insert_Some [[<- <-]|[Hn2 H2]]%lookup_insert_Some
      Hc1 Hc2 Hn; [done| | |by eapply Hnm].
    + destruct (Hcl Hc1) as [Hcx|Ho]; [eapply (Hnm d d2 x x2); eauto; congruence|].
      destruct (Ho d2 x2); congruence.
    + destruct (Hcl Hc2) as [Hcx|Ho]; [eapply (Hnm d1 d x1 x); eauto; congruence|].
      destruct (Ho d1 x1); congruence.
Qed.

Lemma in_service_next x st :
  can_transition_to x.(s_state) st = true → st ≠ Registered → st ∈ [SceneSynced; Active] →
  in_service x = true.
Proof.
  unfold in_service. intros Ht Hr Hst. apply bool_decide_eq_true_2.
  destruct (s_state x), st; simpl in Ht; try discriminate Ht; set_solver.
Qed.

Lemma sessions_wf_step op s :
  server_op_ok op → sessions_wf s → sessions_wf (exec_server op s).
Proof.
  intros Hop Hwf. destruct (session_op op) as [d|] eqn:Hd.
  2: { destruct Hwf. split; rewrite other_op_sessions by done; done. }
  destruct (session_effect op d s Hd) as [He|(y & He & Hm)].
  { destruct Hwf. split; rewrite He; done. }
  inversion Hm as [d0 n old|op0 x st Hnx Ht|h x|h x Ht|id d0 req x Had|id d0 req x Had Ht];
    simplify_eq/=;
    try match goal with H : Some _ = sessions s !! _ |- _ => symmetry in H; rename H into Hold end.
  - destruct Hwf as [Hid Htr Hreg Hnm]. split; rewrite He.
    + intros d1 x1 [[<- <-]|[? ?]]%lookup_insert_Some; [done|by apply Hid].
    + intros d1 x1 [[<- <-]|[? ?]]%lookup_insert_Some; [done|by eapply Htr].
    + intros d1 x1 [[<- <-]|[? ?]]%lookup_insert_Some; [done|by eapply Hreg].
    + intros d1 d2 x1 x2 [[<- <-]|[Hn1 H1]]%lookup_insert_Some [[<- <-]|[Hn2 H2]]%lookup_insert_Some
        [Hc1 [? Hi1]] [Hc2 [? Hi2]] Hn; try done. by eapply Hnm.
  - eapply sessions_wf_replace; eauto; simpl.
    + intros Hs. split; simpl.
      * intros ->. by destruct op.
      * apply (swf_registered _ Hwf d x Hold). unfold in_service in Hs.
        apply bool_decide_eq_true_1 in Hs. simpl in Hs.
        eapply in_service_next; [done|by destruct op; simplify_eq/=|].
        destruct op; simplify_eq/=; set_solver.
    + intros [Hc Hi]. left. split; [|done]. simpl in *. intros Hcl. rewrite Hcl in Ht.
      by rewrite closed_no_transition in Ht.
  - eapply sessions_wf_replace; eauto; simpl.
    intros Hs. apply (swf_registered _ Hwf _ x Hold Hs).
  - eapply sessions_wf_replace; eauto; simpl; [done|].
    intros [Hc Hi]. left. split; [|done]. intros Hcl. by rewrite Hcl in Ht.
  - destruct Had as (_ & Hn & _).
    eapply sessions_wf_replace; eauto; simpl.
    + intros Hs. split; simpl; [|by eexists]. intros Hcl. unfold in_service in Hs. simpl in Hs.
      apply bool_decide_eq_true_1 in Hs. rewrite Hcl in Hs. set_solver.
    + intros _. right. intros d' x' Hx' Hne Hc. eapply unique_name_ok; eauto.
      * by eapply (swf_trim _ Hwf).
      * by eapply (swf_id _ Hwf).
  - destruct Had as (_ & Hn & _).
    eapply sessions_wf_replace; eauto; simpl.
    + intros Hs. split; simpl; [done|by eexists].
    + intros _. right. intros d' x' Hx' Hne Hc. eapply unique_name_ok; eauto.
      * by eapply (swf_trim _ Hwf).
      * by eapply (swf_id _ Hwf).
Qed.

(** On every reachable server whose clients announce trimmed names, no
    two sessions that passed registration and are not closed have the same
    device name, whatever clients come, go and reconnect. *)
Theorem registered_names_unique cfg w dk s d d' x x' :
  rtc server_step (ServerHandle_new cfg w dk) s →
  sessions s !! d = Some x → sessions s !! d' = Some x' →
  in_service x = true → in_service x' = true → x.(s_device_name) = x'.(s_device_name) → d = d'.
Proof.
  intros Hs Hx Hx' Hi Hi' Hn.
  assert (sessions_wf s) as Hwf.
  { revert Hs. apply (rtc_ind_r sessions_wf).
    - split; intros *; simpl; by rewrite lookup_empty.
    - intros s1 s2 _ (op & Hop & ->) IH. by apply sessions_wf_step. }
  eapply (swf_names _ Hwf); eauto; by eapply (swf_registered _ Hwf).
Qed.

(** ** Capacity *)

Lemma count_insert s d y :
  (session_count (set_sessions (<[d := y]> (sessions s)) s) ≤
     match sessions s !! d with
     | Some x => if decide (x.(s_state) = Closed ∧ y.(s_state) ≠ Closed) then S (session_count s)
                 else session_count s
     | None => S (session_count s)
     end)%nat.
Proof.
  unfold session_count. cbn [sessions set_sessions].
  assert (size (filter is_open (delete d (sessions s))) ≤ size (filter is_open (sessions s)))%nat as Hdel.
  { rewrite map_filter_delete. apply map_subseteq_size, delete_subseteq. }
  destruct (decide (s_state y = Closed)) as [Hy|Hy].
  - rewrite map_filter_insert_False by (unfold is_open; simpl; tauto).
    destruct (sessions s !! d) as [x|]; [rewrite decide_False by tauto; exact Hdel|].
    apply le_S, Hdel.
  - rewrite map_filter_insert_True by done.
    destruct (sessions s !! d) as [x|] eqn:Ex.
    + destruct (decide (s_state x = Closed)) as [Hx|Hx].
      * rewrite decide_True by done. rewrite map_size_insert. case_match; [by apply le_S|done].
      * rewrite decide_False by tauto. rewrite map_size_insert.
        assert (filter is_open (sessions s) !! d = Some x) as -> by by apply map_lookup_filter_Some. done.
    + rewrite map_size_insert. case_match; [by apply le_S|done].
Qed.

Lemma exec_config op s : config (exec_server op s) = config s.
Proof.
  assert (∀ {A} (m : prog (ServerState M) ServerError A),
    (∀ v, keeps config v m) → config (exec m s) = config s) as Hk.
  { intros A m Hm. by apply (Hm (config s)). }
  destruct op; cbn [exec_server]; apply Hk; intros v;
    unfold discovered, transport_connected, hello_exchanged, authenticate, register, scene_synced,
      activate, close_session, change_session_state, reject,
      ServerRuntime.load_scene, ServerRuntime.set_active_scene, ServerRuntime.set_mode,
      ServerRuntime.reset_scene_to_baseline, ServerRuntime.commit_scene_baseline,
      ServerRuntime.commit_object_baseline, ServerRuntime.create_mapping,
      ServerRuntime.update_mapping, ServerRuntime.remove_mapping, ServerRuntime.set_mapping_lock,
      ingest_motion_datagram, ingest_motion_samples, start_recording, stop_recording, tick_round,
      publish_round, set_master_video_descriptor, push_signaling_message, drain_signaling_messages,
      create_video_offer, handle_video_signal, ensure_video_peer, video_peer, ensure_track,
      on_runtime, on_writer, on_peer; keeps_walk.
Qed.

Lemma count_sessions s s' : sessions s' = sessions s → session_count s' = session_count s.
Proof. unfold session_count. by intros ->. Qed.

(** C37. The number of sessions that are not closed never exceeds the
    configured maximum, as long as no client whose session was closed is
    discovered again. *)
Theorem capacity_respected op s :
  (session_count s ≤ s.(config).(max_sessions))%nat →
  (∀ d n, op = SDiscovered d n → state_of s d ≠ Some Closed) →
  (session_count (exec_server op s) ≤ (exec_server op s).(config).(max_sessions))%nat.
Proof.
  intros Hc Hre. rewrite exec_config. destruct (session_op op) as [d|] eqn:Hd.
  2: { by rewrite (count_sessions s) by by apply other_op_sessions. }
  destruct (session_effect op d s Hd) as [He|(y & He & Hm)].
  { by rewrite (count_sessions s) by done. }
  rewrite (count_sessions (set_sessions (<[d := y]> (sessions s)) s)) by done.
  etransitivity; [apply count_insert|]. destruct (sessions s !! d) as [x|] eqn:Ex.
  - destruct (decide _) as [[Hx Hy]|]; [|done]. exfalso.
    assert (state_of s d = Some Closed) as Hst by (unfold state_of; rewrite Ex; simpl; congruence).
    inversion Hm; subst; simpl in *; simplify_eq; try congruence;
      try (by rewrite Hx, closed_no_transition in *).
    by eapply Hre.
  - inversion Hm; subst. simpl in Hd. injection Hd as ->. revert He. cbn [exec_server].
    unfold discovered. unfold_prog. rewrite decide_True by done. unfold lift, enforce_capacity.
    destruct (decide _) as [Hfull|Hfull]; cbn; [|intros _; by apply Nat.nle_gt].
    intros He. apply (f_equal (lookup d)) in He. rewrite lookup_insert_eq in He. congruence.
Qed.

(** ** Registration *)

(** The counters of a registration. *)
Definition registration_counters (m : ServerMetrics) : Z * Z :=
  (m.(accepted_sessions), m.(rejected_sessions)).

(** Registration succeeds exactly for an authenticated session that
    presents what the security mode asks for, whose name is not empty and not
    in use, and that shares a feature with the server; it is then registered
    under the drawn identifier with the common features in the client's
    order, and counted as accepted. Every rejection leaves all sessions as
    they were and is counted as rejected. *)
Theorem register_spec id d req s :
  let s' := exec (register id d req) s in
  let r := result (register id d req) s in
  (is_ok r = true ↔ ∃ x, sessions s !! d = Some x ∧ x.(s_state) = Authenticated ∧ admissible s d req x) ∧
  (∀ acc, r = Ok acc → ∃ x, sessions s !! d = Some x ∧
     acc = mkRegisterAccepted id (negotiated s.(config).(supported_features) x.(s_features)) ∧
     sessions s' = <[d := set_s_state Registered (set_s_session_id id x)]> (sessions s) ∧
     metrics s' = add_accepted (metrics s)) ∧
  (∀ rej, r = Err (ERegisterRejected rej) → s' = set_metrics (add_rejected (metrics s)) s) ∧
  r ≠ Panicked.
Proof.
  cbn zeta. unfold register, admissible. unfold_prog. unfold reject.
  assert (ensure_auth s req ≠ Panicked) as Hna by (unfold ensure_auth; by repeat case_match).
  destruct (ensure_auth s req) as [[]|c|] eqn:Ea; [| |done].
  2: { cbn. split_and!; try done. split; [done|]. by intros (x & _ & _ & ? & _). }
  destruct (sessions s !! d) as [x|] eqn:Ex; cbn [ok_or].
  2: { cbn. split_and!; try done. split; [done|]. by intros (? & ? & _). }
  assert (enforce_unique_device_name s d (s_device_name x) ≠ Panicked) as Hnn
    by (unfold enforce_unique_device_name; by repeat case_match).
  destruct (enforce_unique_device_name s d _) as [[]|e|] eqn:En; [| |done].
  2: { cbn. split_and!; try done.
       split; [done|]. intros (? & [= <-] & _ & _ & ? & _). congruence. }
  destruct (decide _) as [Hf|Hf].
  { cbn. split_and!; try done. split; [done|]. by intros (? & [= <-] & _ & _ & _ & ?). }
  set (s1 := set_sessions _ s). assert (sessions s1 !! d = Some (set_s_session_id id x)) as Hs1
    by apply lookup_insert_eq.
  rewrite (change_session_state_outcome d Registered s1), Hs1. cbn [s_state set_s_session_id].
  destruct (can_transition_to (s_state x) Registered) eqn:Et.
  - cbn. split_and!; try done.
    + split; [|done]. intros _. exists x. split_and!; try done. by destruct (s_state x).
    + intros acc [= <-]. exists x. split_and!; try done. by rewrite insert_insert_eq.
  - cbn. split_and!; try done. split; [done|]. intros (? & [= <-] & Hst & _). by rewrite Hst in Et.
Qed.
End sessions.
