(* ===== verification/ServerPeer.v ===== *)
(** A connection: when the handshake admits a client and what it leaves
    behind. *)

From S2P Require Import Prelude Float IndexMap Protocol Model Transform Runtime Media Codec.
From S2P Require Import Recording WebRtc Transport Server ServerRuntime ServerVideo ServerLoop.
From S2P Require Import ServerSpec ServerSessions.
From stdpp Require Import relations.

Local Open Scope Z_scope.

Section peer.
Context {M : Type → Type} `{!IndexMap Uuid M} {fmt : UuidFormat} {crate : WebRtcCrate}
  {fs : FileSystem} {bm : Bincode RecordingManifest} {bk : Bincode (list RecordingMarker)}
  {bf : Bincode RecordedFrame} {texts : ErrorText}.
Implicit Types s : ServerState M.
Implicit Types c : Conn M.

(** ** What the server asks of a client *)

(** The request carries the secrets of the security mode. *)
Definition authorized (cfg : ServerConfig) (req : RegisterRequest) : Prop :=
  let token := Some (default "motionstage" cfg.(pairing_token)) in
  let key := Some (default "motionstage" cfg.(Server.api_key)) in
  match cfg.(security_mode) with
  | TrustedLan => True
  | PairingRequired => req.(rr_pairing_token) = token
  | ApiKey => req.(rr_api_key) = key
  | ApiKeyPlusPairing => req.(rr_pairing_token) = token ∧ req.(rr_api_key) = key
  end.

(** The hello is one the server answers. *)
Definition greetable s (hello : ClientHello) : Prop :=
  (s.(sessions) !! hello.(ch_device_id) = None → session_count s < s.(config).(max_sessions))%nat ∧
  hello.(ch_protocol_major) = PROTOCOL_MAJOR ∧ hello.(ch_protocol_minor) ≤ PROTOCOL_MINOR ∧
  hello.(ch_features) ≠ [] ∧ hello.(ch_roles) ≠ [] ∧
  (MotionSource ∈ hello.(ch_roles) → hello.(ch_advertised_attributes) ≠ []).

(** No other client in service claims the trimmed name. *)
Definition name_free s (d : Uuid) (n : string) : Prop :=
  trim n ≠ "" ∧
  ∀ d' x, s.(sessions) !! d' = Some x → d' ≠ d → claims_name x → x.(s_device_name) ≠ trim n.

Definition acceptable s (hello : ClientHello) (req : RegisterRequest) : Prop :=
  greetable s hello ∧ authorized s.(config) req ∧
  name_free s hello.(ch_device_id) hello.(ch_device_name) ∧
  ∃ f, f ∈ hello.(ch_features) ∧ f ∈ s.(config).(supported_features).

(** Sessions are filed under their own device. *)
Definition keyed s : Prop := ∀ d x, s.(sessions) !! d = Some x → x.(s_device_id) = d.

(** The session of a greeted client in state [st]. *)
Definition client_session (hello : ClientHello) (id : option Uuid) (st : SessionState) : SessionInfo :=
  mkSession hello.(ch_device_id) hello.(ch_device_name) id hello.(ch_roles) hello.(ch_features)
    hello.(ch_advertised_attributes) st.

Lemma ensure_auth_authorized s req : ensure_auth s req = Ok () ↔ authorized s.(config) req.
Proof.
  unfold ensure_auth, authorized.
  destruct (security_mode _), (rr_pairing_token req), (rr_api_key req);
    simpl; repeat case_decide; naive_solver.
Qed.

Lemma name_check_free s d n :
  keyed s → enforce_unique_device_name s d n = Ok () ↔ name_free s d n.
Proof.
  intros Hk. unfold enforce_unique_device_name, name_free.
  destruct (is_empty (trim n)) eqn:He.
  { split; [done|]. intros [Hn _]. destruct (trim n); done. }
  assert (trim n ≠ "") as Hne by (by intros Ht; rewrite Ht in He).
  destruct (existsb _ _) eqn:Ee; split; try done.
  - apply existsb_exists in Ee as (x & Hx & Hc). intros [_ Hfree]. exfalso.
    apply list_elem_of_In, list_elem_of_fmap in Hx as ([d' x'] & -> & Hx%elem_of_map_to_list).
    unfold name_conflict in Hc. simpl in Hc. rewrite (Hk d' x' Hx) in Hc.
    repeat apply andb_prop in Hc as [Hc ?]. repeat match goal with H : bool_decide _ = true |- _ => apply bool_decide_eq_true in H end.
    by eapply (Hfree d' x').
  - intros _. split; [done|]. intros d' x Hx Hd [Hst Hid] Hn. apply not_true_iff_false in Ee. apply Ee.
    apply existsb_exists. exists x. split.
    + apply list_elem_of_In, list_elem_of_fmap. exists (d', x). split; [done|]. by apply elem_of_map_to_list.
    + unfold name_conflict. rewrite (Hk d' x Hx). by repeat rewrite bool_decide_eq_true_2 by done.
Qed.

Lemma negotiated_nonempty supported features :
  negotiated supported features ≠ [] ↔ ∃ f, f ∈ features ∧ f ∈ supported.
Proof.
  unfold negotiated. split.
  - intros Hn. destruct (filter _ features) as [|f l] eqn:E; [done|]. exists f.
    assert (f ∈ filter (λ f, f ∈ supported) features) as Hf by (rewrite E; left).
    apply list_elem_of_filter in Hf. tauto.
  - intros (f & Hf & Hs) Hn.
    assert (f ∈ filter (λ f, f ∈ supported) features) as Hin by by apply list_elem_of_filter.
    rewrite Hn in Hin. by apply not_elem_of_nil in Hin.
Qed.

(** ** The calls of the handshake *)

(** A session step that the state machine admits. *)
Lemma change_ok d x next s :
  s.(sessions) !! d = Some x → can_transition_to x.(s_state) next = true →
  change_session_state d next s
    = (set_sessions (<[d := set_s_state next x]> s.(sessions)) s, Ok ()).
Proof. intros Hx Ht. by rewrite change_session_state_outcome, Hx, Ht. Qed.

(** The calls up to the authentication, in one. *)
Definition greet (hello : ClientHello) : prog (ServerState M) ServerError () :=
  discovered hello.(ch_device_id) hello.(ch_device_name);;
  transport_connected hello.(ch_device_id);;
  hello_exchanged hello;;
  authenticate hello.(ch_device_id).

Lemma set_sessions_twice ss ss' s : set_sessions ss (set_sessions ss' s) = set_sessions ss s.
Proof. done. Qed.

Lemma hello_outcome hello x s :
  s.(sessions) !! hello.(ch_device_id) = Some x → x.(s_state) = TransportConnected →
  (hello.(ch_protocol_major) = PROTOCOL_MAJOR ∧ hello.(ch_protocol_minor) ≤ PROTOCOL_MINOR ∧
   hello.(ch_features) ≠ [] ∧ hello.(ch_roles) ≠ [] ∧
   (MotionSource ∈ hello.(ch_roles) → hello.(ch_advertised_attributes) ≠ []) ∧
   hello_exchanged hello s = (set_sessions (<[hello.(ch_device_id) :=
     set_s_state HelloExchanged (set_s_hello hello x)]> s.(sessions)) s, Ok ())) ∨
  (¬ (hello.(ch_protocol_major) = PROTOCOL_MAJOR ∧ hello.(ch_protocol_minor) ≤ PROTOCOL_MINOR ∧
   hello.(ch_features) ≠ [] ∧ hello.(ch_roles) ≠ [] ∧
   (MotionSource ∈ hello.(ch_roles) → hello.(ch_advertised_attributes) ≠ [])) ∧
   ∃ e, hello_exchanged hello s = (s, Err e)).
Proof.
  intros Hx Hst. unfold hello_exchanged. unfold_prog. rewrite negotiate_version_outcome. cbn [major minor].
  destruct (decide (PROTOCOL_MAJOR = _)) as [Hma|]; [|right; split; [naive_solver|eauto]].
  destruct (decide (_ ≤ PROTOCOL_MINOR)) as [Hmi|]; [|right; split; [naive_solver|eauto]].
  cbn [map_err]. unfold mret, prog_ret. cbv beta iota.
  destruct (bool_decide (ch_features hello = [])) eqn:Hf.
  { apply bool_decide_eq_true in Hf. right. split; [naive_solver|eauto]. }
  destruct (bool_decide (ch_roles hello = [])) eqn:Hr.
  { apply bool_decide_eq_true in Hr. right. split; [naive_solver|eauto]. }
  apply bool_decide_eq_false in Hf, Hr.
  destruct (bool_decide _ && bool_decide _) eqn:Ha.
  { apply andb_prop in Ha as [H1%bool_decide_eq_true H2%bool_decide_eq_true].
    right. split; [naive_solver|eauto]. }
  left. split_and!; try done.
  { intros Hm Ha'. by rewrite !bool_decide_eq_true_2 in Ha. }
  rewrite Hx. cbn [ok_or]. rewrite (change_ok _ (set_s_hello hello x)).
  - cbn [sessions set_sessions]. by rewrite insert_insert_eq.
  - apply lookup_insert_eq.
  - cbn. by rewrite Hst.
Qed.

Lemma greet_outcome hello s :
  (greetable s hello ∧ greet hello s = (set_sessions
     (<[hello.(ch_device_id) := client_session hello None Authenticated]> s.(sessions)) s, Ok ())) ∨
  (¬ greetable s hello ∧ ∃ s' e, greet hello s = (s', Err e)).
Proof.
  unfold greet, greetable, transport_connected, authenticate. set (d := ch_device_id hello).
  set (x0 := mkSession d (ch_device_name hello) None [] [] [] Discovered).
  assert ((s.(sessions) !! d = None → session_count s < max_sessions s.(config))%nat ∧
     discovered d (ch_device_name hello) s = (set_sessions (<[d := x0]> s.(sessions)) s, Ok ()) ∨
     ¬ (s.(sessions) !! d = None → session_count s < max_sessions s.(config))%nat ∧
     ∃ e, discovered d (ch_device_name hello) s = (s, Err e)) as Hd.
  { unfold discovered, enforce_capacity. unfold_prog.
    destruct (decide (sessions s !! d = None)) as [Hn|]; [|by left].
    destruct (decide (_ ≤ _)%nat) as [Hle|Hgt]; [right|left]; cbn.
    - split; [|eauto]. intros Hlt. specialize (Hlt Hn). by apply Nat.lt_nge in Hlt.
    - split; [|done]. intros _. by apply Nat.nle_gt. }
  destruct Hd as [[Hc Hd]|[Hc [e Hd]]].
  2: { right. rewrite (prog_bind_err _ _ _ _ _ Hd). split; [by intros [? _]|eauto]. }
  rewrite (prog_bind_ok _ _ _ _ _ Hd).
  set (s1 := set_sessions _ s). set (x1 := set_s_state TransportConnected x0).
  assert (change_session_state d TransportConnected s1
    = (set_sessions (<[d := x1]> s1.(sessions)) s1, Ok ())) as Ht.
  { apply change_ok; [apply lookup_insert_eq|done]. }
  rewrite (prog_bind_ok _ _ _ _ _ Ht). set (s2 := set_sessions _ s1).
  assert (sessions s2 !! d = Some x1) as Hx1 by apply lookup_insert_eq.
  destruct (hello_outcome hello x1 s2 Hx1 eq_refl) as [(?&?&?&?&?&Hh)|[Hh (e & He)]].
  2: { right. rewrite (prog_bind_err _ _ _ _ _ He). split; [tauto|eauto]. }
  left. split; [done|]. rewrite (prog_bind_ok _ _ _ _ _ Hh).
  rewrite (change_ok _ (set_s_state HelloExchanged (set_s_hello hello x1))); [|apply lookup_insert_eq|done].
  unfold s2, s1. rewrite !set_sessions_twice. cbn [sessions set_sessions]. fold d.
  by rewrite !insert_insert_eq.
Qed.

Lemma register_outcome id d req x s :
  s.(sessions) !! d = Some x → x.(s_state) = Authenticated →
  (admissible s d req x ∧ register id d req s =
    (set_metrics (add_accepted s.(metrics))
      (set_sessions (<[d := set_s_state Registered (set_s_session_id id x)]> s.(sessions)) s),
     Ok (mkRegisterAccepted id (negotiated s.(config).(supported_features) x.(s_features))))) ∨
  (¬ admissible s d req x ∧ ∃ e, register id d req s
    = (set_metrics (add_rejected s.(metrics)) s, Err (ERegisterRejected e))).
Proof.
  intros Hx Hst. unfold register, admissible. unfold_prog. unfold reject.
  destruct (ensure_auth s req) as [[]|code|] eqn:Ea.
  2: { right. split; [naive_solver|]. by eexists. }
  2: { exfalso. revert Ea. unfold ensure_auth. by repeat case_match. }
  rewrite Hx. cbn [ok_or].
  destruct (enforce_unique_device_name s d _) as [[]|e|] eqn:En.
  2: { right. split; [naive_solver|]. revert En. unfold enforce_unique_device_name, rejected.
       repeat case_match; intros; simplify_eq; by eexists. }
  2: { exfalso. revert En. unfold enforce_unique_device_name. by repeat case_match. }
  destruct (decide _) as [Hf|Hf].
  { right. split; [naive_solver|]. by eexists. }
  left. split; [done|]. rewrite (change_ok d (set_s_session_id id x)).
  - cbn. by rewrite insert_insert_eq.
  - apply lookup_insert_eq.
  - cbn. by rewrite Hst.
Qed.
(** ** The handshake *)

Definition set_server s c : Conn M := mkConn s c.(sent) c.(link).

Lemma call_ok {A} (m : prog (ServerState M) ServerError A) c s' a :
  m c.(server) = (s', Ok a) → call m c = (set_server s' c, Ok a).
Proof. unfold call, zoom. by intros ->. Qed.

Lemma call_err {A} (m : prog (ServerState M) ServerError A) c s' e :
  m c.(server) = (s', Err e) → call m c = (set_server s' c, Err e).
Proof. unfold call, zoom. by intros ->. Qed.

Lemma call_seq {A B C} (m : prog (ServerState M) ServerError A) (f : A → prog (ServerState M) ServerError B)
    (k : B → prog (Conn M) ServerError C) c :
  (call m ≫= λ a, call (f a) ≫= k) c = (call (m ≫= f) ≫= k) c.
Proof.
  unfold call, zoom, mbind, prog_bind. destruct (m (server c)) as [s' [a| |]]; simpl; [|done..].
  by destruct (f a s') as [s'' [b| |]].
Qed.

(** A send is delivered, or fails with the rest of the connection as it was. *)
Lemma send_cases msg c :
  (Forall (eq true) (take 1 c.(link)) ∧
   control_send msg c = (mkConn c.(server) (c.(sent) ++ [msg]) (drop 1 c.(link)), Ok ())) ∨
  (¬ Forall (eq true) (take 1 c.(link)) ∧
   control_send msg c = (mkConn c.(server) c.(sent) (drop 1 c.(link)), Err (ERuntime "write"))).
Proof.
  unfold control_send. destruct (link c) as [|[] l]; simpl; rewrite ?take_0, ?drop_0.
  - by left.
  - left. by repeat constructor.
  - right. split; [|done]. by inversion 1.
Qed.

(** What the server has sent once a client is in. *)
Definition welcome s (hello : ClientHello) (id : Uuid) : list ControlMessage :=
  [CServerHello (server_hello s);
   CRegisterAccepted (mkRegisterAccepted id
     (negotiated s.(config).(supported_features) hello.(ch_features)))].

(** The server with the client in. *)
Definition joined s (hello : ClientHello) (id : Uuid) : ServerState M :=
  let d := hello.(ch_device_id) in
  set_sessions (<[d := client_session hello (Some id) Active]> s.(sessions))
    (set_runtime (exec (register_device_connected d) s.(runtime))
      (set_metrics (add_accepted s.(metrics)) s)).

(** The last part of the handshake. *)
Lemma finish_handshake hello id s :
  s.(sessions) !! hello.(ch_device_id) = Some (client_session hello (Some id) Registered) →
  (scene_synced hello.(ch_device_id);; activate hello.(ch_device_id)) s =
    (set_sessions (<[hello.(ch_device_id) := client_session hello (Some id) Active]> s.(sessions))
      (set_runtime (exec (register_device_connected hello.(ch_device_id)) s.(runtime)) s), Ok ()).
Proof.
  intros Hx. unfold scene_synced, activate. set (d := ch_device_id hello) in *.
  rewrite (prog_bind_ok _ _ _ _ _ (change_ok d _ SceneSynced s Hx eq_refl)).
  set (s1 := set_sessions _ s).
  assert (on_runtime (register_device_connected d) s1
    = (set_runtime (exec (register_device_connected d) s.(runtime)) s1, Ok ())) as Hr by done.
  rewrite (prog_bind_ok _ _ _ _ _ Hr).
  rewrite (change_ok d (client_session hello (Some id) SceneSynced)); [|apply lookup_insert_eq|done].
  unfold s1. cbn [sessions set_sessions set_runtime]. by rewrite insert_insert_eq.
Qed.

Lemma name_free_later s d x n : name_free (set_sessions (<[d := x]> s.(sessions)) s) d n ↔ name_free s d n.
Proof.
  unfold name_free. cbn. split; intros [Hn Hf]; (split; [done|]); intros d' x' Hx Hd.
  - apply (Hf d'); [|done]. by rewrite lookup_insert_ne.
  - rewrite lookup_insert_ne in Hx by done. by apply (Hf d').
Qed.

Lemma keyed_insert s d x : keyed s → x.(s_device_id) = d → keyed (set_sessions (<[d := x]> s.(sessions)) s).
Proof.
  intros Hk Hd d' x' Hx. cbn in Hx. apply lookup_insert_Some in Hx as [[<- <-]|[? ?]]; [done|by apply Hk].
Qed.

(** The whole server side of an admission. *)
Lemma admit_outcome hello id req s :
  keyed s → greetable s hello →
  let s1 := set_sessions (<[hello.(ch_device_id) := client_session hello None Authenticated]> s.(sessions)) s in
  (acceptable s hello req ∧ register id hello.(ch_device_id) req s1 =
    (set_metrics (add_accepted s.(metrics)) (set_sessions
      (<[hello.(ch_device_id) := client_session hello (Some id) Registered]> s.(sessions)) s),
     Ok (mkRegisterAccepted id (negotiated s.(config).(supported_features) hello.(ch_features))))) ∨
  (¬ acceptable s hello req ∧ ∃ e, register id hello.(ch_device_id) req s1
    = (set_metrics (add_rejected s.(metrics)) s1, Err (ERegisterRejected e))).
Proof.
  intros Hk Hg s1. set (x := client_session hello None Authenticated).
  assert (sessions s1 !! ch_device_id hello = Some x) as Hx by apply lookup_insert_eq.
  assert (admissible s1 (ch_device_id hello) req x ↔ acceptable s hello req) as Had.
  { unfold admissible, acceptable. rewrite ensure_auth_authorized, negotiated_nonempty.
    rewrite (name_check_free s1) by by apply keyed_insert.
    unfold s1. rewrite name_free_later. cbn. tauto. }
  destruct (register_outcome id _ req x s1 Hx eq_refl) as [[Ha Hr]|[Ha Hr]].
  - left. split; [by apply Had|]. rewrite Hr. unfold s1. cbn. by rewrite insert_insert_eq.
  - right. split; [by rewrite <-Had|done].
Qed.

(** The server side of the handshake until the registration, as one call. *)
Lemma handshake_greet now id first second c :
  handshake now id first second c = (
    c ← get;
    control_send (CServerHello (server_hello c.(server)));;
    m ← received first;
    match m with
    | CClientHello hello =>
        call (greet hello);;
        m ← received second;
        match m with
        | CRegisterRequest req =>
            r ← attempt (call (register id hello.(ch_device_id) req));
            match r with
            | Ok accepted =>
                control_send (CRegisterAccepted accepted);;
                call (scene_synced hello.(ch_device_id);; activate hello.(ch_device_id));;
                mret (Some hello)
            | Err (ERegisterRejected rej) =>
                control_send (CRegisterRejected rej);;
                close_quietly hello.(ch_device_id) now;;
                mret None
            | Err err => close_quietly hello.(ch_device_id) now;; throw err
            | Panicked => lift Panicked
            end
        | _ => throw (ERuntime "expected RegisterRequest after ClientHello")
        end
    | _ => throw (ERuntime "expected ClientHello as first control message")
    end) c.
Proof.
  unfold handshake. do 3 (apply prog_bind_ext; intros). case_match; try done.
  unfold greet. do 3 (rewrite <-call_seq; apply prog_bind_ext; intros).
  do 2 (apply prog_bind_ext; intros). case_match; try done.
  apply prog_bind_ext; intros. case_match; try done.
  apply prog_bind_ext; intros. apply call_seq.
Qed.

(** Admitted when all is as it should be. *)
Lemma handshake_complete now id hello req c :
  keyed c.(server) → acceptable c.(server) hello req → Forall (eq true) (take 2 c.(link)) →
  handshake now id (Ok (CClientHello hello)) (Ok (CRegisterRequest req)) c =
    (mkConn (joined c.(server) hello id) (c.(sent) ++ welcome c.(server) hello id) (drop 2 c.(link)),
     Ok (Some hello)).
Proof.
  intros Hk Ha Hl. rewrite handshake_greet. change ((get ≫= ?f) c) with (f c c). cbv beta.
  assert (Forall (eq true) (take 1 c.(link)) ∧ Forall (eq true) (take 1 (drop 1 c.(link)))) as [Hl1 Hl2].
  { destruct (link c) as [|b [|b' l]]; simpl in *; [done| |]; inversion Hl; subst; repeat constructor.
    by inversion H2. }
  destruct (send_cases (CServerHello (server_hello (server c))) c) as [[_ Hs]|[? _]]; [|done].
  rewrite (prog_bind_ok _ _ _ _ _ Hs). set (c1 := mkConn _ _ _).
  change ((received (Ok ?m) ≫= ?f) c1) with (f m c1). cbv beta iota.
  assert (greetable (server c1) hello) as Hg by apply Ha.
  destruct (greet_outcome hello (server c1)) as [[_ Hgr]|[? _]]; [|done].
  rewrite (prog_bind_ok _ _ _ _ _ (call_ok _ _ _ _ Hgr)). set (c2 := set_server _ c1).
  change ((received (Ok ?m) ≫= ?f) c2) with (f m c2). cbv beta iota.
  destruct (admit_outcome hello id req (server c) Hk Hg) as [[_ Hr]|[? _]]; [|done].
  change (set_sessions _ (server c)) with (server c2) in Hr at 1.
  rewrite (prog_bind_ok _ _ _ _ _ (attempt_ok _ _ _ _ (call_ok _ c2 _ _ Hr))).
  set (c3 := set_server _ c2).
  destruct (send_cases (CRegisterAccepted (mkRegisterAccepted id
    (negotiated (supported_features (config (server c))) (ch_features hello)))) c3) as [[_ Hs2]|[? _]]; [|done].
  rewrite (prog_bind_ok _ _ _ _ _ Hs2). set (c4 := mkConn _ _ _).
  assert (sessions (server c4) !! ch_device_id hello = Some (client_session hello (Some id) Registered)) as Hx
    by apply lookup_insert_eq.
  rewrite (prog_bind_ok _ _ _ _ _ (call_ok _ c4 _ _ (finish_handshake hello id (server c4) Hx))).
  unfold mret, prog_ret. f_equal. unfold set_server. cbn. rewrite drop_drop, <-app_assoc.
  f_equal. unfold joined. cbn. by rewrite insert_insert_eq.
Qed.

(** And only then. *)
Lemma handshake_sound now id first second c c' hello :
  keyed c.(server) → handshake now id first second c = (c', Ok (Some hello)) →
  ∃ req, first = Ok (CClientHello hello) ∧ second = Ok (CRegisterRequest req) ∧
    acceptable c.(server) hello req ∧ Forall (eq true) (take 2 c.(link)).
Proof.
  intros Hk. rewrite handshake_greet. change ((get ≫= ?f) c) with (f c c). cbv beta.
  destruct (send_cases (CServerHello (server_hello (server c))) c) as [[Hl1 Hs]|[_ Hs]].
  2: { by rewrite (prog_bind_err _ _ _ _ _ Hs). }
  rewrite (prog_bind_ok _ _ _ _ _ Hs). set (c1 := mkConn _ _ _).
  destruct first as [[]| |]; try done. change ((received (Ok ?m) ≫= ?f) c1) with (f m c1). cbv beta iota.
  destruct (greet_outcome h (server c1)) as [[Hg Hgr]|[_ (s' & e & He)]].
  2: { by rewrite (prog_bind_err _ _ _ _ _ (call_err _ _ _ _ He)). }
  rewrite (prog_bind_ok _ _ _ _ _ (call_ok _ _ _ _ Hgr)). set (c2 := set_server _ c1).
  destruct second as [[]| |]; try done. change ((received (Ok ?m) ≫= ?f) c2) with (f m c2). cbv beta iota.
  destruct (admit_outcome h id r (server c) Hk Hg) as [[Ha Hr]|[_ (rej & Hr)]];
    change (set_sessions _ (server c)) with (server c2) in Hr at 1.
  2: { rewrite (prog_bind_ok _ _ _ _ _ (attempt_err _ _ _ _ (call_err _ c2 _ _ Hr))).
       intros (? & ? & _ & (? & ? & _ & Hn)%prog_bind_inv_ok)%prog_bind_inv_ok. discriminate Hn. }
  rewrite (prog_bind_ok _ _ _ _ _ (attempt_ok _ _ _ _ (call_ok _ c2 _ _ Hr))). set (c3 := set_server _ c2).
  destruct (send_cases (CRegisterAccepted (mkRegisterAccepted id
    (negotiated (supported_features (config (server c))) (ch_features h)))) c3) as [[Hl2 Hs2]|[_ Hs2]].
  2: { by rewrite (prog_bind_err _ _ _ _ _ Hs2). }
  rewrite (prog_bind_ok _ _ _ _ _ Hs2).
  intros (? & ? & _ & Hn)%prog_bind_inv_ok.
  injection Hn as _ <-. exists r. split_and!; try done.
  cbn in Hl2. clear -Hl1 Hl2. destruct (link c) as [|b [|b' l]]; simpl in *; [done|done|].
  inversion Hl1; inversion Hl2; subst. by repeat constructor.
Qed.

(** C10. A connection gets past the handshake exactly when the client sends a
    hello the server answers (of the same major version, not newer, with
    features and roles, attributes when it is a motion source, and room for
    it) and then a registration with the secrets of the security mode, under
    a name that is not blank and not claimed, with a common feature, while the
    two replies are delivered. The session is then active with what the hello
    declared, the device is connected in the runtime, and nothing else of the
    server has changed. *)
Theorem handshake_spec now id first second c hello :
  keyed c.(server) →
  let r := handshake now id first second c in
  (r.2 = Ok (Some hello) ↔ ∃ req,
     first = Ok (CClientHello hello) ∧ second = Ok (CRegisterRequest req) ∧
     acceptable c.(server) hello req ∧ Forall (eq true) (take 2 c.(link))) ∧
  (r.2 = Ok (Some hello) →
     r.1 = mkConn (joined c.(server) hello id) (c.(sent) ++ welcome c.(server) hello id)
             (drop 2 c.(link))).
Proof.
  intros Hk r. subst r. split.
  - split.
    + destruct (handshake now id first second c) as [c' r] eqn:E. cbn. intros ->.
      by eapply handshake_sound.
    + intros (req & -> & -> & Ha & Hl). by rewrite (handshake_complete now id hello req c).
  - destruct (handshake now id first second c) as [c' r] eqn:E. cbn. intros ->.
    destruct (handshake_sound _ _ _ _ _ _ _ Hk E) as (req & -> & -> & Ha & Hl).
    rewrite (handshake_complete now id hello req c) in E by done. by injection E as <-.
Qed.
End peer.
