(* ===== verification/ServerControl.v ===== *)
(** The control loop of a connection: what it needs the operator role for, and
    how it ends a session. *)

From S2P Require Import Prelude Float IndexMap Protocol Model Transform Runtime Media Codec.
From S2P Require Import Recording WebRtc Transport Server ServerRuntime ServerVideo ServerLoop.
From S2P Require Import ServerSpec ServerSessions.
From stdpp Require Import relations.

Local Open Scope Z_scope.

Section control.
Context {M : Type → Type} `{!IndexMap Uuid M} {fmt : UuidFormat} {crate : WebRtcCrate}
  {fs : FileSystem} {bm : Bincode RecordingManifest} {bk : Bincode (list RecordingMarker)}
  {bf : Bincode RecordedFrame} {texts : ErrorText}.
Implicit Types s : ServerState M.
Implicit Types c : Conn M.
Abbreviation handler := (prog (Conn M) ServerError).

(** The server of a connection after the session of [d] was closed. *)
Definition closing (d : Uuid) (now : Z) s : ServerState M := exec (close_session d now) s.

(** A round of the loop that leaves [g] alone until it closes the session,
    which it does exactly when it ends the loop. *)
Definition round_keeps {C} (g : ServerState M → C) (d : Uuid) (now : Z) (m : handler LoopStep) : Prop :=
  ∀ c, match m c with
       | (c', Ok Break) => ∃ s1, g s1 = g c.(server) ∧ c'.(server) = closing d now s1
       | (c', _) => g c'.(server) = g c.(server)
       end.

(** A handler that leaves [g] alone. *)
Definition quiet {A C} (g : ServerState M → C) (m : handler A) : Prop :=
  ∀ v, keeps (λ c, g c.(server)) v m.

Lemma quiet_send {C} (g : ServerState M → C) msg : quiet g (control_send msg).
Proof. intros v c Hc. unfold control_send. by destruct (link c) as [|[]]. Qed.

(** What a close does before it looks at the session. *)
Definition disconnected (d : Uuid) (now : Z) s : ServerState M :=
  set_video_peers (delete d s.(video_peers))
    (set_runtime (exec (register_device_disconnected d now) s.(runtime)) s).

Lemma close_session_steps d now s :
  close_session d now s = change_session_state d Closed (disconnected d now s).
Proof. reflexivity. Qed.

Lemma close_session_result d now s : result (close_session d now) s ≠ Panicked.
Proof. rewrite close_session_steps, change_session_state_outcome. by repeat case_match. Qed.

Lemma close_quietly_outcome d now c :
  close_quietly d now c = (mkConn (closing d now c.(server)) c.(sent) c.(link), Ok ()).
Proof.
  unfold close_quietly, call, closing. pose proof (close_session_result d now (server c)) as Hp.
  unfold_prog. destruct (close_session d now (server c)) as [s' [[]|e|]]; done.
Qed.

Lemma close_break_round {C} (g : ServerState M → C) d now :
  round_keeps g d now (close_quietly d now;; mret Break).
Proof.
  intros c. rewrite (prog_bind_ok _ _ _ _ _ (close_quietly_outcome d now c)). cbn. by eexists.
Qed.

Lemma round_bind {A C} (g : ServerState M → C) d now (m : handler A) (f : A → handler LoopStep) :
  quiet g m → (∀ a, round_keeps g d now (f a)) → round_keeps g d now (m ≫= f).
Proof.
  intros Hm Hf c. unfold mbind, prog_bind. specialize (Hm _ c eq_refl). cbn in Hm.
  destruct (m c) as [c1 [a|e|]]; [|done..]. specialize (Hf a c1).
  destruct (f a c1) as [c2 [[]| |]]; simpl in *; try congruence.
  destruct Hf as (s1 & Hg & ?). exists s1. split; [congruence|done].
Qed.

Lemma round_continue {C} (g : ServerState M → C) d now : round_keeps g d now (mret Continue).
Proof. by intros c. Qed.

Lemma round_get {C} (g : ServerState M → C) d now (f : Conn M → handler LoopStep) :
  (∀ c, round_keeps g d now (f c)) → round_keeps g d now (get ≫= f).
Proof. intros Hf c. exact (Hf c c). Qed.

Lemma round_panic {C} (g : ServerState M → C) d now : round_keeps g d now (lift Panicked).
Proof. by intros c. Qed.

Lemma quiet_call {A C} (g : ServerState M → C) (m : prog (ServerState M) ServerError A) :
  (∀ v, keeps g v m) → quiet g (call m).
Proof. intros Hm v c Hc. unfold call, zoom. specialize (Hm v _ Hc). by destruct (m (server c)). Qed.

Lemma quiet_attempt {A C} (g : ServerState M → C) (m : handler A) :
  quiet g m → quiet g (attempt m : handler (res ServerError A)).
Proof. intros Hm v. by apply keeps_attempt. Qed.

Lemma reply_error_round {C} (g : ServerState M → C) hello now code reason :
  round_keeps g hello.(ch_device_id) now (reply_error hello now code reason).
Proof.
  unfold reply_error. apply round_bind; [apply quiet_attempt, quiet_send|]. intros [a|e|];
    [apply round_continue|apply close_break_round..].
Qed.

Lemma answer_round {A C} (g : ServerState M → C) hello now
    (m : prog (ServerState M) ServerError A) (on_ok : A → handler ()) :
  (∀ v, keeps g v m) → (∀ a, quiet g (on_ok a)) →
  round_keeps g hello.(ch_device_id) now (answer hello now m on_ok).
Proof.
  intros Hm Hok. unfold answer. apply round_bind; [by apply quiet_attempt, quiet_call|].
  intros [a|e|].
  - apply round_bind; [apply Hok|]. intros _. apply round_continue.
  - apply reply_error_round.
  - apply round_panic.
Qed.

Lemma quiet_mode_state {C} (g : ServerState M → C) :
  quiet g (c ← get; control_send (CModeState c.(server).(runtime).(Runtime.mode))).
Proof. intros v. apply keeps_get_bind. intros c _. by apply quiet_send. Qed.

(** The calls behind the arms, for the operator and for everyone. *)
Lemma on_control_round {C} (g : ServerState M → C) hello now msg :
  let d := hello.(ch_device_id) in
  (Operator ∈ hello.(ch_roles) →
    (∀ m v, keeps g v (ServerRuntime.set_mode m now)) ∧
    (∀ sc v, keeps g v (ServerRuntime.reset_scene_to_baseline sc)) ∧
    (∀ sc v, keeps g v (ServerRuntime.commit_scene_baseline sc)) ∧
    (∀ sc o v, keeps g v (ServerRuntime.commit_object_baseline sc o))) →
  (∀ a b v, keeps g v (create_video_offer d a b)) →
  (∀ p v, keeps g v (handle_video_signal d p)) →
  (∀ m v, keeps g v (push_signaling_message m)) →
  (∀ v, keeps g v (drain_signaling_messages d)) →
  round_keeps g d now (on_control hello now msg).
Proof.
  intros d Hop Hoffer Hsig Hpush Hdrain.
  assert (∀ {A} reason (m : prog (ServerState M) ServerError A) (k : A → handler ()),
    (Operator ∈ hello.(ch_roles) → ∀ v, keeps g v m) → (∀ a, quiet g (k a)) →
    round_keeps g d now (operator_only hello now reason (answer hello now m k))) as Hgate.
  { intros A reason m k Hm Hk. unfold operator_only. destruct (decide _) as [|Hn];
      [apply reply_error_round|]. apply answer_round; [|done]. apply Hm.
    destruct (decide (Operator ∈ ch_roles hello)); [done|by destruct Hn]. }
  destruct msg; cbn [on_control]; fold d; try apply reply_error_round.
  - destruct (decide _); [apply reply_error_round|]. destruct (decide _); apply answer_round; auto.
    + intros [sdp|]; [apply quiet_send|]. intros v. apply keeps_mret.
    + intros _ v. apply keeps_mret.
  - apply answer_round; auto. intros; apply quiet_send.
  - apply answer_round; auto. intros; apply quiet_send.
  - apply round_bind; [apply quiet_send|]. intros _. apply round_get.
    intros c'. apply round_bind; [apply quiet_send|]. intros _. apply round_continue.
  - apply round_continue.
  - apply Hgate; [intros Ho; apply (Hop Ho)|]. intros _. apply quiet_mode_state.
  - apply Hgate; [intros Ho; apply (proj1 (proj2 (Hop Ho)))|]. intros ?. apply quiet_send.
  - apply Hgate; [intros Ho; apply (proj1 (proj2 (proj2 (Hop Ho))))|]. intros ?. apply quiet_send.
  - apply Hgate; [intros Ho; apply (proj2 (proj2 (proj2 (Hop Ho))))|]. intros ?. apply quiet_send.
Qed.


(** ** How the loop ends *)

Lemma loop_round_keeps hello ev : ∃ now,
  round_keeps sessions hello.(ch_device_id) now (loop_round hello ev).
Proof.
  destruct ev as [now [msg|]|now [frame|]]; exists now; cbn [loop_round]; try apply close_break_round.
  - apply on_control_round; [intros _; split_and!; intros|intros..];
      unfold ServerRuntime.set_mode, ServerRuntime.reset_scene_to_baseline,
        ServerRuntime.commit_scene_baseline, ServerRuntime.commit_object_baseline,
        create_video_offer, handle_video_signal, push_signaling_message,
        drain_signaling_messages, ensure_video_peer, video_peer, ensure_track, on_peer,
        on_runtime, on_writer; keeps_walk.
  - apply round_bind; [|intros [[]| |]; apply round_continue || apply round_panic].
    apply quiet_attempt, quiet_call. intros v.
    unfold ingest_motion_datagram, ingest_motion_samples, on_runtime, on_writer. keeps_walk.
Qed.

(** The session of [d] is closed and nothing of it is left behind. *)
Definition gone (d : Uuid) (x : SessionInfo) s s' : Prop :=
  s'.(sessions) = <[d := set_s_state Closed x]> s.(sessions) ∧
  d ∉ s'.(runtime).(connected_devices) ∧ s'.(video_peers) !! d = None ∧
  ∀ m, m ∈ im_values s'.(runtime).(mappings) → m.(source_device) = d → m.(state) = MActive →
    is_Some m.(disconnected_at_ns).

Lemma closing_gone d now x s :
  s.(sessions) !! d = Some x → x.(s_state) = Active → gone d x s (closing d now s).
Proof.
  intros Hx Hst. unfold closing. rewrite close_session_steps, change_session_state_outcome.
  change (sessions (disconnected d now s)) with (sessions s). rewrite Hx, Hst. cbn [can_transition_to fst]. split_and!.
  - done.
  - cbn. set_solver.
  - apply lookup_delete_eq.
  - intros m. set (now_of := λ m : Mapping, if fed_by d m then set_disconnected (Some now) m else m).
    change (m ∈ im_values (im_values_mut now_of s.(runtime).(mappings)) → source_device m = d →
      state m = MActive → is_Some (disconnected_at_ns m)).
    rewrite im_values_values_mut. intros (m0 & -> & Hm)%list_elem_of_fmap.
    subst now_of. cbv beta. destruct (fed_by d m0) eqn:Ef; [by eexists|]. intros Hd Hact. exfalso.
    unfold fed_by in Ef. by rewrite !bool_decide_eq_true_2 in Ef.
Qed.

(** C14. While the loop runs, no event changes any session; and when it ends
    normally, by a lost connection or a reply that cannot be delivered, the
    session is closed, its device is disconnected with the reclaim clock of
    its mappings started, and its video peer is dropped. *)
Theorem loop_closes hello evs c c' step x :
  c.(server).(sessions) !! hello.(ch_device_id) = Some x → x.(s_state) = Active →
  control_loop hello evs c = (c', Ok step) →
  match step with
  | Continue => c'.(server).(sessions) = c.(server).(sessions)
  | Break => gone hello.(ch_device_id) x c.(server) c'.(server)
  end.
Proof.
  intros Hx Hst. revert c Hx. induction evs as [|ev evs IH]; intros c Hx Hl; cbn [control_loop] in Hl.
  { by injection Hl as <- <-. }
  apply prog_bind_inv_ok in Hl as (c1 & [] & Hr & Hl); destruct (loop_round_keeps hello ev) as [now Hk];
    specialize (Hk c); rewrite Hr in Hk.
  - specialize (IH c1). rewrite Hk in IH. specialize (IH Hx Hl).
    destruct step; [done|]. unfold gone in *. by rewrite Hk in IH.
  - injection Hl as <- <-. destruct Hk as (s1 & Hs & ->).
    destruct (closing_gone hello.(ch_device_id) now x s1) as [H1 H2]; [by rewrite Hs|done|].
    split; [by rewrite <-Hs|done].
Qed.
End control.
