(* ===== verification/ServerTake.v ===== *)
(** Recording through the server: which calls add what to the running
    recording, and that the file of a take holds all of it. *)

From S2P Require Import Prelude Float IndexMap Protocol Model Transform Runtime Media Codec.
From S2P Require Import Recording RecordingSpec RecordingProps WebRtc Transport Server.
From S2P Require Import ServerRuntime ServerVideo ServerSpec ServerSessions.
From stdpp Require Import relations.

Local Open Scope Z_scope.

Section take.
Context {M : Type → Type} `{!IndexMap Uuid M} {fmt : UuidFormat} {crate : WebRtcCrate}
  {fs : FileSystem} {bm : Bincode RecordingManifest} {bk : Bincode (list RecordingMarker)}
  {bf : Bincode RecordedFrame} {texts : ErrorText}.
Implicit Types s : ServerState M.

(** ** What a call adds to the recording *)

Definition request_fields (id : MappingId) (req : MappingRequest) : MappingFields :=
  mkMappingFields id req.(rq_source_device) req.(rq_source_output) req.(rq_target_scene)
    req.(rq_target_object) req.(rq_target_attribute) req.(rq_component_mask).

(** The frame of a batch that was ingested. *)
Definition batch_frame (d : Uuid) (us : list AttributeUpdate) (t : Z) s : list push :=
  match record_frame s.(runtime) d us t with Ok f => [PushFrame f] | _ => [] end.

(** What a call adds when it succeeds, given the state it leaves. *)
Definition success_pushes (op : server_op) s s' : list push :=
  match op with
  | SSetMode m now => [PushMarker (ModeTransition now s.(runtime).(Runtime.mode) m)]
  | SCreate id req now => [PushMarker (MappingCreated now (request_fields id req))]
  | SUpdate id req now => [PushMarker (MappingUpdated now (request_fields id req))]
  | SRemove id now => [PushMarker (MappingRemoved now id)]
  | SLock id b now => [PushMarker (MappingLockSet now id b)]
  | SIngest d us t => batch_frame d us t s'
  | SDatagram dg => batch_frame dg.(md_device_id) (update_of_frame <$> dg.(md_updates))
                      dg.(md_timestamp_ns) s'
  | _ => []
  end.

(** Whether a call that may add something succeeds. *)
Definition succeeds (op : server_op) s : bool :=
  match op with
  | SSetMode m now => is_ok (result (ServerRuntime.set_mode m now) s)
  | SCreate id req now => is_ok (result (ServerRuntime.create_mapping id req now) s)
  | SUpdate id req now => is_ok (result (ServerRuntime.update_mapping id req now) s)
  | SRemove id now => is_ok (result (ServerRuntime.remove_mapping id now) s)
  | SLock id b now => is_ok (result (ServerRuntime.set_mapping_lock id b now) s)
  | SIngest d us t => is_ok (result (ingest_motion_samples d us t) s)
  | SDatagram dg => is_ok (result (ingest_motion_datagram dg) s)
  | _ => false
  end.

Definition pushes (op : server_op) s : list push :=
  if succeeds op s then success_pushes op s (exec_server op s) else [].

Fixpoint all_pushes (ops : list server_op) s : list push :=
  match ops with
  | [] => []
  | op :: ops => pushes op s ++ all_pushes ops (exec_server op s)
  end.

Definition record (ps : list push) (r : ActiveRecording) : ActiveRecording :=
  mkActiveRecording r.(path) (foldl do_push r.(writer) ps).

(** Calls other than [start_recording] and [stop_recording]. *)
Definition within_take (op : server_op) : Prop :=
  match op with SStartRecording _ _ _ | SStopRecording _ => False | _ => True end.

Lemma record_app ps qs r : record (ps ++ qs) r = record qs (record ps r).
Proof. unfold record. by rewrite foldl_app. Qed.

Lemma record_nil (o : option ActiveRecording) : record [] <$> o = o.
Proof. by destruct o as [[]|]. Qed.

(** A runtime call under [?] leaves the recording alone. *)
Lemma on_runtime_outcome {A} (m : prog (RuntimeCore M) CoreError A) s :
  on_runtime m s = (set_runtime (exec m s.(runtime)) s, map_err ECore (result m s.(runtime))).
Proof. unfold on_runtime, zoom. by destruct (m (runtime s)). Qed.

Lemma marker_call {A} (m : prog (RuntimeCore M) CoreError A) k s :
  let m' := on_runtime m;; on_writer (push_marker k) in
  active_recording (exec m' s) =
    record (if is_ok (result m' s) then [PushMarker k] else []) <$> active_recording s.
Proof.
  cbn zeta. unfold mbind, prog_bind. rewrite on_runtime_outcome.
  destruct (snd (m (runtime s))) as [a|e|]; cbn; [done|by rewrite record_nil..].
Qed.

Lemma create_mapping_entry id req now (core core' : RuntimeCore M) id' :
  Runtime.create_mapping id req now core = (core', Ok id') →
  id' = id ∧ im_get id core'.(mappings) = Some (new_mapping id req now).
Proof.
  unfold Runtime.create_mapping. intros H. 
  repeat (apply prog_bind_inv_ok in H as (? & ? & ? & H)). 
  unfold modify in *. unfold mret, prog_ret in *. simplify_eq/=.
  split; [done|]. by rewrite im_get_insert, decide_True.
Qed.

Lemma update_mapping_entry id req now (core core' : RuntimeCore M) :
  Runtime.update_mapping id req now core = (core', Ok ()) →
  ∃ m, im_get id core.(mappings) = Some m ∧
    im_get id core'.(mappings) = Some (retarget req now m).
Proof.
  unfold Runtime.update_mapping. intros H.
  apply prog_bind_inv_ok in H as (? & ? & Hg & H). unfold get in Hg. simplify_eq/=.
  do 3 (apply prog_bind_inv_ok in H as (? & ? & ? & H)).
  repeat match goal with
  | H : fail_if _ _ _ = _ |- _ => apply fail_if_inv in H as [-> _]
  | H : lift _ _ = _ |- _ => apply lift_inv in H as [-> _] end.
  match type of H with context [im_get id ?ms] => destruct (im_get id ms) as [m|] eqn:Em end; [|done].
  apply prog_bind_inv_ok in H as (? & ? & Hf & H). apply fail_if_inv in Hf as [-> _].
  unfold put in H. injection H as <-. exists m. split; [done|].
  cbn [mappings set_mappings]. by rewrite im_get_get_mut, decide_True, Em.
Qed.

(** ** One call *)

Lemma create_pushes id req now s :
  active_recording (exec (ServerRuntime.create_mapping id req now) s) =
    record (if is_ok (result (ServerRuntime.create_mapping id req now) s)
            then [PushMarker (MappingCreated now (request_fields id req))] else [])
    <$> active_recording s.
Proof.
  unfold ServerRuntime.create_mapping. unfold mbind, prog_bind. rewrite on_runtime_outcome.
  destruct (Runtime.create_mapping id req now (runtime s)) as [core' [id'|e|]] eqn:E;
    cbn [fst snd map_err]; [|by rewrite record_nil..].
  apply create_mapping_entry in E as [-> E]. unfold get. cbn [runtime set_runtime]. rewrite E. done.
Qed.

Lemma update_pushes id req now s :
  active_recording (exec (ServerRuntime.update_mapping id req now) s) =
    record (if is_ok (result (ServerRuntime.update_mapping id req now) s)
            then [PushMarker (MappingUpdated now (request_fields id req))] else [])
    <$> active_recording s.
Proof.
  unfold ServerRuntime.update_mapping. unfold mbind, prog_bind. rewrite on_runtime_outcome.
  destruct (Runtime.update_mapping id req now (runtime s)) as [core' [[]|e|]] eqn:E;
    cbn [fst snd map_err]; [|by rewrite record_nil..].
  apply update_mapping_entry in E as (m & _ & E). unfold get. cbn [runtime set_runtime]. rewrite E. done.
Qed.

Lemma set_mode_pushes m now s :
  active_recording (exec (ServerRuntime.set_mode m now) s) =
    record (if is_ok (result (ServerRuntime.set_mode m now) s)
            then [PushMarker (ModeTransition now s.(runtime).(Runtime.mode) m)] else [])
    <$> active_recording s.
Proof. apply (marker_call (Runtime.set_mode m)). Qed.

Lemma ingest_pushes d us t s :
  let s' := exec (ingest_motion_samples d us t) s in
  active_recording s' =
    record (if is_ok (result (ingest_motion_samples d us t) s) then batch_frame d us t s' else [])
    <$> active_recording s.
Proof.
  cbn zeta. unfold ingest_motion_samples. unfold mbind, prog_bind, modify. rewrite on_runtime_outcome.
  destruct (snd (apply_updates d us t _)) as [a|e|] eqn:E; cbn [map_err];
    [|cbn; by rewrite record_nil..].
  unfold get. cbn [active_recording set_runtime set_metrics runtime fst snd].
  destruct (active_recording s) as [[pth w]|] eqn:Ea; [|by cbn; rewrite Ea].
  set (core := fst (apply_updates d us t (runtime s))).
  unfold lift. destruct (record_frame core d us t) as [f|e|] eqn:Ef; cbn [fst snd is_ok].
  - unfold batch_frame, on_writer, modify, record. cbn [runtime set_runtime set_recording fst].
    rewrite Ef. cbn. by rewrite Ea.
  - cbn. by rewrite Ea.
  - cbn. by rewrite Ea.
Qed.
Lemma datagram_pushes dg s :
  let us := update_of_frame <$> dg.(md_updates) in
  let s' := exec (ingest_motion_datagram dg) s in
  active_recording s' =
    record (if is_ok (result (ingest_motion_datagram dg) s)
            then batch_frame dg.(md_device_id) us dg.(md_timestamp_ns) s' else [])
    <$> active_recording s.
Proof. apply (ingest_pushes _ _ _ (set_metrics (add_datagram s.(metrics)) s)). Qed.

(** Every call other than start and stop adds to the recording what it is
    listed with, and nothing when it fails. *)
Lemma op_records op s :
  within_take op → active_recording (exec_server op s) = record (pushes op s) <$> active_recording s.
Proof.
  intros Hop.
  assert (∀ {A} (m : prog (ServerState M) ServerError A),
    (∀ v, keeps active_recording v m) →
    active_recording (exec m s) = record [] <$> active_recording s) as Hk.
  { intros A m Hm. rewrite record_nil. by apply (Hm (active_recording s)). }
  destruct op; try done; unfold pushes; cbn [exec_server succeeds success_pushes].
  all: try (apply Hk; intros v;
    unfold discovered, transport_connected, hello_exchanged, authenticate, register, scene_synced,
      activate, close_session, change_session_state, reject,
      ServerRuntime.load_scene, ServerRuntime.set_active_scene,
      ServerRuntime.reset_scene_to_baseline, ServerRuntime.commit_scene_baseline,
      ServerRuntime.commit_object_baseline, tick_round,
      publish_round, set_master_video_descriptor, push_signaling_message, drain_signaling_messages,
      create_video_offer, handle_video_signal, ensure_video_peer, video_peer, ensure_track,
      on_runtime, on_peer; by keeps_walk).
  - apply set_mode_pushes.
  - apply create_pushes.
  - apply update_pushes.
  - apply (marker_call (Runtime.remove_mapping id)).
  - apply (marker_call (Runtime.set_mapping_lock id b)).
  - apply ingest_pushes.
  - apply datagram_pushes.
Qed.

Lemma ops_record ops s :
  Forall within_take ops →
  active_recording (run_server ops s) = record (all_pushes ops s) <$> active_recording s.
Proof.
  revert s. induction ops as [|op ops IH]; intros s Hops; [by rewrite record_nil|].
  inversion Hops; subst. cbn [all_pushes]. change (run_server (op :: ops) s) with (run_server ops (exec_server op s)).
  rewrite IH, op_records by done. destruct (active_recording s); [|done]. cbn. by rewrite record_app.
Qed.
(** ** Start and stop *)

(** The mode a take is switched to [Recording] from. *)
Definition mode_before s : Mode :=
  match s.(runtime).(Runtime.mode) with Idle => Live | m => m end.

(** The markers at the start of a take. *)
Definition start_pushes (now : Z) s : list push :=
  PushMarker (ModeTransition now (mode_before s) Protocol.Recording) ::
    ((λ m, PushMarker (MappingCreated now (marker_fields m.(m_id) m))) <$>
       filter (λ m, m.(state) = MActive) (im_values s.(runtime).(mappings))).

Definition in_recording s : ServerState M :=
  set_runtime (set_mode_field Protocol.Recording s.(runtime)) s.

Lemma start_mode {A} s (k : Mode → prog (ServerState M) ServerError A) :
  ((if decide (s.(runtime).(Runtime.mode) = Idle)
    then on_runtime (Runtime.set_mode Live);; mret Live
    else mret s.(runtime).(Runtime.mode)) ≫= (λ m : Mode,
      on_runtime (Runtime.set_mode Protocol.Recording);; k m)) s
  = k (mode_before s) (in_recording s).
Proof.
  unfold mode_before, in_recording, on_runtime, Runtime.set_mode. unfold_prog.
  destruct s as [cfg [] ]. cbn. by destruct mode.
Qed.

Lemma markers_foldl (ks : list RecordingMarker) (w : RecordingWriter) :
  foldl (λ w m, push_marker m w) w ks = foldl do_push w (PushMarker <$> ks).
Proof. revert w. induction ks as [|k ks IH]; intros w; simpl; [done|apply IH]. Qed.

Lemma start_recording_outcome id file now s :
  start_recording id file now s =
    match s.(runtime).(active_scene) with
    | Some scene =>
        (set_recording (Some (record (start_pushes now s)
           (mkActiveRecording file (Recording.start id scene now)))) (in_recording s), Ok id)
    | None => (in_recording s, Err (ERecording "no active scene"))
    end.
Proof.
  unfold start_recording. change ((get ≫= ?f) s) with (f s s). cbv beta. rewrite start_mode.
  change ((get ≫= ?f) (in_recording s)) with (f (in_recording s) (in_recording s)). cbv beta.
  change (active_scene (runtime (in_recording s))) with (active_scene (runtime s)).
  unfold_prog. destruct (active_scene (runtime s)) as [scene|]; cbn [ok_or]; [|done].
  rewrite markers_foldl. unfold record, start_pushes, initial_markers. cbn [fmap list_fmap].
  by rewrite <-list_fmap_compose.
Qed.

(** The writer of a take: the scene, what the calls added and the closing
    marker. *)
Definition take_writer (id scene : Uuid) (start stop : Z) (ps : list push) : RecordingWriter :=
  foldl do_push (Recording.start id scene start)
    (ps ++ [PushMarker (ModeTransition stop Protocol.Recording Live)]).

Lemma stop_outcome now s s' m r :
  s.(active_recording) = Some r → stop_recording now s = (s', Ok m) →
  let w := push_marker (ModeTransition now Protocol.Recording Live) r.(writer) in
  fits w →
  m = w.(manifest) ∧ s'.(active_recording) = None ∧ s'.(runtime).(Runtime.mode) = Live ∧
  ∃ content, s'.(disk) !! r.(path) = Some content ∧
    read_recording content = Ok (mkFile w.(manifest)
      (match w.(version) with V2 => w.(markers) | V1 => [] end) w.(frames) w.(version)).
Proof.
  intros Hr Hstop w Hfit. unfold stop_recording in Hstop.
  change ((get ≫= ?f) s) with (f s s) in Hstop. cbv beta in Hstop. rewrite Hr in Hstop.
  apply prog_bind_inv_ok in Hstop as (s1 & [] & Hp & Hstop). injection Hp as <-.
  fold w in Hstop. destruct (finish w _) as [content res] eqn:Hfin.
  apply prog_bind_inv_ok in Hstop as (s2 & [] & Hd & Hstop). injection Hd as <-.
  apply prog_bind_inv_ok in Hstop as (s3 & m' & Hl & Hstop). apply lift_inv in Hl as [-> Hl].
  destruct res as [m0| |]; try discriminate Hl. injection Hl as ->.
  destruct (finish_reads_back w _ content m' Hfit Hfin) as (-> & Hc & Hread). rewrite Hc in Hstop.
  apply prog_bind_inv_ok in Hstop as (s4 & [] & Hm & Hstop). injection Hstop as <- <-.
  rewrite on_runtime_outcome in Hm. injection Hm as <- Hm.
  split_and!; [done|done| |].
  - cbn [runtime set_runtime]. revert Hm. unfold Runtime.set_mode. unfold_prog.
    by destruct (negb _).
  - exists content. split; [|done]. apply lookup_insert_eq.
Qed.
Lemma take_frames id scene start stop ps :
  (take_writer id scene start stop ps).(frames) = pushed_frames ps.
Proof.
  destruct (writer_contents id scene start V2
    (ps ++ [PushMarker (ModeTransition stop Protocol.Recording Live)])) as (Hf & _).
  unfold take_writer, Recording.start, pushed_frames in *. rewrite Hf, omap_app. cbn.
  by rewrite app_nil_r.
Qed.

(** What the calls of a take add, before it and in it. *)
Lemma all_pushes_app ops ops' s :
  all_pushes (ops ++ ops') s = all_pushes ops s ++ all_pushes ops' (run_server ops s).
Proof.
  revert s. induction ops as [|op ops IH]; intros s; [done|]. cbn [app all_pushes].
  by rewrite IH, app_assoc.
Qed.

(** A take that was started, filled by calls and stopped holds what its writer
    held. *)
Lemma take_written id file start stop ops s s' m scene :
  let started := exec (start_recording id file start) s in
  let w := take_writer id scene start stop (start_pushes start s ++ all_pushes ops started) in
  s.(runtime).(active_scene) = Some scene → Forall within_take ops → fits w →
  stop_recording stop (run_server ops started) = (s', Ok m) →
  m = w.(manifest) ∧ s'.(active_recording) = None ∧ s'.(runtime).(Runtime.mode) = Live ∧
  ∃ content, s'.(disk) !! file = Some content ∧
    read_recording content = Ok (mkFile w.(manifest) w.(markers) w.(frames) V2).
Proof.
  intros started w Hscene Hops Hfit Hstop.
  assert (active_recording started
    = Some (record (start_pushes start s) (mkActiveRecording file (Recording.start id scene start)))) as Hs1.
  { unfold started. rewrite start_recording_outcome, Hscene. done. }
  pose proof (ops_record ops started Hops) as Hrun. rewrite Hs1 in Hrun. cbn in Hrun.
  rewrite <-record_app in Hrun. unfold w, take_writer in *. rewrite foldl_snoc in *.
  destruct (stop_outcome stop _ s' m _ Hrun Hstop Hfit) as (-> & Hnone & Hmode & content & Hfile & Hread).
  do 3 (split; [done|]). exists content. split; [done|]. rewrite Hread.
  destruct (writer_contents id scene start V2 ((start_pushes start s ++ all_pushes ops started)
    ++ [PushMarker (ModeTransition stop Protocol.Recording Live)])) as (_ & _ & Hv & _).
  rewrite foldl_snoc in Hv.
  by match goal with |- context [match version ?x with _ => _ end] =>
    replace (version x) with V2 by (symmetry; exact Hv) end.
Qed.

(** C11. A take ends up on disk complete: after [start_recording], any calls
    of any clients and a [stop_recording] that succeeds, the file reads back
    the frames of exactly the batches that were ingested, in order, and the
    markers of the mappings in place at the start, of every change that
    succeeded since, and of the mode transitions at both ends, with the frame
    count in the manifest; the stage is [Live] and no take is running. *)
Theorem take_on_disk id file start stop ops s s' m :
  let started := exec (start_recording id file start) s in
  let ps := start_pushes start s ++ all_pushes ops started in
  is_Some (s.(runtime).(active_scene)) →
  Forall within_take ops →
  stop_recording stop (run_server ops started) = (s', Ok m) →
  (∀ scene, s.(runtime).(active_scene) = Some scene → fits (take_writer id scene start stop ps)) →
  m.(recording_id) = id ∧ m.(started_ns) = start ∧
  m.(frame_count) = wrap64 (Z.of_nat (length (pushed_frames ps))) ∧
  s'.(active_recording) = None ∧ s'.(runtime).(Runtime.mode) = Live ∧
  ∃ content, s'.(disk) !! file = Some content ∧
    read_recording content = Ok (mkFile m
      (pushed_markers ps ++ [ModeTransition stop Protocol.Recording Live]) (pushed_frames ps) V2).
Proof.
  intros started ps [scene Hscene] Hops Hstop Hfit.
  destruct (take_written id file start stop ops s s' m scene Hscene Hops (Hfit _ Hscene) Hstop)
    as (-> & Hnone & Hmode & content & Hfile & Hread). fold started ps in Hread |- *.
  destruct (writer_contents id scene start V2
    (ps ++ [PushMarker (ModeTransition stop Protocol.Recording Live)])) as (Hf & Hk & Hv & Hm).
  unfold take_writer, Recording.start in *. rewrite Hm in *. split_and!; try done.
  - cbn. unfold pushed_frames. rewrite omap_app. cbn. by rewrite app_nil_r.
  - exists content. split; [done|]. rewrite Hread, Hk, Hf.
    unfold pushed_frames, pushed_markers. rewrite !omap_app. cbn. by rewrite !app_nil_r.
Qed.

(** ** What a frame holds *)

(** The value an update was recorded with: the current value of the target of
    an active mapping of its device and output in the active scene. *)
Definition recorded_value (core : RuntimeCore M) (d : Uuid) (u : AttributeUpdate)
    (a : RecordedAttribute) : Prop :=
  ∃ m attr, m ∈ im_values core.(mappings) ∧ m.(source_device) = d ∧ m.(state) = MActive ∧
    core.(active_scene) = Some m.(target_scene) ∧
    source_output_matches m.(source_output) d u.(output_attribute) = true ∧
    ra_object_id a = m.(target_object) ∧ ra_attribute a = m.(target_attribute) ∧
    (scene ← im_get m.(target_scene) core.(scenes);
     object ← scene.(objects) !! m.(target_object);
     object.(attributes) !! m.(target_attribute)) = Some attr ∧
    ra_value a = attr.(current_value).

Lemma record_update_value core d sc u a :
  core.(active_scene) = Some sc → record_update core d sc u = Ok a → recorded_value core d u a.
Proof.
  intros Hsc. unfold record_update. intros Hr. inv_res.
  destruct (im_get (target_scene x) (scenes core)) as [scene|] eqn:E1; [|done].
  cbn [mbind option_bind] in H0.
  destruct (objects scene !! target_object x) as [object|] eqn:E2; [|done].
  cbn [mbind option_bind] in H0.
  destruct (attributes object !! target_attribute x) as [attr|] eqn:E3; [|done].
  cbn [mbind option_bind] in H0.
  apply find_some in H as [Hin Hp]. unfold recorded_by in Hp. rewrite !andb_true_iff in Hp.
  destruct Hp as [[[Hd%bool_decide_eq_true Ho] Hs%bool_decide_eq_true] Ht%bool_decide_eq_true].
  exists x, attr. subst. rewrite E1. cbn. rewrite E2. cbn. rewrite E3.
  split_and!; try done; [by apply list_elem_of_In|by injection H0].
Qed.

Lemma record_frame_values core d us t f :
  record_frame core d us t = Ok f →
  f.(rf_timestamp_ns) = t ∧ f.(rf_mode) = core.(Runtime.mode) ∧
  Forall2 (recorded_value core d) us f.(rf_attributes).
Proof.
  unfold record_frame. intros Hf. apply res_bind_ok in Hf as (sc & Hsc & Hf). apply ok_or_ok in Hsc.
  apply res_bind_ok in Hf as (attrs & Hl & [= <-]). split_and!; [done..|]. cbn.
  enough (∀ us acc, res_foldl (λ attrs update, a ← record_update core d sc update; Ok (attrs ++ [a])) acc us
    = Ok attrs → ∃ l, attrs = acc ++ l ∧ Forall2 (recorded_value core d) us l) as He.
  { by destruct (He us [] Hl) as (l & -> & ?). }
  clear us Hl. induction us as [|u us IH]; intros acc Hl; cbn [res_foldl] in Hl.
  { injection Hl as <-. exists []. by rewrite app_nil_r. }
  apply res_bind_ok in Hl as (acc' & Ha & Hl). apply res_bind_ok in Ha as (a & Ha & [= <-]).
  destruct (IH _ Hl) as (l & -> & Hf). exists (a :: l). rewrite <-app_assoc. split; [done|].
  constructor; [|done]. by eapply record_update_value.
Qed.

Lemma ingested_frame d us t s r u :
  s.(active_recording) = Some r → result (ingest_motion_samples d us t) s = Ok u →
  ∃ f, record_frame (runtime (exec (ingest_motion_samples d us t) s)) d us t = Ok f.
Proof.
  intros Hr. unfold ingest_motion_samples. unfold mbind, prog_bind, modify.
  rewrite on_runtime_outcome. destruct (snd (apply_updates d us t _)) as [a|e|]; cbn [map_err]; [|done..].
  unfold get. cbn [active_recording set_runtime set_metrics runtime fst snd]. rewrite Hr.
  set (core := fst (apply_updates d us t (runtime s))).
  unfold lift. destruct (record_frame core d us t) as [f|e|] eqn:Ef; cbn [fst snd]; [|done..].
  intros _. by exists f.
Qed.

(** While a take is running, every batch that is ingested adds exactly
    one frame, with the time of the batch and one value per update: the value
    that an attribute driven by that device and output has afterwards. A batch
    that fails adds nothing. *)
Theorem ingest_records_frame d us t s r :
  s.(active_recording) = Some r →
  let s' := exec (ingest_motion_samples d us t) s in
  match result (ingest_motion_samples d us t) s with
  | Ok _ => ∃ attrs, s'.(active_recording) = Some (record
        [PushFrame (mkRecordedFrame t s'.(runtime).(Runtime.mode) attrs)] r) ∧
      Forall2 (recorded_value s'.(runtime) d) us attrs
  | _ => s'.(active_recording) = Some r
  end.
Proof.
  intros Hr s'. pose proof (ingest_pushes d us t s) as Hp. cbn zeta in Hp. fold s' in Hp.
  rewrite Hr in Hp. destruct (result _ _) as [[]|e|] eqn:E; cbn [is_ok] in Hp;
    [|by rewrite Hp; destruct r..].
  destruct (ingested_frame d us t s r () Hr E) as [f Hf]. fold s' in Hf.
  unfold batch_frame in Hp. rewrite Hf in Hp.
  destruct (record_frame_values _ _ _ _ _ Hf) as (<- & <- & Hv). exists (rf_attributes f).
  split; [|done]. rewrite Hp. by destruct f.
Qed.
End take.
