(* ===== verification/Pipeline.v ===== *)
(** From a client's sample to the exported file: the datagram that
    [motionstage-transport-quic] packs, the server that unpacks, applies and
    records it, the file that [stop_recording] writes, and the export that
    [motionstage-export-chan] makes of it. *)

From S2P Require Import Prelude Text Float IndexMap Protocol Model Transform Runtime Media Codec.
From S2P Require Import Recording RecordingSpec RecordingProps Export WebRtc Transport Server.
From S2P Require Import ServerRuntime ServerVideo ServerSpec ServerSessions ServerTake.

Local Open Scope Z_scope.

(** The lines of one frame of a chan export. *)
Definition frame_lines (frame : RecordedFrame) `{UuidFormat} : list string :=
  frame.(rf_attributes) ≫= chan_attribute frame.(rf_timestamp_ns).

Section pipeline.
Context {M : Type → Type} `{!IndexMap Uuid M} {fmt : UuidFormat} {crate : WebRtcCrate}
  {fs : FileSystem} {bm : Bincode RecordingManifest} {bk : Bincode (list RecordingMarker)}
  {bf : Bincode RecordedFrame} {bd : Bincode MotionDatagramEnvelope} {texts : ErrorText}.
Implicit Types s : ServerState M.

(** What a datagram that is ingested while a take runs adds to it. *)
Lemma datagram_frame dg s r u :
  s.(active_recording) = Some r → result (ingest_motion_datagram dg) s = Ok u →
  let s' := exec (ingest_motion_datagram dg) s in
  ∃ attrs, pushes (SDatagram dg) s =
      [PushFrame (mkRecordedFrame dg.(md_timestamp_ns) s'.(runtime).(Runtime.mode) attrs)] ∧
    Forall2 (recorded_value s'.(runtime) dg.(md_device_id)) (update_of_frame <$> dg.(md_updates)) attrs.
Proof.
  intros Hr Hok s'.
  destruct (ingested_frame dg.(md_device_id) (update_of_frame <$> dg.(md_updates)) dg.(md_timestamp_ns)
    (set_metrics (add_datagram s.(metrics)) s) r u Hr Hok) as [f Hf].
  destruct (record_frame_values _ _ _ _ _ Hf) as (Ht & Hm & Hv). exists (rf_attributes f).
  split; [|exact Hv]. unfold pushes. cbn [succeeds success_pushes exec_server]. rewrite Hok. cbn [is_ok].
  unfold batch_frame. fold s'.
  change (exec (ingest_motion_samples _ _ _) _) with s' in Hf. rewrite Hf.
  change (Runtime.mode _) with (Runtime.mode (runtime s')) in Hm. rewrite <-Hm, <-Ht. by destruct f.
Qed.

(** A call of a take leaves a take running. *)
Lemma take_runs ops s r :
  Forall within_take ops → s.(active_recording) = Some r →
  ∃ r', (run_server ops s).(active_recording) = Some r'.
Proof. intros Hops Hr. rewrite ops_record, Hr by done. by eexists. Qed.

(** C7. What a client sends ends up in the export: pack a batch of samples into
    a datagram, let the server unpack and ingest it while a take runs, among any
    other calls before and after, stop the take, read the file back and export
    it. Then the recording has a frame with the client's time stamp, with one
    value for each sample, the value that the stage had for the attribute that
    the sample drives, and the export has the lines of these values in one
    piece, provided the parts of the take fit the 4 GiB that the format has
    for each. *)
Theorem motion_reaches_export id file start stop device t us bs ops1 ops2 s s' m scene :
  let started := exec (start_recording id file start) s in
  let s1 := run_server ops1 started in
  s.(runtime).(active_scene) = Some scene → Forall within_take (ops1 ++ ops2) →
  send_motion_datagram (mkDatagram device t (frame_of_update <$> us)) = Ok bs →
  ∃ dg, recv_motion_datagram bs = Ok dg ∧
  let s2 := exec (ingest_motion_datagram dg) s1 in
  (result (ingest_motion_datagram dg) s1 = Ok () →
   stop_recording stop (run_server ops2 s2) = (s', Ok m) →
   fits (take_writer id scene start stop
     (start_pushes start s ++ all_pushes (ops1 ++ SDatagram dg :: ops2) started)) →
   ∃ content recording frame before after,
     s'.(disk) !! file = Some content ∧ read_recording content = Ok recording ∧
     frame ∈ recording.(file_frames) ∧ frame.(rf_timestamp_ns) = t ∧
     Forall2 (recorded_value s2.(runtime) device) us frame.(rf_attributes) ∧
     chan_lines recording = before ++ frame_lines frame ++ after).
Proof.
  intros started s1 Hscene Hops Hsend.
  destruct (motion_datagram_roundtrip _ _ _ _ Hsend) as (dg & Hdg & <- & <- & Hus & _).
  exists dg. split; [done|]. intros s2 Hok Hstop Hfit.
  apply Forall_app in Hops as [Hops1 Hops2]. set (ops := ops1 ++ SDatagram dg :: ops2) in *.
  assert (run_server ops started = run_server ops2 s2) as Hrun by (unfold ops, run_server; by rewrite foldl_app).
  rewrite <-Hrun in Hstop.
  destruct (take_written id file start stop ops s s' m scene Hscene) as (_ & _ & _ & content & Hc & Hread);
    [by apply Forall_app; split; [|constructor]|done..|].
  fold started in Hread.
  assert (∃ r, started.(active_recording) = Some r) as [r0 Hr0].
  { unfold started. rewrite start_recording_outcome, Hscene. by eexists. }
  destruct (take_runs ops1 started r0 Hops1 Hr0) as [r Hr].
  destruct (datagram_frame dg s1 r () Hr Hok) as (attrs & Hp & Hv). rewrite Hus in Hv. fold s2 in Hp, Hv.
  match type of Hp with _ = [PushFrame ?f] => set (frame := f) in * end.
  assert (∃ before after, (take_writer id scene start stop (start_pushes start s
    ++ all_pushes ops started)).(frames) = before ++ frame :: after) as (before & after & Hfr).
  { rewrite take_frames. unfold ops. rewrite all_pushes_app. cbn [all_pushes]. fold s1. rewrite Hp.
    unfold pushed_frames. rewrite !omap_app. cbn [omap list_omap]. rewrite app_assoc. by do 2 eexists. }
  eexists content, _, frame, _, _. split; [done|]. split; [exact Hread|].
  unfold chan_lines. cbn [file_frames]. rewrite Hfr. split; [apply elem_of_app; right; constructor|].
  split; [done|]. split; [exact Hv|]. by rewrite bind_app.
Qed.
End pipeline.
