(* ===== verification/ServerSteps.v ===== *)
(** The steps of a connection, seen from the server: which calls a connection
    makes, and what holds however the steps of many connections, of the
    scheduler loops and of the host interleave. *)

From S2P Require Import Prelude Tasks Float IndexMap Protocol Model Transform Runtime Media Codec.
From S2P Require Import Recording WebRtc Transport Server ServerRuntime ServerVideo ServerLoop.
From S2P Require Import ServerSpec ServerSessions ServerTasks.
From stdpp Require Import relations.

Local Open Scope Z_scope.

(** What a connection is made of: the clock and the identifier of its
    handshake, and all that arrives on it. *)
Record Peer := mkPeerInput {
  p_now : Z;
  p_session_id : Uuid;
  p_first : res string ControlMessage;
  p_second : res string ControlMessage;
  p_events : list PeerEvent;
}.

(** The device the client announces. *)
Definition announced (p : Peer) : option Uuid :=
  match p.(p_first) with
  | Ok (CClientHello hello) => Some hello.(ch_device_id)
  | _ => None
  end.

(** The calls a connection makes, and what they take from the client. *)
Definition asks (p : Peer) (op : server_op) : Prop :=
  match op with
  | SDiscovered d n => ∃ hello, p.(p_first) = Ok (CClientHello hello) ∧
      d = hello.(ch_device_id) ∧ n = hello.(ch_device_name)
  | SHello hello => p.(p_first) = Ok (CClientHello hello)
  | SRegister id d req => announced p = Some d ∧ id = p.(p_session_id) ∧
      p.(p_second) = Ok (CRegisterRequest req)
  | STransport d | SAuthenticate d | SSceneSynced d | SActivate d | SClose d _ | SDrain d =>
      announced p = Some d
  | SSetMode _ _ | SReset _ | SCommitScene _ | SCommitObject _ _ =>
      ∃ hello, p.(p_first) = Ok (CClientHello hello) ∧ Operator ∈ hello.(ch_roles)
  | SIngest d us t => ∃ now dg, DatagramReceived now (Some dg) ∈ p.(p_events) ∧
      d = dg.(md_device_id) ∧ us = update_of_frame <$> dg.(md_updates) ∧ t = dg.(md_timestamp_ns)
  | SPushSignal m => announced p = Some m.(from_device)
  | _ => False
  end.

Section steps.
Context {M : Type → Type} `{!IndexMap Uuid M} {fmt : UuidFormat} {crate : WebRtcCrate}
  {fs : FileSystem} {bm : Bincode RecordingManifest} {bk : Bincode (list RecordingMarker)}
  {bf : Bincode RecordedFrame} {texts : ErrorText}.
Implicit Types s : ServerState M.
Implicit Types c : Conn M.
Abbreviation handler := (task (Conn M) ServerError).

(** ** The steps of a handler *)

(** A call that [ok] admits, a step of a video method between two of its
    awaits, the counter of [ingest_motion_datagram], or what [start] and [stop]
    write. *)
Inductive server_micro (ok : ServerState M → server_op → Prop) s : ServerState M → Prop :=
  | micro_call op : ok s op → server_micro ok s (exec_server op s)
  | micro_count : server_micro ok s (set_metrics (add_datagram s.(metrics)) s)
  | micro_video peers w : server_micro ok s (set_webrtc w (set_video_peers peers s))
  | micro_lifecycle addr run res adv : server_micro ok s (set_lifecycle addr run res adv s).

Lemma micro_idle ok s : server_micro ok s s.
Proof. pose proof (micro_video ok s (video_peers s) (webrtc s)) as Hm. by destruct s. Qed.

Lemma micro_mono (ok ok' : ServerState M → server_op → Prop) s s' :
  (∀ op, ok s op → ok' s op) → server_micro ok s s' → server_micro ok' s s'.
Proof. intros Hok []; constructor; auto. Qed.

(** The steps of a connection, and those of them that are not about a session. *)
Definition guarantees (p : Peer) : relation (ServerState M) := server_micro (λ _, asks p).
Definition calm (p : Peer) : relation (ServerState M) :=
  server_micro (λ _ op, asks p op ∧ session_op op = None).

Definition seen (G : relation (ServerState M)) : relation (Conn M) :=
  λ c c', G c.(server) c'.(server).

Lemma steps_in_call {A} (G : relation (ServerState M)) (m : prog (ServerState M) ServerError A) :
  (∀ s, G s (exec m s)) → steps_in (seen G) (ServerTasks.call m).
Proof.
  intros Hm. apply steps_in_atomic. intros c. unfold seen, ServerLoop.call, zoom.
  specialize (Hm (server c)). by destruct (m (server c)).
Qed.

Lemma steps_in_send (G : relation (ServerState M)) msg :
  (∀ s, G s s) → steps_in (seen G) (ServerTasks.control_send msg).
Proof.
  intros HG. apply steps_in_atomic. intros c. unfold seen, ServerLoop.control_send.
  by destruct (link c) as [|[]].
Qed.

Lemma steps_in_call_task {A} (G : relation (ServerState M)) (t : task (ServerState M) ServerError A) :
  steps_in G t → steps_in (seen G) (call_task t).
Proof. intros Ht. by eapply steps_in_zoom. Qed.

(** ** The video methods *)

(** What the video methods may change. *)
Definition video_only s s' : Prop := ∃ peers w, s' = set_webrtc w (set_video_peers peers s).

Lemma video_only_refl s : video_only s s.
Proof. exists (video_peers s), (webrtc s). by destruct s. Qed.

Lemma video_only_peers peers s : video_only s (set_video_peers peers s).
Proof. exists peers, (webrtc s). by destruct s. Qed.

Lemma steps_in_read_lock {A} (f : ServerState M → res ServerError A) : steps_in video_only (read_lock f).
Proof. apply steps_in_atomic. intros s. apply video_only_refl. Qed.

Lemma steps_in_rtc_await {A} (m : prog rtc_world WebRtcError A) : steps_in video_only (rtc_await (M:=M) m).
Proof.
  apply steps_in_atomic. intros s. exists (video_peers s). unfold on_peer, zoom.
  destruct (m (webrtc s)) as [w r]. exists w. by destruct s.
Qed.

Lemma steps_in_insert_peer d p : steps_in video_only (atomic (insert_video_peer (M:=M) d p)).
Proof.
  apply steps_in_atomic. intros s. unfold insert_video_peer. unfold_prog.
  destruct (video_peers s !! d); [apply video_only_refl|apply video_only_peers].
Qed.

Lemma steps_in_mark_track d : steps_in video_only (atomic (mark_track (M:=M) d)).
Proof. apply steps_in_atomic. intros s. apply video_only_peers. Qed.

Lemma steps_in_video_peer d : steps_in video_only (atomic (video_peer (M:=M) d)).
Proof. apply steps_in_atomic. intros s. apply video_only_refl. Qed.

#[local] Hint Resolve steps_in_read_lock steps_in_rtc_await steps_in_insert_peer steps_in_mark_track
  steps_in_video_peer steps_in_done steps_in_ret : tasks.

Lemma steps_in_offer d a b : steps_in video_only (ServerTasks.create_video_offer (M:=M) d a b).
Proof.
  unfold ServerTasks.create_video_offer, ServerTasks.ensure_video_peer, ServerTasks.ensure_track.
  steps_walk.
Qed.

Lemma steps_in_signal d p : steps_in video_only (ServerTasks.handle_video_signal (M:=M) d p).
Proof.
  unfold ServerTasks.handle_video_signal, ServerTasks.ensure_video_peer, ServerTasks.ensure_track.
  steps_walk.
Qed.

(** ** The rounds of the loop *)

Lemma calm_video p s s' : video_only s s' → calm p s s'.
Proof. intros (peers & w & ->). constructor. Qed.

Lemma calm_guarantees p s s' : calm p s s' → guarantees p s s'.
Proof. apply micro_mono. by intros op [? _]. Qed.

Lemma steps_in_quiet_call {A} p op (m : prog (ServerState M) ServerError A) :
  asks p op → session_op op = None → (∀ s, exec m s = exec_server op s) →
  steps_in (seen (calm p)) (ServerTasks.call m).
Proof. intros Hask Hop Hm. apply steps_in_call. intros s. rewrite Hm. by constructor. Qed.

Lemma steps_in_quiet_send p msg : steps_in (seen (calm p)) (ServerTasks.control_send msg).
Proof. apply steps_in_send. apply micro_idle. Qed.

Lemma steps_in_send_mode p : steps_in (seen (calm p)) (send_mode (M:=M)).
Proof.
  apply steps_in_bind; [apply steps_in_call; intros s; apply micro_idle|].
  intros m. apply steps_in_quiet_send.
Qed.

Lemma steps_in_ingest p now dg :
  DatagramReceived now (Some dg) ∈ p.(p_events) →
  steps_in (seen (calm p)) (ServerTasks.ingest_motion_datagram dg).
Proof.
  intros Hdg. apply steps_in_bind; [apply steps_in_call; intros s; apply micro_count|]. intros _.
  apply (steps_in_quiet_call p (SIngest dg.(md_device_id) (update_of_frame <$> dg.(md_updates))
    dg.(md_timestamp_ns))); [|done|done]. by exists now, dg.
Qed.

Lemma steps_in_video {A} p (t : task (ServerState M) ServerError A) :
  steps_in video_only t → steps_in (seen (calm p)) (call_task t).
Proof. intros Ht. apply steps_in_call_task. eapply steps_in_mono; [apply calm_video|done]. Qed.

(** A property of rounds that holds of the two ways a round ends, and that
    steps that are not about sessions do not affect. *)
Section round_rule.
Context (p : Peer) (hello : ClientHello) (Hfirst : p.(p_first) = Ok (CClientHello hello)).
Context (P : handler LoopStep → Prop).
Context (Hcontinue : P (mret Continue)) (Hpanic : P (Done Panicked)).
Context (Hbreak : ∀ now, P (ServerTasks.close_quietly hello.(ch_device_id) now;; mret Break)).
Context (Hbind : ∀ A (t : handler A) f,
  steps_in (seen (calm p)) t → (∀ a, P (f a)) → P (t ≫= f)).

Lemma announced_hello : announced p = Some hello.(ch_device_id).
Proof. unfold announced. by rewrite Hfirst. Qed.

Lemma rule_reply now code reason : P (ServerTasks.reply_error hello now code reason).
Proof. apply Hbind; [apply steps_in_attempt, steps_in_quiet_send|]. intros [a|e|]; auto. Qed.

Lemma rule_answer {A} now (t : handler A) (on_ok : A → handler ()) :
  steps_in (seen (calm p)) t → (∀ a, steps_in (seen (calm p)) (on_ok a)) →
  P (ServerTasks.answer hello now t on_ok).
Proof.
  intros Ht Hok. apply Hbind; [by apply steps_in_attempt|]. intros [a|e|]; [|apply rule_reply|done].
  by apply Hbind.
Qed.

Lemma rule_call {A} op now (m : prog (ServerState M) ServerError A) (on_ok : A → handler ()) :
  asks p op → session_op op = None → (∀ s, exec m s = exec_server op s) →
  (∀ a, steps_in (seen (calm p)) (on_ok a)) →
  P (ServerTasks.answer hello now (ServerTasks.call m) on_ok).
Proof. intros Hask Hop Hm Hok. apply rule_answer; [by eapply steps_in_quiet_call|done]. Qed.

(** The arms for the operator. *)
Lemma rule_operator {A} op now reason (m : prog (ServerState M) ServerError A) (on_ok : A → handler ()) :
  (Operator ∈ hello.(ch_roles) → asks p op) → session_op op = None →
  (∀ s, exec m s = exec_server op s) → (∀ a, steps_in (seen (calm p)) (on_ok a)) →
  P (ServerTasks.operator_only hello now reason
    (ServerTasks.answer hello now (ServerTasks.call m) on_ok)).
Proof.
  intros Hask Hop Hm Hok. unfold ServerTasks.operator_only. destruct (decide _) as [|Hn]; [apply rule_reply|].
  apply (rule_call op); [|done..]. apply Hask. destruct (decide (Operator ∈ ch_roles hello)); [done|by destruct Hn].
Qed.

Lemma rule_control now msg : P (ServerTasks.on_control hello now msg).
Proof.
  pose proof (steps_in_quiet_send p) as Hsend.
  destruct msg; cbn [ServerTasks.on_control]; try apply rule_reply; try done.
  - destruct (decide _) as [|Hfrom]; [apply rule_reply|]. destruct (decide _).
    + apply rule_answer; [apply steps_in_video, steps_in_signal|]. by intros [sdp|].
    + apply (rule_call (SPushSignal m)); [|done..]. cbn. rewrite announced_hello.
      by destruct (decide (from_device m = ch_device_id hello)) as [->|].
  - by apply (rule_call (SDrain (ch_device_id hello))); [apply announced_hello|..].
  - apply rule_answer; [apply steps_in_video, steps_in_offer|]. by intros.
  - apply Hbind; [apply Hsend|]. intros _. apply Hbind; [apply steps_in_send_mode|]. by intros _.
  - apply (rule_operator (SSetMode mode now)); [by exists hello|done|done|]. intros _. apply steps_in_send_mode.
  - apply (rule_operator (SReset scene_id)); [by exists hello|done|done|intros; apply Hsend].
  - apply (rule_operator (SCommitScene scene_id)); [by exists hello|done|done|intros; apply Hsend].
  - apply (rule_operator (SCommitObject scene_id object_id)); [by exists hello|done|done|intros; apply Hsend].
Qed.

Lemma rule_round ev : ev ∈ p.(p_events) → P (ServerTasks.loop_round hello ev).
Proof.
  intros Hev. destruct ev as [now [msg|]|now [frame|]]; cbn [ServerTasks.loop_round]; try apply Hbreak.
  - apply rule_control.
  - apply Hbind; [by eapply steps_in_attempt, steps_in_ingest|]. by intros [a|e|].
Qed.
End round_rule.

(** ** The steps of a whole connection *)

(** The handler of [p]; its state of its own is what was sent and what becomes
    of the next sends. *)
Definition serve_peer (p : Peer) : handler (option (ClientHello * res ServerError LoopStep)) :=
  serve p.(p_now) p.(p_session_id) p.(p_first) p.(p_second) p.(p_events).

Lemma steps_in_own_call {A} p op (m : prog (ServerState M) ServerError A) :
  asks p op → (∀ s, exec m s = exec_server op s) →
  steps_in (seen (guarantees p)) (ServerTasks.call m).
Proof. intros Hop Hm. apply steps_in_call. intros s. rewrite Hm. by constructor. Qed.

Lemma steps_in_calm {A} p (t : handler A) :
  steps_in (seen (calm p)) t → steps_in (seen (guarantees p)) t.
Proof. apply steps_in_mono. intros c c'. apply calm_guarantees. Qed.

Section own_steps.
Context (p : Peer) (hello : ClientHello) (Hfirst : p.(p_first) = Ok (CClientHello hello)).
Abbreviation d := (hello.(ch_device_id)).

Lemma steps_in_close now :
  steps_in (seen (guarantees p)) (ServerTasks.close_quietly d now).
Proof.
  apply steps_in_bind; [|done]. apply steps_in_attempt, (steps_in_own_call _ (SClose d now)); [|done].
  by apply (announced_hello p hello).
Qed.

Lemma steps_in_loop evs :
  (∀ ev, ev ∈ evs → ev ∈ p.(p_events)) →
  steps_in (seen (guarantees p)) (ServerTasks.control_loop hello evs).
Proof.
  induction evs as [|ev evs IH]; intros Hevs; [done|].
  apply steps_in_bind; [|intros [|]; [apply IH; intros ev' ?; apply Hevs; by right|done]].
  apply (rule_round p); [done..| | |apply Hevs; by left].
  - intros now. apply steps_in_bind; [apply steps_in_close|done].
  - intros A t f Ht Hf. apply steps_in_bind; [by apply steps_in_calm|done].
Qed.

Lemma steps_in_admit req :
  p.(p_second) = Ok (CRegisterRequest req) →
  steps_in (seen (guarantees p)) (let_in p.(p_now) p.(p_session_id) d req).
Proof.
  intros Hreq. pose proof (steps_in_quiet_send p) as Hsend. pose proof (steps_in_close p.(p_now)).
  apply steps_in_bind.
  { apply steps_in_attempt, (steps_in_own_call _ (SRegister p.(p_session_id) d req)); [|done].
    split_and!; [by apply (announced_hello p hello)|done|done]. }
  intros [acc|[]|]; repeat (apply steps_in_bind; [done || by apply steps_in_calm|intros ?]); try done.
Qed.

Lemma steps_in_greeted :
  steps_in (seen (guarantees p)) (
    ServerTasks.call (discovered d hello.(ch_device_name));;
    ServerTasks.call (transport_connected d);;
    ServerTasks.call (hello_exchanged hello);;
    ServerTasks.call (authenticate d);;
    m ← Done (map_err ERuntime p.(p_second));
    match m with
    | CRegisterRequest req =>
        ok ← let_in p.(p_now) p.(p_session_id) d req;
        if ok : bool then
          ServerTasks.call (scene_synced d);;
          ServerTasks.call (activate d);;
          mret (Some hello)
        else mret None
    | _ => Done (Err (ERuntime "expected RegisterRequest after ClientHello"))
    end).
Proof.
  assert (announced p = Some d) as Hd by by apply (announced_hello p hello).
  apply steps_in_bind.
  { apply (steps_in_own_call p (SDiscovered d hello.(ch_device_name))); [|done]. by exists hello. }
  intros _. apply steps_in_bind; [by apply (steps_in_own_call p (STransport d))|].
  intros _. apply steps_in_bind; [by apply (steps_in_own_call p (SHello hello))|].
  intros _. apply steps_in_bind; [by apply (steps_in_own_call p (SAuthenticate d))|].
  intros _. destruct (p_second p) as [m|e|] eqn:Hsecond; [|done..].
  change (Done (map_err ERuntime (Ok ?m)) ≫= ?f) with (f m). cbv beta iota. destruct m; try done.
  apply steps_in_bind; [by apply steps_in_admit|]. intros [|]; [|done].
  apply steps_in_bind; [by apply (steps_in_own_call p (SSceneSynced d))|].
  intros _. apply steps_in_bind; [|done]. by apply (steps_in_own_call p (SActivate d)).
Qed.
End own_steps.

Lemma handshake_yields p (P : res ServerError (option ClientHello) → Prop) :
  (∀ e, P (Err e)) → P Panicked → P (Ok None) →
  (∀ hello, p.(p_first) = Ok (CClientHello hello) → P (Ok (Some hello))) →
  yields P (ServerTasks.handshake (M:=M) p.(p_now) p.(p_session_id) p.(p_first) p.(p_second)).
Proof.
  intros He Hp Hn Hs. unfold ServerTasks.handshake.
  do 2 (apply yields_bind, yields_any; intros [?|?|]; [|solve [done|exact (He _)]..]).
  destruct (p_first p) as [[]|e|] eqn:Hfirst; try done;
    change (Done (map_err ERuntime (Ok ?m)) ≫= ?f) with (f m); cbv beta iota zeta; try exact (He _).
  do 4 (apply yields_bind, yields_any; intros [?|?|]; [|solve [done|exact (He _)]..]).
  destruct (p_second p) as [[]|e|]; try exact (He _); try done;
    change (Done (map_err ERuntime (Ok ?m)) ≫= ?f) with (f m); cbv beta iota; try exact (He _).
  apply yields_bind, yields_any. intros [[]|?|]; [|solve [done|exact (He _)]..].
  do 2 (apply yields_bind, yields_any; intros [?|?|]; [|solve [done|exact (He _)]..]). by apply Hs.
Qed.

Lemma steps_in_handshake p : steps_in (seen (guarantees p))
  (ServerTasks.handshake (M:=M) p.(p_now) p.(p_session_id) p.(p_first) p.(p_second)).
Proof.
  unfold ServerTasks.handshake.
  apply steps_in_bind; [apply steps_in_calm, steps_in_call; intros s; apply micro_idle|]. intros h.
  apply steps_in_bind; [apply steps_in_calm, steps_in_quiet_send|]. intros _.
  destruct (p_first p) as [m|e|] eqn:Hfirst; [|done..].
  change (Done (map_err ERuntime (Ok ?m)) ≫= ?f) with (f m). cbv beta iota zeta. destruct m; try done.
  by apply steps_in_greeted.
Qed.

Lemma steps_in_serve p : steps_in (seen (guarantees p)) (serve_peer p).
Proof.
  apply steps_in_bind_yields; [apply steps_in_handshake|]. apply handshake_yields; [done..|].
  intros hello Hfirst. apply steps_in_bind; [by apply steps_in_attempt, steps_in_loop|done].
Qed.

(** ** Runs of all connections *)

Definition own c : list ControlMessage * list bool := (c.(sent), c.(link)).
Definition resume s (l : list ControlMessage * list bool) : Conn M := mkConn s l.1 l.2.

(** A connection that was just accepted; [link] is what becomes of its sends. *)
Abbreviation connection := (thread Peer (list ControlMessage * list bool) (Conn M) ServerError
  (option (ClientHello * res ServerError LoopStep))).

Definition accept (p : Peer) (link : list bool) : connection := mkThread p ([], link) (serve_peer p).

(** Every step of a connection that was accepted is one of its calls. *)
Definition proper (th : connection) : Prop := steps_in (seen (guarantees (tag th))) (code th).

Lemma proper_step s th c t :
  proper th → task_step (code th) (resume s (local th)) = Some (c, t) →
  proper (mkThread (tag th) (own c) t) ∧ guarantees (tag th) s c.(server).
Proof. intros Hin Hs. destruct (steps_in_step _ _ _ _ _ Hin Hs) as [Hg Ht]. by split. Qed.

(** The same without a word on devices: any connections, among any calls. *)
Definition any_step (ok : ServerState M → server_op → Prop) (fine : Peer → Prop) :
    relation (ServerState M * list connection) :=
  pool_step resume server own (server_micro ok) (λ _ th, ∃ p link, th = accept p link ∧ fine p).

Lemma any_steps (ok : ServerState M → server_op → Prop) fine s0 s ths :
  (∀ s p op, fine p → asks p op → ok s op) →
  rtc (any_step ok fine) (s0, []) (s, ths) → rtc (server_micro ok) s0 s.
Proof.
  intros Hok Hs.
  assert (Forall (λ th, proper th ∧ fine (tag th)) ths ∧ rtc (server_micro ok) s0 s) as [_ Hg].
  { eapply (pool_threads resume server own _ _ _ _ (s0, []) (s, ths)); [..|exact Hs|by constructor]; [|done|].
    - intros s1 s2 th c t [Hp Hf] Ht ->. destruct (proper_step s1 th c t Hp Ht) as [Hp' Hg].
      split; [done|]. eapply micro_mono; [|exact Hg]. intros op. by apply Hok.
    - intros _ th (p & link & -> & Hf). split; [apply steps_in_serve|done]. }
  exact Hg.
Qed.

Lemma micro_sessions_wf s s' :
  server_micro (λ _, server_op_ok) s s' → sessions_wf s → sessions_wf s'.
Proof. intros [op Hop| | |] Hwf; [by apply sessions_wf_step|by destruct Hwf..]. Qed.

(** C15. No two sessions in service have the same name, however many
    connections are served at once, whatever devices they announce, and
    however their steps interleave with each other and with the host, as long
    as clients announce trimmed names. *)
Theorem concurrent_names_unique cfg w dk s ths d d' x x' :
  rtc (any_step (λ _, server_op_ok) (λ p, ∀ hello, p.(p_first) = Ok (CClientHello hello) →
    trim hello.(ch_device_name) = hello.(ch_device_name)))
    (ServerHandle_new cfg w dk, []) (s, ths) →
  s.(sessions) !! d = Some x → s.(sessions) !! d' = Some x' →
  in_service x = true → in_service x' = true → x.(s_device_name) = x'.(s_device_name) → d = d'.
Proof.
  intros Hs Hx Hx' Hi Hi' Hn. apply any_steps in Hs.
  - assert (sessions_wf s) as Hwf.
    { revert Hs. apply (rtc_ind_r sessions_wf).
      - split; intros *; simpl; by rewrite lookup_empty.
      - intros s1 s2 _ Hm IH. by eapply micro_sessions_wf. }
    eapply (swf_names _ Hwf); eauto; by eapply (swf_registered _ Hwf).
  - intros s1 p op Hf Hop. destruct op; try done. destruct Hop as (h & ? & -> & ->). by apply Hf.
Qed.
End steps.
