(* ===== verification/ServerCore.v ===== *)
(** The server on top of the runtime: every call of the server drives the
    runtime by its own calls, so that what holds of every reachable runtime
    ([RuntimeInv.v]) holds of the runtime of every server. *)

From S2P Require Import Prelude Tasks Float IndexMap Protocol Model Transform Runtime RuntimeSpec.
From S2P Require Import Media Codec Recording WebRtc Transport Server ServerRuntime ServerVideo.
From S2P Require Import ServerLoop ServerSpec ServerSessions ServerTasks ServerSteps.
From stdpp Require Import relations.

Local Open Scope Z_scope.

Section core.
Context {M : Type → Type} `{!IndexMap Uuid M} {fmt : UuidFormat} {crate : WebRtcCrate}
  {fs : FileSystem} {bm : Bincode RecordingManifest} {bk : Bincode (list RecordingMarker)}
  {bf : Bincode RecordedFrame} {texts : ErrorText}.
Implicit Types s : ServerState M.














(** ** Servers and runtimes *)






End core.
