(* ===== verification/ServerPool.v ===== *)
(** Connections side by side: what a client can rely on, whatever the other
    connections, the scheduler loops and the host do between the steps of its
    own. *)

From S2P Require Import Prelude Tasks Float IndexMap Protocol Model Transform Runtime Media Codec.
From S2P Require Import Recording WebRtc Transport Server ServerRuntime ServerVideo ServerLoop.
From S2P Require Import ServerSpec ServerSessions ServerPeer ServerControl ServerTasks ServerSteps.
From stdpp Require Import relations.

Local Open Scope Z_scope.

Section pool.
Context {M : Type → Type} `{!IndexMap Uuid M} {fmt : UuidFormat} {crate : WebRtcCrate}
  {fs : FileSystem} {bm : Bincode RecordingManifest} {bk : Bincode (list RecordingMarker)}
  {bf : Bincode RecordedFrame} {texts : ErrorText}.
Implicit Types s : ServerState M.
Implicit Types c : Conn M.
Abbreviation handler := (task (Conn M) ServerError).

(** The devices whose sessions the host handles itself, through the methods of
    the server's handle: no connection announces them. *)
Context (hosts : Uuid → Prop).

(** ** What a connection relies on *)

(** What is read of a server about one device: its session and what
    registration asks for. *)
Definition view (d : Uuid) s : option SessionInfo * (SecurityMode * option string * option string) :=
  (s.(sessions) !! d, (s.(config).(security_mode), s.(config).(pairing_token), s.(config).(Server.api_key))).

Definition relies (p : Peer) : relation (ServerState M) := λ s s',
  match announced p with Some d => hosts d ∨ view d s' = view d s | None => True end.

#[global] Instance relies_preorder p : PreOrder (relies p).
Proof.
  unfold relies. split.
  - intros s. destruct (announced p); [by right|done].
  - intros s s' s'' H1 H2. destruct (announced p); [|done].
    destruct H1 as [?|H1], H2 as [?|H2]; [by left..|]. right. congruence.
Qed.

Lemma micro_frame ok d s s' :
  server_micro ok s s' → (∀ op, ok s op → session_op op ≠ Some d) → view d s' = view d s.
Proof.
  intros Hm Hok. destruct Hm as [op Hop| | |]; [|done..]. unfold view. rewrite exec_config. f_equal.
  destruct (session_op op) as [d'|] eqn:Hd.
  - destruct (session_effect op d' s Hd) as [->|(y & -> & _)]; [done|].
    apply lookup_insert_ne. intros ->. by apply (Hok op).
  - by rewrite other_op_sessions.
Qed.

(** What is not a connection's: the calls of the host, on sessions only of the
    devices it handles itself, and the scheduler loops, video calls, [start]
    and [stop]. *)
Definition outside : relation (ServerState M) :=
  server_micro (λ _ op, ∀ d, session_op op = Some d → hosts d).

Lemma micro_view ok d s s' :
  server_micro ok s s' → (∀ op, ok s op → session_op op = Some d → hosts d) →
  hosts d ∨ view d s' = view d s.
Proof.
  intros Hm Hok. destruct Hm as [op Hop| | |]; [|by right..].
  destruct (decide (session_op op = Some d)) as [Hd|Hd]; [left; by eapply Hok|right].
  eapply (micro_frame (λ s' op', s' = s ∧ op' = op)); [by apply micro_call|]. by intros op' [_ ->].
Qed.

Lemma outside_relies p s s' : outside s s' → relies p s s'.
Proof.
  intros Hc. unfold relies. destruct (announced p) as [d|]; [|done].
  eapply micro_view; [exact Hc|]. intros op Hop. apply Hop.
Qed.

Lemma calm_frame p d s s' : calm p s s' → view d s' = view d s.
Proof. intros Hc. eapply micro_frame; [exact Hc|]. by intros op [_ ->]. Qed.

(** A connection calls for no session but its own. *)
Lemma asks_session p op d : asks p op → session_op op = Some d → announced p = Some d.
Proof.
  destruct op; cbn; intros Ha [= <-]; try done; try naive_solver.
  - destruct Ha as (hello & Hf & -> & _). unfold announced. by rewrite Hf.
  - unfold announced. by rewrite Ha.
Qed.

(** Connections of different devices get along. *)
Lemma guarantees_relies p p' s s' :
  (announced p' = None ∨ announced p' ≠ announced p) → guarantees p s s' → relies p' s s'.
Proof.
  unfold relies. intros Hne Hg. destruct (announced p') as [d|] eqn:Ha; [|done]. right.
  eapply micro_frame; [exact Hg|]. intros op Hop Hs. apply (asks_session p op d Hop) in Hs.
  destruct Hne as [|Hne]; [done|]. congruence.
Qed.

(** ** One connection among others *)

Definition others (p : Peer) : relation (Conn M) := lift_rely server own (relies p).
Definition steps (p : Peer) : relation (Conn M) := lift_guar server (guarantees p).

#[global] Instance others_preorder p : PreOrder (others p).
Proof. apply lift_rely_preorder, _. Qed.

Lemma peer_bind {A B} p (t : handler A) (f : A → handler B) (Q : res ServerError B → Conn M → Prop) c :
  meets (others p) (steps p) t (λ r c, match r with
    | Ok a => meets (others p) (steps p) (f a) Q c
    | Err e => Q (Err e) c
    | Panicked => Q Panicked c
    end) c →
  meets (others p) (steps p) (t ≫= f) Q c.
Proof. apply (meets_bind _ _). Qed.

(** [v] is what is read of the connection's device. *)
Definition viewing (p : Peer) v c : Prop :=
  ∃ d, announced p = Some d ∧ ¬ hosts d ∧ view d c.(server) = v.

Lemma viewing_others p v c c' : others p c c' → viewing p v c → viewing p v c'.
Proof.
  intros [_ Hr] (d & Hd & Hh & Hv). exists d. split_and!; [done..|]. unfold relies in Hr. rewrite Hd in Hr.
  destruct Hr as [?|Hr]; [done|congruence].
Qed.

(** What is not about sessions leaves the view. *)
Lemma meets_quiet {A} p v (t : handler A) (Q : res ServerError A → Conn M → Prop) c :
  steps_in (seen (calm p)) t → viewing p v c → (∀ r c, viewing p v c → Q r c) →
  meets (others p) (steps p) t Q c.
Proof.
  intros Ht Hv HQ. apply (steps_in_meets (seen (calm p)) _ _ (viewing p v)); try done.
  - intros c1 c2. apply viewing_others.
  - intros c1 c2 Hc (d & Hd & Hh & Hv1). split; [|by apply calm_guarantees].
    exists d. split_and!; [done..|]. by rewrite (calm_frame p d _ _ Hc).
Qed.

(** A call of the handler on its own session. *)
Lemma meets_op {A} p d v op (m : prog (ServerState M) ServerError A)
    (Q : res ServerError A → Conn M → Prop) c :
  announced p = Some d → ¬ hosts d → view d c.(server) = v → asks p op → (∀ s, exec m s = exec_server op s) →
  (∀ s c', view d s = v → view d c'.(server) = view d (exec m s) → Q (result m s) c') →
  meets (others p) (steps p) (ServerTasks.call m) Q c.
Proof.
  intros Hd Hh Hv Hop Hm HQ. apply meets_atomic. intros c1 [_ Hr]. unfold relies in Hr. rewrite Hd in Hr.
  destruct Hr as [?|Hr]; [done|].
  unfold ServerLoop.call, zoom. specialize (HQ (server c1)). specialize (Hm (server c1)).
  destruct (m (server c1)) as [s1 r]. cbn in *. split.
  - unfold steps, lift_guar. cbn. rewrite Hm. by constructor.
  - intros c2 [_ Hr2]. unfold relies in Hr2. rewrite Hd in Hr2. destruct Hr2 as [?|Hr2]; [done|].
    assert (map_err (λ e, e) r = r) as -> by by destruct r. apply HQ; [congruence|done].
Qed.

(** ** The loop *)

(** The view after the session was closed. *)
Definition closed_view (x : SessionInfo) {C} (v : option SessionInfo * C) : option SessionInfo * C :=
  (Some (set_s_state Closed x), v.2).

(** What a round leaves: the session as it is, until the loop ends. *)
Definition round_post (p : Peer) (x : SessionInfo) v (r : res ServerError LoopStep) c : Prop :=
  match r with
  | Ok Break => viewing p (closed_view x v) c
  | _ => viewing p v c
  end.

Definition round (p : Peer) (x : SessionInfo) v (t : handler LoopStep) : Prop :=
  ∀ c, viewing p v c → meets (others p) (steps p) t (round_post p x v) c.

Section loop.
Context (p : Peer) (hello : ClientHello) (x : SessionInfo)
  (v : option SessionInfo * (SecurityMode * option string * option string)).
Context (Hfirst : p.(p_first) = Ok (CClientHello hello)) (Hx : v.1 = Some x)
  (Hst : can_transition_to x.(s_state) Closed = true).

Lemma close_view now s : view hello.(ch_device_id) s = v →
  view hello.(ch_device_id) (exec (close_session hello.(ch_device_id) now) s) = closed_view x v.
Proof.
  intros <-. rewrite close_session_steps, change_session_state_outcome. cbn in Hx.
  change (sessions (disconnected _ now s)) with (sessions s). rewrite Hx, Hst.
  unfold view, closed_view. cbn. by rewrite lookup_insert_eq.
Qed.

Lemma meets_close now (Q : res ServerError () → Conn M → Prop) c :
  viewing p v c → (∀ c, viewing p (closed_view x v) c → Q (Ok ()) c) →
  meets (others p) (steps p) (ServerTasks.close_quietly hello.(ch_device_id) now) Q c.
Proof.
  intros (d & Hd & Hh & Hv) HQ. rewrite (announced_hello p hello Hfirst) in Hd. injection Hd as <-.
  apply peer_bind. apply meets_attempt.
  apply (meets_op p hello.(ch_device_id) v (SClose hello.(ch_device_id) now)); try done.
  - by apply (announced_hello p hello).
  - by apply (announced_hello p hello).
  - intros s c' Hs Hc'. rewrite close_view in Hc' by done.
    assert (viewing p (closed_view x v) c') as Hcl
      by (exists hello.(ch_device_id); split_and!; [by apply (announced_hello p hello)|done..]).
    pose proof (close_session_result hello.(ch_device_id) now s).
    destruct (result (close_session _ now) s); [..|done];
      intros c2 Hc2; apply HQ; by eapply viewing_others.
Qed.

Lemma round_loop ev : ev ∈ p.(p_events) → round p x v (ServerTasks.loop_round hello ev).
Proof.
  intros Hev. apply (rule_round p hello Hfirst); [..|done].
  - intros c Hv c' Hc. by eapply viewing_others.
  - intros c Hv c' Hc. by eapply viewing_others.
  - intros now c Hv. apply peer_bind, meets_close; [done|]. intros c1 Hc1 c2 Hc2. by eapply viewing_others.
  - intros A t f Ht Hf c Hv. apply peer_bind, meets_quiet with v; [done|done|].
    intros [a|e|] c' Hc'; [by apply Hf|done|done].
Qed.

Lemma round_control_loop evs :
  (∀ ev, ev ∈ evs → ev ∈ p.(p_events)) → round p x v (ServerTasks.control_loop hello evs).
Proof.
  induction evs as [|ev evs IH]; cbn [ServerTasks.control_loop]; intros Hevs c Hv.
  { intros c' Hc. by eapply viewing_others. }
  assert (ev ∈ p.(p_events)) as Hev by (apply Hevs; by left).
  apply peer_bind. eapply meets_conseq; [exact (round_loop ev Hev c Hv)|].
  intros [[]|e|] c' Hc'; [apply IH; [intros ev' ?; apply Hevs; by right|done]| |done..].
  intros c2 Hc2. by eapply viewing_others.
Qed.
End loop.

(** ** The handshake *)

Definition secrets s := (view 0%N s).2.

Lemma authorized_secrets s s' req :
  secrets s' = secrets s → authorized s.(config) req → authorized s'.(config) req.
Proof. unfold secrets, view, authorized. cbn. by intros [= -> -> ->]. Qed.

(** The client was let in with [req] and its session is in state [st]. *)
Definition served (p : Peer) (hello : ClientHello) (st : SessionState) s : Prop :=
  p.(p_first) = Ok (CClientHello hello) ∧
  (∃ req, p.(p_second) = Ok (CRegisterRequest req) ∧ authorized s.(config) req) ∧
  s.(sessions) !! hello.(ch_device_id) = Some (client_session hello (Some p.(p_session_id)) st).

(** The client was turned away. *)
Definition turned_away (p : Peer) s : Prop :=
  ∃ hello, p.(p_first) = Ok (CClientHello hello) ∧
  s.(sessions) !! hello.(ch_device_id) = Some (client_session hello None Closed).

Definition handshake_post (p : Peer) (r : res ServerError (option ClientHello)) c : Prop :=
  match r with
  | Ok (Some hello) => served p hello Active c.(server)
  | Ok None => turned_away p c.(server)
  | _ => True
  end.

Section handshake.
Context (p : Peer) (hello : ClientHello) (Hfirst : p.(p_first) = Ok (CClientHello hello)).
Abbreviation d := (hello.(ch_device_id)).
Abbreviation meets_peer := (meets (others p) (steps p)).

(** A call that is sure of its result, given the view. *)
Lemma meets_move {A} v v' op (m : prog (ServerState M) ServerError A) (a : A)
    (Q : res ServerError A → Conn M → Prop) c :
  viewing p v c → asks p op → (∀ s, exec m s = exec_server op s) →
  (∀ s, view d s = v → result m s = Ok a ∧ view d (exec m s) = v') →
  (∀ c', viewing p v' c' → Q (Ok a) c') →
  meets_peer (ServerTasks.call m) Q c.
Proof.
  intros (d' & Hd & Hh & Hv) Hop Hm Ha HQ. assert (d' = d) as -> by (unfold announced in Hd; rewrite Hfirst in Hd; congruence).
  eapply meets_op; [done|done|done|done|done|]. intros s c' Hs Hc'. destruct (Ha s Hs) as [-> Hv'].
  apply HQ. exists d. split_and!; [done..|congruence].
Qed.

Lemma announced_own : announced p = Some d.
Proof. by apply (announced_hello p hello). Qed.

Lemma change_view x sec next s :
  can_transition_to x.(s_state) next = true → view d s = (Some x, sec) →
  result (change_session_state d next) s = Ok () ∧
  view d (exec (change_session_state d next) s) = (Some (set_s_state next x), sec).
Proof.
  unfold view. intros Ht [= Hx Hsec]. rewrite (change_ok d x) by done. cbn.
  by rewrite lookup_insert_eq, Hsec.
Qed.

Lemma meets_next op next x sec (Q : res ServerError () → Conn M → Prop) c :
  asks p op → (∀ s, exec (change_session_state d next) s = exec_server op s) →
  can_transition_to x.(s_state) next = true → viewing p (Some x, sec) c →
  (∀ c', viewing p (Some (set_s_state next x), sec) c' → Q (Ok ()) c') →
  meets_peer (ServerTasks.call (change_session_state d next)) Q c.
Proof.
  intros Hop Hm Ht Hv HQ. eapply (meets_move _ _ op); [done|done|done|by intros; apply change_view|done].
Qed.

Lemma meets_activate x sec (Q : res ServerError () → Conn M → Prop) c :
  x.(s_state) = SceneSynced → viewing p (Some x, sec) c →
  (∀ c', viewing p (Some (set_s_state Active x), sec) c' → Q (Ok ()) c') →
  meets_peer (ServerTasks.call (activate d)) Q c.
Proof.
  intros Hst Hv HQ.
  eapply (meets_move _ _ (SActivate d)); [done|exact announced_own|done| |done].
  intros s Hs. apply (change_view x sec Active (set_runtime (exec (register_device_connected d) s.(runtime)) s)); [|done].
  by rewrite Hst.
Qed.

(** The session once the client is greeted. *)
Lemma meets_discovered (Q : res ServerError () → Conn M → Prop) c :
  ¬ hosts d →
  (∀ e c', Q (Err e) c') →
  (∀ sec c', viewing p (Some (mkSession d hello.(ch_device_name) None [] [] [] Discovered), sec) c' →
     Q (Ok ()) c') →
  meets_peer (ServerTasks.call (discovered d hello.(ch_device_name))) Q c.
Proof.
  intros Hh He HQ. assert (announced p = Some d) as Hd by (unfold announced; by rewrite Hfirst).
  eapply (meets_op _ d _ (SDiscovered d hello.(ch_device_name))); [done|done|done| |done|].
  { by exists hello. }
  intros s c' Hs Hc'. unfold discovered, enforce_capacity in *. revert Hc'. unfold_prog.
  destruct (decide (sessions s !! d = None)); [destruct (decide _); [intros; apply He|]|];
    intros Hc'; apply (HQ (view d s).2); exists d; (split_and!; [done..|]); rewrite Hc'; cbn;
    unfold view; cbn; by rewrite lookup_insert_eq.
Qed.

Lemma meets_hello x sec (Q : res ServerError () → Conn M → Prop) c :
  x.(s_state) = TransportConnected → viewing p (Some x, sec) c → (∀ e c', Q (Err e) c') →
  (∀ c', viewing p (Some (set_s_state HelloExchanged (set_s_hello hello x)), sec) c' → Q (Ok ()) c') →
  meets_peer (ServerTasks.call (hello_exchanged hello)) Q c.
Proof.
  intros Hst (d' & Hd & Hh & Hv) He HQ.
  assert (d' = d) as -> by (unfold announced in Hd; rewrite Hfirst in Hd; congruence).
  eapply (meets_op _ d _ (SHello hello)); [done|done|exact Hv|done|done|].
  intros s c' Hs Hc'. unfold view in Hs. injection Hs as Hx Hsec.
  destruct (hello_outcome hello x s Hx Hst) as [(_&_&_&_&_&Ho)|[_ (e & Ho)]]; rewrite Ho in *; [|apply He].
  apply HQ. exists d. split_and!; [done..|]. rewrite Hc'. unfold view. cbn. by rewrite lookup_insert_eq, Hsec.
Qed.

(** Registration admits with the secrets of the server, or changes nothing. *)
Lemma meets_register req x sec (Q : res ServerError RegisterAccepted → Conn M → Prop) c :
  p.(p_second) = Ok (CRegisterRequest req) → x.(s_state) = Authenticated → viewing p (Some x, sec) c →
  (∀ rej c', viewing p (Some x, sec) c' → Q (Err (ERegisterRejected rej)) c') →
  (∀ acc c', viewing p (Some (set_s_state Registered (set_s_session_id p.(p_session_id) x)), sec) c' →
     (∀ s, secrets s = sec → authorized s.(config) req) → Q (Ok acc) c') →
  meets_peer (ServerTasks.call (register p.(p_session_id) d req)) Q c.
Proof.
  intros Hreq Hst (d' & Hd & Hh & Hv) He HQ.
  assert (d' = d) as -> by (unfold announced in Hd; rewrite Hfirst in Hd; congruence).
  eapply (meets_op _ d _ (SRegister p.(p_session_id) d req)); [done|done|exact Hv|by split_and!|done|].
  intros s c' Hs Hc'. assert (Hs' := Hs). unfold view in Hs'. injection Hs' as Hx Hsec.
  destruct (register_outcome p.(p_session_id) d req x s Hx Hst) as [[Ha Hr]|[_ (e & Hr)]];
    rewrite Hr in *; cbn in Hc'.
  - apply HQ.
    + exists d. split_and!; [done..|]. rewrite Hc'. unfold view. cbn. by rewrite lookup_insert_eq, Hsec.
    + intros s' Hs'. apply (authorized_secrets s); [by rewrite Hs'|]. apply ensure_auth_authorized, Ha.
  - apply He. exists d. split_and!; [done..|]. by rewrite Hc'.
Qed.

(** The end of the handshake. *)
Lemma meets_admit req x sec (Q : res ServerError bool → Conn M → Prop) c :
  p.(p_second) = Ok (CRegisterRequest req) → x.(s_state) = Authenticated → viewing p (Some x, sec) c →
  (∀ e c', Q (Err e) c') → (∀ c', Q Panicked c') →
  (∀ c', viewing p (Some (set_s_state Closed x), sec) c' → Q (Ok false) c') →
  (∀ c', viewing p (Some (set_s_state Registered (set_s_session_id p.(p_session_id) x)), sec) c' →
     (∀ s, secrets s = sec → authorized s.(config) req) → Q (Ok true) c') →
  meets_peer (let_in p.(p_now) p.(p_session_id) d req) Q c.
Proof.
  intros Hreq Hst Hv He Hp Hf Ht. apply peer_bind. apply meets_attempt.
  apply (meets_register req x sec); [done|done|done|..].
  - intros rej c' Hv'. apply peer_bind. eapply meets_quiet; [apply steps_in_quiet_send|exact Hv'|].
    intros [a|e|] c1 Hv1; [|done..]. apply peer_bind.
    apply (meets_close p hello x (Some x, sec) Hfirst eq_refl); [by rewrite Hst|done|].
    intros c2 Hv2 c3 Hc3. apply Hf. by eapply viewing_others.
  - intros acc c' Hv' Hauth. apply peer_bind. eapply meets_quiet; [apply steps_in_quiet_send|exact Hv'|].
    intros [a|e|] c1 Hv1; [|done..]. intros c2 Hc2. apply Ht; [by eapply viewing_others|done].
Qed.

Lemma meets_calm {A} (t : handler A) (Q : res ServerError A → Conn M → Prop) c :
  steps_in (seen (calm p)) t → (∀ r c, Q r c) → meets_peer t Q c.
Proof.
  intros Ht HQ. apply (steps_in_meets (seen (calm p)) _ _ (λ _, True)); try done.
  intros c1 c2 Hc _. split; [done|]. by apply calm_guarantees.
Qed.

Ltac next_stage op st H :=
  apply peer_bind; eapply (meets_next op st); [exact announced_own|done| |exact H|]; [done|].

Lemma meets_handshake c :
  ¬ hosts d →
  meets_peer (ServerTasks.handshake p.(p_now) p.(p_session_id) p.(p_first) p.(p_second))
    (handshake_post p) c.
Proof.
  intros Hh. unfold ServerTasks.handshake. apply peer_bind.
  apply meets_calm; [apply steps_in_call; intros s; apply micro_idle|]. intros [h|e|] c1; [|done..].
  apply peer_bind. apply meets_calm; [apply steps_in_quiet_send|]. intros [[]|e|] c2; [|done..].
  rewrite Hfirst. change (Done (map_err ERuntime (Ok ?m)) ≫= ?f) with (f m). cbv beta iota zeta.
  apply peer_bind, meets_discovered; [done|done|]. intros sec c3 H3.
  next_stage (STransport d) TransportConnected H3. intros c4 H4.
  apply peer_bind. eapply meets_hello; [|exact H4|done|]; [done|]. intros c5 H5.
  next_stage (SAuthenticate d) Authenticated H5. intros c6 H6.
  destruct (p_second p) as [m|e|] eqn:Hsecond; [|done..].
  change (Done (map_err ERuntime (Ok ?m)) ≫= ?f) with (f m). cbv beta iota.
  destruct m; try done. apply peer_bind. eapply meets_admit; [done| |exact H6|done|done|..]; [done|..].
  - intros c7 (d' & Hd & Hh' & H7) c8 Hc8. exists hello. split; [done|].
    assert (viewing p (Some (client_session hello None Closed), sec) c8) as (d'' & Hd'' & _ & H8).
    { apply (viewing_others _ _ c7); [done|]. by exists d'. }
    unfold announced in Hd''. rewrite Hfirst in Hd''. injection Hd'' as <-. by injection H8.
  - intros c7 H7 Hauth.
    next_stage (SSceneSynced d) SceneSynced H7. intros c8 H8.
    apply peer_bind. eapply meets_activate; [|exact H8|]; [done|]. intros c9 H9 c10 Hc10.
    destruct (viewing_others _ _ _ _ Hc10 H9) as (d' & Hd & _ & H10).
    unfold announced in Hd. rewrite Hfirst in Hd. injection Hd as <-. split; [done|].
    injection H10 as Hx Hsec. split; [|done]. exists r. split; [done|]. by apply Hauth.
Qed.
End handshake.

(** ** All connections *)

Definition serve_post (p : Peer) (r : res ServerError (option (ClientHello * res ServerError LoopStep))) c :
    Prop :=
  match r with
  | Ok (Some (hello, Ok Break)) => served p hello Closed c.(server)
  | Ok (Some (hello, _)) => served p hello Active c.(server)
  | Ok None => turned_away p c.(server)
  | _ => True
  end.

Lemma meets_loop p hello c :
  (∀ d, announced p = Some d → ¬ hosts d) → served p hello Active c.(server) →
  meets (others p) (steps p)
    (r ← attempt_task (ServerTasks.control_loop hello p.(p_events)); mret (Some (hello, r))) (serve_post p) c.
Proof.
  intros Hh (Hfirst & (req & Hreq & Hauth) & Hx). set (d := ch_device_id hello).
  set (x := client_session hello (Some p.(p_session_id)) Active).
  assert (∀ st c', viewing p (Some (set_s_state st x), secrets c.(server)) c' → served p hello st c'.(server)) as Hs.
  { intros st c' (d' & Hd & _ & Hv). unfold announced in Hd. rewrite Hfirst in Hd. injection Hd as <-.
    injection Hv as Hv1 Hv2 Hv3 Hv4. split; [done|]. split; [|done]. exists req. split; [done|].
    apply (authorized_secrets (server c)); [|done]. unfold secrets, view. cbn. by rewrite Hv2, Hv3, Hv4. }
  apply peer_bind, meets_attempt. eapply meets_conseq.
  { apply (round_control_loop p hello x (Some x, secrets c.(server)) Hfirst eq_refl eq_refl); [done|].
    assert (announced p = Some d) as Hd by (unfold announced; by rewrite Hfirst).
    exists d. split_and!; [done|by apply Hh|]. unfold view, secrets. f_equal. exact Hx. }
  intros [[]|e|] c' Hc'; [..|done]; intros c2 Hc2; apply Hs; by eapply viewing_others.
Qed.

Lemma meets_serve p c :
  (∀ d, announced p = Some d → ¬ hosts d) →
  meets (others p) (steps p) (serve_peer p) (serve_post p) c.
Proof.
  intros Hh. unfold serve_peer, serve. destruct (announced p) as [d|] eqn:Ha.
  - rewrite <-Ha in Hh. unfold announced in Ha. destruct (p_first p) as [[]| |] eqn:Hfirst; try done.
    pose proof (Hh _ (announced_hello p h Hfirst)) as Hd.
    apply peer_bind. eapply meets_conseq; [rewrite <-Hfirst; by apply (meets_handshake p h Hfirst)|].
    intros [[hello|]|e|] c' Hc'; [by apply meets_loop| |done..].
    intros c2 Hc2. destruct Hc' as (hello & Hf & Hx). exists hello. split; [done|].
    destruct Hc2 as [_ Hc2]. unfold relies in Hc2.
    rewrite (announced_hello p hello Hf) in Hc2. assert (hello = h) as -> by congruence.
    destruct Hc2 as [Hc2|Hc2]; [done|].
    rewrite <-Hx. exact (f_equal fst Hc2).
  - apply peer_bind. unfold ServerTasks.handshake. apply peer_bind.
    apply meets_calm; [apply steps_in_call; intros s; apply micro_idle|]. intros [hl|e|] c1; [|done..].
    apply peer_bind. apply meets_calm; [apply steps_in_quiet_send|]. intros [[]|e|] c2; [|done..].
    unfold announced in Ha. destruct (p_first p) as [m|e|]; [|done..].
    change (Done (map_err ERuntime (Ok ?m)) ≫= ?f) with (f m). cbv beta. by destruct m.
Qed.

Abbreviation connection := (thread Peer (list ControlMessage * list bool) (Conn M) ServerError
  (option (ClientHello * res ServerError LoopStep))).

(** No other connection announced the device of the new one, nor does the host
    handle its session. *)
Definition apart (p : Peer) (ths : list connection) : Prop :=
  announced p = None ∨
  (∀ th, th ∈ ths → announced (tag th) ≠ announced p) ∧ ∀ d, announced p = Some d → ¬ hosts d.

Definition fresh_connection (ths : list connection) (th : connection) : Prop :=
  ∃ p link, th = accept p link ∧ apart p ths.

(** A step of the server: of a connection, of anything else (the host, the
    scheduler loops, [start] and [stop]), or the acceptance of a connection. *)
Definition concurrent_step : relation (ServerState M * list connection) :=
  pool_step resume server own outside fresh_connection.

Lemma compatible_snoc p link (ths : list connection) :
  apart p ths → compatible relies guarantees ths →
  compatible relies guarantees (ths ++ [accept p link]).
Proof.
  intros Hp Hc i j th th' Hij Hi Hj s s' Hg.
  apply lookup_app_Some in Hi as [Hi|[Hi Hi']], Hj as [Hj|[Hj Hj']].
  - by eapply (Hc i j).
  - apply list_lookup_singleton_Some in Hj' as [_ <-]. eapply guarantees_relies; [|exact Hg].
    destruct Hp as [?|[Hp _]]; [by left|]. right. intros Heq. apply (Hp th); [|done].
    by apply list_elem_of_lookup_2 with i.
  - apply list_lookup_singleton_Some in Hi' as [_ <-]. eapply guarantees_relies; [|exact Hg].
    destruct (announced (tag th')) as [d|] eqn:Ha; [|by left]. right. cbn.
    destruct Hp as [Hp|[Hp _]]; [congruence|]. rewrite <-Ha. apply Hp. by apply list_elem_of_lookup_2 with j.
  - apply list_lookup_singleton_Some in Hi' as [? _], Hj' as [? _]. lia.
Qed.

Lemma concurrent_meets s0 s ths :
  rtc concurrent_step (s0, []) (s, ths) →
  pool_meets resume server own relies guarantees serve_post (s, ths).
Proof.
  intros Hs. eapply pool_sound; [..|exact Hs|]; try done.
  - apply _.
  - by intros s1 [].
  - by intros [].
  - intros p s1 s2. apply outside_relies.
  - intros ths' th (p & link & -> & Hp). split; [|by apply compatible_snoc].
    intros s1. apply meets_serve. destruct Hp as [Hp|[_ Hp]]; [|exact Hp]. intros d Hd. cbn in Hd. congruence.
  - split; [|by intros th Hth%not_elem_of_nil]. by intros i j th th' _ Hi.
Qed.

(** C4. Connections whose clients announce different devices do not disturb
    each other's sessions, in whatever order their steps, the scheduler, the
    video calls and the host interleave, as long as the host calls the session
    methods only for devices that no connection announces.  A connection that
    passed the handshake presented the secrets of the server.  Whenever its
    loop has handled all that arrived, its session is active with what its
    hello declared; when the loop has ended normally, because the connection
    failed or an error reply could not be delivered, the session is closed;
    when it has ended with an error, because any other reply could not be
    delivered, the session is still active.  The session of a client that was
    turned away is closed. *)
Theorem concurrent_sessions s0 s ths th :
  rtc concurrent_step (s0, []) (s, ths) → th ∈ ths →
  (∀ hello r, code th = Done (Ok (Some (hello, r))) →
     served (tag th) hello (match r with Ok Break => Closed | _ => Active end) s) ∧
  (code th = Done (Ok None) → turned_away (tag th) s).
Proof.
  intros Hs%concurrent_meets Hth.
  assert (∀ r, code th = Done r → serve_post (tag th) r (resume s (local th))) as Hp.
  { intros r. by apply (pool_meets_done _ _ _ _ _ _ _ th r Hs). }
  split; [|by intros Hd%Hp]. intros hello r Hd%Hp. by destruct r as [[]|e|].
Qed.
End pool.
