(* ===== verification/VideoPool.v ===== *)
(** Video calls side by side: however calls for one device race while its
    session stays open, they agree on its peer. *)

From S2P Require Import Prelude Tasks Float IndexMap Protocol Model Transform Runtime Media Codec.
From S2P Require Import Recording WebRtc Transport Server ServerRuntime ServerVideo ServerLoop.
From S2P Require Import ServerSpec ServerSessions ServerControl ServerTasks ServerSteps.
From stdpp Require Import relations.

Section video.
Context {M : Type → Type} `{!IndexMap Uuid M} {fmt : UuidFormat} {crate : WebRtcCrate}
  {fs : FileSystem} {bm : Bincode RecordingManifest} {bk : Bincode (list RecordingMarker)}
  {bf : Bincode RecordedFrame} {texts : ErrorText}.
Implicit Types s : ServerState M.

(** The peer of a device, once there, stays. *)
Definition keeps_peer (d : Uuid) : relation (ServerState M) := λ s s',
  ∀ p, existing_peer d s = Some p → existing_peer d s' = Some p.

#[global] Instance keeps_peer_preorder d : PreOrder (keeps_peer d).
Proof. split; [by intros s p|]. intros s1 s2 s3 H1 H2 p Hp. by apply H2, H1. Qed.

(** ** What keeps the peers *)

Lemma keeps_peer_same d s s' : video_peers s' = video_peers s → keeps_peer d s s'.
Proof. intros Hs p. unfold existing_peer. by rewrite Hs. Qed.

Lemma keeps_peer_read {A} d (f : ServerState M → res ServerError A) :
  steps_in (keeps_peer d) (read_lock f).
Proof. by apply steps_in_atomic. Qed.

Lemma keeps_peer_rtc {A} d (m : prog rtc_world WebRtcError A) :
  steps_in (keeps_peer d) (rtc_await (M:=M) m).
Proof.
  apply steps_in_atomic. intros s. apply keeps_peer_same. unfold on_peer, zoom. by destruct (m (webrtc s)).
Qed.

Lemma insert_peer_outcome d' created s :
  ∃ p, result (insert_video_peer d' created) s = Ok p ∧
    existing_peer d' (exec (insert_video_peer d' created) s) = Some p.
Proof.
  unfold insert_video_peer, existing_peer. unfold_prog.
  destruct (video_peers s !! d') as [entry|] eqn:E; cbn.
  - exists entry.(peer). by rewrite E.
  - exists created. by rewrite lookup_insert_eq.
Qed.

Lemma keeps_peer_insert d d' created :
  steps_in (keeps_peer d) (atomic (insert_video_peer (M:=M) d' created)).
Proof.
  apply steps_in_atomic. intros s p. unfold insert_video_peer, existing_peer. unfold_prog.
  destruct (video_peers s !! d') as [entry|] eqn:E; cbn; [done|]. intros Hp.
  rewrite lookup_insert_ne; [done|]. intros ->. by rewrite E in Hp.
Qed.

Lemma keeps_peer_mark d d' : steps_in (keeps_peer d) (atomic (mark_track (M:=M) d')).
Proof.
  apply steps_in_atomic. intros s p. unfold existing_peer, mark_track, modify. cbn.
  destruct (decide (d = d')) as [->|Hne]; [|by rewrite lookup_alter_ne].
  rewrite lookup_alter_eq. by destruct (video_peers s !! d').
Qed.

Lemma keeps_peer_video_peer d d' : steps_in (keeps_peer d) (atomic (video_peer (M:=M) d')).
Proof. by apply steps_in_atomic. Qed.

#[local] Hint Resolve keeps_peer_read keeps_peer_rtc keeps_peer_insert keeps_peer_mark
  keeps_peer_video_peer steps_in_done steps_in_ret : tasks.

Lemma keeps_peer_offer d d' a b : steps_in (keeps_peer d) (ServerTasks.create_video_offer (M:=M) d' a b).
Proof.
  unfold ServerTasks.create_video_offer, ServerTasks.ensure_video_peer, ServerTasks.ensure_track.
  steps_walk.
Qed.

Lemma keeps_peer_signal d d' p : steps_in (keeps_peer d) (ServerTasks.handle_video_signal (M:=M) d' p).
Proof.
  unfold ServerTasks.handle_video_signal, ServerTasks.ensure_video_peer, ServerTasks.ensure_track.
  steps_walk.
Qed.

(** Only the closing of the session takes the peer of a device away. *)
Lemma keeps_peer_op d op s : (∀ now, op ≠ SClose d now) → keeps_peer d s (exec_server op s).
Proof.
  assert (∀ {A} (m : prog (ServerState M) ServerError A),
    (∀ v, keeps video_peers v m) → video_peers (exec m s) = video_peers s) as Hk.
  { intros A m Hm. by apply (Hm (video_peers s)). }
  intros Hop. destruct op; cbn [exec_server];
    try (apply keeps_peer_same, Hk; intros v;
      unfold discovered, transport_connected, hello_exchanged, authenticate, register, scene_synced,
        activate, change_session_state, reject,
        ServerRuntime.load_scene, ServerRuntime.set_active_scene, ServerRuntime.set_mode,
        ServerRuntime.reset_scene_to_baseline, ServerRuntime.commit_scene_baseline,
        ServerRuntime.commit_object_baseline, ServerRuntime.create_mapping,
        ServerRuntime.update_mapping, ServerRuntime.remove_mapping, ServerRuntime.set_mapping_lock,
        ServerRuntime.ingest_motion_datagram, ingest_motion_samples, start_recording, stop_recording,
        tick_round, publish_round, set_master_video_descriptor, push_signaling_message,
        drain_signaling_messages, on_runtime, on_writer; keeps_walk; done).
  - assert (d ≠ d0) as Hne by (intros ->; by apply (Hop now)). intros p Hp.
    rewrite close_session_steps, change_session_state_outcome. unfold existing_peer in *.
    repeat case_match; cbn; by rewrite lookup_delete_ne.
  - destruct (ServerVideo.create_video_offer d0 stream_id track_id s) as [s' r] eqn:E.
    apply (run_steps_in (keeps_peer d) _ s s' r (keeps_peer_offer d d0 stream_id track_id)).
    by rewrite offer_alone, E.
  - destruct (ServerVideo.handle_video_signal d0 p s) as [s' r] eqn:E.
    apply (run_steps_in (keeps_peer d) _ s s' r (keeps_peer_signal d d0 p)). by rewrite signal_alone, E.
Qed.

(** What the server does while the session of the device stays open: any call
    that does not close it, the steps of other video calls between their
    awaits (under a lock, or of the peer connections), the counter of
    [ingest_motion_datagram], what [start] and [stop] write. *)
Inductive unclosed (d : Uuid) s : ServerState M → Prop :=
  | unclosed_call op : (∀ now, op ≠ SClose d now) → unclosed d s (exec_server op s)
  | unclosed_insert d' created : unclosed d s (exec (insert_video_peer d' created) s)
  | unclosed_mark d' : unclosed d s (exec (mark_track d') s)
  | unclosed_peers w : unclosed d s (set_webrtc w s)
  | unclosed_count : unclosed d s (set_metrics (add_datagram s.(metrics)) s)
  | unclosed_lifecycle addr run res adv : unclosed d s (set_lifecycle addr run res adv s).

Lemma unclosed_keeps d s s' : unclosed d s s' → keeps_peer d s s'.
Proof.
  intros [op Hop|d' created|d'|w| |]; try by apply keeps_peer_same.
  - by apply keeps_peer_op.
  - pose proof (keeps_peer_insert d d' created) as [Hin _].
    apply (Hin s _ (result (insert_video_peer d' created) s)). by rewrite <-surjective_pairing.
  - pose proof (keeps_peer_mark d d') as [Hin _].
    apply (Hin s _ (result (mark_track d') s)). by rewrite <-surjective_pairing.
Qed.

(** ** One peer *)

Lemma meets_ensure_peer d s :
  meets (keeps_peer d) (keeps_peer d) (ServerTasks.ensure_video_peer d)
    (λ r s, ∀ p, r = Ok p → existing_peer d s = Some p) s.
Proof.
  apply (meets_bind _ _), meets_atomic. intros s1 _. split; [done|]. intros s2 H2.
  change (keeps_peer d s1 s2) in H2.
  change (result (get ≫= λ self, lift (Ok (existing_peer d self))) s1)
    with (Ok (E:=ServerError) (existing_peer d s1)). cbv beta iota.
  destruct (existing_peer d s1) as [p|] eqn:Ep.
  { intros s3 H3 p' [= <-]. by apply H3, H2. }
  apply (meets_bind _ _), meets_atomic. intros s3 _. split.
  { apply keeps_peer_same. unfold on_peer, zoom. by destruct (WebRtcSession_new (webrtc s3)). }
  intros s4 _. destruct (result (on_peer WebRtcSession_new) s3) as [created|e|]; [|done..].
  apply meets_atomic. intros s5 _. split.
  - pose proof (keeps_peer_insert d d created) as [Hin _]. apply (Hin s5 _ (result (insert_video_peer d created) s5)).
    by rewrite <-surjective_pairing.
  - intros s6 H6 p Hp. destruct (insert_peer_outcome d created s5) as (p' & Hp' & He).
    apply H6. congruence.
Qed.

(** Calls of [ensure_video_peer] for one device, step by step, among all that
    leaves its session open. *)
Definition peer_step (d : Uuid) :=
  pool_step (C:=ServerState M) (λ s (_ : ()), s) (λ s, s) (λ _, ()) (unclosed d)
    (λ _ th, th = mkThread () () (ServerTasks.ensure_video_peer d)).

(** C16. As long as the session of a device is not closed meanwhile, all
    calls of [ensure_video_peer] for it, which race, get the same peer, the one
    the server keeps, however their steps interleave with each other and with whatever
    else the server does.  (Around a close and a reconnection, overlapping
    calls can get different peers.) *)
Theorem one_video_peer d s0 s ths th th' p p' :
  rtc (peer_step d) (s0, []) (s, ths) → th ∈ ths → th' ∈ ths →
  code th = Done (Ok p) → code th' = Done (Ok p') →
  p = p' ∧ existing_peer d s = Some p.
Proof.
  intros Hs Hth Hth' Hp Hp'.
  assert (pool_meets (λ s (_ : ()), s) (λ s, s) (λ _, ()) (λ _ : (), keeps_peer d) (λ _, keeps_peer d)
    (λ _ r s, ∀ p, r = Ok p → existing_peer d s = Some p) (s, ths)) as Hm.
  { eapply pool_sound; [..|exact Hs|]; try done.
    - intros t. apply keeps_peer_preorder.
    - by intros s1 [].
    - intros _ s1 s2. apply unclosed_keeps.
    - intros ths1 th1 ->. split.
      + intros s1. unfold thread_meets. cbn [tag code local]. apply (meets_weaken _ _ (keeps_peer d) (keeps_peer d)); [..|apply meets_ensure_peer].
        * intros s2 s3 [_ H]. exact H.
        * done.
      + intros _ i j th1 th2 _ _ _ s1 s2 Hg. exact Hg.
    - split; [by intros i j th1 th2 _ Hi|]. by intros ? ?%not_elem_of_nil. }
  pose proof (λ th r H, pool_meets_done _ _ _ _ _ _ _ th r Hm H) as Hd.
  specialize (Hd th _ Hth Hp p eq_refl) as H1. specialize (Hd th' _ Hth' Hp' p' eq_refl) as H2.
  simpl in *. split; [congruence|done].
Qed.
End video.
