(* ===== verification/ServerFixtures.v ===== *)
(** A concrete server for the examples: a [webrtc] crate without peers, texts
    without content, and clients that go through the handshake. *)

From S2P Require Import Prelude Float IndexMap Protocol Model Transform Runtime RuntimeSpec.
From S2P Require Import Fixtures Media Codec Recording RecordingProps WebRtc Transport Server.
From S2P Require Import ServerRuntime ServerVideo ServerLoop ServerSpec ServerSessions ServerPeer.
From S2P Require Import ServerControl ServerTake.
From stdpp Require Import relations.

Local Open Scope Z_scope.

#[export] Instance no_webrtc : WebRtcCrate.
Proof.
  refine {|
    rtc_world := ();
    RTCPeerConnection := ();
    RTCSessionDescription := string;
    rd_text d := d;
    rtc_register_default_codecs w := (w, Ok ());
    rtc_register_default_interceptors w := (w, Ok ());
    rtc_new_peer_connection w := (w, Err "no peers");
    rtc_create_offer _ w := (w, Ok "offer");
    rtc_create_answer _ w := (w, Ok "answer");
    rtc_set_local_description _ _ w := (w, Ok ());
    rtc_set_remote_description _ _ w := (w, Ok ());
    rtc_parse_offer s := Ok s;
    rtc_parse_answer s := Ok s;
    rtc_add_ice_candidate _ _ w := (w, Ok ());
    rtc_add_track _ _ _ w := (w, Ok ()) |}.
Defined.

#[export] Instance plain_texts : ErrorText.
Proof.
  refine {|
    server_error_text _ := "server error";
    recording_error_text _ := "recording error";
    media_error_text _ := "media error" |}.
Defined.

#[export] Existing Instance decimal_uuid.
#[export] Existing Instance good_disk.
#[export] Existing Instance small_manifests.
#[export] Existing Instance small_markers.
#[export] Existing Instance small_frames.

#[export] Instance server_op_ok_dec op : Decision (server_op_ok op).
Proof. destruct op; apply _. Defined.

Abbreviation srv := (ServerState Fixtures.imap).

(** A server for [n] sessions, open to the local network. *)
Definition open_server (n : nat) : srv :=
  ServerHandle_new (mkConfig "stage" (mkAddr "0.0.0.0" true 7788) TrustedLan false n 120 60
    [Motion; MappingFeature] LeaseConfig_default None None) () ∅.

Definition hello_of (d : Uuid) (n : string) (roles : list ClientRole) : ClientHello :=
  mkClientHello PROTOCOL_MAJOR PROTOCOL_MINOR d n roles [Motion] ["pose"].

Definition no_secret : RegisterRequest := mkRegisterRequest None None.

(** The handshake of device [d] under the name [n], as calls. *)
Definition join (d : Uuid) (n : string) : list server_op :=
  [SDiscovered d n; STransport d; SHello (hello_of d n [MotionSource]); SAuthenticate d;
   SRegister (100 + d)%N d no_secret; SSceneSynced d; SActivate d].

(** Device 7 ("ipad") is active. *)
Definition with_ipad : srv := run_server (join 7%N "ipad") (open_server 2).

(** ** Instances of the session theorems *)

Lemma active_after_full_handshake_witness :
  changes 7%N (exec_server (SDiscovered 7%N "ipad") (open_server 2)) (tail (join 7%N "ipad"))
    = handshake_stages.
Proof.
  apply active_after_full_handshake; [vm_compute; reflexivity| |vm_compute; reflexivity].
  intros n Hn. simpl in Hn. repeat (apply elem_of_cons in Hn as [Hn|Hn]; [discriminate Hn|]).
  by apply not_elem_of_nil in Hn.
Defined.

Lemma run_server_steps ops s : Forall server_op_ok ops → rtc server_step s (run_server ops s).
Proof.
  revert s. induction ops as [|op ops IH]; intros s Hops; simpl; [done|].
  inversion Hops; subst. eapply rtc_l; [by exists op|]. by apply IH.
Qed.

(** A second device under another name. *)
Definition two_devices : srv := run_server (join 7%N "ipad" ++ join 8%N "phone") (open_server 2).

Lemma two_devices_ok : Forall server_op_ok (join 7%N "ipad" ++ join 8%N "phone").
Proof. apply (bool_decide_unpack _). vm_compute. done. Qed.

Definition session_of (d : Uuid) (n : string) : SessionInfo :=
  mkSession d n (Some (100 + d)%N) [MotionSource] [Motion] ["pose"] Active.

Lemma registered_names_unique_witness :
  7%N = 7%N ∧ (session_of 7%N "ipad").(s_device_name) ≠ (session_of 8%N "phone").(s_device_name).
Proof.
  assert (rtc server_step (open_server 2) two_devices) as Hr by apply run_server_steps, two_devices_ok.
  pose proof (λ d d' x x', registered_names_unique (crate:=no_webrtc) (open_server 2).(config) () ∅
    two_devices d d' x x' Hr) as Hu.
  split.
  - apply (Hu 7%N 7%N (session_of 7%N "ipad") (session_of 7%N "ipad")); vm_compute; reflexivity.
  - intros Hn. enough (7%N = 8%N) by discriminate.
    apply (Hu 7%N 8%N (session_of 7%N "ipad") (session_of 8%N "phone")); [vm_compute; reflexivity..|exact Hn].
Defined.

(** A third device on the server for two. *)
Lemma capacity_respected_witness :
  (session_count (exec_server (SDiscovered 9%N "tablet") two_devices) ≤ 2)%nat.
Proof.
  apply (capacity_respected (SDiscovered 9%N "tablet") two_devices); [vm_compute; lia|].
  intros d n [= <- _]. vm_compute. discriminate.
Defined.

(** Two gaps in the admission of clients. The name check compares the
    trimmed new name with the untrimmed names in use, so two devices named
    " ipad" are both active; and a client whose session was closed is
    discovered again without the capacity check, so a server for one session
    ends up with two. *)
Theorem admission_gaps :
  (let s := run_server (join 7%N " ipad" ++ join 8%N " ipad") (open_server 2) in
   state_of s 7%N = Some Active ∧ state_of s 8%N = Some Active ∧
   s_device_name <$> sessions s !! 7%N = s_device_name <$> sessions s !! 8%N) ∧
  (let s := run_server (join 7%N "ipad" ++ [SClose 7%N 5] ++ join 8%N "phone" ++ join 7%N "ipad")
              (open_server 1) in
   s.(config).(max_sessions) = 1%nat ∧ session_count s = 2%nat).
Proof. split; split_and!; vm_compute; reflexivity. Qed.

(** ** A connection *)

Abbreviation conn := (Conn Fixtures.imap).

Definition connected_to (s : srv) : conn := mkConn s [] [].
Definition ipad_hello : ClientHello := hello_of 7%N "ipad" [MotionSource].

Lemma handshake_spec_witness :
  (handshake 0 100%N (Ok (CClientHello ipad_hello)) (Ok (CRegisterRequest no_secret))
     (connected_to (open_server 2))).1 =
  mkConn (joined (open_server 2) ipad_hello 100%N) (welcome (open_server 2) ipad_hello 100%N) [].
Proof.
  apply (handshake_spec 0 100%N (Ok (CClientHello ipad_hello)) (Ok (CRegisterRequest no_secret))
    (connected_to (open_server 2)) ipad_hello); [|vm_compute; reflexivity].
  intros d x Hx. vm_compute in Hx. destruct d; discriminate Hx.
Defined.


(** A ping, then the end of the control stream. *)
Definition ping_and_leave : list PeerEvent := [CtrlReceived 5 (Some CPing); CtrlReceived 6 None].
Definition ipad_session : SessionInfo := client_session ipad_hello (Some 107%N) Active.

Lemma run_result {A B} (p : A * B) b : p.2 = b → p = (p.1, b).
Proof. by destruct p; intros <-. Qed.

Lemma loop_closes_witness :
  let c := connected_to with_ipad in
  gone (ch_device_id ipad_hello) ipad_session c.(server)
    (exec (control_loop ipad_hello ping_and_leave) c).(server).
Proof.
  refine (loop_closes ipad_hello ping_and_leave (connected_to with_ipad)
    (exec (control_loop ipad_hello ping_and_leave) (connected_to with_ipad)) Break ipad_session _ _ _).
  - vm_compute. reflexivity.
  - reflexivity.
  - apply run_result. vm_compute. reflexivity.
Defined.

(** ** A take *)

Definition staged : srv := run_server [SLoadScene Fixtures.stage] (open_server 2).

(** Two batches, and the mode set again in between. *)
Definition take_ops : list server_op :=
  [SIngest 7%N [] 101; SSetMode Protocol.Recording 102; SIngest 8%N [] 103].
Definition take_started : srv := exec (start_recording 9%N "take.cmtrk" 100) staged.
Definition take_pushes : list push := start_pushes 100 staged ++ all_pushes take_ops take_started.
Definition take_stopped := stop_recording 110 (run_server take_ops take_started).
Definition take_manifest : RecordingManifest := mkManifest 9%N 1%N 100 103 2.

Lemma take_pushes_eq : take_pushes =
  [PushMarker (ModeTransition 100 Live Protocol.Recording);
   PushFrame (mkRecordedFrame 101 Protocol.Recording []);
   PushMarker (ModeTransition 102 Protocol.Recording Protocol.Recording);
   PushFrame (mkRecordedFrame 103 Protocol.Recording [])].
Proof. vm_compute. reflexivity. Qed.

Lemma take_fits : fits (take_writer 9%N 1%N 100 110 take_pushes).
Proof.
  rewrite take_pushes_eq. split_and!.
  - intros b Hb. vm_compute in Hb. injection Hb as <-. vm_compute. reflexivity.
  - intros b Hb. vm_compute in Hb. injection Hb as <-. vm_compute. reflexivity.
  - intros f b Hf Hb. vm_compute in Hf.
    repeat (apply elem_of_cons in Hf as [->|Hf];
      [vm_compute in Hb; injection Hb as <-; vm_compute; reflexivity|]).
    by apply not_elem_of_nil in Hf.
Qed.

Lemma take_on_disk_witness :
  let s' := exec (stop_recording 110) (run_server take_ops take_started) in
  ∃ content, s'.(disk) !! "take.cmtrk" = Some content ∧
    read_recording content = Ok (mkFile take_manifest
      (pushed_markers take_pushes ++ [ModeTransition 110 Protocol.Recording Live])
      (pushed_frames take_pushes) V2).
Proof.
  refine (proj2 (proj2 (proj2 (proj2 (proj2
    (take_on_disk 9%N "take.cmtrk" 100 110 take_ops staged
      (exec (stop_recording 110) (run_server take_ops take_started)) take_manifest _ _ _ _)))))).
  - vm_compute. by eexists.
  - repeat constructor.
  - apply run_result. vm_compute. reflexivity.
  - intros scene Hs. vm_compute in Hs. injection Hs as <-. exact take_fits.
Defined.

(** Device 7 drives the position while a take is running. *)
Definition driven : srv :=
  run_server [SLoadScene Fixtures.stage; SCreate 200%N (bind 7%N "pose" "position") 50] (open_server 2).
Definition recording_driven : srv := exec (start_recording 9%N "take.cmtrk" 100) driven.
Definition pose_batch : list AttributeUpdate := [mkUpdate "pose" (f32_vec3 1 2 3)].

Definition driven_take : ActiveRecording :=
  record (start_pushes 100 driven) (mkActiveRecording "take.cmtrk" (Recording.start 9%N 1%N 100)).

Lemma ingest_records_frame_witness :
  let s' := exec (ingest_motion_samples 7%N pose_batch 101) recording_driven in
  ∃ attrs, s'.(active_recording) = Some (record
      [PushFrame (mkRecordedFrame 101 s'.(runtime).(Runtime.mode) attrs)] driven_take) ∧
    Forall2 (recorded_value s'.(runtime) 7%N) pose_batch attrs.
Proof.
  assert (recording_driven.(active_recording) = Some driven_take) as Hr by (vm_compute; reflexivity).
  pose proof (ingest_records_frame 7%N pose_batch 101 recording_driven driven_take Hr) as Hi.
  assert (result (ingest_motion_samples 7%N pose_batch 101) recording_driven = Ok ()) as He
    by (vm_compute; reflexivity).
  cbv zeta in Hi. rewrite He in Hi. exact Hi.
Defined.

(** Two ways in which a connection escapes the rules of the loop. A reply
    that cannot be delivered outside an error reply (here the answer to a
    ping) ends the connection with an error but leaves the session active and
    the device connected. And a motion datagram is taken from any connection
    for any device: the phone's moves the attribute that device 7 owns. *)
Theorem connection_gaps :
  (let c := mkConn with_ipad [] [false] in
   let m := control_loop ipad_hello [CtrlReceived 5 (Some CPing)] in
   let s' := (exec m c).(server) in
   result m c = Err (ERuntime "write") ∧ state_of s' 7%N = Some Active ∧
   bool_decide (7%N ∈ s'.(runtime).(connected_devices)) = true) ∧
  (let position (s : srv) := target_attribute_value s.(runtime) 1%N 2%N "position" in
   let s := run_server (join 7%N "ipad" ++ join 8%N "phone" ++ [SSetMode Live 60]) driven in
   let phone := hello_of 8%N "phone" [CameraController] in
   let frames := [mkUpdateFrame "pose" (FVec3f [# F32.of_Z 1; F32.of_Z 2; F32.of_Z 3])] in
   let m := loop_round phone (DatagramReceived 70 (Some (mkDatagram 7%N 70 frames))) in
   position s = Ok (f32_vec3 0 0 0) ∧
   result m (connected_to s) = Ok Continue ∧
   position (exec m (connected_to s)).(server) = Ok (f32_vec3 1 2 3)).
Proof. split; cbv zeta; split_and!; vm_compute; reflexivity. Qed.

(** A disk on which no file can be created. *)
Definition read_only_disk : FileSystem.
Proof.
  refine {| fs_create := Err (OtherIo "read-only"); fs_write_all old bs := (old, Err (OtherIo "read-only")) |}.
  done.
Defined.

(** Two ways in which a take goes wrong. Started without an active scene,
    recording fails and yet leaves the stage in [Recording], where mappings
    are frozen. And when the file cannot be created, [stop_recording] has
    already dropped the take: its frames are gone, the mode stays
    [Recording], and stopping again reports that nothing is recording. *)
Theorem recording_gaps :
  (let m := start_recording 9%N "take.cmtrk" 100 in
   let s' := exec m (open_server 2) in
   is_ok (result m (open_server 2)) = false ∧ s'.(runtime).(Runtime.mode) = Protocol.Recording ∧
   s'.(active_recording) = None) ∧
  (let m := stop_recording (fs:=read_only_disk) 110 in
   let s := run_server take_ops take_started in
   let s' := exec m s in
   length (pushed_frames take_pushes) = 2%nat ∧ s.(active_recording) ≠ None ∧
   is_ok (result m s) = false ∧ s'.(active_recording) = None ∧
   s'.(runtime).(Runtime.mode) = Protocol.Recording ∧
   result m s' = Err (ERecording "no active recording")).
Proof. split; cbv zeta; split_and!; vm_compute; reflexivity || discriminate. Qed.
