(* ===== verification/LifecycleFixtures.v ===== *)
(** Concrete starts and stops: the instance of [start_stop_spec], and the loops
    that a failed or a second [start] leaves behind. *)

From S2P Require Import Prelude Tasks Float IndexMap Protocol Model Transform Runtime RuntimeSpec.
From S2P Require Import Fixtures Media Codec Recording RecordingProps WebRtc Transport Server.
From S2P Require Import ServerRuntime Lifecycle LifecycleProps ServerSpec ServerSessions ServerFixtures.
From stdpp Require Import relations.

Local Open Scope Z_scope.

(** A network that binds every address, also port 0, and whether its publisher
    works. *)
Definition network (publishes : bool) : Network := {|
  net_bind addr := Ok addr;
  net_advertise _ := if publishes then Ok () else Err "mdns";
  net_join := Ok ();
  net_withdraw := Ok ();
|}.

Abbreviation site := (Site Fixtures.imap).

(** A server that is to be discovered. *)
Definition discoverable : srv :=
  ServerHandle_new (mkConfig "stage" (mkAddr "0.0.0.0" true 0) TrustedLan true 2 120 60
    [Motion; MappingFeature] LeaseConfig_default None None) () ∅.

Lemma start_stop_spec_witness : ∃ x s',
  helped (rtc loops_run) (performs (net:=network true) [Start; Stop; Start; Stop]) (Site_new discoverable) x s' ∧
  x = Ok () ∧ ∀ i l, s'.(loops) !! i = Some l → l.(finished) = true.
Proof.
  assert (ends (rtc loops_run) (performs (net:=network true) ([Start; Stop; Start] ++ [Stop]))
    (λ x s', x = Ok () ∧ s'.(resources) = None ∧ s'.(state).(running) = false ∧
       s'.(state).(active_advertisement) = None ∧
       ∀ i l, s'.(loops) !! i = Some l → l.(finished) = true) (Site_new discoverable)) as He.
  { apply (start_stop_spec (net:=network true)); [done..|]. left.
    constructor; [done|done| |by intros i l]. by intros x Hx%not_elem_of_nil. }
  destruct (ends_helped _ _ _ _ He) as (x & s' & Hh & Hx & _ & _ & _ & Hl). by exists x, s'.
Defined.

(** ** Moves *)

(** A step of a caller, or a round of a loop. *)
Inductive Move := Caller (i : nat) | Round (i : nat) (ev : LoopEvent).

Section play.
Context {A : Type} `{Network}.
Abbreviation callers := (list (thread () () site ServerError A)).

Fixpoint play (moves : list Move) (p : site * callers) : option (site * callers) :=
  match moves with
  | [] => Some p
  | Caller i :: moves =>
      p' ← schedule (λ s (_ : ()), s) (λ s, s) (λ _, ()) [i] p; play moves p'
  | Round i ev :: moves =>
      s' ← loop_round i ev p.1; play moves (s', p.2)
  end.
End play.

(** The loops that still run, the connections accepted, whether the server is
    marked running, and how often it ticked. *)
Definition loops_view (s : site) : list LoopKind * nat * bool * Z :=
  (kind <$> filter (λ l, l.(finished) = false) s.(loops), s.(connections), s.(state).(running),
   s.(state).(metrics).(scheduler_ticks)).

Definition call_of {A} (t : task site ServerError A) : thread () () site ServerError () :=
  mkThread () () (t ≫= λ _, mret ()).

Definition played (net : Network) (ts : list (thread () () site ServerError ())) (moves : list Move) :
    option (list LoopKind * nat * bool * Z) :=
  loops_view ∘ fst <$> play moves (Site_new discoverable, ts).

(** The rounds that a caller of [stop] waits for. *)
Definition told (l : list nat) : list Move := (λ i, Round i Changed) <$> l.

Definition stopping (caller accept tick publish : nat) : list Move :=
  [Caller caller; Caller caller] ++ told [tick; publish]
  ++ [Caller caller; Caller caller; Caller caller] ++ told [accept] ++ [Caller caller].

(** One start and one stop end all loops. When the publisher fails, [start]
    reports the error and drops the sender of the accept loop, which then
    never learns that it should end: its channel gives an error in every
    round, and it keeps the port of a server that was never started. Two calls
    of [start] at once each spawn their loops; the resources of the first are
    overwritten, and its accept loop keeps its port after [stop], while its tick
    loop ticks again as soon as the server is started anew. *)
Theorem orphaned_loops :
  (let start := call_of (start (net:=network true)) in let stop := call_of (stop (net:=network true)) in
   played (network true) [start; stop]
     (replicate 6 (Caller 0) ++ [Round 1 (Interval 5)] ++ stopping 1 0 1 2) =
     Some ([], 0%nat, false, 1)) ∧
  (let start := call_of (start (net:=network false)) in let stop := call_of (stop (net:=network false)) in
   played (network false) [start; stop]
     (replicate 5 (Caller 0) ++ [Round 0 Changed; Round 0 Changed; Caller 1; Round 0 Changed]) =
     Some ([AcceptLoop], 0%nat, false, 0)) ∧
  (let start := call_of (start (net:=network true)) in let stop := call_of (stop (net:=network true)) in
   played (network true) [start; start; stop; start]
     (mjoin (replicate 6 [Caller 0; Caller 1]) ++ stopping 2 1 4 5
      ++ [Round 0 Changed; Round 2 Changed] ++ replicate 6 (Caller 3)
      ++ [Round 2 (Interval 5); Round 7 (Interval 5)]) =
     Some ([AcceptLoop; TickLoop; PublishLoop; AcceptLoop; TickLoop; PublishLoop], 0%nat, true, 2)).
Proof. split_and!; vm_compute; reflexivity. Qed.
