(* ===== verification/PoolFixtures.v ===== *)
(** Concrete connections side by side: instances of the theorems of
    [ServerPool.v], and what two connections of one device do to each other. *)

From S2P Require Import Prelude Tasks Float IndexMap Protocol Model Transform Runtime RuntimeSpec.
From S2P Require Import Fixtures Media Codec Recording RecordingProps WebRtc Transport Server.
From S2P Require Import ServerRuntime ServerVideo ServerLoop ServerSpec ServerSessions ServerPeer.
From S2P Require Import ServerTasks ServerSteps ServerCore ServerPool ServerFixtures.
From stdpp Require Import relations.

Local Open Scope Z_scope.

Abbreviation ended := (option (res ServerError (option (ClientHello * res ServerError LoopStep)))).
Abbreviation conns := (list (thread Peer (list ControlMessage * list bool) conn ServerError
  (option (ClientHello * res ServerError LoopStep)))).

(** A client of device [d] that sends [evs] once it is in. *)
Definition client (d : Uuid) (n : string) (evs : list PeerEvent) : Peer :=
  mkPeerInput 0 (100 + d)%N (Ok (CClientHello (hello_of d n [MotionSource])))
    (Ok (CRegisterRequest no_secret)) evs.

Definition ipad_client : Peer := client 7%N "ipad" [CtrlReceived 5 (Some CPing)].
Definition phone_client : Peer := client 8%N "phone" [CtrlReceived 6 None].

(** A third client, whose pong cannot be delivered. *)
Definition tablet_client : Peer := client 9%N "tablet" [CtrlReceived 7 (Some CPing)].

(** The host handles the session of device 10 itself. *)
Definition hosted_server : srv := exec_server (SDiscovered 10%N "desk") (open_server 4).

Definition three : conns :=
  [accept ipad_client []; accept phone_client []; accept tablet_client [true; true; false]].

(** The first two take turns, step by step, then the third one runs, to the end. *)
Definition turns : list nat := mjoin (replicate 11 [0%nat; 1%nat]) ++ [0%nat; 0%nat] ++ replicate 11 2%nat.

Definition side_by_side : srv * conns :=
  default (hosted_server, []) (schedule resume server own turns (hosted_server, three)).

Abbreviation hosted_step := (concurrent_step (M:=Fixtures.imap) (λ d, d = 10%N)).

Lemma three_accepted : rtc hosted_step (open_server 4, []) (hosted_server, three).
Proof.
  assert (∀ (ths : conns) p link d, announced p = Some d → d ≠ 10%N →
    forallb (λ th, bool_decide (announced (tag th) ≠ Some d)) ths = true →
    hosted_step (hosted_server, ths) (hosted_server, ths ++ [accept p link])) as Haccept.
  { intros ths p link d Hd Hne Hths. apply pool_spawn. exists p, link. split; [done|]. right. split.
    - intros th Hth. rewrite forallb_forall in Hths. rewrite Hd.
      by apply (bool_decide_eq_true_1 _), Hths, list_elem_of_In.
    - intros d' Hd'. congruence. }
  eapply rtc_l; [apply (pool_env _ _ _ _ _ _ hosted_server); apply (micro_call _ (open_server 4)); by intros d [= <-]|].
  eapply rtc_l; [by apply (Haccept [] ipad_client [] 7%N)|].
  eapply rtc_l; [by apply (Haccept _ phone_client [] 8%N)|].
  eapply rtc_l; [by apply (Haccept _ tablet_client [true; true; false] 9%N)|done].
Qed.

Lemma side_by_side_run :
  schedule resume server own turns (hosted_server, three) = Some side_by_side.
Proof. unfold side_by_side. destruct (schedule _ _ _ _ _) as [p|] eqn:E; [done|]. vm_compute in E. discriminate E. Qed.
Definition nth_conn (i : nat) (p : srv * conns) := default (accept ipad_client []) (p.2 !! i).

Lemma nth_conn_in i p : bool_decide (i < length p.2)%nat = true → nth_conn i p ∈ p.2.
Proof.
  intros Hi%bool_decide_eq_true. unfold nth_conn.
  destruct (lookup_lt_is_Some_2 p.2 i Hi) as [th Hth]. rewrite Hth. by apply list_elem_of_lookup_2 with i.
Qed.

Lemma concurrent_sessions_witness :
  served ipad_client ipad_hello Active side_by_side.1 ∧
  served phone_client (hello_of 8%N "phone" [MotionSource]) Closed side_by_side.1 ∧
  served tablet_client (hello_of 9%N "tablet" [MotionSource]) Active side_by_side.1.
Proof.
  assert (rtc hosted_step (open_server 4, []) (side_by_side.1, side_by_side.2)) as Hr.
  { rewrite <-surjective_pairing. eapply rtc_trans; [apply three_accepted|].
    apply schedule_pool with turns, side_by_side_run. }
  pose proof (λ th Hth, proj1 (concurrent_sessions _ (open_server 4) side_by_side.1 side_by_side.2 th Hr Hth)) as Hc.
  split_and!.
  - apply (Hc (nth_conn 0 side_by_side) (nth_conn_in 0 side_by_side eq_refl) _ (Ok Continue)).
    vm_compute. reflexivity.
  - apply (Hc (nth_conn 1 side_by_side) (nth_conn_in 1 side_by_side eq_refl) _ (Ok Break)).
    vm_compute. reflexivity.
  - destruct (code (nth_conn 2 side_by_side)) as [[[[hello r]|]|e|]|] eqn:E; try (vm_compute in E; discriminate E).
    specialize (Hc _ (nth_conn_in 2 side_by_side eq_refl) hello r E).
    vm_compute in E. injection E as <- <-. exact Hc.
Defined.

(** ** One device, two connections *)

(** A server that asks for a pairing token. *)
Definition paired_server : srv :=
  ServerHandle_new (mkConfig "stage" (mkAddr "0.0.0.0" true 7788) PairingRequired false 4 120 60
    [Motion; MappingFeature] LeaseConfig_default (Some "sesame") None) () ∅.

(** The client with the token, and one without that announces the same device. *)
Definition trusted : Peer :=
  mkPeerInput 0 107%N (Ok (CClientHello ipad_hello))
    (Ok (CRegisterRequest (mkRegisterRequest (Some "sesame") None))) [].
Definition intruder : Peer :=
  mkPeerInput 0 108%N (Ok (CClientHello ipad_hello)) (Ok (CRegisterRequest no_secret)) [].

(** A client that reconnects while its first connection has not failed yet. *)
Definition first_connection : Peer := client 7%N "ipad" [CtrlReceived 6 None].
Definition second_connection : Peer := client 7%N "ipad" [].

Definition after (order : list nat) (s : srv) (ps : list Peer) : srv * conns :=
  default (s, []) (schedule resume server own order (s, (λ p, accept p []) <$> ps)).

Definition states_after (order : list nat) (s : srv) (ps : list Peer) :
    option SessionState * list ended :=
  let p := after order s ps in
  (state_of p.1 7%N, (λ th, match code th with Done r => Some r | _ => None end) <$> p.2).

(** Sessions are kept per device, and whoever announces a device gets a new
    session in place of the old one before anything is asked of him. A client
    without the token resets the active session of another client and leaves
    it closed when he is turned away; and when a client has reconnected, the
    failure of its first connection closes the session of the second. In both
    cases the other connection goes on with a session that is closed. *)
Theorem one_device_two_connections :
  states_after (replicate 10 0%nat) paired_server [trusted; intruder] =
    (Some Active, [Some (Ok (Some (ipad_hello, Ok Continue))); None]) ∧
  states_after (replicate 10 0 ++ replicate 3 1)%nat paired_server [trusted; intruder] =
    (Some Discovered, [Some (Ok (Some (ipad_hello, Ok Continue))); None]) ∧
  states_after (replicate 10 0 ++ replicate 9 1)%nat paired_server [trusted; intruder] =
    (Some Closed, [Some (Ok (Some (ipad_hello, Ok Continue))); Some (Ok None)]) ∧
  states_after (replicate 10 0 ++ replicate 10 1)%nat (open_server 2) [first_connection; second_connection] =
    (Some Active, [None; Some (Ok (Some (ipad_hello, Ok Continue)))]) ∧
  states_after (replicate 10 0 ++ replicate 10 1 ++ [0])%nat (open_server 2)
      [first_connection; second_connection] =
    (Some Closed, [Some (Ok (Some (ipad_hello, Ok Break))); Some (Ok (Some (ipad_hello, Ok Continue)))]).
Proof. split_and!; vm_compute; reflexivity. Qed.

(** ** Instances of the theorems on any connections *)

Definition trimmed (p : Peer) : Prop :=
  ∀ hello, p.(p_first) = Ok (CClientHello hello) → trim hello.(ch_device_name) = hello.(ch_device_name).

Lemma any_accepted ok fine (s : srv) (ths : conns) (ps : list Peer) :
  Forall fine ps →
  rtc (any_step ok fine) (s, ths) (s, ths ++ ((λ p, accept p []) <$> ps)).
Proof.
  intros Hps. revert ths. induction Hps as [|p ps Hp _ IH]; intros ths; simpl.
  - by rewrite app_nil_r.
  - eapply rtc_l; [apply (pool_spawn _ _ _ _ _ _ _ (accept p [])); by exists p, []|].
    specialize (IH (ths ++ [accept p []])). by rewrite <-app_assoc in IH.
Qed.

Lemma any_after ok fine order (s : srv) ps :
  Forall fine ps → is_Some (schedule resume server own order (s, (λ p, accept p []) <$> ps)) →
  rtc (any_step ok fine) (s, []) ((after order s ps).1, (after order s ps).2).
Proof.
  intros Hps [p Hp]. rewrite <-surjective_pairing. unfold after. rewrite Hp. simpl.
  eapply rtc_trans; [by apply (any_accepted ok fine s [] ps)|]. by eapply schedule_pool.
Qed.

Definition ipad_and_phone : srv * conns :=
  after (mjoin (replicate 10 [0; 1]%nat)) (open_server 2) [client 7%N "ipad" []; client 8%N "phone" []].

Lemma concurrent_names_unique_witness :
  7%N = 7%N ∧ (session_of 7%N "ipad").(s_device_name) ≠ (session_of 8%N "phone").(s_device_name).
Proof.
  assert (rtc (any_step (λ _, server_op_ok) trimmed) (open_server 2, []) (ipad_and_phone.1, ipad_and_phone.2)) as Hr.
  { apply any_after.
    - repeat constructor; intros hello [= <-]; vm_compute; reflexivity.
    - vm_compute. by eexists. }
  pose proof (λ d d' x x', concurrent_names_unique (crate:=no_webrtc) (open_server 2).(config) () ∅
    ipad_and_phone.1 ipad_and_phone.2 d d' x x' Hr) as Hu.
  split.
  - apply (Hu 7%N 7%N (session_of 7%N "ipad") (session_of 7%N "ipad")); vm_compute; reflexivity.
  - intros Hn. enough (7%N = 8%N) by discriminate.
    apply (Hu 7%N 8%N (session_of 7%N "ipad") (session_of 8%N "phone")); [vm_compute; reflexivity..|exact Hn].
Defined.


