(* ===== verification/VideoFixtures.v ===== *)
(** Video calls side by side on a concrete server whose [webrtc] crate counts
    the tracks of its peers: the instance of [one_video_peer], and the races
    between the check and the addition of a track. *)

From S2P Require Import Prelude Tasks Float IndexMap Protocol Model Transform Runtime RuntimeSpec.
From S2P Require Import Fixtures Media Codec Recording RecordingProps WebRtc Transport Server.
From S2P Require Import ServerRuntime ServerVideo ServerLoop ServerSpec ServerSessions ServerPeer.
From S2P Require Import ServerTasks ServerSteps VideoPool ServerFixtures.
From stdpp Require Import relations.

Local Open Scope Z_scope.

(** The world is the number of tracks of every peer. *)
#[local] Instance counting_webrtc : WebRtcCrate.
Proof.
  refine {|
    rtc_world := list nat;
    RTCPeerConnection := nat;
    RTCSessionDescription := string;
    rd_text d := d;
    rtc_register_default_codecs w := (w, Ok ());
    rtc_register_default_interceptors w := (w, Ok ());
    rtc_new_peer_connection w := (w ++ [0%nat], Ok (length w));
    rtc_create_offer _ w := (w, Ok "offer");
    rtc_create_answer _ w := (w, Ok "answer");
    rtc_set_local_description _ _ w := (w, Ok ());
    rtc_set_remote_description _ _ w := (w, Ok ());
    rtc_parse_offer s := Ok s;
    rtc_parse_answer s := Ok s;
    rtc_add_ice_candidate _ _ w := (w, Ok ());
    rtc_add_track p _ _ w := (alter S p w, Ok ()) |}.
Defined.

Abbreviation video_srv := (ServerState (H:=counting_webrtc) Fixtures.imap).
Abbreviation video_conns := (list (thread () () video_srv ServerError SdpMessage)).

Definition video_hello : ClientHello :=
  mkClientHello PROTOCOL_MAJOR PROTOCOL_MINOR 7%N "ipad" [VideoSink] [Video] [].

Definition join_video : list server_op :=
  [SDiscovered 7%N "ipad"; STransport 7%N; SHello video_hello; SAuthenticate 7%N;
   SRegister 107%N 7%N no_secret; SSceneSynced 7%N; SActivate 7%N].

(** A server with a stream, and device 7 active with the video feature. *)
Definition video_server : video_srv :=
  run_server (SDescriptor (mkDescriptor 1920 1080 30 Sdr Bt709 Srgb 8) :: join_video)
    (ServerHandle_new (mkConfig "stage" (mkAddr "0.0.0.0" true 7788) TrustedLan false 4 120 60
      [Video] LeaseConfig_default None None) [] ∅).

(** Calls on the handle of the server, each a thread without a state of its own. *)
Definition calls {A} (order : list nat) (s : video_srv) (ts : list (task video_srv ServerError A)) :
    option (video_srv * list (thread () () video_srv ServerError A)) :=
  schedule (λ s _, s) (λ s, s) (λ _, ()) order (s, mkThread () () <$> ts).

Definition ensure : task video_srv ServerError nat := ServerTasks.ensure_video_peer 7%N.

Lemma ensures_spawned s n :
  rtc (peer_step 7%N) (s, []) (s, replicate n (mkThread () () ensure)).
Proof.
  induction n as [|n IH]; [done|]. eapply rtc_r; [exact IH|]. simpl. rewrite replicate_cons_app.
  by apply pool_spawn.
Qed.

Lemma ensures_run order n s q :
  schedule (λ s _, s) (λ s, s) (λ _, ()) order (s, replicate n (mkThread () () ensure)) = Some q →
  rtc (peer_step 7%N) (s, []) q.
Proof. intros Hq. eapply rtc_trans; [apply (ensures_spawned s n)|]. by apply schedule_pool with order. Qed.

(** Two calls create a peer each before either is stored. *)
Abbreviation interleaved :=
  (schedule (λ s (_ : ()), s) (λ s, s) (λ _, ()) [0; 1; 0; 1; 0; 1]%nat
    (video_server, replicate 2 (mkThread () () ensure))).

Lemma interleaved_ends : ∃ q, interleaved = Some q ∧
  existing_peer 7%N q.1 = Some 0%nat ∧ q.1.(webrtc) = [0; 0]%nat ∧
  code <$> q.2 = [Done (Ok 0%nat); Done (Ok 0%nat)].
Proof. eexists. split; [vm_compute; reflexivity|]. vm_compute. done. Qed.

Lemma one_video_peer_witness : ∃ q, interleaved = Some q ∧ existing_peer 7%N q.1 = Some 0%nat.
Proof.
  destruct interleaved_ends as ([s ths] & Hq & _ & _ & Hc). exists (s, ths). split; [exact Hq|].
  destruct ths as [|th [|th' [|]]]; try discriminate Hc. injection Hc as Hth Hth'.
  assert (th ∈ [th; th']) as H1 by left. assert (th' ∈ [th; th']) as H2 by (right; left).
  exact (proj2 (one_video_peer 7%N video_server s [th; th'] th th' 0%nat 0%nat
    (ensures_run [0; 1; 0; 1; 0; 1]%nat 2 video_server _ Hq) H1 H2 Hth Hth')).
Defined.

(** ** Races *)

Definition offer : task video_srv ServerError SdpMessage := ServerTasks.create_video_offer 7%N "stream" "video".

(** The tracks of all peers, and what the server keeps of device 7. *)
Definition video_view (s : video_srv) : list nat * option (nat * bool) * option SessionState :=
  (s.(webrtc), (λ e, (e.(peer), e.(track_added))) <$> s.(video_peers) !! 7%N, state_of s 7%N).

Definition and_then (order : list nat) (ops : list server_op)
    (q : option (video_srv * video_conns)) : option (video_srv * video_conns) :=
  '(s, ths) ← q; schedule (λ s _, s) (λ s, s) (λ _, ()) order (run_server ops s, ths).

(** Whether a track is needed is read under one lock and noted under another,
    with the addition in between. Two offers at once add the track twice. When
    the session is closed and the device comes back in between, the note
    lands on the new peer, whose offer then has no track at all. And a session
    that is closed while its first offer is being made keeps a peer. *)
Theorem video_races :
  video_view ∘ fst <$> calls (mjoin (replicate 8 [0; 1]%nat)) video_server [offer; offer] =
    Some ([2; 0]%nat, Some (0%nat, true), Some Active) ∧
  video_view ∘ fst <$>
    and_then [1; 1; 1; 1; 0; 1; 1]%nat (SClose 7%N 5 :: join_video)
      (calls [0; 0; 0; 0; 0; 0]%nat video_server [offer; offer]) =
    Some ([1; 0]%nat, Some (1%nat, true), Some Active) ∧
  video_view ∘ fst <$>
    and_then [0]%nat [SClose 7%N 5] (calls [0; 0; 0]%nat video_server [offer]) =
    Some ([0]%nat, Some (0%nat, false), Some Closed).
Proof. split_and!; vm_compute; reflexivity. Qed.
