(* ===== verification/StreamFixtures.v ===== *)
(** Concrete runs of the control stream ([Stream.v]), and what dropping a
    receive does. *)

From S2P Require Import Prelude Tasks Float Protocol Model Media Codec Transport ServerLoop Stream.

Local Open Scope Z_scope.

#[local] Existing Instance small_control.
#[local] Existing Instance small_motion.

(** A reader that takes what is there. *)
#[local] Instance eager_reader : StreamReader.
Proof.
  refine {|
    poll_read_exact n filled s :=
      let there := filled ++ s.(arrived) in
      if decide (Z.to_nat n ≤ length there)%nat then
        (mkRecv (drop (Z.to_nat n) there) s.(recv_end), Ready (Ok (take (Z.to_nat n) there)))
      else match s.(recv_end) with
           | None => (mkRecv [] None, Pending there)
           | Some e => (mkRecv [] (Some e), Ready (Err e))
           end |}; cbv zeta.
  - intros n filled s Hn _. by rewrite decide_True.
  - intros n filled s Hn ->. rewrite decide_False by lia. exists (filled ++ arrived s), [].
    by rewrite app_nil_r.
  - intros n filled s e Hn ->. by rewrite decide_False by lia.
Defined.

Definition ping_bytes : list byte := match send CPing with Ok bs => bs | _ => [] end.
Definition pong_bytes : list byte := match send CPong with Ok bs => bs | _ => [] end.
Definition tap_bytes : list byte :=
  match send_motion_datagram (mkDatagram 7%N 42 [tap true]) with Ok bs => bs | _ => [] end.

(** A ping and a pong, cut across their boundary, behind a datagram. *)
Definition cut : list InletEvent :=
  [Packet tap_bytes; PollLoop false 1; Bytes (take 2 ping_bytes); PollLoop true 2;
   Bytes (drop 2 ping_bytes ++ take 3 pong_bytes); PollLoop true 3; PollLoop false 4;
   Bytes (drop 3 pong_bytes)].

Lemma stream_delivers_witness :
  control_messages (peer_events (cut ++ [PollLoop false 5; PollLoop false 6; PollLoop true 7]) quiet_inlet)
    = [Some CPing; Some CPong].
Proof.
  refine (proj1 (proj2 (proj2 (stream_delivers [CPing; CPong] [ping_bytes; pong_bytes] cut [] _ _ _ _))
    eq_refl [(false, 5); (false, 6); (true, 7)] _ _)).
  - repeat (apply Forall2_cons; split; [by split|]). constructor.
  - by vm_compute.
  - by vm_compute.
  - by vm_compute.
  - by vm_compute.
  - cbn. lia.
Defined.

(** The length of a ping arrives, a datagram is handled, and the rest of the
    ping arrives: its first bytes are taken for the length of the next message,
    and no later ping is ever answered. In one piece, each is. *)
Definition late_ping : list InletEvent :=
  [Bytes (take 4 ping_bytes); PollLoop true 1; Packet tap_bytes; PollLoop true 2;
   Bytes (drop 4 ping_bytes); PollLoop true 3].
Definition whole_ping (now : Z) : list InletEvent := [Bytes ping_bytes; PollLoop true now].

Theorem dropped_receive :
  control_messages (peer_events (late_ping ++ whole_ping 4 ++ whole_ping 5 ++ whole_ping 6) quiet_inlet) = [] ∧
  (inlet_after (late_ping ++ whole_ping 4 ++ whole_ping 5 ++ whole_ping 6) quiet_inlet).(packets) = [] ∧
  dropped (PollLoop true 2) (inlet_after (take 3 late_ping) quiet_inlet) = take 4 ping_bytes ∧
  control_messages (peer_events (Packet tap_bytes :: whole_ping 1 ++ [PollLoop true 2] ++ whole_ping 3)
    quiet_inlet) = [Some CPing; Some CPing].
Proof. by vm_compute. Qed.
