(* ===== verification/PipelineFixtures.v ===== *)
(** A tap of a client, all the way to the exported file ([Pipeline.v]). *)

From S2P Require Import Prelude Text Float IndexMap Protocol Model Transform Runtime Fixtures Media Codec.
From S2P Require Import Recording RecordingSpec RecordingProps Export WebRtc Transport Server.
From S2P Require Import ServerRuntime ServerSpec ServerSessions ServerTake Pipeline ServerFixtures.

Local Open Scope Z_scope.

#[local] Existing Instance small_motion.
#[local] Remove Hints small_frames small_markers : typeclass_instances.

(** A frame with one trigger of one byte of identifier. *)
#[local] Instance tap_frames : Bincode RecordedFrame.
Proof.
  refine {|
    serialize f := match f.(rf_attributes) with
      | [mkRecordedAttribute o n (Trigger b)] =>
          if small f.(rf_timestamp_ns) && small (Z.of_N o) && bool_decide (n = "tap")
          then inr [byte_of_Z f.(rf_timestamp_ns); mode_byte f.(rf_mode); byte_of_Z (Z.of_N o);
                    if b then Byte.x01 else Byte.x00]
          else inl "range"
      | _ => inl "attributes" end;
    deserialize bs := match bs with
      | [t; m; o; b] => inr (mkRecordedFrame (Z_of_byte t) (byte_mode m)
          [mkRecordedAttribute (Z.to_N (Z_of_byte o)) "tap" (Trigger (bool_decide (b = Byte.x01)))])
      | _ => inl "length" end |}.
  intros [t m [|[o n []] []]] bs; cbn -[small]; try done.
  destruct (small t && _ && _) eqn:E; [|done]. rewrite !andb_true_iff in E.
  destruct E as [[Et Eo] En%bool_decide_eq_true]. subst n. intros [= <-].
  rewrite !small_byte, N2Z.id by done. by destruct m, b.
Defined.

#[local] Instance fields_eq_dec : EqDecision MappingFields.
Proof. solve_decision. Defined.
#[local] Instance marker_eq_dec : EqDecision RecordingMarker.
Proof. solve_decision. Defined.

(** The markers of a take in which device 7 drives a lamp. *)
Definition tap_markers : list RecordingMarker :=
  [ModeTransition 100 Live Protocol.Recording;
   MappingCreated 100 (request_fields 200%N (bind 7%N "tap" "tap"));
   ModeTransition 102 Protocol.Recording Protocol.Recording;
   ModeTransition 110 Protocol.Recording Live].

#[local] Instance one_take : Bincode (list RecordingMarker).
Proof.
  refine {| serialize ms := if decide (ms = tap_markers) then inr [] else inl "markers";
            deserialize _ := inr tap_markers |}.
  intros ms bs. by case_decide; [intros [= <-]; subst|].
Defined.

(** Device 7 taps while a take runs. *)
Definition tap_stage : Scene :=
  with_object (with_attribute (SceneAttribute_new "tap" (Trigger false)) (SceneObject_new 2%N "lamp"))
    (Scene_new 1%N "stage").
Definition tap_server : srv :=
  run_server [SLoadScene tap_stage; SCreate 200%N (bind 7%N "tap" "tap") 50] (open_server 2).

Abbreviation tap_started := (exec (start_recording 9%N "take.cmtrk" 100) tap_server).
Definition tap_before : list server_op := [SSetMode Protocol.Recording 102].
Definition tap_after : list server_op := [SRegister 1%N 8%N no_secret; STick 105].
Definition tap_datagram : MotionDatagram := mkDatagram 7%N 103 [tap true].
Abbreviation tapped_server :=
  (exec (ingest_motion_datagram tap_datagram) (run_server tap_before tap_started)).

Definition tap_bytes : list byte :=
  match send_motion_datagram (mkDatagram 7%N 103 (frame_of_update <$> [mkUpdate "tap" (Trigger true)])) with
  | Ok bs => bs
  | _ => []
  end.



Abbreviation tap_pushes :=
  (start_pushes 100 tap_server ++ all_pushes (tap_before ++ SDatagram tap_datagram :: tap_after) tap_started).

Lemma tap_fits : fits (take_writer 9%N 1%N 100 110 tap_pushes).
Proof.
  split_and!.
  - intros b Hb. vm_compute in Hb. injection Hb as <-. vm_compute. reflexivity.
  - intros b Hb. vm_compute in Hb. injection Hb as <-. vm_compute. reflexivity.
  - intros f b Hf Hb. vm_compute in Hf.
    apply elem_of_cons in Hf as [->|Hf]; [|by apply not_elem_of_nil in Hf].
    vm_compute in Hb. injection Hb as <-. vm_compute. reflexivity.
Qed.

Lemma motion_reaches_export_witness :
  ∃ content recording frame,
    (exec (stop_recording 110) (run_server tap_after tapped_server)).(disk) !! "take.cmtrk" = Some content ∧
    read_recording content = Ok recording ∧ frame ∈ recording.(file_frames) ∧
    frame.(rf_timestamp_ns) = 103 ∧
    Forall2 (recorded_value tapped_server.(runtime) 7%N) [mkUpdate "tap" (Trigger true)] frame.(rf_attributes).
Proof.
  assert (send_motion_datagram (mkDatagram 7%N 103 (frame_of_update <$> [mkUpdate "tap" (Trigger true)]))
    = Ok tap_bytes) as Hsend by (vm_compute; reflexivity).
  assert (recv_motion_datagram tap_bytes = Ok tap_datagram) as Hrecv by (vm_compute; reflexivity).
  destruct (motion_reaches_export 9%N "take.cmtrk" 100 110 7%N 103 [mkUpdate "tap" (Trigger true)] tap_bytes
    tap_before tap_after tap_server
    (exec (stop_recording 110) (run_server tap_after tapped_server)) (mkManifest 9%N 1%N 100 103 1) 1%N)
    as (dg & Hdg & Hend); [vm_compute; reflexivity|repeat constructor|exact Hsend|].
  assert (dg = tap_datagram) as -> by congruence.
  destruct Hend as (content & recording & frame & before & after & H1 & H2 & H3 & H4 & H5 & _).
  - vm_compute. reflexivity.
  - apply run_result. vm_compute. reflexivity.
  - exact tap_fits.
  - exists content, recording, frame. exact (conj H1 (conj H2 (conj H3 (conj H4 H5)))).
Defined.
