(* ===== verification/Discovery.v ===== *)
(** [motionstage-discovery/src/lib.rs]: what a server says about itself over
    multicast DNS, and what a browser makes of it. The daemon of the [mdns_sd]
    crate is a parameter; so is the service description it builds, with the
    behaviour its documentation gives the getters. *)

From S2P Require Import Prelude Text Net Protocol Server.

Local Open Scope Z_scope.

Definition SERVICE_TYPE : string := "_motionstage._udp.local.".

Definition equals : char := char_of_Z 61.
Definition hyphen : char := char_of_Z 45.
Definition dot : char := char_of_Z 46.

(** ** The records of an advertisement *)

(** [{f:?}]. *)
Definition show_feature (f : Feature) : string :=
  match f with
  | Motion => "Motion"
  | MappingFeature => "Mapping"
  | RecordingFeature => "Recording"
  | Video => "Video"
  | Hdr10Feature => "Hdr10"
  | SdrFallback => "SdrFallback"
  end.

Definition to_txt_records (self : DiscoveryAdvertisement) : list string :=
  ["name=" +:+ self.(service_name);
   "proto_major=" +:+ show_Z self.(protocol_major);
   "proto_minor=" +:+ show_Z self.(protocol_minor);
   "security=" +:+ self.(adv_security_mode);
   "features=" +:+ join "," (show_feature <$> self.(adv_features))].

Definition default_for (name : string) (port : Z) : DiscoveryAdvertisement :=
  mkAdvertisement name "0.0.0.0" port PROTOCOL_MAJOR PROTOCOL_MINOR
    [Motion; MappingFeature; RecordingFeature; Video; Hdr10Feature; SdrFallback] "trusted_lan".

Definition instance_name (self : DiscoveryAdvertisement) : string :=
  self.(service_name) +:+ "." +:+ SERVICE_TYPE.

(** The loop of [advertise] over the records. *)
Definition txt_map (records : list string) : gmap string string :=
  foldl (λ m entry, match split_once equals entry with Some (k, v) => <[k := v]> m | None => m end) ∅ records.

(** The [map] over characters: a character outside of ASCII is one hyphen,
    however many bytes it has, so its continuation bytes are skipped. *)
Fixpoint hostname_chars (s : string) : string :=
  match s with
  | EmptyString => EmptyString
  | String c s =>
      if tail_byte c then hostname_chars s
      else String (if is_alphanumeric c || bool_decide (c = hyphen) then lower_char c else hyphen)
             (hostname_chars s)
  end.

Definition hostname_label (service_name : string) : string :=
  let normalized := trim_matches hyphen (hostname_chars service_name) in
  if is_empty normalized then "motionstage" else normalized.
Definition local_hostname_for_service (service_name : string) : string :=
  hostname_label service_name +:+ ".local.".

Definition service_name_from_fullname (fullname : string) : string :=
  trim_end_matches dot (default fullname (strip_suffix SERVICE_TYPE fullname)).

(** ** The daemon *)

Inductive DiscoveryError := Mdns (reason : string).

Inductive RecvOutcome (E : Type) := RecvEvent (e : E) | RecvTimeout | RecvDisconnected.
Arguments RecvEvent {E} e.
Arguments RecvTimeout {E}.
Arguments RecvDisconnected {E}.

(** A character that stands for itself in an instance name; the crate may
    escape dots and backslashes. *)
Definition plain_char (c : char) : bool :=
  negb (bool_decide (c = dot)) && negb (bool_decide (c = char_of_Z 92)).

(** The [mdns_sd] crate: its service description and the calls on a daemon,
    which act on a state of the network the program does not see. *)
Class MdnsCrate := {
  ServiceInfo : Type;
  service_info_new : string → string → string → string → Z → gmap string string → string + ServiceInfo;
  get_addresses : ServiceInfo → list IpAddr;
  get_property_val_str : ServiceInfo → string → option string;
  get_fullname : ServiceInfo → string;
  get_hostname : ServiceInfo → string;
  get_port : ServiceInfo → Z;
  (* The getters return what the description was built from. *)
  info_property ty name host ip port txt info k v :
    service_info_new ty name host ip port txt = inr info → txt !! k = Some v →
    get_property_val_str info k = Some v;
  info_fullname ty name host ip port txt info :
    string_forall plain_char name = true →
    service_info_new ty name host ip port txt = inr info → get_fullname info = name +:+ "." +:+ ty;
  info_hostname ty name host ip port txt info :
    service_info_new ty name host ip port txt = inr info → get_hostname info = host;
  info_port ty name host ip port txt info :
    service_info_new ty name host ip port txt = inr info → get_port info = port;
  mdns_world : Type;
  ServiceDaemon : Type;
  daemon_new : prog mdns_world string ServiceDaemon;
  daemon_register : ServiceDaemon → ServiceInfo → prog mdns_world string ();
  daemon_unregister : ServiceDaemon → string → prog mdns_world string ();
  daemon_shutdown : ServiceDaemon → prog mdns_world string ();
  daemon_browse : ServiceDaemon → string → prog mdns_world string ();
}.

(** [ServiceEvent]: the only variant that is looked into. *)
Inductive ServiceEvent `{MdnsCrate} :=
  | ServiceResolved (info : ServiceInfo)
  | OtherEvent.

Record DiscoveredService := mkDiscovered {
  ds_service_name : string;
  ds_fullname : string;
  ds_host_name : string;
  ds_addresses : list IpAddr;
  ds_port : Z;
  ds_protocol_major : option Z;
  ds_protocol_minor : option Z;
}.

Section discovery.
Context `{MdnsCrate}.
Abbreviation mdns := (prog mdns_world DiscoveryError).

(** [.map_err(|err| DiscoveryError::Mdns(err.to_string()))?]. *)
Definition on_daemon {A} (m : prog mdns_world string A) : mdns A := zoom (λ w, w) (λ w _, w) Mdns m.

Record DiscoveryPublisher := mkPublisher { pub_daemon : ServiceDaemon; full_name : string }.

(** The description [advertise] hands to the daemon. *)
Definition advertised_info (advertisement : DiscoveryAdvertisement) : string + ServiceInfo :=
  service_info_new SERVICE_TYPE advertisement.(service_name)
    (local_hostname_for_service advertisement.(service_name))
    advertisement.(bind_host) advertisement.(bind_port) (txt_map (to_txt_records advertisement)).

Definition advertise (advertisement : DiscoveryAdvertisement) : mdns DiscoveryPublisher :=
  daemon ← on_daemon daemon_new;
  match advertised_info advertisement with
  | inl err => throw (Mdns err)
  | inr service =>
      on_daemon (daemon_register daemon service);;
      mret (mkPublisher daemon (instance_name advertisement))
  end.

(** [DiscoveryPublisher::stop]. *)
Definition publisher_stop (self : DiscoveryPublisher) : mdns () :=
  on_daemon (daemon_unregister self.(pub_daemon) self.(full_name));;
  on_daemon (daemon_shutdown self.(pub_daemon)).

(** [DiscoveryBrowser::start] and [stop]. *)
Definition browser_start : mdns ServiceDaemon :=
  daemon ← on_daemon daemon_new;
  on_daemon (daemon_browse daemon SERVICE_TYPE);;
  mret daemon.
Definition browser_stop (daemon : ServiceDaemon) : mdns () := on_daemon (daemon_shutdown daemon).

Definition recv_timeout (outcome : RecvOutcome ServiceEvent) : res DiscoveryError (option ServiceEvent) :=
  match outcome with
  | RecvEvent event => Ok (Some event)
  | RecvTimeout => Ok None
  | RecvDisconnected => Err (Mdns "browse channel disconnected")
  end.

(** [DiscoveredService::from_info]. *)
Definition from_info (info : ServiceInfo) : DiscoveredService :=
  mkDiscovered
    (match get_property_val_str info "name" with
     | Some name => name
     | None => service_name_from_fullname (get_fullname info)
     end)
    (get_fullname info) (get_hostname info) (sort_by_text (get_addresses info)) (get_port info)
    (get_property_val_str info "proto_major" ≫= parse_u16)
    (get_property_val_str info "proto_minor" ≫= parse_u16).

Definition recv_service_timeout (outcome : RecvOutcome ServiceEvent) :
    res DiscoveryError (option DiscoveredService) :=
  event ← recv_timeout outcome;
  Ok (match event with Some (ServiceResolved info) => Some (from_info info) | _ => None end).

(** ** Names *)

(** A label of a host name: lower-case letters, digits and inner hyphens. *)
Definition label_char (c : char) : bool := is_digit c || is_lower c || bool_decide (c = hyphen).
Definition is_label (s : string) : Prop :=
  s ≠ "" ∧ string_forall label_char s = true ∧
  (∀ t, s ≠ String hyphen t) ∧ (∀ t, s ≠ t +:+ String hyphen "").

Lemma hostname_chars_label s : string_forall label_char (hostname_chars s) = true.
Proof.
  induction s as [|c s IH]; [done|]. cbn [hostname_chars]. destruct (tail_byte c); [done|].
  cbn [string_forall]. rewrite IH, andb_true_r. clear IH s.
  destruct c as [[] [] [] [] [] [] [] []]; vm_compute; reflexivity.
Qed.

Lemma hostname_chars_id s : string_forall label_char s = true → hostname_chars s = s.
Proof.
  induction s as [|c s IH]; [done|]. cbn [string_forall hostname_chars]. intros [Hc Hs]%andb_true_iff.
  rewrite IH by done. clear IH Hs. revert Hc.
  destruct c as [[] [] [] [] [] [] [] []]; vm_compute; intros [=]; reflexivity.
Qed.

(** Any service name, also one without a single letter or one that is not
    ASCII, becomes a well-formed host label under [.local.]; a name that is
    already one is kept. *)
Theorem hostname_well_formed name :
  is_label (hostname_label name) ∧ local_hostname_for_service name = hostname_label name +:+ ".local." ∧
  (is_label name → hostname_label name = name).
Proof.
  unfold hostname_label. split_and!; [|done|].
  - destruct (is_empty _) eqn:He.
    { split_and!; [done|done| |]; intros t Ht; [done|].
      apply (f_equal (string_rev "")) in Ht. by rewrite string_rev_app_nil in Ht. }
    split_and!.
    + intros Hn. by rewrite Hn in He.
    + apply trim_matches_forall, hostname_chars_label.
    + apply trim_matches_head.
    + apply trim_end_matches_last.
  - intros (Hne & Hc & Hh & Hl). rewrite hostname_chars_id by done. unfold trim_matches.
    rewrite trim_start_matches_id, trim_end_matches_id by done. by destruct name.
Qed.

(** The full name under which a service is registered gives its name back,
    unless the name itself ends in a dot. *)
Theorem fullname_roundtrip adv :
  (∀ t, adv.(service_name) ≠ t +:+ String dot "") →
  service_name_from_fullname (instance_name adv) = adv.(service_name).
Proof.
  intros Hd. unfold service_name_from_fullname, instance_name.
  rewrite string_app_assoc, strip_suffix_app. cbn [default].
  etransitivity; [apply (trim_end_matches_app dot)|]. by apply trim_end_matches_id.
Qed.

(** ** What a browser reads is what the server advertised *)

Lemma txt_map_lookups adv :
  let txt := txt_map (to_txt_records adv) in
  txt !! "name" = Some adv.(service_name) ∧ txt !! "proto_major" = Some (show_Z adv.(protocol_major)) ∧
  txt !! "proto_minor" = Some (show_Z adv.(protocol_minor)) ∧ txt !! "security" = Some adv.(adv_security_mode).
Proof.
  unfold txt_map, to_txt_records. cbn [foldl].
  assert (∀ k v, string_forall (λ d, negb (bool_decide (equals = d))) k = true →
    split_once equals (k +:+ String equals v) = Some (k, v)) as Hs by (intros; by apply split_once_app).
  change ("name=" +:+ ?v) with ("name" +:+ String equals v).
  change ("proto_major=" +:+ ?v) with ("proto_major" +:+ String equals v).
  change ("proto_minor=" +:+ ?v) with ("proto_minor" +:+ String equals v).
  change ("security=" +:+ ?v) with ("security" +:+ String equals v).
  change ("features=" +:+ ?v) with ("features" +:+ String equals v).
  rewrite !Hs by done. by repeat split; simplify_map_eq.
Qed.

(** A server is found as it advertised itself: the description built from
    its advertisement is read back with its name, whatever the characters in
    it, its port and the two halves of its version, and, for a name without
    dots and backslashes, under the full name it later withdraws. *)
Lemma advertised_fields adv info :
  0 ≤ adv.(protocol_major) ≤ u16_max → 0 ≤ adv.(protocol_minor) ≤ u16_max →
  advertised_info adv = inr info →
  let found := from_info info in
  found.(ds_service_name) = adv.(service_name) ∧ found.(ds_port) = adv.(bind_port) ∧
  found.(ds_protocol_major) = Some adv.(protocol_major) ∧
  found.(ds_protocol_minor) = Some adv.(protocol_minor) ∧
  (string_forall plain_char adv.(service_name) = true → found.(ds_fullname) = instance_name adv) ∧
  found.(ds_host_name) = local_hostname_for_service adv.(service_name).
Proof.
  intros Hma Hmi Hi. destruct (txt_map_lookups adv) as (Hn & Hj & Hm & _). cbn.
  rewrite (info_property _ _ _ _ _ _ _ _ _ Hi Hn), (info_property _ _ _ _ _ _ _ _ _ Hi Hj).
  rewrite (info_property _ _ _ _ _ _ _ _ _ Hi Hm). cbn [mbind option_bind]. unfold parse_u16.
  rewrite !parse_unsigned_show by done.
  rewrite (info_hostname _ _ _ _ _ _ _ Hi), (info_port _ _ _ _ _ _ _ Hi).
  split_and!; try done. intros Hp. by rewrite (info_fullname _ _ _ _ _ _ _ Hp Hi).
Qed.
End discovery.

(** ** A daemon that keeps what is registered *)

Record Info := mkInfo { i_full : string; i_host : string; i_port : Z; i_txt : gmap string string }.

Definition local_mdns : MdnsCrate.
Proof.
  refine {|
    ServiceInfo := Info;
    service_info_new ty name host ip port txt := inr (mkInfo (name +:+ "." +:+ ty) host port txt);
    get_addresses _ := [V4 192 168 1 20; V4 127 0 0 1];
    get_property_val_str info k := info.(i_txt) !! k;
    get_fullname := i_full;
    get_hostname := i_host;
    get_port := i_port;
    mdns_world := gmap string Info;
    ServiceDaemon := ();
    daemon_new := mret ();
    daemon_register _ info := modify <[info.(i_full) := info]>;
    daemon_unregister _ name := modify (delete name);
    daemon_shutdown _ := mret ();
    daemon_browse _ _ := mret ();
  |}; [by intros ????????? [= <-]|by intros ??????? _ [= <-]|by intros ??????? [= <-]..].
Defined.

Definition stage_advertisement : DiscoveryAdvertisement := default_for "my=stage" 7788.

Lemma fullname_roundtrip_witness :
  (∀ t, stage_advertisement.(service_name) ≠ t +:+ String dot "") ∧
  service_name_from_fullname "my=stage._motionstage._udp.local." = "my=stage".
Proof.
  assert (∀ t, stage_advertisement.(service_name) ≠ t +:+ String dot "") as Hd.
  { intros t Ht. apply (f_equal (string_rev "")) in Ht. by rewrite string_rev_app_nil in Ht. }
  split; [done|]. apply (fullname_roundtrip stage_advertisement Hd).
Defined.
