(* ===== verification/Client.v ===== *)
(** The client's end of a connection, which the command line
    ([motionstage-cli]), the Swift bindings and their tests drive: what the
    control stream delivers, what was written to it, and the datagrams. Errors
    are their texts, the way the clients pass them on.

    The last part says which replies the server's handshake produces for a
    client that sends a hello and a registration. *)

From S2P Require Import Prelude Float IndexMap Protocol Model Transform Runtime Media Codec.
From S2P Require Import Recording WebRtc Transport Server ServerRuntime ServerVideo ServerLoop.
From S2P Require Import ServerSpec ServerSessions ServerPeer.
From S2P Require Import ServerControl Net.

Local Open Scope Z_scope.

(** What a pending receive meets: a message, an error of the transport, or a
    time without a message that is longer than any timeout. *)
Inductive Arrival :=
  | Incoming (message : ControlMessage)
  | Broken (error : string)
  | Silence.

(** [fates] says what becomes of the next sends: delivered when [None] or past
    the end, refused with an error otherwise. After the last arrival the
    connection is closed and receives fail with [closed]. *)
Record Wire := mkWire {
  inbox : list Arrival;
  closed : string;
  outbox : list ControlMessage;
  sent_datagrams : list MotionDatagram;
  fates : list (option string);
  finished : bool;
}.

(** A connection on which the server's messages arrive, one after the other. *)
Definition wire_of (messages : list ControlMessage) (closed : string) : Wire :=
  mkWire (Incoming <$> messages) closed [] [] [] false.

Abbreviation channel := (prog Wire string).

Definition set_inbox (l : list Arrival) (w : Wire) : Wire :=
  mkWire l w.(closed) w.(outbox) w.(sent_datagrams) w.(fates) w.(finished).
Definition set_outbox (l : list ControlMessage) (w : Wire) : Wire :=
  mkWire w.(inbox) w.(closed) l w.(sent_datagrams) w.(fates) w.(finished).
Definition set_datagrams (l : list MotionDatagram) (w : Wire) : Wire :=
  mkWire w.(inbox) w.(closed) w.(outbox) l w.(fates) w.(finished).
Definition set_fates (l : list (option string)) (w : Wire) : Wire :=
  mkWire w.(inbox) w.(closed) w.(outbox) w.(sent_datagrams) l w.(finished).

(** [control.recv().await]: waits through the silence. *)
Fixpoint next_arrival (closed : string) (l : list Arrival) : list Arrival * res string ControlMessage :=
  match l with
  | [] => ([], Err closed)
  | Incoming m :: l => (l, Ok m)
  | Broken e :: l => (l, Err e)
  | Silence :: l => next_arrival closed l
  end.
Definition recv : channel ControlMessage := λ w,
  let '(l, r) := next_arrival w.(closed) w.(inbox) in (set_inbox l w, r).

(** [timeout(limit, control.recv()).await]: [None] when the time elapsed. *)
Definition recv_within : channel (option ControlMessage) := λ w,
  match w.(inbox) with
  | Silence :: l => (set_inbox l w, Ok None)
  | _ => (m ← recv; mret (Some m)) w
  end.

(** The fate of the next send. *)
Definition next_fate : channel () := λ w,
  match w.(fates) with
  | [] => (w, Ok ())
  | None :: l => (set_fates l w, Ok ())
  | Some e :: l => (set_fates l w, Err e)
  end.

(** [control.send(..).await]. *)
Definition send (m : ControlMessage) : channel () :=
  next_fate;; modify (λ w, set_outbox (w.(outbox) ++ [m]) w).
(** [peer.send_motion_datagram(..)]. *)
Definition send_datagram (d : MotionDatagram) : channel () :=
  next_fate;; modify (λ w, set_datagrams (w.(sent_datagrams) ++ [d]) w).

(** Setting up a connection: creating the endpoint, connecting, accepting the
    control stream. *)
Inductive Dial :=
  | EndpointFailed (error : string)
  | ConnectFailed (error : string)
  | AcceptFailed (error : string)
  | Dialed (wire : Wire).

(** The derived [Debug] texts that end up in errors. *)
Class DebugText := {
  debug_message : ControlMessage → string;
  debug_reject_code : RejectCode → string;
}.

(** ** Laws *)

Lemma recv_incoming m l w : w.(inbox) = Incoming m :: l → recv w = (set_inbox l w, Ok m).
Proof. unfold recv. by intros ->. Qed.
Lemma recv_closed w : w.(inbox) = [] → recv w = (set_inbox [] w, Err w.(closed)).
Proof. unfold recv. by intros ->. Qed.
Lemma recv_within_incoming m l w : w.(inbox) = Incoming m :: l → recv_within w = (set_inbox l w, Ok (Some m)).
Proof. intros Hw. unfold recv_within. rewrite Hw. by rewrite (prog_bind_ok _ _ _ _ _ (recv_incoming _ _ _ Hw)). Qed.
Lemma recv_within_closed w : w.(inbox) = [] → recv_within w = (set_inbox [] w, Err w.(closed)).
Proof. intros Hw. unfold recv_within. rewrite Hw. by rewrite (prog_bind_err _ _ _ _ _ (recv_closed _ Hw)). Qed.
Lemma send_delivered m w : w.(fates) = [] → send m w = (set_outbox (w.(outbox) ++ [m]) w, Ok ()).
Proof. intros Hw. unfold send, next_fate, modify. unfold mbind, prog_bind. by rewrite Hw. Qed.
Lemma send_datagram_delivered d w :
  w.(fates) = [] → send_datagram d w = (set_datagrams (w.(sent_datagrams) ++ [d]) w, Ok ()).
Proof. intros Hw. unfold send_datagram, next_fate, modify. unfold mbind, prog_bind. by rewrite Hw. Qed.

(** * What the server answers *)
Section replies.
Context {M : Type → Type} `{!IndexMap Uuid M} {fmt : UuidFormat} {crate : WebRtcCrate}
  {fs : FileSystem} {bm : Bincode RecordingManifest} {bk : Bincode (list RecordingMarker)}
  {bf : Bincode RecordedFrame} {texts : ErrorText}.
Implicit Types s : ServerState M.

(** The handshake of a client that sends these two messages, on a fresh
    connection to a server in state [s]. *)
Definition meet (now : Z) (id : Uuid) (hello : ClientHello) (req : RegisterRequest) s :=
  handshake now id (Ok (CClientHello hello)) (Ok (CRegisterRequest req)) (mkConn s [] []).

Lemma send_open msg (c : Conn M) :
  c.(link) = [] → control_send msg c = (mkConn c.(server) (c.(sent) ++ [msg]) [], Ok ()).
Proof. unfold control_send. by intros ->. Qed.

(** Three ends: the client is in; it is told why it is not; or, when the server
    does not answer its hello, the handler just ends. *)
Lemma server_replies now id hello req s :
  keyed s →
  (acceptable s hello req ∧
   meet now id hello req s = (mkConn (joined s hello id) (welcome s hello id) [], Ok (Some hello))) ∨
  (greetable s hello ∧ ¬ acceptable s hello req ∧ ∃ rej s',
   meet now id hello req s = (mkConn s' [CServerHello (server_hello s); CRegisterRejected rej] [], Ok None)) ∨
  (¬ greetable s hello ∧ ∃ e s',
   meet now id hello req s = (mkConn s' [CServerHello (server_hello s)] [], Err e)).
Proof.
  intros Hk. destruct (greet_outcome hello s) as [[Hg Hgr]|[Hg (s' & e & He)]].
  - destruct (admit_outcome hello id req s Hk Hg) as [[Ha _]|[Ha (rej & Hr)]].
    + left. split; [done|]. unfold meet. by rewrite handshake_complete by repeat (done || constructor).
    + right; left. split; [done|]. split; [done|]. exists rej. unfold meet. rewrite handshake_greet.
      change ((get ≫= ?f) ?c) with (f c c). cbv beta. cbn [server].
      set (s1 := set_sessions _ s) in *. set (c1 := mkConn s [CServerHello (server_hello s)] []).
      rewrite (prog_bind_ok _ _ _ c1 _ (send_open _ (mkConn s [] []) eq_refl)).
      change ((received (Ok ?m) ≫= ?f) c1) with (f m c1). cbv beta iota.
      rewrite (prog_bind_ok _ _ _ _ _ (call_ok (greet hello) c1 s1 () Hgr)).
      change ((received (Ok ?m) ≫= ?f) ?c) with (f m c). cbv beta iota.
      rewrite (prog_bind_ok _ _ _ _ _ (attempt_err _ _ _ _ (call_err _ (set_server s1 c1) _ _ Hr))).
      cbv beta iota. set (c2 := set_server _ _).
      rewrite (prog_bind_ok _ _ _ _ _ (send_open _ c2 eq_refl)).
      rewrite (prog_bind_ok _ _ _ _ _ (close_quietly_outcome _ now _)). by eexists.
  - right; right. split; [done|]. exists e, s'. unfold meet. rewrite handshake_greet.
    change ((get ≫= ?f) ?c) with (f c c). cbv beta. cbn [server].
    set (c1 := mkConn s [CServerHello (server_hello s)] []).
    rewrite (prog_bind_ok _ _ _ c1 _ (send_open _ (mkConn s [] []) eq_refl)).
    change ((received (Ok ?m) ≫= ?f) c1) with (f m c1). cbv beta iota.
    by rewrite (prog_bind_err _ _ _ _ _ (call_err (greet hello) c1 s' e He)).
Qed.
End replies.
