(* ===== verification/Quic.v ===== *)
(** [crates/motionstage-transport-quic/src/lib.rs]: setting up a connection,
    on both sides. The certificate ([rcgen]), the cryptography ([rustls]) and
    the endpoints ([quinn]) are parameters; how they are configured and how
    their errors are passed on is here.

    The second part is the accept loop of the server with the future of
    [QuicServer::accept] in its two halves: waiting for a connection attempt,
    and waiting for its handshake. *)

From S2P Require Import Prelude Tasks Text Float IndexMap Protocol Model Transform Runtime Media Codec.
From S2P Require Import Recording WebRtc Transport Server ServerRuntime Client.

Local Open Scope Z_scope.

(** What the crate sets of [quinn::TransportConfig]; times in nanoseconds. *)
Record TransportConfig := mkTransportConfig {
  max_concurrent_uni_streams : Z;
  datagram_receive_buffer_size : option Z;
  keep_alive_interval : option Z;
  max_idle_timeout : option Z;
}.

Inductive SignatureScheme := RSA_PKCS1_SHA256 | ECDSA_NISTP256_SHA256 | ED25519 | OtherScheme (n : Z).

(** [rustls::client::danger::ServerCertVerifier]: whether a certificate and a
    signature are accepted, and the schemes that are offered. *)
Record ServerCertVerifier (C : Type) := mkVerifier {
  verify_server_cert : C → list C → string → bool;
  verify_tls12_signature : list byte → C → bool;
  verify_tls13_signature : list byte → C → bool;
  supported_verify_schemes : list SignatureScheme;
}.
Arguments mkVerifier {C} _ _ _ _.
Arguments verify_server_cert {C} _ _ _ _.
Arguments verify_tls12_signature {C} _ _ _.
Arguments verify_tls13_signature {C} _ _ _.
Arguments supported_verify_schemes {C} _.

(** What the crate calls. Of an error, its text. *)
Class QuicCrates := {
  CertificateDer : Type;
  PrivateKeyDer : Type;
  ServerTls : Type;
  ClientTls : Type;
  Endpoint : Type;
  QuinnConnection : Type;
  QuinnStream : Type;
  transport_default : TransportConfig;
  generate_simple_self_signed : list string → res string (CertificateDer * PrivateKeyDer);
  with_single_cert : list CertificateDer → PrivateKeyDer → res string ServerTls;
  transport_shared : ServerTls → bool;
  server_transport : ServerTls → TransportConfig;
  endpoint_server : ServerTls → TransportConfig → SocketAddr → res string Endpoint;
  endpoint_local_addr : Endpoint → res string SocketAddr;
  endpoint_client : SocketAddr → res string Endpoint;
  client_tls : ServerCertVerifier CertificateDer → res string ClientTls;
  set_default_client_config : ClientTls → TransportConfig → Endpoint → Endpoint;
  endpoint_connect : Endpoint → SocketAddr → string → res string ();
  connecting : Endpoint → SocketAddr → string → res string QuinnConnection;
  open_bi : QuinnConnection → res string QuinnStream;
  accept_bi : QuinnConnection → res string QuinnStream;
  stream_finish : QuinnStream → res string ();
}.

(** The default cryptography of the process, and whether this crate has tried
    to install it. *)
Record Process := mkProcess { once : bool; default_provider : option string }.

Section quic.
Context {crates : QuicCrates}.
Abbreviation method := (prog Process QuicTransportError).

(** [ONCE.call_once(|| { let _ = ring::default_provider().install_default(); })]:
    a provider that is there stays. *)
Definition install_rustls_provider : method () :=
  modify (λ p, if p.(once) then p else
    mkProcess true (Some (default "ring" p.(default_provider)))).

Definition configure_transport (t : TransportConfig) : TransportConfig :=
  mkTransportConfig 32 (Some (64 * 1024)) (Some (2 * 10 ^ 9)) t.(max_idle_timeout).

Definition default_transport_config : TransportConfig := configure_transport transport_default.

(** [SkipServerVerification]. *)
Definition SkipServerVerification : ServerCertVerifier CertificateDer :=
  mkVerifier (λ _ _ _, true) (λ _ _, true) (λ _ _, true)
    [RSA_PKCS1_SHA256; ECDSA_NISTP256_SHA256; ED25519].

(** [QuicServer::bind]; [Arc::get_mut] gives nothing when the configuration is
    shared. *)
Definition QuicServer_bind (bind_addr : SocketAddr) : method Endpoint :=
  install_rustls_provider;;
  '(cert, key) ← lift (map_err Cert (generate_simple_self_signed ["localhost"]));
  server_config ← lift (map_err Tls (with_single_cert [cert] key));
  transport ← lift (if transport_shared server_config then Panicked
                    else Ok (configure_transport (server_transport server_config)));
  lift (map_err Io (endpoint_server server_config transport bind_addr)).

Definition local_addr (endpoint : Endpoint) : res QuicTransportError SocketAddr :=
  map_err Io (endpoint_local_addr endpoint).

(** [QuicClient::new_insecure_for_local_dev]. *)
Definition any_port : SocketAddr := mkAddr "0.0.0.0" true 0.
Definition new_insecure_for_local_dev : method Endpoint :=
  install_rustls_provider;;
  endpoint ← lift (map_err Io (endpoint_client any_port));
  crypto ← lift (map_err Crypto (client_tls SkipServerVerification));
  mret (set_default_client_config crypto default_transport_config endpoint).

(** [QuicClient::connect]: starting, then the handshake. *)
Definition connect (endpoint : Endpoint) (addr : SocketAddr) : res QuicTransportError QuinnConnection :=
  map_err Connect (endpoint_connect endpoint addr "localhost");;
  map_err Connection (connecting endpoint addr "localhost").

Definition open_control_stream (peer : QuinnConnection) : res QuicTransportError QuinnStream :=
  map_err Connection (open_bi peer).
Definition accept_control_stream (peer : QuinnConnection) : res QuicTransportError QuinnStream :=
  map_err Connection (accept_bi peer).

(** [ControlChannel::finish]. *)
Definition finish (stream : QuinnStream) : res QuicTransportError () := map_err Write (stream_finish stream).

(** The derived [Display]; a read error has the text of [quinn]. *)
Definition transport_error_text (read_error : IoError → string) (e : QuicTransportError) : string :=
  match e with
  | Io e => "io: " +:+ e
  | Tls e => "tls: " +:+ e
  | Cert e => "cert: " +:+ e
  | Connect e => "connect: " +:+ e
  | Connection e => "connection: " +:+ e
  | Read e => "read: " +:+ read_error e
  | Write e => "write: " +:+ e
  | Serialization e => "serialization: " +:+ e
  | Datagram e => "datagram: " +:+ e
  | Crypto e => "crypto: " +:+ e
  | Handshake e => "handshake: " +:+ e
  | UnsupportedProtocolVersion major minor supported_major supported_minor =>
      "unsupported protocol version " +:+ show_Z major +:+ "." +:+ show_Z minor +:+ " (supported <= "
        +:+ show_Z supported_major +:+ "." +:+ show_Z supported_minor +:+ ")"
  end.
End quic.

(** ** What the rest of the development assumes of the network *)

Section clients.
Context {crates : QuicCrates} (read_error : IoError → string).
Abbreviation text := (transport_error_text read_error).

(** [net_bind] of [ServerRuntime.v]: [QuicServer::bind] and
    [QuicServer::local_addr], the way [start_quic_runtime] calls them. *)
Definition quic_bind (p : Process) (addr : SocketAddr) : res string SocketAddr :=
  map_err text (endpoint ← result (QuicServer_bind addr) p; local_addr endpoint).

(** The connection that the clients dial ([Client.Dial]), given what their end
    of a stream looks like. *)
Definition dial (wire : QuinnConnection → QuinnStream → Wire) (p : Process) (addr : SocketAddr) : Dial :=
  match result new_insecure_for_local_dev p with
  | Ok endpoint =>
      match connect endpoint addr with
      | Ok peer =>
          match accept_control_stream peer with
          | Ok stream => Dialed (wire peer stream)
          | Err e => Client.AcceptFailed (text e)
          | Panicked => Client.AcceptFailed "panic"
          end
      | Err e => ConnectFailed (text e)
      | Panicked => ConnectFailed "panic"
      end
  | Err e => EndpointFailed (text e)
  | Panicked => EndpointFailed "panic"
  end.

(** Binding does not depend on who set up the cryptography before, and
    afterwards it is set up for good. *)
Lemma bind_any_process addr p p' :
  result (QuicServer_bind addr) p = result (QuicServer_bind addr) p'.
Proof.
  unfold QuicServer_bind, install_rustls_provider. unfold_prog.
  destruct (generate_simple_self_signed _) as [[cert key]|e|]; [|done..]. cbn.
  destruct (with_single_cert _ _) as [tls|e|]; [|done..]. cbn. by destruct (transport_shared tls).
Qed.

Lemma provider_installed addr p :
  let p' := exec (QuicServer_bind addr) p in
  p'.(once) = true ∧ (p.(once) = true → p' = p) ∧
  (p.(once) = false → is_Some p'.(default_provider) ∧
     ∀ provider, p.(default_provider) = Some provider → p'.(default_provider) = Some provider).
Proof.
  cbn zeta. assert (exec (QuicServer_bind addr) p = exec install_rustls_provider p) as ->.
  { unfold QuicServer_bind, install_rustls_provider. unfold_prog.
    destruct (generate_simple_self_signed _) as [[cert key]|e|]; [|done..]. cbn.
    destruct (with_single_cert _ _) as [tls|e|]; [|done..]. cbn. by destruct (transport_shared tls). }
  unfold install_rustls_provider, modify. destruct p as [[] o]; cbn; [done|].
  split_and!; [done..|]. intros _. split; [by eexists|]. by intros provider ->.
Qed.

(** A server that was bound uses a fresh configuration of its own certificate
    with the settings that the clients use. *)
Theorem bound_endpoint addr p endpoint :
  result (QuicServer_bind addr) p = Ok endpoint ↔
  ∃ cert key tls, generate_simple_self_signed ["localhost"] = Ok (cert, key) ∧
    with_single_cert [cert] key = Ok tls ∧ transport_shared tls = false ∧
    endpoint_server tls (configure_transport (server_transport tls)) addr = Ok endpoint.
Proof.
  unfold QuicServer_bind, install_rustls_provider. unfold_prog. split.
  - destruct (generate_simple_self_signed _) as [[cert key]|e|]; [|done..]. cbn.
    destruct (with_single_cert _ _) as [tls|e|] eqn:Et; [|done..]. cbn.
    destruct (transport_shared tls) eqn:Es; [done|]. cbn.
    destruct (endpoint_server _ _ _) as [x|e|] eqn:Ee; [|done..]. intros [= ->].
    by exists cert, key, tls.
  - intros (cert & key & tls & -> & Ht & Hs & He). cbn. rewrite Ht. cbn. rewrite Hs. cbn. by rewrite He.
Qed.
End clients.

(** * The accept loop *)

(** The future of [QuicServer::accept]: before [self.endpoint.accept().await]
    and before [incoming.await]. Connection attempts are numbered. *)
Inductive AcceptFuture := WaitIncoming | WaitHandshake (c : nat).

(** The endpoint with the attempts that nobody took yet and the handshakes that
    have come to an end; [spawned] are the connections that got a handler. *)
Record Listener := mkListener {
  incoming : list nat;
  resolved : list nat;
  endpoint_closed : bool;
  accepting : AcceptFuture;
  spawned : list nat;
  ended : bool;
}.

(** [PollAccept] is a poll of the loop's task: the branch that [tokio::select!]
    tries first, and what its other branch [shutdown_rx.changed()] gives,
    [Some true] for the signal to stop and [Some false] for an error. *)
Inductive ListenEvent :=
  | Attempt (c : nat)
  | Resolve (c : nat)
  | EndpointClosed
  | PollAccept (accept_first : bool) (told : option bool).

Section accept.
Context (outcome : nat → res string ()).
Implicit Types l : Listener.

Definition set_incoming q l : Listener :=
  mkListener q l.(resolved) l.(endpoint_closed) l.(accepting) l.(spawned) l.(ended).
Definition set_accepting f l : Listener :=
  mkListener l.(incoming) l.(resolved) l.(endpoint_closed) f l.(spawned) l.(ended).
Definition set_spawned s l : Listener :=
  mkListener l.(incoming) l.(resolved) l.(endpoint_closed) l.(accepting) s l.(ended).

(** [incoming.await.map_err(Connection)?]. *)
Definition poll_handshake (c : nat) l : Poll AcceptFuture (res QuicTransportError nat) :=
  if decide (c ∈ l.(resolved)) then Ready (map_err Connection (outcome c);; Ok c)
  else Pending (WaitHandshake c).

(** [QuicServer::accept]. *)
Definition poll_accept l : Listener * Poll AcceptFuture (res QuicTransportError nat) :=
  match l.(accepting) with
  | WaitHandshake c => (l, poll_handshake c l)
  | WaitIncoming =>
      match l.(incoming) with
      | c :: q => (set_incoming q l, poll_handshake c l)
      | [] => (l, if l.(endpoint_closed) then Ready (Err (Handshake "accept stream closed"))
                  else Pending WaitIncoming)
      end
  end.

(** The two branches of the loop of [start_quic_runtime]; [None] when a branch
    is not ready, and the next round makes new futures. *)
Definition accept_branch l : Listener * bool :=
  match poll_accept l with
  | (l, Pending f) => (set_accepting f l, false)
  | (l, Ready (Ok c)) => (set_accepting WaitIncoming (set_spawned (l.(spawned) ++ [c]) l), true)
  | (l, Ready _) => (set_accepting WaitIncoming l, true)
  end.

Definition shutdown_branch (told : option bool) l : Listener * bool :=
  match told with
  | None => (l, false)
  | Some true => (mkListener l.(incoming) l.(resolved) l.(endpoint_closed) WaitIncoming l.(spawned) true, true)
  | Some false => (set_accepting WaitIncoming l, true)
  end.

Definition accept_round (accept_first : bool) (told : option bool) l : Listener :=
  if l.(ended) then l else
  let '(first, second) := if accept_first then (accept_branch, shutdown_branch told)
                          else (shutdown_branch told, accept_branch) in
  match first l with
  | (l, true) => l
  | (l, false) => (second l).1
  end.

Definition listen_step l (ev : ListenEvent) : Listener :=
  match ev with
  | Attempt c => set_incoming (l.(incoming) ++ [c]) l
  | Resolve c => mkListener l.(incoming) (c :: l.(resolved)) l.(endpoint_closed) l.(accepting)
      l.(spawned) l.(ended)
  | EndpointClosed => mkListener l.(incoming) l.(resolved) true l.(accepting) l.(spawned) l.(ended)
  | PollAccept accept_first told => accept_round accept_first told l
  end.

Definition listen (evs : list ListenEvent) : Listener :=
  foldl listen_step (mkListener [] [] false WaitIncoming [] false) evs.

(** ** What it does *)

Definition attempted (evs : list ListenEvent) : list nat :=
  omap (λ ev, match ev with Attempt c => Some c | _ => None end) evs.
Definition resolutions (evs : list ListenEvent) : list nat :=
  omap (λ ev, match ev with Resolve c => Some c | _ => None end) evs.

(** The server runs and its endpoint stays open. *)
Definition serving (evs : list ListenEvent) : bool :=
  forallb (λ ev, match ev with EndpointClosed | PollAccept _ (Some _) => false | _ => true end) evs.

Definition completed (cs : list nat) : list nat := filter (λ c, is_ok (outcome c) = true) cs.

Definition awaited (f : AcceptFuture) : list nat :=
  match f with WaitIncoming => [] | WaitHandshake c => [c] end.

(** [handled] are over, the handshake of the next attempt is waited for, the
    others are not looked at. *)
Definition in_order (tried known : list nat) (handled : list nat) l : Prop :=
  l.(ended) = false ∧ l.(endpoint_closed) = false ∧
  tried = handled ++ awaited l.(accepting) ++ l.(incoming) ∧ l.(spawned) = completed handled ∧
  (∀ c, c ∈ l.(resolved) ↔ c ∈ known) ∧ ∀ c, c ∈ handled → c ∈ known.

Lemma completed_snoc handled c :
  completed (handled ++ [c]) = completed handled ++ if is_ok (outcome c) then [c] else [].
Proof. unfold completed. rewrite filter_app. f_equal. by rewrite filter_cons; destruct (is_ok _). Qed.

(** A poll finishes the next attempt, or its handshake is not over, or there is
    none. *)
Lemma accept_progress tried known handled l accept_first :
  in_order tried known handled l →
  let l' := accept_round accept_first None l in
  (∃ c, c ∈ known ∧ in_order tried known (handled ++ [c]) l' ∧
     awaited l'.(accepting) ++ l'.(incoming) = tail (awaited l.(accepting) ++ l.(incoming))) ∨
  (in_order tried known handled l' ∧
   awaited l'.(accepting) ++ l'.(incoming) = awaited l.(accepting) ++ l.(incoming) ∧
   ∀ c, head (awaited l.(accepting) ++ l.(incoming)) = Some c → c ∉ known).
Proof.
  intros (He & Hc & Ht & Hs & Hr & Hh) l'.
  assert (l' = (accept_branch l).1) as Hl'.
  { subst l'. unfold accept_round. rewrite He. destruct accept_first; [|done].
    by destruct (accept_branch l) as [? []]. }
  clearbody l'.
  assert (∀ c q, awaited l.(accepting) ++ l.(incoming) = c :: q →
    poll_accept l = (mkListener q l.(resolved) l.(endpoint_closed) l.(accepting) l.(spawned) l.(ended),
      poll_handshake c l)) as Hpoll.
  { intros c q Hq. unfold poll_accept. destruct l as [[|c' q'] rs cl [|c1] sp en]; cbn in *; by simplify_eq. }
  unfold accept_branch in Hl'. destruct (awaited l.(accepting) ++ l.(incoming)) as [|c q] eqn:Eq.
  - right. apply app_eq_nil in Eq as [Ea Ei]. destruct l as [inc rs cl f sp en]; cbn in *. subst inc.
    destruct f; [|done]. cbn in Hl'. rewrite Hc in Hl'. subst l'. cbn. split_and!; try done.
  - rewrite (Hpoll c q eq_refl) in Hl'. unfold poll_handshake in Hl'. destruct (decide (c ∈ resolved l)) as [Hin|Hin].
    + left. exists c. split; [by apply Hr|].
      assert (Hsnoc : tried = (handled ++ [c]) ++ [] ++ q) by (by rewrite Ht, <-app_assoc).
      pose proof (completed_snoc handled c) as Hcs.
      assert (∀ x, x ∈ handled ++ [c] → x ∈ known) as Hk.
      { intros x [?| ->%list_elem_of_singleton]%elem_of_app; [by apply Hh|by apply Hr]. }
      destruct (outcome c) as [[]|e|]; cbn in Hl', Hcs; subst l'; cbn; (split; [|done]);
        (repeat split; try done; [by rewrite Hcs, ?Hs, ?app_nil_r|by apply Hr..]).
    + right. subst l'. cbn. split; [|split; [done|]].
      * repeat split; try done; by apply Hr.
      * intros c' [= <-] Hk. by apply Hin, Hr.
Qed.

Lemma accept_run evs tried known handled l :
  in_order tried known handled l → serving evs = true →
  ∃ handled', in_order (tried ++ attempted evs) (known ++ resolutions evs) handled' (foldl listen_step l evs).
Proof.
  revert tried known handled l. induction evs as [|ev evs IH]; intros tried known handled l Hl Hs.
  { exists handled. by rewrite !app_nil_r. }
  apply andb_true_iff in Hs as [Hev Hs]. destruct ev as [c|c| |first [told|]]; try done.
  - destruct (IH (tried ++ [c]) known handled (listen_step l (Attempt c))) as [handled' Hl']; [|done|].
    + destruct Hl as (He & Hc & Ht & Hsp & Hr & Hh). repeat split; try done; [|by apply Hr..].
      cbn. by rewrite Ht, <-!app_assoc.
    + exists handled'. by rewrite <-app_assoc in Hl'.
  - destruct (IH tried (known ++ [c]) handled (listen_step l (Resolve c))) as [handled' Hl']; [|done|].
    + destruct Hl as (He & Hc & Ht & Hsp & Hr & Hh). repeat split; try done.
      * cbn. intros [->|Hx%Hr]%elem_of_cons; set_solver.
      * cbn. intros [Hx%Hr| ->%list_elem_of_singleton]%elem_of_app; set_solver.
      * set_solver.
    + exists handled'. by rewrite <-app_assoc in Hl'.
  - destruct (accept_progress _ _ _ _ first Hl) as [(c & _ & Hl' & _)|[Hl' _]]; by apply (IH _ _ _ _ Hl').
Qed.

Lemma accept_drain polls tried known handled l :
  in_order tried known handled l → (∀ c, c ∈ tried → c ∈ known) →
  (length (awaited l.(accepting) ++ l.(incoming)) ≤ length polls)%nat →
  (foldl listen_step l ((λ first, PollAccept first None) <$> polls)).(spawned) = completed tried.
Proof.
  revert handled l. induction polls as [|first polls IH]; intros handled l Hl Hall Hlen.
  - destruct Hl as (_ & _ & Ht & Hs & _). destruct (awaited _ ++ _); [|cbn in *; lia].
    cbn. by rewrite Hs, Ht, app_nil_r.
  - cbn. destruct (accept_progress _ _ _ _ first Hl) as [(c & _ & Hl' & Hq)|(Hl' & Hq & Hwait)].
    + apply (IH _ _ Hl' Hall). rewrite Hq. destruct (awaited (accepting l) ++ _); cbn in *; lia.
    + apply (IH _ _ Hl' Hall). rewrite Hq. destruct (awaited (accepting l) ++ incoming l) as [|c q] eqn:E;
        [cbn; lia|]. exfalso. apply (Hwait c eq_refl), Hall.
      destruct Hl as (_ & _ & -> & _). rewrite E. set_solver.
Qed.

(** C17. While the server runs, it takes connection attempts one at a time and
    in order: the connections that got a handler are those, of a prefix of the
    attempts, whose handshake succeeded, and handshakes that fail stop nothing.
    An attempt whose handshake does not end keeps every later one waiting,
    however long theirs are over. When all handshakes have ended, a poll for
    each attempt hands over every connection. *)
Theorem accepts_in_order evs :
  serving evs = true →
  (∃ handled waiting, attempted evs = handled ++ waiting ∧
     (listen evs).(spawned) = completed handled ∧ ∀ c, c ∈ handled → c ∈ resolutions evs) ∧
  (∀ before c after, attempted evs = before ++ c :: after → c ∉ resolutions evs →
     (listen evs).(spawned) `prefix_of` completed before) ∧
  ((∀ c, c ∈ attempted evs → c ∈ resolutions evs) → ∀ polls : list bool,
     (length (attempted evs) ≤ length polls)%nat →
     (listen (evs ++ ((λ first, PollAccept first None) <$> polls))).(spawned) = completed (attempted evs)).
Proof.
  intros Hs. destruct (accept_run evs [] [] [] (mkListener [] [] false WaitIncoming [] false)) as [handled Hl];
    [repeat split; set_solver|done|]. fold (listen evs) in Hl. cbn [app] in Hl.
  pose proof Hl as (_ & _ & Ht & Hsp & _ & Hh). split_and!.
  - by exists handled, (awaited (listen evs).(accepting) ++ (listen evs).(incoming)).
  - intros before c after Hb Hc. rewrite Hsp. rewrite Ht in Hb.
    apply app_eq_inv in Hb as [([|x k] & -> & Hk)|(k & -> & _)].
    + by rewrite app_nil_r.
    + injection Hk as <- _. exfalso. apply Hc, Hh. set_solver.
    + unfold completed. rewrite filter_app. by apply prefix_app_r.
  - intros Hall polls Hlen. unfold listen. rewrite foldl_app. fold (listen evs).
    apply (accept_drain _ _ _ _ _ Hl Hall). rewrite Ht, length_app in Hlen. lia.
Qed.
End accept.

(** Three clients of which the second fails its handshake: the first and the
    third are handed over. *)
Definition three_clients : list ListenEvent :=
  [Attempt 1; Attempt 2; PollAccept true None; Resolve 2; Attempt 3; Resolve 3; Resolve 1].
Definition second_fails (c : nat) : res string () := if decide (c = 2%nat) then Err "refused" else Ok ().

Lemma accepts_in_order_witness :
  (listen second_fails (three_clients ++ ((λ first, PollAccept first None) <$> [true; false; true]))).(spawned)
    = [1; 3]%nat.
Proof.
  rewrite (proj2 (proj2 (accepts_in_order second_fails three_clients eq_refl))); [done| |cbn; lia].
  intros c. cbn. set_solver.
Defined.

(** One client that begins a handshake and goes silent keeps all others out,
    here one whose own handshake is over; and when the sender of the shutdown
    channel is gone, so that its branch gives an error in every round, the loop
    drops each handshake that needs more than one poll. *)
Theorem stalled_handshakes :
  (let silent := [Attempt 1; PollAccept true None; Attempt 2; Resolve 2]%nat in
   (listen (λ _, Ok ()) (silent ++ replicate 10 (PollAccept true None))).(spawned) = [] ∧
   (listen (λ _, Ok ()) (silent ++ [Resolve 1] ++ replicate 2 (PollAccept true None))).(spawned) = [1; 2]%nat) ∧
  (let one told := [Attempt 1; PollAccept true told; Resolve 1]%nat ++ replicate 10 (PollAccept true told) in
   (listen (λ _, Ok ()) (one None)).(spawned) = [1%nat] ∧
   (listen (λ _, Ok ()) (one (Some false))).(spawned) = []).
Proof. by vm_compute. Qed.
