(* ===== verification/Cli.v ===== *)
(** [motionstage-cli/src/simulate.rs], the parts without a connection: the
    arguments of [simulate], connect targets and their discovery, the name of
    the output, and the commands typed at the prompt. Errors are the texts of
    their [anyhow!]. *)

From S2P Require Import Prelude Text Float FloatText Net Protocol Transform Server Discovery.

Local Open Scope Z_scope.

(** ** Arguments *)

Inductive ConnectTarget :=
  | Address (addr : Net.SocketAddr)
  | Discover (service_name : option string).

Record SimulateArgs := mkArgs {
  arg_name : string;
  arg_bind : Net.SocketAddr;
  arg_connect : option ConnectTarget;
  arg_connect_timeout_secs : Z;
  arg_output_attribute : string;
  arg_device_id : option Uuid;
  arg_sample_hz : Z;
  arg_amplitude : f32;
  arg_frequency_hz : f32;
  arg_record_path : string;
  arg_print_every : Z;
  arg_discoverable : bool;
  arg_verbose : bool;
}.

(** [f32::is_finite]. *)
Definition is_finite (x : f32) : bool :=
  match x with S754_nan | S754_infinity _ => false | _ => true end.

Definition validate_args (args : SimulateArgs) : res string () :=
  if args.(arg_sample_hz) =? 0 then Err "sample_hz must be greater than zero"
  else if negb (is_finite args.(arg_amplitude)) || flt args.(arg_amplitude) F32.zero
  then Err "amplitude must be a finite number >= 0"
  else if negb (is_finite args.(arg_frequency_hz)) || flt args.(arg_frequency_hz) F32.zero
  then Err "frequency_hz must be a finite number >= 0"
  else if args.(arg_print_every) =? 0 then Err "print_every must be greater than zero"
  else if (match args.(arg_connect) with Some (Discover _) => args.(arg_connect_timeout_secs) =? 0 | _ => false end)
  then Err "connect_timeout_secs must be greater than zero for discovery"
  else if is_empty (trim args.(arg_output_attribute)) then Err "output_attribute must not be empty"
  else Ok ().

Section cli.
Context `{UuidText}.

Definition qualify_source_output (device_id : Uuid) (output_attribute : string) : string :=
  let normalized := trim output_attribute in
  if is_empty normalized then normalized
  else
    let expected_prefix := device_prefix device_id in
    if starts_with expected_prefix normalized then normalized
    else
      let prefix := before dot normalized in
      if bool_decide (is_Some (uuid_parse prefix)) then normalized
      else expected_prefix +:+ normalized.


Definition parse_connect_target (value : string) : res string ConnectTarget :=
  let trimmed := trim value in
  if eq_ignore_ascii_case trimmed "discover" then Ok (Discover None)
  else
    match strip_prefix "discover:" trimmed with
    | Some name =>
        let service_name := trim name in
        if is_empty service_name
        then Err ("invalid " +:+ backquote +:+ "--connect" +:+ backquote +:+ " target: expected "
               +:+ backquote +:+ "discover:<service-name>" +:+ backquote)
        else Ok (Discover (Some service_name))
    | None =>
        match parse_socket trimmed with
        | Some addr => Ok (Address addr)
        | None => Err ("invalid " +:+ backquote +:+ "--connect" +:+ backquote +:+ " target "
                    +:+ backquote +:+ trimmed +:+ backquote +:+ "; expected "
                    +:+ backquote +:+ "host:port" +:+ backquote +:+ ", "
                    +:+ backquote +:+ "discover" +:+ backquote +:+ ", or "
                    +:+ backquote +:+ "discover:<service-name>" +:+ backquote)
        end
    end.

(** ** Discovery of the server to connect to *)

Inductive ResolvedConnectTarget :=
  | Direct (addr : Net.SocketAddr)
  | Discovered (service_name : string) (endpoint : Net.SocketAddr) (host_name : string)
      (protocol_major protocol_minor : option Z).

(** [ResolvedConnectTarget::endpoint]. *)
Definition target_endpoint (self : ResolvedConnectTarget) : Net.SocketAddr :=
  match self with Direct addr => addr | Discovered _ endpoint _ _ _ => endpoint end.

Definition normalize_service_name (name : string) : string := to_ascii_lowercase (trim name).

(** The tuple order of the sort keys. *)
Definition endpoint_key (ip : IpAddr) : Z * Z * string :=
  ((if is_ipv4 ip then 0 else 1), (if is_loopback ip then 1 else 0), show_ip ip).
Definition endpoint_key_le (a b : Z * Z * string) : bool :=
  let '(a1, a2, a3) := a in
  let '(b1, b2, b3) := b in
  (a1 <? b1) || ((a1 =? b1) && ((a2 <? b2) || ((a2 =? b2) && string_le a3 b3))).

Definition select_preferred_endpoint (service : DiscoveredService) : option Net.SocketAddr :=
  let addresses := sort_by_key endpoint_key_le endpoint_key service.(ds_addresses) in
  (λ ip, SocketAddr_new ip service.(ds_port)) <$> head addresses.

Context `{MdnsCrate}.

(** [Display] of the error. *)
Definition show_discovery_error (e : DiscoveryError) : string :=
  match e with Mdns reason => "mdns error: " +:+ reason end.

Definition candidate_of (service : DiscoveredService) (endpoint : Net.SocketAddr) : ResolvedConnectTarget :=
  Discovered service.(ds_service_name) endpoint service.(ds_host_name)
    service.(ds_protocol_major) service.(ds_protocol_minor).

(** The loop over what the browser delivers until the deadline: the candidate
    the filter is looking for, or the candidates that were collected. A round
    is the clock at its start and the outcome of its receive; the deadline has
    passed where the rounds end. *)
Fixpoint browse (deadline : Z) (filter : option string) (candidates : gmap string ResolvedConnectTarget)
    (rounds : list (Z * RecvOutcome ServiceEvent)) :
    res string (ResolvedConnectTarget + gmap string ResolvedConnectTarget) :=
  match rounds with
  | [] => Ok (inr candidates)
  | (now, outcome) :: rounds =>
      if deadline <=? now then Ok (inr candidates)
      else
        event ← map_err (λ e, "discovery browse failed: " +:+ show_discovery_error e)
                  (recv_service_timeout outcome);
        match event with
        | None => Ok (inr candidates)
        | Some service =>
            match select_preferred_endpoint service with
            | None => browse deadline filter candidates rounds
            | Some endpoint =>
                let candidate := candidate_of service endpoint in
                match filter with
                | Some filter' =>
                    if decide (normalize_service_name service.(ds_service_name) = filter')
                    then Ok (inl candidate)
                    else browse deadline filter candidates rounds
                | None =>
                    browse deadline filter (<[service.(ds_service_name) := candidate]> candidates) rounds
                end
            end
        end
  end.

(** The values of the [BTreeMap], in the order of its keys. *)
Definition candidate_values (candidates : gmap string ResolvedConnectTarget) : list ResolvedConnectTarget :=
  snd <$> sort_by_key string_le fst (map_to_list candidates).

Definition candidate_text (target : ResolvedConnectTarget) : string :=
  match target with
  | Direct _ => ""
  | Discovered service_name endpoint _ _ _ => service_name +:+ " (" +:+ show_socket endpoint +:+ ")"
  end.

(** The match on the number of candidates at the end. *)
Definition choose_candidate (service_name_filter : option string) (timeout_secs : Z)
    (candidates : gmap string ResolvedConnectTarget) : res string ResolvedConnectTarget :=
  match service_name_filter with
  | Some service_name =>
      Err ("no motionstage server named " +:+ backquote +:+ service_name +:+ backquote
           +:+ " discovered within " +:+ show_Z timeout_secs +:+ "s")
  | None =>
      match candidate_values candidates with
      | [] => Err ("no motionstage servers discovered within " +:+ show_Z timeout_secs +:+ "s; use "
                +:+ backquote +:+ "--connect host:port" +:+ backquote +:+ " or ensure discovery is enabled")
      | [target] => Ok target
      | targets =>
          let options := join ", " (filter (λ v, is_empty v = false) (candidate_text <$> targets)) in
          Err ("multiple motionstage servers discovered: " +:+ options +:+ "; rerun with "
            +:+ backquote +:+ "--connect discover:<service-name>" +:+ backquote +:+ " to select one")
      end
  end.

(** [start] is the clock when browsing begins. *)
Definition discover_connect_target (service_name_filter : option string) (timeout_secs start : Z)
    (rounds : list (Z * RecvOutcome ServiceEvent)) : prog mdns_world string ResolvedConnectTarget :=
  browser ← zoom (λ w, w) (λ w _, w)
    (λ e, "failed to start mDNS browser: " +:+ show_discovery_error e) browser_start;
  found ← lift (browse (start + timeout_secs * 1000000000) (normalize_service_name <$> service_name_filter)
                  ∅ rounds);
  attempt (browser_stop browser) ≫= λ _ : res DiscoveryError (),
  match found with
  | inl candidate => mret candidate
  | inr candidates => lift (choose_candidate service_name_filter timeout_secs candidates)
  end.

Definition resolve_connect_target (args : SimulateArgs) (start : Z)
    (rounds : list (Z * RecvOutcome ServiceEvent)) : prog mdns_world string (option ResolvedConnectTarget) :=
  match args.(arg_connect) with
  | None => mret None
  | Some (Address addr) => mret (Some (Direct addr))
  | Some (Discover service_name) =>
      resolved ← discover_connect_target service_name args.(arg_connect_timeout_secs) start rounds;
      mret (Some resolved)
  end.

(** ** Commands *)

Inductive SimulationCommand :=
  | Help
  | Start
  | Stop
  | Status
  | RecordStart (path : option string)
  | RecordStop
  | SetMode (mode : Mode)
  | Amp (value : f32)
  | Freq (value : f32)
  | Exit
  | Empty
  | Unknown (line : string).

Definition parse_command (line : string) : SimulationCommand :=
  let trimmed := trim line in
  if is_empty trimmed then Empty
  else
    match split_whitespace trimmed with
    | [] => Empty
    | command :: parts =>
        let number (c : f32 → SimulationCommand) :=
          match head parts ≫= parse_f32 with Some v => c v | None => Unknown trimmed end in
        if decide (command = "help" ∨ command = "h") then Help
        else if decide (command = "start") then Start
        else if decide (command = "stop") then Stop
        else if decide (command = "status") then Status
        else if decide (command = "quit" ∨ command = "exit") then Exit
        else if decide (command = "record") then
          match parts with
          | [] => Unknown trimmed
          | op :: parts =>
              if decide (op = "start") then
                let remainder := join " " parts in
                if is_empty remainder then RecordStart None else RecordStart (Some remainder)
              else if decide (op = "stop") then RecordStop
              else Unknown trimmed
          end
        else if decide (command = "amp") then number Amp
        else if decide (command = "freq") then number Freq
        else if decide (command = "mode") then
          match head parts with
          | Some m =>
              if decide (m = "live") then SetMode Live
              else if decide (m = "idle" ∨ m = "stop" ∨ m = "stopped") then SetMode Idle
              else if decide (m = "record" ∨ m = "recording") then SetMode Protocol.Recording
              else Unknown trimmed
          | None => Unknown trimmed
          end
        else Unknown trimmed
    end.

(** ** Outputs *)

(** A mapping created for the name of an output as the user typed it is
    driven by the name the client sends, whether the device is already in
    front of it, another device is, or the client puts its own there. *)
Theorem qualified_output_matches device_id output :
  Transform.source_output_matches (trim output) device_id (qualify_source_output device_id output) = true.
Proof.
  unfold qualify_source_output, Transform.source_output_matches.
  repeat case_match; try done. rewrite strip_prefix_app.
  by rewrite (bool_decide_eq_true_2 (Some _ = Some (trim output))), orb_true_r.
Qed.

(** ** Endpoints *)

Lemma endpoint_key_le_trans a b c :
  endpoint_key_le a b = true → endpoint_key_le b c = true → endpoint_key_le a c = true.
Proof.
  destruct a as [[a1 a2] a3], b as [[b1 b2] b3], c as [[c1 c2] c3]. unfold endpoint_key_le.
  rewrite !orb_true_iff, !andb_true_iff, !orb_true_iff, !andb_true_iff, !Z.ltb_lt, !Z.eqb_eq.
  intros [?|[? [?|[? Ha]]]] [?|[? [?|[? Hb]]]]; try (left; lia); right; (split; [lia|]); try (left; lia).
  right. split; [lia|]. by eapply string_le_trans.
Qed.

Lemma endpoint_key_le_total a b : endpoint_key_le a b = true ∨ endpoint_key_le b a = true.
Proof.
  destruct a as [[a1 a2] a3], b as [[b1 b2] b3]. unfold endpoint_key_le.
  rewrite !orb_true_iff, !andb_true_iff, !orb_true_iff, !andb_true_iff, !Z.ltb_lt, !Z.eqb_eq.
  destruct (Z.lt_trichotomy a1 b1) as [?|[?|?]]; auto.
  destruct (Z.lt_trichotomy a2 b2) as [?|[?|?]]; auto 6.
  destruct (string_le_total a3 b3); [left|right]; right; (split; [lia|]); right; (split; [lia|]); done.
Qed.

Lemma endpoint_key_le_antisym a b : endpoint_key_le a b = true → endpoint_key_le b a = true → a = b.
Proof.
  destruct a as [[a1 a2] a3], b as [[b1 b2] b3]. unfold endpoint_key_le.
  rewrite !orb_true_iff, !andb_true_iff, !orb_true_iff, !andb_true_iff, !Z.ltb_lt, !Z.eqb_eq.
  intros [?|[? [?|[? Ha]]]] [?|[? [?|[? Hb]]]]; try lia.
  repeat f_equal; [lia..|]. by apply string_le_antisym.
Qed.

Lemma select_is_least service endpoint :
  select_preferred_endpoint service = Some endpoint →
  ∃ ip, ip ∈ service.(ds_addresses) ∧ endpoint = SocketAddr_new ip service.(ds_port) ∧
    ∀ ip', ip' ∈ service.(ds_addresses) → endpoint_key_le (endpoint_key ip) (endpoint_key ip') = true.
Proof.
  unfold select_preferred_endpoint. destruct (sort_by_key _ _ _) as [|ip l] eqn:Hs; [done|].
  intros [= <-]. exists ip. split_and!; [|done|].
  - rewrite <-(sort_by_key_perm endpoint_key_le endpoint_key), Hs. left.
  - intros ip' Hip. eapply sort_by_key_head; eauto using endpoint_key_le_trans, endpoint_key_le_total.
Qed.

Lemma select_none service : select_preferred_endpoint service = None ↔ service.(ds_addresses) = [].
Proof.
  unfold select_preferred_endpoint.
  pose proof (sort_by_key_perm endpoint_key_le endpoint_key service.(ds_addresses)) as Hp.
  destruct (sort_by_key _ _ _) as [|ip l]; simpl; split; try done.
  - intros _. by apply Permutation_nil in Hp.
  - intros He. rewrite He in Hp. symmetry in Hp. by apply Permutation_nil in Hp.
Qed.

(** Of the addresses a service is found under, which come in no fixed
    order, the client takes an IPv4 address if there is one, and one that is
    not the loopback if there is such an IPv4 address; the endpoint, as it is
    printed, does not depend on the order; and there is one exactly when
    there is an address. *)
Theorem preferred_endpoint_spec service :
  (select_preferred_endpoint service = None ↔ service.(ds_addresses) = []) ∧
  ∀ endpoint, select_preferred_endpoint service = Some endpoint →
    endpoint.(sock_ip) ∈ service.(ds_addresses) ∧ endpoint.(sock_port) = service.(ds_port) ∧
    (∀ ip, ip ∈ service.(ds_addresses) → is_ipv4 ip = true →
       is_ipv4 endpoint.(sock_ip) = true ∧
       (is_loopback ip = false → is_loopback endpoint.(sock_ip) = false)) ∧
    ∀ service' endpoint', service'.(ds_addresses) ≡ₚ service.(ds_addresses) →
      service'.(ds_port) = service.(ds_port) → select_preferred_endpoint service' = Some endpoint' →
      show_socket endpoint' = show_socket endpoint.
Proof.
  split; [apply select_none|].
  intros endpoint Hs. apply select_is_least in Hs as (ip & Hip & -> & Hmin). cbn [sock_ip sock_port SocketAddr_new].
    split_and!; [done..| |].
    + intros ip' Hip' Hv4. specialize (Hmin ip' Hip'). unfold endpoint_key_le, endpoint_key in Hmin.
      rewrite Hv4 in Hmin. destruct (is_ipv4 ip); [|done]. split; [done|].
      intros Hl. rewrite Hl in Hmin. by destruct (is_loopback ip).
    + intros service' endpoint' Hperm Hport (ip' & Hip' & -> & Hmin')%select_is_least.
      assert (endpoint_key ip' = endpoint_key ip) as Hk.
      { apply endpoint_key_le_antisym; [apply Hmin'; by rewrite Hperm|apply Hmin; by rewrite <-Hperm]. }
      unfold endpoint_key in Hk. unfold show_socket. cbn [sock_ip sock_port sock_scope SocketAddr_new].
      rewrite Hport. pose proof (f_equal snd Hk) as Ht. cbn [snd] in Ht. rewrite Ht.
      by destruct ip, ip'.
Qed.

(** ** Browsing *)

(** A service of another name, or one without an address, before the
    deadline. *)
Definition passed_over (deadline : Z) (name : string) (round : Z * RecvOutcome ServiceEvent) : Prop :=
  ∃ info, round.2 = RecvEvent (ServiceResolved info) ∧ round.1 < deadline ∧
    ((from_info info).(ds_addresses) = [] ∨
     normalize_service_name (from_info info).(ds_service_name) ≠ name).

(** One round with a resolved service, and one with anything else. *)
Lemma browse_resolved deadline filter candidates now info rounds :
  now < deadline →
  browse deadline filter candidates ((now, RecvEvent (ServiceResolved info)) :: rounds) =
  match select_preferred_endpoint (from_info info) with
  | None => browse deadline filter candidates rounds
  | Some endpoint =>
      match filter with
      | Some filter' =>
          if decide (normalize_service_name (from_info info).(ds_service_name) = filter')
          then Ok (inl (candidate_of (from_info info) endpoint))
          else browse deadline filter candidates rounds
      | None =>
          browse deadline filter
            (<[(from_info info).(ds_service_name) := candidate_of (from_info info) endpoint]> candidates) rounds
      end
  end.
Proof. intros Hd. cbn [browse]. by rewrite (proj2 (Z.leb_gt _ _) Hd). Qed.

Lemma browse_other deadline filter candidates now rounds :
  now < deadline → browse deadline filter candidates ((now, RecvEvent OtherEvent) :: rounds) = Ok (inr candidates).
Proof. intros Hd. cbn [browse]. by rewrite (proj2 (Z.leb_gt _ _) Hd). Qed.

(** The calls around the loop. *)
Lemma discover_outcome name timeout_secs start rounds world world' browser :
  browser_start world = (world', Ok browser) → result (browser_stop browser) world' ≠ Panicked →
  (discover_connect_target name timeout_secs start rounds world).2 =
  found ← browse (start + timeout_secs * 1000000000) (normalize_service_name <$> name) ∅ rounds;
  match found with
  | inl candidate => Ok candidate
  | inr candidates => choose_candidate name timeout_secs candidates
  end.
Proof.
  intros Hb Hstop. unfold discover_connect_target, zoom, lift, attempt. unfold mbind, prog_bind, res_bind.
  rewrite Hb. cbn [map_err]. destruct (browse _ _ _ _) as [found|e|]; [|done..].
  destruct (browser_stop browser world') as [w [[]|e|]]; [| |done]; by destruct found.
Qed.

Lemma browse_passes deadline name candidates pre rounds :
  Forall (passed_over deadline name) pre →
  browse deadline (Some name) candidates (pre ++ rounds) = browse deadline (Some name) candidates rounds.
Proof.
  induction 1 as [|[now outcome] pre (info & Ho & Hd & Hn) _ IH]; [done|]. cbn [fst snd] in *. subst outcome.
  cbn [app]. rewrite browse_resolved by done.
  destruct (select_preferred_endpoint _) as [endpoint|] eqn:He; [|done].
  destruct Hn as [Hn|Hn]; [|by rewrite decide_False].
  exfalso. apply select_none in Hn. congruence.
Qed.

Lemma browse_stops deadline candidates now outcome rounds filter :
  deadline ≤ now ∨ (∀ info, outcome ≠ RecvEvent (ServiceResolved info)) →
  browse deadline filter candidates ((now, outcome) :: rounds) = Ok (inr candidates) ∨
  ∃ text, browse deadline filter candidates ((now, outcome) :: rounds) = Err text.
Proof.
  intros Ho. cbn [browse]. destruct (Z.leb_spec deadline now) as [|Hd]; [by left|].
  destruct Ho as [?|Ho]; [lia|]. destruct outcome as [[info|]| |]; cbn.
  - by destruct (Ho info).
  - by left.
  - by left.
  - right. by eexists.
Qed.

Lemma advertised_endpoint adv info :
  advertised_info adv = inr info → get_addresses info ≠ [] →
  ∃ endpoint, select_preferred_endpoint (from_info info) = Some endpoint ∧
    endpoint.(sock_port) = adv.(bind_port) ∧ endpoint.(sock_ip) ∈ get_addresses info.
Proof.
  intros Hi Ha. destruct (select_preferred_endpoint (from_info info)) as [endpoint|] eqn:He.
  2: { apply select_none in He. exfalso. apply Ha.
       cbn in He. pose proof (sort_by_key_perm string_le show_ip (get_addresses info)) as Hp.
       unfold sort_by_text in He. rewrite He in Hp. by apply Permutation_nil in Hp. }
  exists endpoint. destruct (select_is_least _ _ He) as (ip & Hip & -> & _). split_and!; [done| |].
  - cbn. apply (info_port _ _ _ _ _ _ _ Hi).
  - cbn in Hip |- *. unfold sort_by_text in Hip. by rewrite (sort_by_key_perm string_le show_ip) in Hip.
Qed.

(** C32. A search for a server by name is decided by the first round that is
    not the resolution of a service of another name (or one without an
    address) before the deadline.  When that round resolves the description
    the server advertised, the client gets that server: a port it listens
    on, its name and version, whatever the case and the blanks around the
    name it was asked for (if the browser starts).  When it is anything else, be it the deadline, a
    failure or an event of another kind such as the start of the search, the
    search fails, whatever would have been resolved after it. *)
Theorem discovery_by_name_spec adv info name timeout_secs start pre now post world :
  let deadline := start + timeout_secs * 1000000000 in
  Forall (passed_over deadline (normalize_service_name name)) pre →
  ∀ world' browser, browser_start world = (world', Ok browser) →
  result (browser_stop browser) world' ≠ Panicked →
  (0 ≤ adv.(protocol_major) ≤ u16_max → 0 ≤ adv.(protocol_minor) ≤ u16_max →
   advertised_info adv = inr info → get_addresses info ≠ [] →
   normalize_service_name adv.(service_name) = normalize_service_name name → now < deadline →
   ∃ endpoint, endpoint.(sock_port) = adv.(bind_port) ∧ endpoint.(sock_ip) ∈ get_addresses info ∧
     (discover_connect_target (Some name) timeout_secs start
        (pre ++ (now, RecvEvent (ServiceResolved info)) :: post) world).2
     = Ok (Discovered adv.(service_name) endpoint (local_hostname_for_service adv.(service_name))
             (Some adv.(protocol_major)) (Some adv.(protocol_minor)))) ∧
  (∀ outcome, deadline ≤ now ∨ (∀ info, outcome ≠ RecvEvent (ServiceResolved info)) →
   ∃ text, (discover_connect_target (Some name) timeout_secs start
              (pre ++ (now, outcome) :: post) world).2 = Err text).
Proof.
  intros deadline Hpre world' browser Hb Hstop. subst deadline. split.
  - intros Hma Hmi Hi Ha Hn Hnow.
    destruct (advertised_fields adv info Hma Hmi Hi) as (Hname & Hport & Hj & Hm & _ & Hhost).
    destruct (advertised_endpoint adv info Hi Ha) as (endpoint & He & ? & ?).
    exists endpoint. split_and!; [done..|].
    rewrite (discover_outcome _ _ _ _ _ _ _ Hb Hstop). cbn [fmap option_fmap option_map].
    rewrite browse_passes, browse_resolved, He, Hname, decide_True by done.
    unfold candidate_of. by rewrite Hname, Hj, Hm, Hhost.
  - intros outcome Ho. rewrite (discover_outcome _ _ _ _ _ _ _ Hb Hstop). cbn [fmap option_fmap option_map].
    rewrite browse_passes by done.
    match goal with |- context [browse _ ?f ?c _] =>
      destruct (browse_stops _ c _ _ post f Ho) as [->|[text ->]] end; by eexists.
Qed.

(** Browsing ends at the first event that is not a resolved service: the
    client reports that nothing was found, whatever would still be resolved
    before the deadline. *)
Theorem discovery_gives_up name timeout_secs start now rounds world world' browser :
  now < start + timeout_secs * 1000000000 →
  browser_start world = (world', Ok browser) → result (browser_stop browser) world' ≠ Panicked →
  ∃ text, (discover_connect_target name timeout_secs start ((now, RecvEvent OtherEvent) :: rounds) world).2
    = Err text.
Proof.
  intros Hnow Hb Hstop. rewrite (discover_outcome _ _ _ _ _ _ _ Hb Hstop), browse_other by done.
  destruct name; eexists; reflexivity.
Qed.
End cli.

(** * Witnesses *)

Definition stage_info : ServiceInfo (MdnsCrate:=local_mdns) :=
  mkInfo (instance_name stage_advertisement) (local_hostname_for_service "my=stage") 7788
    (txt_map (to_txt_records stage_advertisement)).
Definition other_info : ServiceInfo (MdnsCrate:=local_mdns) := mkInfo "tv._motionstage._udp.local." "tv.local." 80 ∅.

Lemma discovery_by_name_spec_witness :
  (∃ endpoint, endpoint.(sock_port) = 7788 ∧
   (discover_connect_target (H1:=local_mdns) (Some " MY=stage ") 5 100
     [(200, RecvEvent (ServiceResolved (H:=local_mdns) other_info));
      (300, RecvEvent (ServiceResolved (H:=local_mdns) stage_info))] ∅).2
   = Ok (Discovered "my=stage" endpoint "my-stage.local." (Some PROTOCOL_MAJOR) (Some PROTOCOL_MINOR))) ∧
  ∃ text,
   (discover_connect_target (H1:=local_mdns) (Some " MY=stage ") 5 100
     [(200, RecvEvent (ServiceResolved (H:=local_mdns) other_info)); (300, RecvEvent OtherEvent);
      (400, RecvEvent (ServiceResolved (H:=local_mdns) stage_info))] ∅).2 = Err text.
Proof.
  assert (Forall (passed_over (H1:=local_mdns) 5000000100 (normalize_service_name " MY=stage "))
    [(200, RecvEvent (ServiceResolved (H:=local_mdns) other_info))]) as Hpre.
  { apply Forall_singleton. exists other_info. split_and!; [done|done|]. right. by vm_compute. }
  split.
  - destruct (discovery_by_name_spec (H1:=local_mdns) stage_advertisement stage_info " MY=stage " 5 100
      [(200, RecvEvent (ServiceResolved (H:=local_mdns) other_info))] 300 [] ∅ Hpre ∅ () eq_refl ltac:(done))
      as [Hfound _].
    destruct Hfound as (endpoint & Hp & _ & Hd); [done|done|reflexivity|done|reflexivity|done|].
    exists endpoint. split; [exact Hp|]. cbn [app] in Hd. rewrite Hd. vm_compute. reflexivity.
  - destruct (discovery_by_name_spec (H1:=local_mdns) stage_advertisement stage_info " MY=stage " 5 100
      [(200, RecvEvent (ServiceResolved (H:=local_mdns) other_info))] 300
      [(400, RecvEvent (ServiceResolved (H:=local_mdns) stage_info))] ∅ Hpre ∅ () eq_refl ltac:(done))
      as [_ Hgives_up].
    apply (Hgives_up (RecvEvent OtherEvent)). right. by intros info.
Defined.

Lemma discovery_gives_up_witness : ∃ text,
  (discover_connect_target (H1:=local_mdns) None 5 100
    [(100, RecvEvent OtherEvent); (200, RecvEvent (ServiceResolved (H:=local_mdns) stage_info))] ∅).2 = Err text.
Proof. by eapply (discovery_gives_up (H1:=local_mdns) None 5 100 100). Defined.

Example discovery_without_other_events :
  is_ok (discover_connect_target (H1:=local_mdns) None 5 100
    [(200, RecvEvent (ServiceResolved (H:=local_mdns) stage_info))] ∅).2 = true.
Proof. reflexivity. Qed.

Example commands :
  parse_command " record start /tmp/my  take " = RecordStart (Some "/tmp/my take") ∧
  parse_command "amp 2.5" = Amp (F32.div (F32.of_Z 5) (F32.of_Z 2)) ∧
  parse_command "mode rec" = Unknown "mode rec" ∧ parse_command "  " = Empty.
Proof. repeat split; vm_compute; reflexivity. Qed.
