(* ===== verification/Console.v ===== *)
(** What a program prints: [println!] as a list that grows, and the number
    formats [{:.3}] and [{:>8}] of the standard library.

    A program that prints runs on its state together with what was printed so
    far. [prints_over p m] says that [p] is [m] with output: whatever it prints,
    it does to the state what [m] does and returns what [m] returns. *)

From S2P Require Import Prelude Text Float FloatText.

Local Open Scope Z_scope.

(** * Formats *)

(** [n / d] to the nearest integer, ties to even. *)
Definition round_half_even (n d : Z) : Z :=
  let q := n / d in
  let r := n mod d in
  if 2 * r <? d then q
  else if d <? 2 * r then q + 1
  else if Z.even q then q else q + 1.

(** The digits of [z], at least [n] of them. *)
Definition pad_zeros (n : nat) (s : string) : string := zeros (n - String.length s) +:+ s.

(** [format!("{:.p$}", x)]: the exact value rounded to [p] digits after the
    point, ties to even; the sign is kept also when zero is left. *)
Definition scaled (p : nat) (m : positive) (e : Z) : Z :=
  if 0 <=? e then Zpos m * 2 ^ e * 10 ^ Z.of_nat p
  else round_half_even (Zpos m * 10 ^ Z.of_nat p) (2 ^ (- e)).
Definition fixed_digits (p : nat) (n : Z) : string :=
  show_Z (n / 10 ^ Z.of_nat p) +:+
  (if Nat.eqb p 0 then "" else "." +:+ pad_zeros p (show_Z (n mod 10 ^ Z.of_nat p))).
Definition show_fixed (p : nat) (x : spec_float) : string :=
  match x with
  | S754_nan => "NaN"
  | S754_infinity s => (if s then "-" else "") +:+ "inf"
  | S754_zero s => (if s then "-" else "") +:+ fixed_digits p 0
  | S754_finite s m e => (if s then "-" else "") +:+ fixed_digits p (scaled p m e)
  end.

(** [{:>width}]. *)
Fixpoint spaces (n : nat) : string := match n with O => "" | S n => " " +:+ spaces n end.
Definition pad_left (width : nat) (s : string) : string := spaces (width - String.length s) +:+ s.

Example fixed_sample :
  (λ s, show_fixed 3 <$> parse_f32 s) <$> ["1"; "-0"; "1.2345"; "0.0625"; "0.1875"; "-0.0001"; "999.9996"; "12345.678"]
  = Some <$> ["1.000"; "-0.000"; "1.235"; "0.062"; "0.188"; "-0.000"; "1000.000"; "12345.678"].
Proof. vm_compute. reflexivity. Qed.
Example padded : pad_left 7 (show_fixed 3 (F32.of_Z (-1))) = " -1.000" ∧ pad_left 2 "1234" = "1234".
Proof. split; vm_compute; reflexivity. Qed.

(** What is printed is a nearest multiple of the last digit. *)
Lemma round_half_even_nearest n d : 0 < d → 2 * Z.abs (round_half_even n d * d - n) ≤ d.
Proof.
  intros Hd. unfold round_half_even. pose proof (Z.div_mod n d ltac:(lia)) as Hn.
  pose proof (Z.mod_pos_bound n d Hd) as Hr. set (q := n / d) in *. set (r := n mod d) in *.
  repeat case_match;
    repeat match goal with H : (_ <? _) = _ |- _ => first [apply Z.ltb_lt in H|apply Z.ltb_ge in H] end; nia.
Qed.

(** A value with at most [p] digits after the point is printed exactly. *)
Lemma round_half_even_exact n d : 0 < d → (d | n) → round_half_even n d * d = n.
Proof.
  intros Hd [k ->]. unfold round_half_even. rewrite Z.mod_mul, Z.div_mul by lia.
  rewrite (proj2 (Z.ltb_lt _ _)) by lia. done.
Qed.

(** * Printing *)

(** A line of [sim_logln!], which goes out as [[time] text], or the prompt. *)
Inductive Printed := Logged (text : string) | Prompt.

#[export] Instance Printed_eq_dec : EqDecision Printed.
Proof. solve_decision. Defined.

Section console.
Context {S E : Type}.

(** A program that prints. *)
Abbreviation console := (prog (S * list Printed) E).
Implicit Types c : S * list Printed.

Definition quietly {A} (m : prog S E A) : console A := λ c,
  match m c.1 with (s, r) => ((s, c.2), r) end.
Definition print (p : Printed) : console () := modify (λ c, (c.1, c.2 ++ [p])).
Definition logln (text : string) : console () := print (Logged text).
Definition log_all (texts : list string) : console () :=
  modify (λ c, (c.1, c.2 ++ (Logged <$> texts))).
(** [if verbose { sim_logln!(..) }]. *)
Definition log_when (b : bool) (text : string) : console () := if b then logln text else mret ().

(** ** Printing changes nothing *)

Definition prints_over {A} (p : console A) (m : prog S E A) : Prop :=
  ∀ c, m c.1 = ((exec p c).1, result p c).

Lemma prints_over_quietly {A} (m : prog S E A) : prints_over (quietly m) m.
Proof. intros c. unfold quietly. by destruct (m c.1). Qed.
Lemma prints_over_mret {A} (a : A) : prints_over (mret a) (mret a).
Proof. done. Qed.
Lemma prints_over_throw {A} e : prints_over (A:=A) (throw e) (throw e).
Proof. done. Qed.
Lemma prints_over_lift {A} (r : res E A) : prints_over (lift r) (lift r).
Proof. done. Qed.

Lemma prints_over_bind {A B} p m (f : A → console B) (g : A → prog S E B) :
  prints_over p m → (∀ a, prints_over (f a) (g a)) → prints_over (p ≫= f) (m ≫= g).
Proof.
  intros Hp Hf c. unfold mbind, prog_bind. rewrite (Hp c). cbn [fst snd].
  destruct (p c) as [c' [a| |]]; cbn [fst snd]; [|done..]. apply Hf.
Qed.

(** Output before and after. *)
Lemma prints_over_print_then {A} x (f : () → console A) m :
  prints_over (f ()) m → prints_over (print x ≫= f) m.
Proof. intros Hf c. exact (Hf (c.1, c.2 ++ [x])). Qed.
Lemma prints_over_log_all_then {A} l (f : () → console A) m :
  prints_over (f ()) m → prints_over (log_all l ≫= f) m.
Proof. intros Hf c. exact (Hf (c.1, c.2 ++ (Logged <$> l))). Qed.
Lemma prints_over_log_when_then {A} b text (f : () → console A) m :
  prints_over (f ()) m → prints_over (log_when b text ≫= f) m.
Proof. intros Hf c. destruct b; [exact (Hf (c.1, c.2 ++ [Logged text]))|exact (Hf c)]. Qed.
Lemma prints_over_logln text : prints_over (logln text) (mret ()).
Proof. by intros []. Qed.
Lemma prints_over_log_when b text : prints_over (log_when b text) (mret ()).
Proof. by intros []; destruct b. Qed.

(** The rest of the silent program does not look at the value. *)
Lemma prints_over_discard {A B} p m (f : A → console B) (g : () → prog S E B) :
  prints_over p m → (∀ a, prints_over (f a) (g ())) → prints_over (p ≫= f) ((m;; mret ()) ≫= g).
Proof.
  intros Hp Hf c. unfold mbind, prog_bind. rewrite (Hp c). cbn [fst snd].
  destruct (p c) as [c' [a| |]]; cbn [fst snd]; [|done..]. apply (Hf a).
Qed.
Lemma prints_over_then_print (p q : console ()) m :
  prints_over q (mret ()) → prints_over p m → prints_over (p;; q) m.
Proof.
  intros Hq Hp c. rewrite (Hp c). unfold mbind, prog_bind. destruct (p c) as [c' [[]| |]]; cbn [fst snd]; [|done..].
  rewrite <-(Hq c'). done.
Qed.

Lemma prints_over_read {A} (f : S → console A) m :
  (∀ s, prints_over (f s) m) → prints_over (quietly get ≫= f) m.
Proof. intros Hf [s out]. exact (Hf s (s, out)). Qed.
Lemma prints_over_bind_ret {A} (p : console A) m (l : A → list string) :
  prints_over p m → prints_over (p ≫= λ a, log_all (l a);; mret a) m.
Proof. intros Hp c. rewrite (Hp c). unfold mbind, prog_bind. by destruct (p c) as [c' [| |]]. Qed.
Lemma prints_over_mret_bind {A B C} (a : A) (b : B) (f : A → console C) (g : B → prog S E C) :
  prints_over (f a) (g b) → prints_over (mret a ≫= f) (mret b ≫= g).
Proof. intros Hf c. apply Hf. Qed.

Lemma prints_over_get_bind {A} (f : S → console A) (g : S → prog S E A) :
  (∀ s, prints_over (f s) (g s)) → prints_over (quietly get ≫= f) (get ≫= g).
Proof. intros Hf. apply prints_over_bind; [apply prints_over_quietly|done]. Qed.

(** ** What was printed stays *)

Definition appends {A} (p : console A) : Prop := ∀ c, ∃ l, (exec p c).2 = c.2 ++ l.

Lemma appends_bind {A B} (p : console A) (f : A → console B) :
  appends p → (∀ a, appends (f a)) → appends (p ≫= f).
Proof.
  intros Hp Hf c. unfold mbind, prog_bind. destruct (Hp c) as [l Hl].
  destruct (p c) as [c' [a| |]]; cbn [fst] in *; [|by exists l..].
  destruct (Hf a c') as [l' Hl']. exists (l ++ l'). by rewrite Hl', Hl, app_assoc.
Qed.
Lemma appends_quietly {A} (m : prog S E A) : appends (quietly m).
Proof. intros c. exists []. unfold quietly. destruct (m c.1). by rewrite app_nil_r. Qed.
Lemma appends_log_all l : appends (log_all l).
Proof. intros c. by eexists. Qed.
Lemma appends_print x : appends (print x).
Proof. intros c. by eexists. Qed.
Lemma appends_mret {A} (a : A) : appends (mret a).
Proof. intros c. exists []. by rewrite app_nil_r. Qed.
Lemma appends_lift {A} (r : res E A) : appends (lift r).
Proof. intros c. exists []. by rewrite app_nil_r. Qed.
Lemma appends_throw {A} e : appends (A:=A) (throw e).
Proof. intros c. exists []. by rewrite app_nil_r. Qed.
Lemma appends_log_when b text : appends (log_when b text).
Proof. destruct b; [apply appends_print|apply appends_mret]. Qed.
End console.

Lemma prints_over_attempt {S E F A} (p : prog (S * list Printed) E A) (m : prog S E A) :
  prints_over p m → prints_over (E:=F) (attempt p) (attempt m).
Proof. intros Hp c. unfold attempt. rewrite (Hp c). by destruct (p c) as [c' [| |]]. Qed.

Lemma appends_attempt {S E F A} (p : prog (S * list Printed) E A) :
  appends p → appends (E:=F) (attempt p).
Proof.
  intros Hp c. destruct (Hp c) as [l Hl]. exists l. unfold attempt. by destruct (p c) as [c' [| |]].
Qed.

#[export] Hint Resolve prints_over_quietly prints_over_mret prints_over_throw prints_over_lift
  prints_over_logln prints_over_log_when appends_quietly appends_log_all appends_print appends_mret
  appends_lift appends_throw appends_log_when : motion.
