(* ===== verification/Simulate.v ===== *)
(** [motionstage-cli/src/simulate.rs], the simulated device: its handshake, the
    samples it sends, its commands and its main loop, against an embedded
    server or a remote one.

    A [Simulator] is the embedded server if there is one, the client's end of
    the connection, and the state of the simulator. Everything the loop waits
    for is an event; what other tasks of the embedded server do is an event too,
    so that it may happen between any two steps. The inbox of the connection
    holds all that arrives in the run, with a silence where a receive runs
    into its timeout. What is printed is in [SimulateOutput.v]. *)

From S2P Require Import Prelude Text Float IndexMap Protocol Model Transform Runtime Media Codec.
From S2P Require Import Recording WebRtc Transport Server ServerRuntime ServerVideo ServerLoop.
From S2P Require Import ServerSpec ServerSessions ServerPeer ServerControl.
From S2P Require Import Net Discovery Client Cli.

Local Open Scope Z_scope.

(** An [anyhow::Error]: a message, or an error of the server passed on. *)
Inductive SimError :=
  | Message (text : string)
  | FromServer (e : ServerError).

(** The text of a server error with those of its sources ([{err:#}]). *)
Class ErrorChain := server_error_chain : ServerError → string.

(** [path.parent()] and [create_dir_all]: the error, if the parent of a path
    is needed and cannot be created. *)
Class Directories := create_parent : string → option string.

(** [f32::sin] of the platform. *)
Class Sine := fsin : f32 → f32.

(** [f32::consts]. *)
Definition PI : f32 := S754_finite false 13176795 (-22).
Definition FRAC_PI_2 : f32 := S754_finite false 13176795 (-23).

Inductive SimulationMode := Embedded | ClientOnly.

Record DemoTarget := mkDemoTarget {
  dt_scene_id : SceneId;
  dt_object_id : ObjectId;
  dt_attribute_name : string;
}.
Record DemoRoute := mkRoute {
  route_device : Uuid;
  route_output : string;
  route_target : option DemoTarget;
}.

Record SimulatorState := mkSimulator {
  st_streaming : bool;
  st_recording : bool;
  st_sample_index : Z;
  st_amplitude : f32;
  st_frequency_hz : f32;
  st_default_record_path : string;
  st_active_record_path : option string;
  st_print_every : Z;
  st_last_error : option string;
}.

(** [SimulatorState::new]. *)
Definition SimulatorState_new (args : SimulateArgs) : SimulatorState :=
  mkSimulator false false 0 args.(arg_amplitude) args.(arg_frequency_hz) args.(arg_record_path) None
    args.(arg_print_every) None.

Definition set_streaming (b : bool) (st : SimulatorState) : SimulatorState :=
  mkSimulator b st.(st_recording) st.(st_sample_index) st.(st_amplitude) st.(st_frequency_hz)
    st.(st_default_record_path) st.(st_active_record_path) st.(st_print_every) st.(st_last_error).
Definition set_take (recording : bool) (path : option string) (st : SimulatorState) : SimulatorState :=
  mkSimulator st.(st_streaming) recording st.(st_sample_index) st.(st_amplitude) st.(st_frequency_hz)
    st.(st_default_record_path) path st.(st_print_every) st.(st_last_error).
Definition set_sample_index (i : Z) (st : SimulatorState) : SimulatorState :=
  mkSimulator st.(st_streaming) st.(st_recording) i st.(st_amplitude) st.(st_frequency_hz)
    st.(st_default_record_path) st.(st_active_record_path) st.(st_print_every) st.(st_last_error).
Definition set_wave (amplitude frequency_hz : f32) (st : SimulatorState) : SimulatorState :=
  mkSimulator st.(st_streaming) st.(st_recording) st.(st_sample_index) amplitude frequency_hz
    st.(st_default_record_path) st.(st_active_record_path) st.(st_print_every) st.(st_last_error).
Definition set_last_error (e : option string) (st : SimulatorState) : SimulatorState :=
  mkSimulator st.(st_streaming) st.(st_recording) st.(st_sample_index) st.(st_amplitude) st.(st_frequency_hz)
    st.(st_default_record_path) st.(st_active_record_path) st.(st_print_every) e.

(** ** The handshake *)

Section connect.
Context {debug : DebugText}.

Definition simulated_hello (source_device : Uuid) (output_attribute : string) : ClientHello :=
  mkClientHello PROTOCOL_MAJOR PROTOCOL_MINOR source_device "simulated-motion-device"
    [MotionSource; Operator] [Motion; MappingFeature; RecordingFeature] [output_attribute].

(** [connect_simulated_client] once the control stream is open: the session. *)
Definition connect_simulated_client (source_device : Uuid) (output_attribute : string) : channel Uuid :=
  first ← recv;
  match first with
  | CServerHello _ =>
      send (CClientHello (simulated_hello source_device output_attribute));;
      send (CRegisterRequest (mkRegisterRequest None None));;
      reply ← recv;
      match reply with
      | CRegisterAccepted accepted => mret accepted.(ra_session_id)
      | CRegisterRejected rejected =>
          throw ("simulated client registration rejected: code=" +:+ debug_reject_code rejected.(rj_code)
                 +:+ " reason=" +:+ rejected.(rj_reason))
      | other => throw ("expected registration result, got " +:+ debug_message other)
      end
  | other => throw ("expected ServerHello as first control message, got " +:+ debug_message other)
  end.

(** The connection attempt and the handshake. *)
Definition dial_simulated_client (dial : Dial) (source_device : Uuid) (output_attribute : string) :
    res SimError (Wire * Uuid) :=
  match dial with
  | EndpointFailed e | ConnectFailed e | AcceptFailed e => Err (Message e)
  | Dialed w =>
      match connect_simulated_client source_device output_attribute w with
      | (w', r) => id ← map_err Message r; Ok (w', id)
      end
  end.
End connect.

(** ** The simulator *)

Record Simulator (M : Type → Type) `{WebRtcCrate} := mkSim {
  sim_server : option (ServerState M);
  sim_wire : Wire;
  sim_session_id : Uuid;
  sim_state : SimulatorState;
  sim_last_ping_at : Z;
}.
Arguments mkSim {M _} _ _ _ _ _.
Arguments sim_server {M _} _.
Arguments sim_wire {M _} _.
Arguments sim_session_id {M _} _.
Arguments sim_state {M _} _.
Arguments sim_last_ping_at {M _} _.

Section simulate.
Context {M : Type → Type} `{!IndexMap Uuid M} {fmt : UuidFormat} {crate : WebRtcCrate}
  {fs : FileSystem} {bm : Bincode RecordingManifest} {bk : Bincode (list RecordingMarker)}
  {bf : Bincode RecordedFrame} {texts : ErrorText} {chain : ErrorChain} {debug : DebugText}
  {dirs : Directories} {sine : Sine} {utext : @UuidText fmt}.
Abbreviation sim := (prog (Simulator M) SimError).

Definition set_sim_server (s : ServerState M) (self : Simulator M) : Simulator M :=
  mkSim (Some s) self.(sim_wire) self.(sim_session_id) self.(sim_state) self.(sim_last_ping_at).
Definition set_sim_wire (w : Wire) (self : Simulator M) : Simulator M :=
  mkSim self.(sim_server) w self.(sim_session_id) self.(sim_state) self.(sim_last_ping_at).
Definition set_sim_state (st : SimulatorState) (self : Simulator M) : Simulator M :=
  mkSim self.(sim_server) self.(sim_wire) self.(sim_session_id) st self.(sim_last_ping_at).

(** A call on the embedded server, on the connection, on the state. *)
Definition on_server {A} (server : ServerState M) (m : prog (ServerState M) ServerError A) : sim A :=
  zoom (λ _, server) set_sim_server FromServer m.
Definition on_wire {A} (m : channel A) : sim A := zoom sim_wire set_sim_wire Message m.
Definition on_state (f : SimulatorState → SimulatorState) : sim () :=
  modify (λ self, set_sim_state (f self.(sim_state)) self).

(** [{err}], or [{err:#}] when verbose. *)
Definition show_error (verbose : bool) (e : SimError) : string :=
  match e with
  | Message text => text
  | FromServer e => if verbose then server_error_chain e else server_error_text e
  end.

Definition sine_vec3 (amplitude frequency_hz seconds : f32) : vec f32 3 :=
  let phase := F32.mul (F32.mul (F32.mul seconds frequency_hz) (F32.of_Z 2)) PI in
  [# F32.mul amplitude (fsin phase);
     F32.mul amplitude (fsin (F32.add phase FRAC_PI_2));
     F32.mul amplitude (fsin (F32.add phase PI))].

(** The sample of an index: [sample_index as f32 / sample_hz as f32] seconds. *)
Definition sample_time (sample_index sample_hz : Z) : f32 :=
  F32.div (F32.of_Z sample_index) (F32.of_Z sample_hz).

Definition sample_datagram (route : DemoRoute) (st : SimulatorState) (sample_hz now : Z) : MotionDatagram :=
  mkDatagram route.(route_device) now
    [mkUpdateFrame route.(route_output)
       (FVec3f (sine_vec3 st.(st_amplitude) st.(st_frequency_hz) (sample_time st.(st_sample_index) sample_hz)))].

(** The remainder by [print_every] is what may panic. *)
Definition emit_sample (route : DemoRoute) (sample_hz now : Z) : sim () :=
  self ← get;
  on_wire (send_datagram (sample_datagram route self.(sim_state) sample_hz now));;
  (if self.(sim_state).(st_print_every) =? 0 then lift Panicked else mret ());;
  on_state (λ st, set_sample_index (wrap64 (st.(st_sample_index) + 1)) st).

Definition request_remote_mode (mode : Mode) : sim Mode :=
  on_wire (send (CSetMode mode));;
  reply ← on_wire recv;
  match reply with
  | CModeState active_mode => mret active_mode
  | CError code reason =>
      throw (Message ("remote mode request rejected: code=" +:+ debug_reject_code code +:+ " reason=" +:+ reason))
  | other => throw (Message ("unexpected control reply to mode request: " +:+ debug_message other))
  end.

(** [server.set_mode(..)] or, without a server, the request to the remote one. *)
Definition change_mode (mode : Mode) (now : Z) : sim () :=
  self ← get;
  match self.(sim_server) with
  | Some server => on_server server (ServerRuntime.set_mode mode now)
  | None => request_remote_mode mode;; mret ()
  end.

Definition record_start (path : option string) (now : Z) (id : Uuid) : sim bool :=
  self ← get;
  match self.(sim_server) with
  | None => mret true
  | Some server =>
      if self.(sim_state).(st_recording) then mret true
      else
        (if negb self.(sim_state).(st_streaming)
         then on_server server (ServerRuntime.set_mode Live now);; on_state (set_streaming true)
         else mret ());;
        self ← get;
        let path := default self.(sim_state).(st_default_record_path) path in
        lift (match create_parent path with Some e => Err (Message e) | None => Ok () end);;
        match self.(sim_server) with
        | Some server => on_server server (start_recording id path now);; mret ()
        | None => mret ()
        end;;
        on_state (set_take true (Some path));;
        mret true
  end.

Definition record_stop (now : Z) : sim bool :=
  self ← get;
  match self.(sim_server) with
  | None => mret true
  | Some server =>
      if negb self.(sim_state).(st_recording) then mret true
      else
        on_server server (stop_recording now);;
        on_state (set_take false None);;
        mret true
  end.

(** Is a number from the prompt accepted. *)
Definition acceptable_value (value : f32) : bool := negb (flt value F32.zero || negb (is_finite value)).

(** [handle_command]: whether the loop goes on. *)
Definition handle_command (command : SimulationCommand) (now : Z) (id : Uuid) : sim bool :=
  match command with
  | Help | Status | Empty | Unknown _ => mret true
  | Start =>
      change_mode Live now;;
      on_state (λ st, set_last_error None (set_streaming true st));;
      mret true
  | Stop =>
      self ← get;
      if self.(sim_state).(st_recording) then mret true
      else
        on_state (set_streaming false);;
        change_mode Idle now;;
        mret true
  | RecordStart path => record_start path now id
  | RecordStop => record_stop now
  | Amp value =>
      (if acceptable_value value then on_state (λ st, set_wave value st.(st_frequency_hz) st) else mret ());;
      mret true
  | Freq value =>
      (if acceptable_value value then on_state (λ st, set_wave st.(st_amplitude) value st) else mret ());;
      mret true
  | SetMode mode => change_mode mode now;; mret true
  | Exit => mret false
  end.

(** [drain_control_messages]: until the receive runs into its timeout. The
    fuel is the number of arrivals; each round uses one up. *)
Fixpoint drain_messages (fuel : nat) : sim () :=
  match fuel with
  | O => mret ()
  | S fuel =>
      r ← attempt (F:=SimError) (on_wire recv_within);
      match r with
      | Ok None => mret ()
      | Ok (Some (CError code reason)) =>
          on_state (set_last_error
            (Some ("control error code=" +:+ debug_reject_code code +:+ " reason=" +:+ reason)));;
          drain_messages fuel
      | Ok (Some _) => drain_messages fuel
      | Err (Message e) => throw (Message ("recv failed: " +:+ e))
      | Err e => throw e
      | Panicked => lift Panicked
      end
  end.
Definition drain_control_messages : sim () := λ self,
  drain_messages (S (length self.(sim_wire).(inbox))) self.

(** ** The main loop *)

Inductive SimEvent :=
  | SampleTick (now : Z)
  | ControlTick (now : Z)
  | LineRead (line : option string) (now : Z) (id : Uuid)
  | Interrupt
  (* Not of the loop: what other tasks of the embedded server do. *)
  | Elsewhere (ops : list server_op).

Definition stream_failed (message : string) : sim () :=
  on_state (λ st, set_streaming false (set_last_error (Some message) st)).

(** The arms of the [select!]: [false] leaves the loop. *)
Definition on_event (args : SimulateArgs) (route : DemoRoute) (ev : SimEvent) : sim bool :=
  match ev with
  | SampleTick now =>
      self ← get;
      (if self.(sim_state).(st_streaming) then
         r ← attempt (emit_sample route args.(arg_sample_hz) now);
         match (r : res SimError ()) with
         | Err err => stream_failed ("stream error: " +:+ show_error args.(arg_verbose) err)
         | _ => mret ()
         end
       else mret ());;
      mret true
  | ControlTick now =>
      self ← get;
      (if 2000000000 <=? now - self.(sim_last_ping_at) then
         r ← attempt (on_wire (send CPing));
         match (r : res SimError ()) with
         | Err err => stream_failed ("control heartbeat send failed: " +:+ show_error true err)
         | _ => mret ()
         end;;
         modify (λ self, mkSim self.(sim_server) self.(sim_wire) self.(sim_session_id) self.(sim_state) now)
       else mret ());;
      r ← attempt drain_control_messages;
      match (r : res SimError ()) with
      | Err err => stream_failed ("control channel error: " +:+ show_error true err)
      | _ => mret ()
      end;;
      mret true
  | LineRead None _ _ => mret false
  | LineRead (Some line) now id =>
      r ← attempt (handle_command (parse_command line) now id);
      match (r : res SimError bool) with
      | Ok should_continue => mret should_continue
      | Err err =>
          on_state (set_last_error (Some ("command error: " +:+ show_error args.(arg_verbose) err)));;
          mret true
      | Panicked => lift Panicked
      end
  | Interrupt => mret false
  | Elsewhere ops =>
      modify (λ self, match self.(sim_server) with
                      | Some s => set_sim_server (foldl (λ s op, exec_server op s) s ops) self
                      | None => self
                      end);;
      mret true
  end.

(** The loop over the events so far: [false] when it was left. *)
Fixpoint main_loop (args : SimulateArgs) (route : DemoRoute) (evs : list SimEvent) : sim bool :=
  match evs with
  | [] => mret true
  | ev :: evs =>
      continue ← on_event args route ev;
      if continue : bool then main_loop args route evs else mret false
  end.

Context {net : Network}.

(** What [run] does after the loop. *)
Definition shut_down (now : Z) : sim () :=
  self ← get;
  match self.(sim_server) with
  | None => mret ()
  | Some server =>
      (if self.(sim_state).(st_recording) then on_server server (stop_recording now);; mret () else mret ());;
      self ← get;
      match self.(sim_server) with
      | Some server =>
          if self.(sim_state).(st_streaming) then on_server server (ServerRuntime.set_mode Idle now) else mret ()
      | None => mret ()
      end;;
      self ← get;
      match self.(sim_server) with Some server => on_server server server_stop | None => mret () end
  end.

(** ** Setting up *)

(** Where a client-only simulator starts. *)
Definition bootstrap_remote_client (dial : Dial) (source_device : Uuid) (source_output : string) :
    res SimError (DemoRoute * (Wire * Uuid)) :=
  client ← dial_simulated_client dial source_device source_output;
  Ok (mkRoute source_device source_output None, client).

(** The stage of the embedded server: one object with a position. *)
Definition demo_scene (scene_id object_id : Uuid) : Scene :=
  with_object (with_attribute
      (SceneAttribute_new "position" (Vec3f (vreplicate 3 F32.zero)))
      (SceneObject_new object_id "demo_camera"))
    (Scene_new scene_id "demo_scene").

(** [bootstrap_embedded_simulation]. While the client connects, the tasks of
    the server run: [ops]. *)
Definition bootstrap_embedded_simulation (scene_id object_id mapping_id : Uuid) (dial : Dial)
    (ops : list server_op) (source_device : Uuid) (source_output : string) (now : Z) :
    prog (ServerState M) SimError (DemoRoute * (Wire * Uuid)) :=
  let server {A} (m : prog (ServerState M) ServerError A) : prog (ServerState M) SimError A :=
    zoom (λ s, s) (λ s _, s) FromServer m in
  loaded_scene ← server (ServerRuntime.load_scene (demo_scene scene_id object_id));
  server (ServerRuntime.set_active_scene loaded_scene);;
  modify (λ s, foldl (λ s op, exec_server op s) s ops);;
  client ← lift (dial_simulated_client dial source_device source_output);
  server (ServerRuntime.create_mapping mapping_id
    (mkRequest source_device source_output scene_id object_id "position" None) now);;
  mret (mkRoute source_device source_output (Some (mkDemoTarget scene_id object_id "position")), client).

(** [ServerConfig::default()] with the name, address and discovery asked for. *)
Definition unspecified (ip : IpAddr) : bool :=
  match ip with
  | V4 a b c d => bool_decide ([a; b; c; d] = [0; 0; 0; 0])
  | V6 segments => bool_decide (vec_to_list segments = [0; 0; 0; 0; 0; 0; 0; 0])
  end.
Definition embedded_config (args : SimulateArgs) : ServerConfig :=
  let def := ServerConfig_default in
  mkConfig args.(arg_name)
    (mkAddr (show_ip args.(arg_bind).(sock_ip)) (unspecified args.(arg_bind).(sock_ip)) args.(arg_bind).(sock_port))
    def.(security_mode) args.(arg_discoverable) def.(max_sessions) def.(tick_hz) def.(publish_hz)
    def.(supported_features) def.(cfg_lease) def.(pairing_token) def.(Server.api_key).

(** The identifiers and the course of events [run] meets. *)
Record Course := mkCourse {
  co_device_id : Uuid;
  co_scene_id : Uuid;
  co_object_id : Uuid;
  co_mapping_id : Uuid;
  co_dial : Dial;
  co_connecting : list server_op;
  co_now : Z;
  co_events : list SimEvent;
  co_end : Z;
}.

(** [run] from the resolved target on: it starts out with the server it
    embeds, if it embeds one, and ends with the simulator it has become; [true]
    while the loop goes on. *)
Definition run_loop (args : SimulateArgs) (course : Course) (server : option (ServerState M))
    (setup : DemoRoute * (Wire * Uuid)) : option (Simulator M) * res SimError bool :=
  let '(route, (wire, session_id)) := setup in
  let self := mkSim server wire session_id (SimulatorState_new args) course.(co_now) in
  match (continue ← main_loop args route course.(co_events);
         if continue : bool then mret true else shut_down course.(co_end);; mret false) self with
  | (self, r) => (Some self, r)
  end.

Definition run_with (args : SimulateArgs) (target : option ResolvedConnectTarget) (course : Course)
    (world : rtc_world) (files : gmap string (list byte)) : option (Simulator M) * res SimError bool :=
  let source_device := default course.(co_device_id) args.(arg_device_id) in
  let source_output := qualify_source_output source_device (trim args.(arg_output_attribute)) in
  match target with
  | Some _ =>
      match bootstrap_remote_client course.(co_dial) source_device source_output with
      | Ok setup => run_loop args course None setup
      | Err e => (None, Err e)
      | Panicked => (None, Panicked)
      end
  | None =>
      match (zoom (λ s, s) (λ s _, s)
               (λ e, Message ("failed to start embedded simulator server at "
                 +:+ show_socket args.(arg_bind) +:+ ": " +:+ server_error_text e +:+ String (char_of_Z 10) ""
                 +:+ backquote +:+ "simulate" +:+ backquote +:+ " starts its own server; " +:+ backquote
                 +:+ "--server-bind" +:+ backquote +:+ " is the embedded server bind address."))
               server_start;;
             bootstrap_embedded_simulation course.(co_scene_id) course.(co_object_id) course.(co_mapping_id)
               course.(co_dial) course.(co_connecting) source_device source_output course.(co_now))
            (ServerHandle_new (embedded_config args) world files) with
      | (server, Ok setup) => run_loop args course (Some server) setup
      | (_, Err e) => (None, Err e)
      | (_, Panicked) => (None, Panicked)
      end
  end.

(** [run]: the browser starts at [browse_start] and meets [rounds]. *)
Definition run `{MdnsCrate} (args : SimulateArgs) (browse_start : Z)
    (rounds : list (Z * RecvOutcome ServiceEvent)) (network : mdns_world) (course : Course)
    (world : rtc_world) (files : gmap string (list byte)) : option (Simulator M) * res SimError bool :=
  match validate_args args with
  | Ok _ =>
      match resolve_connect_target args browse_start rounds network with
      | (_, Ok target) => run_with args target course world files
      | (_, Err e) => (None, Err (Message e))
      | (_, Panicked) => (None, Panicked)
      end
  | Err e => (None, Err (Message e))
  | Panicked => (None, Panicked)
  end.
End simulate.
