(* ===== verification/SimulateProps.v ===== *)
(** What the simulated device does: whom a server lets in, what the simulator
    keeps true while it runs, how it leaves the server behind, and where it
    gets stuck. *)

From S2P Require Import Prelude Text Float IndexMap Protocol Model Transform Runtime Media Codec.
From S2P Require Import Recording WebRtc Transport Server ServerRuntime ServerVideo ServerLoop.
From S2P Require Import ServerSpec ServerSessions ServerPeer ServerControl ServerTake.
From S2P Require Import Net Discovery Client Cli Simulate.

Local Open Scope Z_scope.

Section props.
Context {M : Type → Type} `{!IndexMap Uuid M} {fmt : UuidFormat} {crate : WebRtcCrate}
  {fs : FileSystem} {bm : Bincode RecordingManifest} {bk : Bincode (list RecordingMarker)}
  {bf : Bincode RecordedFrame} {texts : ErrorText} {chain : ErrorChain} {debug : DebugText}
  {dirs : Directories} {sine : Sine} {utext : @UuidText fmt}.
Implicit Types s : ServerState M.
Implicit Types self : Simulator M.
Abbreviation sim := (prog (Simulator M) SimError).

(** ** The handshake, both ends *)

(** The two messages the client sends after the greeting. *)
Lemma connect_after_hello device output hello replies closed :
  connect_simulated_client device output (wire_of (CServerHello hello :: replies) closed) =
  (reply ← recv;
   match reply with
   | CRegisterAccepted accepted => mret accepted.(ra_session_id)
   | CRegisterRejected rejected =>
       throw ("simulated client registration rejected: code=" +:+ debug_reject_code rejected.(rj_code)
              +:+ " reason=" +:+ rejected.(rj_reason))
   | other => throw ("expected registration result, got " +:+ debug_message other)
   end) (set_outbox [CClientHello (simulated_hello device output);
                     CRegisterRequest (mkRegisterRequest None None)] (wire_of replies closed)).
Proof. reflexivity. Qed.

(** C20. The simulated client and the server agree on how a connection begins.
    The client sends exactly the hello and the registration the server's
    handshake expects. When the server accepts them the client ends with the
    identifier of the session the server has made active; when the
    registration is rejected, the client fails with the server's reason; when
    the server does not answer the hello (a full server, say) the client only
    sees the connection close. *)
Theorem simulated_client_connects now id device output closed s :
  keyed s →
  let hello := simulated_hello device output in
  let req := mkRegisterRequest None None in
  let server := meet now id hello req s in
  let client := connect_simulated_client device output (wire_of server.1.(sent) closed) in
  client.1.(outbox) = [CClientHello hello; CRegisterRequest req] ∧
  (acceptable s hello req →
     server = (mkConn (joined s hello id) (welcome s hello id) [], Ok (Some hello)) ∧ client.2 = Ok id) ∧
  (greetable s hello → ¬ acceptable s hello req →
     server.2 = Ok None ∧ ∃ rej, client.2 = Err ("simulated client registration rejected: code="
       +:+ debug_reject_code rej.(rj_code) +:+ " reason=" +:+ rej.(rj_reason))
       ∧ last server.1.(sent) = Some (CRegisterRejected rej)) ∧
  (¬ greetable s hello → (∃ e, server.2 = Err e) ∧ client.2 = Err closed).
Proof.
  intros Hk hello req server client. subst client server.
  destruct (server_replies now id hello req s Hk)
    as [[Ha Hm]|[(Hg & Ha & rej & s' & Hm)|(Hg & e & s' & Hm)]];
    rewrite Hm; cbn [fst snd sent]; unfold welcome; rewrite connect_after_hello.
  - split_and!; [done|done|by intros _ Hn|]. intros Hn. exfalso. apply Hn, Ha.
  - split_and!; [done|by intros ?| |].
    + intros _ _. split; [done|]. by exists rej.
    + by intros Hn.
  - split_and!; [done|by intros [? _]|by intros ?|]. intros _. split; [by eexists|done].
Qed.

(** ** What holds while the simulator runs *)

Definition take_active (s : ServerState M) : bool := bool_decide (is_Some s.(active_recording)).

(** The wave is described by finite numbers that are not negative, samples are
    printed every so often, and the simulator knows of the take that is
    running in its server. *)
Definition sim_ok (self : Simulator M) : bool :=
  acceptable_value self.(sim_state).(st_amplitude) && acceptable_value self.(sim_state).(st_frequency_hz)
  && (0 <? self.(sim_state).(st_print_every))
  && match self.(sim_server) with
     | Some s => implb (take_active s) self.(sim_state).(st_recording)
     | None => true
     end.

(** A step that keeps it, whatever its outcome. *)
Definition safe {A} (m : sim A) : Prop := ∀ self, sim_ok self = true → sim_ok (exec m self) = true.

Lemma safe_bind {A B} (m : sim A) (f : A → sim B) self :
  sim_ok (exec m self) = true →
  (∀ self' a, m self = (self', Ok a) → sim_ok self' = true → sim_ok (exec (f a) self') = true) →
  sim_ok (exec (m ≫= f) self) = true.
Proof.
  intros Hm Hf. unfold mbind, prog_bind in *. destruct (m self) as [self' [a| |]] eqn:E; [|done..].
  by apply Hf.
Qed.

Lemma safe_then {A B} (m : sim A) (f : A → sim B) : safe m → (∀ a, safe (f a)) → safe (m ≫= f).
Proof. intros Hm Hf self Hs. apply safe_bind; [by apply Hm|]. intros self' a _. apply Hf. Qed.
Lemma safe_get {A} (f : Simulator M → sim A) :
  (∀ self, sim_ok self = true → sim_ok (exec (f self) self) = true) → safe (get ≫= f).
Proof. intros Hf self Hs. by apply Hf. Qed.
Lemma safe_mret {A} (a : A) : safe (mret a).
Proof. by intros self. Qed.
Lemma safe_lift {A} (r : res SimError A) : safe (lift r).
Proof. by intros self. Qed.
Lemma safe_throw {A} e : safe (A:=A) (throw e).
Proof. by intros self. Qed.
Lemma safe_attempt {A} (m : sim A) : safe m → safe (attempt m).
Proof. intros Hm self Hs. specialize (Hm self Hs). unfold attempt. by destruct (m self) as [? [| |]]. Qed.
Lemma safe_modify f : (∀ self, sim_ok self = true → sim_ok (f self) = true) → safe (modify f).
Proof. intros Hf self. apply Hf. Qed.
Lemma safe_on_wire {A} (m : channel A) : safe (on_wire m).
Proof. intros self Hs. unfold on_wire, zoom. by destruct (m (sim_wire self)) as [w r]. Qed.
Lemma safe_on_state f :
  (∀ st, st_amplitude (f st) = st_amplitude st ∧ st_frequency_hz (f st) = st_frequency_hz st ∧
         st_print_every (f st) = st_print_every st ∧ implb (st_recording st) (st_recording (f st)) = true) →
  safe (on_state f).
Proof.
  intros Hf [server w id st p]. unfold on_state, modify, sim_ok, set_sim_state. cbn.
  destruct (Hf st) as (-> & -> & -> & Hr). intros [-> Hs]%andb_true_iff. simpl.
  destruct server as [s|]; [|done]. by destruct (take_active s), (st_recording st), (st_recording (f st)).
Qed.

Lemma safe_on_state_same f :
  (∀ st, st_amplitude (f st) = st_amplitude st ∧ st_frequency_hz (f st) = st_frequency_hz st ∧
         st_print_every (f st) = st_print_every st ∧ st_recording (f st) = st_recording st) →
  safe (on_state f).
Proof.
  intros Hf. apply safe_on_state. intros st. destruct (Hf st) as (-> & -> & -> & ->).
  split_and!; try done. by destruct (st_recording st).
Qed.

Lemma safe_on_server {A} (server : ServerState M) (m : prog (ServerState M) ServerError A) self :
  self.(sim_server) = Some server → implb (take_active (exec m server)) (take_active server) = true →
  sim_ok self = true → sim_ok (exec (on_server server m) self) = true.
Proof.
  intros Hs Hm. unfold on_server, zoom. destruct (m server) as [s' r]. unfold sim_ok, set_sim_server. cbn in *.
  rewrite Hs. intros [-> Ht]%andb_true_iff. simpl.
  by destruct (take_active s'), (take_active server), (st_recording _).
Qed.

Create HintDb sim discriminated.
#[local] Hint Resolve safe_mret safe_lift safe_throw safe_on_wire : sim.

(** *** Calls of the server *)

Lemma within_take_active op s : within_take op → take_active (exec_server op s) = take_active s.
Proof.
  intros Hop. unfold take_active. rewrite op_records by done. by destruct (active_recording s).
Qed.
Lemma within_take_actives ops s :
  Forall within_take ops → take_active (foldl (λ s op, exec_server op s) s ops) = take_active s.
Proof.
  intros Hops. unfold take_active. change (foldl (λ s op, exec_server op s) s ops) with (run_server ops s).
  rewrite ops_record by done. by destruct (active_recording s).
Qed.
Lemma set_mode_active m now s : take_active (exec (ServerRuntime.set_mode m now) s) = take_active s.
Proof. by apply (within_take_active (SSetMode m now)). Qed.
Lemma stop_recording_active now s : take_active (exec (stop_recording now) s) = false.
Proof.
  unfold stop_recording, take_active, on_runtime. unfold_prog.
  destruct (active_recording s) as [r|] eqn:Hr; [|cbn; by rewrite Hr].
  destruct (finish _ _) as [content [m|e|]]; cbn [map_err]; repeat case_match; simplify_eq/=; done.
Qed.
Lemma start_recording_err id file now s s' e :
  start_recording id file now s = (s', Err e) → take_active s' = take_active s.
Proof. rewrite start_recording_outcome. case_match; [done|]. by intros [= <- _]. Qed.

Lemma safe_change_mode m now : safe (change_mode m now).
Proof.
  apply safe_get. intros self Hs. destruct (sim_server self) as [server|] eqn:Hserver.
  - apply safe_on_server; [done| |done]. rewrite set_mode_active. by destruct (take_active server).
  - revert self Hs Hserver. enough (safe (request_remote_mode m;; mret () : sim ())) as Hr by (intros; by apply Hr).
    apply safe_then; [|auto with sim]. unfold request_remote_mode.
    apply safe_then; [auto with sim|]. intros _. apply safe_then; [auto with sim|].
    intros reply. destruct reply; first [apply safe_mret|apply safe_throw].
Qed.

Lemma safe_record_start path now id : safe (record_start path now id).
Proof.
  apply safe_get. intros self Hs. destruct (sim_server self) as [server|] eqn:Hserver; [|done].
  destruct (st_recording (sim_state self)) eqn:Hrec; [done|]. apply safe_bind.
  { case_match; [|done]. apply safe_bind.
    - apply safe_on_server; [done| |done]. rewrite set_mode_active. by destruct (take_active server).
    - intros self' _ _. by apply safe_on_state_same. }
  intros self' _ _. apply safe_get. intros sf Hsf.
  apply safe_bind; [by apply safe_lift|]. intros self2 u Hl _. apply lift_inv in Hl as [-> _]. clear u.
  destruct (sim_server sf) as [srv|] eqn:Hsrv.
  - unfold on_server, zoom. unfold mbind, prog_bind, on_state, modify.
    destruct (start_recording _ _ _ srv) as [s' [u|e|]] eqn:Hst; cbn.
    + revert Hsf. unfold sim_ok. cbn. rewrite Hsrv. intros [-> _]%andb_true_iff. simpl.
      by destruct (take_active s').
    + revert Hsf. unfold sim_ok. cbn. rewrite Hsrv. by rewrite (start_recording_err _ _ _ _ _ _ Hst).
    + exfalso. rewrite start_recording_outcome in Hst. by case_match.
  - generalize (default (st_default_record_path (sim_state sf)) path). intros p.
    clear Hsrv. revert sf Hsf.
    apply safe_then; [auto with sim|]. intros _. apply safe_then; [|auto with sim].
    apply safe_on_state. intros st. split_and!; try done. by destruct (st_recording st).
Qed.

Lemma safe_record_stop now : safe (record_stop now).
Proof.
  apply safe_get. intros self Hs. destruct (sim_server self) as [server|] eqn:Hserver; [|done].
  case_match; [done|]. pose proof (stop_recording_active now server) as Hoff.
  unfold on_server, zoom. unfold mbind, prog_bind, on_state, modify.
  revert Hs. unfold sim_ok. rewrite Hserver. intros [Hs _]%andb_true_iff.
  destruct (stop_recording now server) as [s' [u|e|]]; cbn in *; by rewrite Hs, Hoff.
Qed.

Lemma safe_handle_command command now id : safe (handle_command command now id).
Proof.
  destruct command; cbn [handle_command]; auto with sim.
  - apply safe_then; [apply safe_change_mode|]. intros _. apply safe_then; [|auto with sim].
    by apply safe_on_state_same.
  - apply safe_get. intros self Hs. case_match; [done|]. revert self Hs H.
    enough (safe (on_state (set_streaming false);; change_mode Idle now;; mret true : sim bool)) as Hm
      by (intros; by apply Hm).
    apply safe_then; [|intros _; apply safe_then; [apply safe_change_mode|auto with sim]].
    by apply safe_on_state_same.
  - apply safe_record_start.
  - apply safe_record_stop.
  - apply safe_then; [apply safe_change_mode|auto with sim].
  - apply safe_then; [|auto with sim]. case_match; [|auto with sim]. apply safe_modify.
    intros self. unfold sim_ok. cbn. rewrite H. intros [[[_ ->]%andb_true_iff ->]%andb_true_iff ->]%andb_true_iff.
    done.
  - apply safe_then; [|auto with sim]. case_match; [|auto with sim]. apply safe_modify.
    intros self. unfold sim_ok. cbn. rewrite H. intros [[[-> _]%andb_true_iff ->]%andb_true_iff ->]%andb_true_iff.
    done.
Qed.

(** *** The loop *)

(** What other tasks do is not to start or stop a take: nothing but the
    simulator has the handle of its server. *)
Definition event_ok (ev : SimEvent) : Prop :=
  match ev with Elsewhere ops => Forall within_take ops | _ => True end.

Lemma safe_stream_failed message : safe (stream_failed message).
Proof. by apply safe_on_state_same. Qed.

Lemma safe_emit_sample route hz now : safe (emit_sample route hz now).
Proof.
  apply safe_get. intros self. revert self.
  enough (∀ d (b : bool), safe (on_wire (send_datagram d);; (if b then lift Panicked else mret ());;
    on_state (λ st, set_sample_index (wrap64 (st.(st_sample_index) + 1)) st) : sim ())) as Hm
    by (intros self; apply Hm).
  intros d b. apply safe_then; [auto with sim|]. intros _. apply safe_then; [by destruct b; auto with sim|].
  intros _. by apply safe_on_state_same.
Qed.

Lemma safe_drain fuel : safe (drain_messages fuel).
Proof.
  induction fuel as [|fuel IH]; cbn [drain_messages]; [auto with sim|].
  apply safe_then; [apply safe_attempt; auto with sim|].
  intros [[m|]|[]|]; auto with sim. destruct m; try apply IH.
  apply safe_then; [|intros _; apply IH]. by apply safe_on_state_same.
Qed.

Lemma safe_on_event args route ev : event_ok ev → safe (on_event args route ev).
Proof.
  destruct ev as [now|now|[line|] now id| |ops]; cbn [event_ok on_event]; intros Hev; auto with sim.
  - apply safe_get. intros self. revert self.
    enough (∀ b : bool, safe ((if b then
        r ← attempt (emit_sample route args.(arg_sample_hz) now);
        match (r : res SimError ()) with
        | Err err => stream_failed ("stream error: " +:+ show_error args.(arg_verbose) err)
        | _ => mret ()
        end else mret ());; mret true : sim bool)) as Hm by (intros self; apply Hm).
    intros b. apply safe_then; [|auto with sim]. destruct b; [|auto with sim].
    apply safe_then; [apply safe_attempt, safe_emit_sample|]. intros []; auto using safe_stream_failed with sim.
  - apply safe_get. intros self. revert self.
    enough (∀ b : bool, safe ((if b then
        r ← attempt (on_wire (send CPing));
        match (r : res SimError ()) with
        | Err err => stream_failed ("control heartbeat send failed: " +:+ show_error true err)
        | _ => mret ()
        end;;
        modify (λ self, mkSim self.(sim_server) self.(sim_wire) self.(sim_session_id) self.(sim_state) now)
        else mret ());;
        r ← attempt drain_control_messages;
        match (r : res SimError ()) with
        | Err err => stream_failed ("control channel error: " +:+ show_error true err)
        | _ => mret ()
        end;;
        mret true : sim bool)) as Hm by (intros self; apply Hm).
    intros b. apply safe_then.
    { destruct b; [|auto with sim]. apply safe_then; [apply safe_attempt; auto with sim|].
      intros r. apply safe_then; [destruct r; auto using safe_stream_failed with sim|].
      intros _. by apply safe_modify. }
    intros _. apply safe_then; [apply safe_attempt; intros self; apply safe_drain|].
    intros r. apply safe_then; [destruct r; auto using safe_stream_failed with sim|auto with sim].
  - apply safe_then; [apply safe_attempt, safe_handle_command|]. intros []; auto with sim.
    apply safe_then; [|auto with sim]. by apply safe_on_state_same.
  - apply safe_then; [|auto with sim]. apply safe_modify. intros self Hs.
    destruct (sim_server self) as [s|] eqn:Hserver; [|done]. revert Hs. unfold sim_ok. cbn.
    rewrite Hserver. by rewrite within_take_actives.
Qed.

Lemma safe_main_loop args route evs : Forall event_ok evs → safe (main_loop args route evs).
Proof.
  induction 1 as [|ev evs Hev _ IH]; cbn [main_loop]; [auto with sim|].
  apply safe_then; [by apply safe_on_event|]. intros []; auto with sim.
Qed.

(** The simulator as [run_loop] starts it. *)
Definition started (args : SimulateArgs) (server : option (ServerState M)) (wire : Wire) (session_id : Uuid)
    (now : Z) : Simulator M :=
  mkSim server wire session_id (SimulatorState_new args) now.

Definition quiet_server (server : option (ServerState M)) : Prop :=
  match server with Some s => s.(active_recording) = None | None => True end.

Lemma validated args :
  validate_args args = Ok () →
  args.(arg_sample_hz) ≠ 0 ∧ acceptable_value args.(arg_amplitude) = true ∧
  acceptable_value args.(arg_frequency_hz) = true ∧ args.(arg_print_every) ≠ 0 ∧
  trim args.(arg_output_attribute) ≠ "".
Proof.
  unfold validate_args, acceptable_value.
  destruct (_ =? 0) eqn:Hhz; [done|]. destruct (negb _ || _) eqn:Ha; [done|].
  destruct (negb (is_finite (arg_frequency_hz args)) || _) eqn:Hf; [done|].
  destruct (arg_print_every args =? 0) eqn:Hp; [done|].
  destruct (match arg_connect args with Some (Discover _) => _ | _ => _ end); [done|].
  destruct (is_empty _) eqn:He; [done|]. intros _.
  apply Z.eqb_neq in Hhz, Hp. rewrite (orb_comm (flt _ _)), Ha, (orb_comm (flt _ _)), Hf. split_and!; try done.
  intros Hn. by rewrite Hn in He.
Qed.

Lemma started_ok args server wire session_id now :
  validate_args args = Ok () → 0 ≤ args.(arg_print_every) → quiet_server server →
  sim_ok (started args server wire session_id now) = true.
Proof.
  intros (_ & Ha & Hf & Hp & _)%validated Hp0 Hq. unfold sim_ok, started. cbn. rewrite Ha, Hf. simpl.
  rewrite (proj2 (Z.ltb_lt _ _)) by lia. simpl. destruct server as [s|]; [|done].
  unfold take_active. cbn in Hq. by rewrite Hq.
Qed.

(** C30. However a simulator with valid arguments is driven, by the prompt, its
    timers, the network and the other tasks of its server, its amplitude and
    frequency stay finite and not negative, it knows of every take that runs
    in its server, and taking a sample never divides by zero. *)
Theorem simulator_invariant args route server wire session_id now evs :
  validate_args args = Ok () → 0 ≤ args.(arg_print_every) → quiet_server server → Forall event_ok evs →
  let self := exec (main_loop args route evs) (started args server wire session_id now) in
  let st := self.(sim_state) in
  acceptable_value st.(st_amplitude) = true ∧ acceptable_value st.(st_frequency_hz) = true ∧
  (∀ s, self.(sim_server) = Some s → s.(active_recording) ≠ None → st.(st_recording) = true) ∧
  ∀ t, result (emit_sample route args.(arg_sample_hz) t) self ≠ Panicked.
Proof.
  intros Hv Hp Hq Hevs self st.
  assert (sim_ok self = true) as Hok by by apply safe_main_loop, started_ok.
  unfold sim_ok in Hok. fold st in Hok.
  apply andb_true_iff in Hok as [Hok Ht]. apply andb_true_iff in Hok as [Hok He].
  apply andb_true_iff in Hok as [Ha Hf]. split_and!; try done.
  - intros s Hs Hact. rewrite Hs in Ht. unfold take_active in Ht.
    rewrite bool_decide_eq_true_2 in Ht; [done|]. by destruct (active_recording s).
  - intros t. apply Z.ltb_lt in He. unfold emit_sample, on_wire, send_datagram, next_fate.
    unfold_prog. fold st. rewrite (proj2 (Z.eqb_neq _ _)) by lia.
    destruct (fates (sim_wire self)) as [|[e|] l]; done.
Qed.

(** ** Leaving *)

Definition embedded (self : Simulator M) : bool := bool_decide (is_Some self.(sim_server)).

Lemma embedded_on_server {A} server (m : prog (ServerState M) ServerError A) :
  keeps embedded true (on_server server m).
Proof. intros self _. unfold on_server, zoom. by destruct (m server). Qed.
Lemma embedded_on_wire {A} (m : channel A) : keeps embedded true (on_wire m).
Proof. intros self Hs. unfold on_wire, zoom. by destruct (m (sim_wire self)). Qed.
Lemma embedded_on_state f : keeps embedded true (on_state f).
Proof. by intros self. Qed.
Lemma embedded_drain fuel : keeps embedded true (drain_messages fuel).
Proof.
  induction fuel as [|fuel IH]; cbn [drain_messages]; [apply keeps_mret|].
  apply keeps_bind; [apply keeps_attempt, embedded_on_wire|].
  intros r. repeat case_match; try apply keeps_mret; try apply keeps_throw; try apply keeps_lift; try apply IH.
  apply keeps_bind; [apply embedded_on_state|by intros].
Qed.
#[local] Hint Resolve embedded_on_server embedded_on_wire embedded_on_state embedded_drain : motion.

Ltac embedded_walk := repeat first
  [ keeps_step
  | solve [auto with motion nocore]
  | match goal with |- keeps _ _ (if ?b then _ else _) => destruct b end
  | match goal with |- keeps _ _ ((if ?b then _ else _) _) => destruct b end ].

Lemma embedded_on_event args route ev : keeps embedded true (on_event args route ev).
Proof.
  destruct ev as [now|now|[line|] now id| |ops]; cbn [on_event].
  - unfold emit_sample, stream_failed. embedded_walk.
  - unfold stream_failed. apply keeps_bind; [by intros self|]. intros self. embedded_walk.
    intros self'. apply embedded_drain.
  - apply keeps_bind; [apply keeps_attempt|intros; embedded_walk].
    unfold handle_command, change_mode, record_start, record_stop, request_remote_mode.
    destruct (parse_command line); embedded_walk.
  - apply keeps_mret.
  - apply keeps_mret.
  - apply keeps_bind; [|intros _; apply keeps_mret]. intros self Hs. unfold modify. cbn.
    by destruct (sim_server self).
Qed.

Lemma embedded_main_loop args route evs : keeps embedded true (main_loop args route evs).
Proof.
  induction evs as [|ev evs IH]; cbn [main_loop]; [apply keeps_mret|].
  apply keeps_bind; [apply embedded_on_event|]. intros []; [done|apply keeps_mret].
Qed.

Context {net : Network}.

Lemma on_server_ok {A} (server : ServerState M) (m : prog (ServerState M) ServerError A) self self' a :
  on_server server m self = (self', Ok a) →
  ∃ s', m server = (s', Ok a) ∧ self' = set_sim_server s' self.
Proof. unfold on_server, zoom. destruct (m server) as [s' [x|e|]]; intros [= <-]; simplify_eq. by exists s'. Qed.

Lemma set_mode_leaves m now s s' u :
  ServerRuntime.set_mode m now s = (s', Ok u) → take_active s' = take_active s.
Proof. intros H. pose proof (set_mode_active m now s) as Ha. by rewrite H in Ha. Qed.
Lemma stop_recording_leaves now s s' u : stop_recording now s = (s', Ok u) → take_active s' = false.
Proof. intros H. pose proof (stop_recording_active now s) as Ha. by rewrite H in Ha. Qed.
Lemma server_stop_leaves s s' u :
  server_stop s = (s', Ok u) → take_active s' = take_active s ∧ s'.(running) = false.
Proof.
  unfold server_stop. change ((get ≫= ?f) s) with (f s s). cbv beta. unfold_prog. intros H.
  destruct (runtime_resources s) as [[]|]; cbn in H; repeat (case_match; simplify_eq/=); simplify_eq; done.
Qed.

Lemma shut_down_outcome now self self' u :
  sim_ok self = true → embedded self = true → shut_down now self = (self', Ok u) →
  ∃ s, self'.(sim_server) = Some s ∧ take_active s = false ∧ s.(running) = false.
Proof.
  intros Hok He. unfold shut_down. change ((get ≫= ?f) self) with (f self self). cbv beta.
  unfold embedded in He. apply bool_decide_eq_true in He as [server Hs]. rewrite Hs.
  intros (self1 & [] & H1 & H2)%prog_bind_inv_ok.
  assert (∃ s1, sim_server self1 = Some s1 ∧ take_active s1 = false ∧ sim_state self1 = sim_state self)
    as (s1 & Hs1 & Ht1 & Hst1).
  { destruct (st_recording (sim_state self)) eqn:Hr.
    - apply prog_bind_inv_ok in H1 as (x & m & H1 & [= <-]).
      apply on_server_ok in H1 as (s1 & H1 & ->). exists s1. split_and!; [done| |done].
      by eapply stop_recording_leaves.
    - injection H1 as <-. exists server. split_and!; [done| |done]. revert Hok. unfold sim_ok.
      rewrite Hs, Hr. intros [_ Ht]%andb_true_iff. by destruct (take_active server). }
  change ((get ≫= ?f) self1) with (f self1 self1) in H2. cbv beta in H2. rewrite Hs1 in H2.
  apply prog_bind_inv_ok in H2 as (self2 & [] & H2 & H3).
  assert (∃ s2, sim_server self2 = Some s2 ∧ take_active s2 = false) as (s2 & Hs2 & Ht2).
  { destruct (st_streaming (sim_state self1)).
    - apply on_server_ok in H2 as (s2 & H2 & ->). exists s2. split; [done|].
      by rewrite (set_mode_leaves _ _ _ _ _ H2).
    - injection H2 as <-. by exists s1. }
  change ((get ≫= ?f) self2) with (f self2 self2) in H3. cbv beta in H3. rewrite Hs2 in H3.
  apply on_server_ok in H3 as (s3 & H3 & ->). exists s3. split; [done|].
  apply server_stop_leaves in H3 as [Ht3 Hr3]. by rewrite Ht3.
Qed.

(** The server of an embedded run when the loop starts. *)
Lemma bootstrap_active scene_id object_id mapping_id dial ops device output now s s' setup :
  Forall within_take ops → take_active s = false →
  bootstrap_embedded_simulation scene_id object_id mapping_id dial ops device output now s = (s', Ok setup) →
  take_active s' = false.
Proof.
  intros Hops Ht. unfold bootstrap_embedded_simulation.
  assert (∀ A (m : prog (ServerState M) ServerError A) s s' a,
    zoom (λ s, s) (λ s _, s) FromServer m s = (s', Ok a) → exec m s = s') as Hz.
  { intros A m t t' a. unfold zoom. by destruct (m t) as [? [| |]]; intros [= <-]. }
  intros (s1 & sc & H1 & Ha)%prog_bind_inv_ok. apply Hz in H1.
  apply prog_bind_inv_ok in Ha as (s2 & u1 & H2 & Hb). apply Hz in H2.
  apply prog_bind_inv_ok in Hb as (s3 & u2 & [= <-] & Hc).
  apply prog_bind_inv_ok in Hc as (s4 & client & [-> _]%lift_inv & Hd).
  apply prog_bind_inv_ok in Hd as (s5 & mid & H5 & [= <-]). apply Hz in H5.
  subst. change (take_active (exec_server (SCreate mapping_id
      (mkRequest device output scene_id object_id "position" None) now)
    (foldl (λ s op, exec_server op s) (exec_server (SSetActive sc)
      (exec_server (SLoadScene (demo_scene scene_id object_id)) s)) ops)) = false).
  by rewrite within_take_active, within_take_actives, !within_take_active.
Qed.

Lemma server_start_active s s' adv :
  server_start s = (s', Ok adv) → take_active s' = take_active s.
Proof.
  unfold server_start. change ((get ≫= ?f) s) with (f s s). cbv beta. unfold_prog. intros Hst.
  repeat (case_match; simplify_eq/=); done.
Qed.

(** C25. A simulator with its own server that is told to quit, or interrupted,
    and comes back without an error leaves no take open in that server and no
    server running, whatever happened in between. *)
Theorem simulator_shuts_down args course world files self :
  validate_args args = Ok () → 0 ≤ args.(arg_print_every) →
  Forall within_take course.(co_connecting) → Forall event_ok course.(co_events) →
  run_with args None course world files = (Some self, Ok false) →
  ∃ s, self.(sim_server) = Some s ∧ s.(active_recording) = None ∧ s.(running) = false.
Proof.
  intros Hv Hp Hops Hevs. unfold run_with. set (output := qualify_source_output _ _).
  match goal with |- match ?x with _ => _ end = _ → _ => destruct x as [server [setup|e|]] eqn:Hb end; [|done..].
  assert (take_active server = false) as Ht.
  { apply prog_bind_inv_ok in Hb as (s1 & adv & H1 & H2).
    eapply bootstrap_active; [done| |done]. unfold zoom in H1.
    destruct (server_start _) as [s2 [a| |]] eqn:Hst; [|done..]. injection H1 as <- _.
    by rewrite (server_start_active _ _ _ Hst). }
  clear Hb. unfold run_loop. destruct setup as [route [wire session_id]].
  change (mkSim _ _ _ _ _) with (started args (Some server) wire session_id (co_now course)).
  match goal with |- (let (_, _) := ?x in _) = _ → _ => destruct x as [self' r] eqn:Hr end. intros [= -> ->].
  apply prog_bind_inv_ok in Hr as (self1 & continue & H1 & H2).
  assert (sim_ok self1 = true) as Hok.
  { change self1 with (self1, @Ok SimError bool continue).1. rewrite <-H1. apply safe_main_loop; [done|].
    apply started_ok; [done..|]. cbn. revert Ht. unfold take_active.
    by destruct (active_recording server) as [a|]; [rewrite bool_decide_eq_true_2|]. }
  assert (embedded self1 = true) as Hemb.
  { change self1 with (self1, @Ok SimError bool continue).1. rewrite <-H1. by apply embedded_main_loop. }
  destruct continue; [done|]. apply prog_bind_inv_ok in H2 as (self2 & [] & H2 & [= <-]).
  destruct (shut_down_outcome _ _ _ _ Hok Hemb H2) as (s & Hs & Hact & Hrun).
  exists s. split_and!; [done| |done]. revert Hact. unfold take_active.
  by destruct (active_recording s) as [a|]; [rewrite bool_decide_eq_true_2|].
Qed.

(** ** Where it gets stuck *)

Lemma set_sim_server_same server self : self.(sim_server) = Some server → set_sim_server server self = self.
Proof. destruct self. cbn. by intros ->. Qed.

Lemma no_take_to_stop now s :
  s.(active_recording) = None → stop_recording now s = (s, Err (ERecording "no active recording")).
Proof. unfold stop_recording. change ((get ≫= ?f) s) with (f s s). cbv beta. by intros ->. Qed.

(** C33. When [record stop] fails, say because the file cannot be written, the
    take is lost but the simulator goes on believing in it: [record stop]
    keeps failing, [stop] and [record start] do nothing, and leaving fails
    before the server is stopped. *)
Theorem failed_record_stop_sticks self self' now e :
  record_stop now self = (self', Err e) →
  ∀ now' id path,
    handle_command RecordStop now' id self' = (self', Err (FromServer (ERecording "no active recording"))) ∧
    handle_command Stop now' id self' = (self', Ok true) ∧
    handle_command (RecordStart path) now' id self' = (self', Ok true) ∧
    shut_down now' self' = (self', Err (FromServer (ERecording "no active recording"))).
Proof.
  unfold record_stop at 1. change ((get ≫= ?f) self) with (f self self). cbv beta.
  destruct (sim_server self) as [server|] eqn:Hs; [|done].
  destruct (st_recording (sim_state self)) eqn:Hr; [|done]. cbn [negb]. intros He.
  assert (∃ s, sim_server self' = Some s ∧ active_recording s = None ∧ st_recording (sim_state self') = true)
    as (s & Hs' & Hact & Hr').
  { revert He. unfold on_server, zoom, on_state, modify. unfold mbind, prog_bind.
    pose proof (stop_recording_active now server) as Ha.
    destruct (stop_recording now server) as [s' [u|e'|]]; cbn in *; try done. intros [= <- _].
    exists s'. split_and!; [done| |done]. revert Ha. unfold take_active.
    by destruct (active_recording s') as [a|]; [rewrite bool_decide_eq_true_2|]. }
  intros now' id path.
  assert (∀ t, on_server (A:=RecordingManifest) s (stop_recording t) self'
    = (self', Err (FromServer (ERecording "no active recording")))) as Hstop.
  { intros t. unfold on_server, zoom. rewrite no_take_to_stop by done. cbn [map_err].
    by rewrite set_sim_server_same. }
  split_and!.
  - cbn [handle_command]. unfold record_stop. change ((get ≫= ?f) self') with (f self' self'). cbv beta.
    rewrite Hs', Hr'. cbn [negb]. by rewrite (prog_bind_err _ _ _ _ _ (Hstop now')).
  - cbn [handle_command]. change ((get ≫= ?f) self') with (f self' self'). cbv beta. by rewrite Hr'.
  - cbn [handle_command]. unfold record_start. change ((get ≫= ?f) self') with (f self' self'). cbv beta.
    by rewrite Hs', Hr'.
  - unfold shut_down. change ((get ≫= ?f) self') with (f self' self'). cbv beta. rewrite Hs', Hr'.
    rewrite prog_bind_assoc. by rewrite (prog_bind_err _ _ _ _ _ (Hstop now')).
Qed.

(** A reply that is still waiting in the stream spoils a change of mode: a
    client-only simulator that has just pinged takes the pong for the answer,
    reports an error, and leaves the answer itself unread, although the
    request was sent. *)
Theorem pending_pong_spoils_mode mode self rest :
  self.(sim_wire).(fates) = [] → self.(sim_wire).(inbox) = Incoming CPong :: rest →
  let r := request_remote_mode mode self in
  r.2 = Err (Message ("unexpected control reply to mode request: " +:+ debug_message CPong)) ∧
  r.1.(sim_wire).(outbox) = self.(sim_wire).(outbox) ++ [CSetMode mode] ∧
  r.1.(sim_wire).(inbox) = rest.
Proof.
  intros Hf Hi. unfold request_remote_mode, on_wire.
  assert (zoom sim_wire set_sim_wire Message (send (CSetMode mode)) self
    = (set_sim_wire (set_outbox (self.(sim_wire).(outbox) ++ [CSetMode mode]) self.(sim_wire)) self, Ok ())) as Hs.
  { unfold zoom. by rewrite send_delivered. }
  rewrite (prog_bind_ok _ _ _ _ _ Hs). unfold zoom. unfold mbind, prog_bind. cbn [sim_wire set_sim_wire].
  by rewrite (recv_incoming CPong rest).
Qed.
End props.

(** The clock of the samples is a single-precision float: from sample 2^24
    on (after 39 hours at 120 Hz) consecutive samples have the same time, so
    the simulated motion advances in jumps and, later, less and less. *)
Theorem sample_clock_stalls hz :
  sample_time 16777217 hz = sample_time 16777216 hz ∧ sample_time 33554433 hz = sample_time 33554434 hz ∧
  F32.of_Z 16777215 ≠ F32.of_Z 16777216.
Proof.
  assert (F32.of_Z 16777217 = F32.of_Z 16777216 ∧ F32.of_Z 33554433 = F32.of_Z 33554434) as [H1 H2]
    by (vm_compute; done).
  unfold sample_time. rewrite H1, H2. split; [done|]. split; [done|]. by vm_compute.
Qed.
