(* ===== verification/Display.v ===== *)
(** The texts of errors, as [thiserror] derives them from the [#[error(..)]]
    attributes, and the derived [Debug] texts of enumerations. The classes
    [ErrorText] and [ErrorChain], over which the components are modelled, have
    these texts as an instance.

    The [Debug] text of a string, which escapes by Unicode tables, is a
    parameter. *)

From S2P Require Import Prelude Text Float IndexMap Protocol Model Transform Runtime Media Codec.
From S2P Require Import Recording Server Discovery Simulate.

Local Open Scope Z_scope.

(** * Derived [Debug] *)

Definition debug_mode (m : Mode) : string :=
  match m with Idle => "Idle" | Live => "Live" | Protocol.Recording => "Recording" end.

Definition debug_features (l : list Feature) : string := "[" +:+ join ", " (show_feature <$> l) +:+ "]".

Definition debug_session_state (s : SessionState) : string :=
  match s with
  | Discovered => "Discovered" | TransportConnected => "TransportConnected"
  | HelloExchanged => "HelloExchanged" | Authenticated => "Authenticated"
  | Registered => "Registered" | SceneSynced => "SceneSynced" | Active => "Active" | Closed => "Closed"
  end.

Definition debug_code (c : RejectCode) : string :=
  match c with
  | UnsupportedProtocol => "UnsupportedProtocol" | VersionMismatch => "VersionMismatch"
  | NoCommonFeature => "NoCommonFeature" | AuthFailed => "AuthFailed" | RoleDenied => "RoleDenied"
  | CapacityExceeded => "CapacityExceeded" | ServerBusy => "ServerBusy"
  end.

Definition debug_version (v : ProtocolVersion) : string :=
  "ProtocolVersion { major: " +:+ show_Z v.(major) +:+ ", minor: " +:+ show_Z v.(minor) +:+ " }".

(** [str::fmt::Debug]. *)
Class StrDebug := debug_str : string → string.

Definition debug_rejected `{StrDebug} (r : RegisterRejected) : string :=
  "RegisterRejected { code: " +:+ debug_code r.(rj_code) +:+ ", reason: " +:+ debug_str r.(rj_reason) +:+ " }".

(** * [Display] of the errors *)

Section errors.
Context {fmt : UuidFormat} {str : StrDebug}.

Definition core_error_text (e : CoreError) : string :=
  match e with
  | SceneNotFound id => "scene not found: " +:+ uuid_to_string id
  | ObjectNotFound id => "object not found: " +:+ uuid_to_string id
  | AttributeNotFound name => "attribute not found: " +:+ name
  | MappingDenied reason => "mapping denied: " +:+ reason
  | MappingBlockedInRecording => "mapping changes are blocked in recording mode"
  | InvalidModeTransition from to =>
      "invalid mode transition: " +:+ debug_mode from +:+ " -> " +:+ debug_mode to
  | TypeMismatch expected got => "type mismatch, expected " +:+ expected +:+ " got " +:+ got
  | InvalidComponentMask reason => "invalid component mask: " +:+ reason
  | UnsupportedTransform reason => "unsupported mapping transform: " +:+ reason
  end.

Definition protocol_error_text (e : ProtocolError) : string :=
  match e with
  | InvalidTransition from to =>
      "invalid state transition: " +:+ debug_session_state from +:+ " -> " +:+ debug_session_state to
  | UnsupportedMajor server client =>
      "unsupported major protocol version: server=" +:+ debug_version server
      +:+ " client=" +:+ debug_version client
  | ClientTooNew server client =>
      "client minor version is newer than server: server=" +:+ debug_version server
      +:+ " client=" +:+ debug_version client
  end.

Definition media_error_display (e : MediaError) : string :=
  match e with
  | InvalidDescriptor reason => "invalid video descriptor: " +:+ reason
  | UnsupportedDescriptor reason => "unsupported video descriptor: " +:+ reason
  end.

(** [read_exact] at the end of a file has a text of its own. *)
Definition io_error_text (e : IoError) : string :=
  match e with UnexpectedEof => "failed to fill whole buffer" | OtherIo reason => reason end.

Definition recording_error_display (e : RecordingError) : string :=
  match e with
  | Io e => "io error: " +:+ io_error_text e
  | Encoding e => "encoding error: " +:+ e
  | InvalidFormat reason => "invalid format: " +:+ reason
  end.

Definition server_error_display (e : ServerError) : string :=
  match e with
  | ECore e => "core error: " +:+ core_error_text e
  | EProtocol e => "protocol error: " +:+ protocol_error_text e
  | ESessionNotFound d => "session not found: " +:+ uuid_to_string d
  | ERegisterRejected r => "registration rejected: " +:+ debug_rejected r
  | ERecording reason => "recording error: " +:+ reason
  | EVideo reason => "video error: " +:+ reason
  | EWebRtc reason => "webrtc error: " +:+ reason
  | EDiscovery reason => "discovery error: " +:+ reason
  | ESignaling reason => "signaling error: " +:+ reason
  | ERuntime reason => "runtime error: " +:+ reason
  end.

Definition display_texts : ErrorText := {|
  server_error_text := server_error_display;
  recording_error_text := recording_error_display;
  media_error_text := media_error_display |}.

(** [{err:#}]: the errors that have a source ([#[from]]) repeat it. *)
Definition display_chain : ErrorChain := λ e,
  match e with
  | ECore c => server_error_display e +:+ ": " +:+ core_error_text c
  | EProtocol p => server_error_display e +:+ ": " +:+ protocol_error_text p
  | _ => server_error_display e
  end.

(** The text of an error begins with its kind, so errors of different kinds
    have different texts. *)
Definition error_kind (e : ServerError) : nat :=
  match e with
  | ECore _ => 0 | EProtocol _ => 1 | ESessionNotFound _ => 2 | ERegisterRejected _ => 3
  | ERecording _ => 4 | EVideo _ => 5 | EWebRtc _ => 6 | EDiscovery _ => 7 | ESignaling _ => 8 | ERuntime _ => 9
  end.
Lemma error_texts_apart e e' :
  server_error_display e = server_error_display e' → error_kind e = error_kind e'.
Proof. destruct e, e'; cbn; intros [=]; done. Qed.
End errors.
