(* ===== verification/SimulateOutput.v ===== *)
(** [motionstage-cli/src/simulate.rs] with its output: the functions of
    [Simulate.v] once more, with every [sim_logln!] where the source has it.

    The console is what was printed so far ([Console.v]); a line stands for
    [[time] text], with the time that [chrono] formats left out. *)

From S2P Require Import Prelude Text Float FloatText IndexMap Protocol Model Transform Runtime Media Codec.
From S2P Require Import Recording WebRtc Transport Server ServerRuntime ServerVideo ServerLoop.
From S2P Require Import ServerSpec ServerSessions ServerPeer ServerControl.
From S2P Require Import Net Discovery Client Cli Console Simulate Display.

Local Open Scope Z_scope.

(** The derived [Debug] text of a command, which is only printed. *)
Class ConsoleText := debug_command : SimulationCommand → string.

Definition quoted (text : string) : string := backquote +:+ text +:+ backquote.

Section output.
Context {M : Type → Type} `{!IndexMap Uuid M} {fmt : UuidFormat} {crate : WebRtcCrate}
  {fs : FileSystem} {bm : Bincode RecordingManifest} {bk : Bincode (list RecordingMarker)}
  {bf : Bincode RecordedFrame} {texts : ErrorText} {chain : ErrorChain} {debug : DebugText}
  {dirs : Directories} {sine : Sine} {utext : @UuidText fmt} {ctext : ConsoleText}.
Abbreviation sim := (prog (Simulator M) SimError).
Abbreviation console := (prog (Simulator M * list Printed) SimError).

(** ** What is printed at once *)

Definition embedded_banner (host : string) (port : Z) (requested_bind : Net.SocketAddr) (route : DemoRoute)
    (session_id : Uuid) : list string :=
  ["motionstage simulator ready";
   "mode: embedded server + simulated QUIC client";
   "requested bind: " +:+ show_socket requested_bind;
   "server endpoint: " +:+ host +:+ ":" +:+ show_Z port;
   "note: --server-bind configures embedded server bind address (not remote connect)";
   "source device: " +:+ uuid_to_string route.(route_device);
   "session id: " +:+ uuid_to_string session_id] ++
  match route.(route_target) with
  | Some target =>
      ["mapping: " +:+ route.(route_output) +:+ " -> scene:" +:+ uuid_to_string target.(dt_scene_id)
       +:+ " object:" +:+ uuid_to_string target.(dt_object_id) +:+ " attr:" +:+ target.(dt_attribute_name)]
  | None => []
  end.

Definition client_only_banner (connect_target : ResolvedConnectTarget) (route : DemoRoute)
    (session_id : Uuid) : list string :=
  ["motionstage simulator ready"; "mode: client-only (external server)"] ++
  match connect_target with
  | Direct addr => ["target server: " +:+ show_socket addr]
  | Discovered service_name endpoint host_name protocol_major protocol_minor =>
      ("target server: " +:+ show_socket endpoint +:+ " (discovered as " +:+ quoted service_name
       +:+ ", host " +:+ quoted host_name +:+ ")") ::
      match protocol_major, protocol_minor with
      | Some major, Some minor => ["discovery protocol: " +:+ show_Z major +:+ "." +:+ show_Z minor]
      | _, _ => []
      end
  end ++
  ["source device: " +:+ uuid_to_string route.(route_device);
   "session id: " +:+ uuid_to_string session_id;
   "source output: " +:+ route.(route_output);
   "note: ensure server-side scene/mapping/mode are configured"].

Definition help_lines (mode : SimulationMode) : list string :=
  ["commands:";
   "  start                 begin sine-wave streaming";
   "  stop                  stop streaming";
   "  record start [path]   start CMTRK recording (embedded mode only)";
   "  record stop           stop active recording (embedded mode only)";
   "  amp <value>           set sine amplitude";
   "  freq <value>          set sine frequency in Hz";
   "  mode <idle|live|recording>  request runtime mode";
   "  status                print simulator state";
   "  help                  print this help";
   "  quit                  exit simulator"] ++
  match mode with
  | ClientOnly => ["note: " +:+ quoted "record" +:+ " commands are unavailable in client-only mode"]
  | Embedded => []
  end.

(** The value of the attribute that the samples drive, in a snapshot. *)
Definition mapped_value (snap : option (RuntimeSnapshot M)) (route : DemoRoute) : option AttributeValue :=
  target ← route.(route_target);
  s ← snap;
  scene ← im_get target.(dt_scene_id) s.(snap_scenes);
  object ← scene.(objects) !! target.(dt_object_id);
  attr ← object.(attributes) !! target.(dt_attribute_name);
  Some attr.(current_value).

(** [[{:.3}, {:.3}, {:.3}]]. *)
Definition mapped_value_line (v : option AttributeValue) : string :=
  match v with
  | Some (Vec3f v) => "  mapped value: [" +:+ join ", " (show_fixed 3 <$> vec_to_list v) +:+ "]"
  | _ => "  mapped value: <unavailable>"
  end.

Definition status_lines (server : option (ServerState M)) (route : DemoRoute) (state : SimulatorState) :
    list string :=
  ["status:";
   "  streaming: " +:+ show_bool state.(st_streaming);
   "  recording: " +:+ show_bool state.(st_recording);
   "  sample_index: " +:+ show_Z state.(st_sample_index);
   "  amplitude: " +:+ show_f32 state.(st_amplitude);
   "  frequency_hz: " +:+ show_f32 state.(st_frequency_hz);
   "  source_device: " +:+ uuid_to_string route.(route_device);
   "  source_output: " +:+ route.(route_output);
   "  last_error: " +:+ default "<none>" state.(st_last_error)] ++
  match server with
  | None =>
      ["  mode: <unavailable in client-only mode>"; "  metrics: <unavailable in client-only mode>"]
  | Some server =>
      let snap := server.(last_published_snapshot) in
      let m := server_metrics server in
      let mode := default Idle (snap ≫= snap_mode) in
      ["  mode: " +:+ debug_mode mode;
       "  metrics: datagrams=" +:+ show_Z m.(motion_datagrams) +:+ ", updates=" +:+ show_Z m.(motion_updates)
       +:+ ", ticks=" +:+ show_Z m.(scheduler_ticks) +:+ ", publishes=" +:+ show_Z m.(publish_ticks);
       mapped_value_line (mapped_value snap route)]
  end.

(** [sample {:>8} -> [{:>7.3}, {:>7.3}, {:>7.3}]]. *)
Definition sample_line (sample_index : Z) (value : vec f32 3) : string :=
  "sample " +:+ pad_left 8 (show_Z sample_index) +:+ " -> ["
  +:+ join ", " ((λ x, pad_left 7 (show_fixed 3 x)) <$> vec_to_list value) +:+ "]".

(** ** The handshake *)

Abbreviation wire_console := (prog (Wire * list Printed) string).

(** [connect_simulated_client] once the control stream is open. *)
Definition connect_simulated_client_out (verbose : bool) (source_device : Uuid) (output_attribute : string) :
    wire_console Uuid :=
  first ← quietly recv;
  match first with
  | CServerHello hello =>
      log_when verbose ("debug: received ServerHello proto=" +:+ show_Z hello.(sh_protocol_major) +:+ "."
        +:+ show_Z hello.(sh_protocol_minor) +:+ " features=" +:+ debug_features hello.(sh_features));;
      quietly (send (CClientHello (simulated_hello source_device output_attribute)));;
      log_when verbose "debug: sent ClientHello";;
      quietly (send (CRegisterRequest (mkRegisterRequest None None)));;
      log_when verbose "debug: sent RegisterRequest";;
      reply ← quietly recv;
      match reply with
      | CRegisterAccepted accepted =>
          log_when verbose ("debug: registration accepted, negotiated_features="
            +:+ debug_features accepted.(ra_negotiated_features));;
          log_when verbose ("debug: session_id=" +:+ uuid_to_string accepted.(ra_session_id));;
          mret accepted.(ra_session_id)
      | CRegisterRejected rejected =>
          throw ("simulated client registration rejected: code=" +:+ debug_reject_code rejected.(rj_code)
                 +:+ " reason=" +:+ rejected.(rj_reason))
      | other => throw ("expected registration result, got " +:+ debug_message other)
      end
  | other => throw ("expected ServerHello as first control message, got " +:+ debug_message other)
  end.

Definition when (b : bool) (texts : list string) : list Printed := if b then Logged <$> texts else [].

(** The connection attempt and the handshake, with what they print. *)
Definition dial_simulated_client_out (verbose : bool) (server_addr : string) (dial : Dial)
    (source_device : Uuid) (output_attribute : string) : list Printed * res SimError (Wire * Uuid) :=
  let dialing := when verbose ["debug: connecting QUIC peer to " +:+ server_addr;
    "debug: advertising MotionSource device=" +:+ uuid_to_string source_device
    +:+ " output_attribute=" +:+ output_attribute] in
  let established := when verbose ["debug: QUIC connection established"] in
  match dial with
  | EndpointFailed e | ConnectFailed e => (dialing, Err (Message e))
  | AcceptFailed e => (dialing ++ established, Err (Message e))
  | Dialed w =>
      match connect_simulated_client_out verbose source_device output_attribute
              (w, dialing ++ established ++ when verbose ["debug: control stream accepted"]) with
      | ((w', out), r) => (out, id ← map_err Message r; Ok (w', id))
      end
  end.

(** ** Samples and commands *)

Definition emit_sample_out (route : DemoRoute) (sample_hz now : Z) : console () :=
  self ← quietly get;
  let st := self.(sim_state) in
  let value := sine_vec3 st.(st_amplitude) st.(st_frequency_hz) (sample_time st.(st_sample_index) sample_hz) in
  quietly (on_wire (send_datagram (sample_datagram route st sample_hz now)));;
  (if st.(st_print_every) =? 0 then lift Panicked
   else log_when (st.(st_sample_index) mod st.(st_print_every) =? 0) (sample_line st.(st_sample_index) value));;
  quietly (on_state (λ st, set_sample_index (wrap64 (st.(st_sample_index) + 1)) st)).

Definition request_remote_mode_out (verbose : bool) (mode : Mode) : console Mode :=
  log_when verbose ("debug: sending ControlMessage::SetMode(" +:+ debug_mode mode +:+ ")");;
  quietly (on_wire (send (CSetMode mode)));;
  reply ← quietly (on_wire recv);
  match reply with
  | CModeState active_mode =>
      log_when verbose ("debug: received ControlMessage::ModeState(" +:+ debug_mode active_mode +:+ ")");;
      mret active_mode
  | CError code reason =>
      throw (Message ("remote mode request rejected: code=" +:+ debug_reject_code code +:+ " reason=" +:+ reason))
  | other => throw (Message ("unexpected control reply to mode request: " +:+ debug_message other))
  end.

(** A change of mode with what is said of it, for a server of its own and for
    a remote one. *)
Definition change_mode_out (verbose : bool) (mode : Mode) (now : Z) (here : string) (remote : Mode → string) :
    console () :=
  self ← quietly get;
  match self.(sim_server) with
  | Some server => quietly (on_server server (ServerRuntime.set_mode mode now));; logln here
  | None => active_mode ← request_remote_mode_out verbose mode; logln (remote active_mode)
  end.

Definition record_start_out (path : option string) (now : Z) (id : Uuid) : console bool :=
  self ← quietly get;
  match self.(sim_server) with
  | None => logln "record start is unavailable in client-only mode";; mret true
  | Some server =>
      if self.(sim_state).(st_recording) then logln "recording is already active";; mret true
      else
        (if negb self.(sim_state).(st_streaming)
         then quietly (on_server server (ServerRuntime.set_mode Live now));; quietly (on_state (set_streaming true))
         else mret ());;
        self ← quietly get;
        let path := default self.(sim_state).(st_default_record_path) path in
        lift (match create_parent path with Some e => Err (Message e) | None => Ok () end);;
        recording_id ← match self.(sim_server) with
          | Some server => quietly (on_server server (start_recording id path now))
          | None => mret id
          end;
        quietly (on_state (set_take true (Some path)));;
        logln ("recording started (id=" +:+ uuid_to_string recording_id +:+ ", path=" +:+ path +:+ ")");;
        mret true
  end.

Definition record_stop_out (now : Z) : console bool :=
  self ← quietly get;
  match self.(sim_server) with
  | None => logln "record stop is unavailable in client-only mode";; mret true
  | Some server =>
      if negb self.(sim_state).(st_recording) then logln "no active recording";; mret true
      else
        manifest ← quietly (on_server server (stop_recording now));
        logln ("recording stopped (id=" +:+ uuid_to_string manifest.(recording_id) +:+ ", frames="
               +:+ show_Z manifest.(frame_count) +:+ ", path="
               +:+ default "<unknown>" self.(sim_state).(st_active_record_path) +:+ ")");;
        quietly (on_state (set_take false None));;
        mret true
  end.

(** [handle_command]; [mode] says whether the simulator has its own server. *)
Definition handle_command_out (verbose : bool) (mode : SimulationMode) (route : DemoRoute)
    (command : SimulationCommand) (now : Z) (id : Uuid) : console bool :=
  log_when (verbose && match command with Empty => false | _ => true end)
    ("debug: command=" +:+ debug_command command);;
  match command with
  | Help => log_all (help_lines mode);; mret true
  | Start =>
      change_mode_out verbose Live now "streaming started (mode=Live)" (λ active_mode,
        "streaming started (client-only mode, remote mode=" +:+ debug_mode active_mode +:+ ")");;
      quietly (on_state (λ st, set_last_error None (set_streaming true st)));;
      mret true
  | Stop =>
      self ← quietly get;
      if self.(sim_state).(st_recording)
      then logln ("recording is active, run " +:+ quoted "record stop" +:+ " first");; mret true
      else
        quietly (on_state (set_streaming false));;
        change_mode_out verbose Idle now "streaming stopped (mode=Idle)" (λ active_mode,
          "streaming stopped (client-only mode, remote mode=" +:+ debug_mode active_mode +:+ ")");;
        mret true
  | Status =>
      self ← quietly get;
      log_all (status_lines self.(sim_server) route self.(sim_state));;
      mret true
  | RecordStart path => record_start_out path now id
  | RecordStop => record_stop_out now
  | Amp value =>
      (if acceptable_value value
       then quietly (on_state (λ st, set_wave value st.(st_frequency_hz) st));;
            logln ("amplitude set to " +:+ show_f32 value)
       else logln "amplitude must be a finite number >= 0");;
      mret true
  | Freq value =>
      (if acceptable_value value
       then quietly (on_state (λ st, set_wave st.(st_amplitude) value st));;
            logln ("frequency set to " +:+ show_f32 value)
       else logln "frequency must be a finite number >= 0");;
      mret true
  | SetMode requested =>
      change_mode_out verbose requested now ("mode set to " +:+ debug_mode requested) (λ active_mode,
        "remote mode set to " +:+ debug_mode active_mode);;
      mret true
  | Exit => logln "exiting simulator";; mret false
  | Empty => mret true
  | Unknown value => logln ("unknown command " +:+ quoted value +:+ " (run " +:+ quoted "help" +:+ ")");; mret true
  end.

(** [drain_control_messages], with a message for the error and, when verbose,
    one for everything else. *)
Fixpoint drain_messages_out (verbose : bool) (fuel : nat) : console () :=
  match fuel with
  | O => mret ()
  | S fuel =>
      r ← attempt (F:=SimError) (quietly (on_wire recv_within));
      match r with
      | Ok None => mret ()
      | Ok (Some (CError code reason)) =>
          let rendered := "control error code=" +:+ debug_reject_code code +:+ " reason=" +:+ reason in
          logln rendered;;
          quietly (on_state (set_last_error (Some rendered)));;
          drain_messages_out verbose fuel
      | Ok (Some message) =>
          log_when verbose ("debug: async control message " +:+
            match message with
            | CModeState active_mode => "ModeState(" +:+ debug_mode active_mode +:+ ")"
            | CPong => "Pong"
            | other => debug_message other
            end);;
          drain_messages_out verbose fuel
      | Err (Message e) => throw (Message ("recv failed: " +:+ e))
      | Err e => throw e
      | Panicked => lift Panicked
      end
  end.
Definition drain_control_messages_out (verbose : bool) : console () := λ c,
  drain_messages_out verbose (S (length c.1.(sim_wire).(inbox))) c.

(** ** The main loop *)

Definition stream_failed_out (message : string) : console () :=
  logln message;; quietly (stream_failed message).

Definition on_event_out (args : SimulateArgs) (mode : SimulationMode) (route : DemoRoute) (ev : SimEvent) :
    console bool :=
  match ev with
  | SampleTick now =>
      self ← quietly get;
      (if self.(sim_state).(st_streaming) then
         r ← attempt (emit_sample_out route args.(arg_sample_hz) now);
         match (r : res SimError ()) with
         | Err err =>
             stream_failed_out ("stream error: " +:+ show_error args.(arg_verbose) err);;
             log_when args.(arg_verbose) "note: streaming was stopped due to stream error"
         | _ => mret ()
         end
       else mret ());;
      mret true
  | ControlTick now =>
      self ← quietly get;
      (if 2000000000 <=? now - self.(sim_last_ping_at) then
         r ← attempt (quietly (on_wire (send CPing)));
         match (r : res SimError ()) with
         | Err err => stream_failed_out ("control heartbeat send failed: " +:+ show_error true err)
         | _ => log_when args.(arg_verbose) "debug: sent ControlMessage::Ping"
         end;;
         quietly (modify (λ self,
           mkSim self.(sim_server) self.(sim_wire) self.(sim_session_id) self.(sim_state) now))
       else mret ());;
      r ← attempt (drain_control_messages_out args.(arg_verbose));
      match (r : res SimError ()) with
      | Err err => stream_failed_out ("control channel error: " +:+ show_error true err)
      | _ => mret ()
      end;;
      mret true
  | LineRead None _ _ => mret false
  | LineRead (Some line) now id =>
      r ← attempt (handle_command_out args.(arg_verbose) mode route (parse_command line) now id);
      match (r : res SimError bool) with
      | Ok should_continue =>
          (if should_continue : bool then print Prompt else mret ());;
          mret should_continue
      | Err err =>
          let message := "command error: " +:+ show_error args.(arg_verbose) err in
          logln message;;
          quietly (on_state (set_last_error (Some message)));;
          print Prompt;;
          mret true
      | Panicked => lift Panicked
      end
  | Interrupt => logln "received ctrl+c, shutting down simulator";; mret false
  | Elsewhere ops => quietly (on_event args route (Elsewhere ops))
  end.

Fixpoint main_loop_out (args : SimulateArgs) (mode : SimulationMode) (route : DemoRoute)
    (evs : list SimEvent) : console bool :=
  match evs with
  | [] => mret true
  | ev :: evs =>
      continue ← on_event_out args mode route ev;
      if continue : bool then main_loop_out args mode route evs else mret false
  end.

Context {net : Network}.

Definition shut_down_out (now : Z) : console () :=
  self ← quietly get;
  match self.(sim_server) with
  | None => mret ()
  | Some server =>
      (if self.(sim_state).(st_recording)
       then manifest ← quietly (on_server server (stop_recording now));
            logln ("recording stopped (id=" +:+ uuid_to_string manifest.(recording_id) +:+ ", frames="
                   +:+ show_Z manifest.(frame_count) +:+ ")")
       else mret ());;
      self ← quietly get;
      match self.(sim_server) with
      | Some server =>
          if self.(sim_state).(st_streaming)
          then quietly (on_server server (ServerRuntime.set_mode Idle now)) else mret ()
      | None => mret ()
      end;;
      self ← quietly get;
      match self.(sim_server) with Some server => quietly (on_server server server_stop) | None => mret () end
  end.

(** What [run] prints between the banner and the loop. *)
Definition opening (args : SimulateArgs) (mode : SimulationMode) (route : DemoRoute) : list Printed :=
  (Logged <$> help_lines mode) ++
  when args.(arg_verbose)
    ["debug: verbose diagnostics enabled (sample_hz=" +:+ show_Z args.(arg_sample_hz) +:+ ", print_every="
     +:+ show_Z args.(arg_print_every) +:+ ", output_attribute=" +:+ route.(route_output)
     +:+ ", source_device=" +:+ uuid_to_string route.(route_device) +:+ ")"] ++
  [Prompt].

(** [run] once the client is connected; [printed] ends with the banner. *)
Definition run_loop_out (args : SimulateArgs) (mode : SimulationMode) (course : Course)
    (server : option (ServerState M)) (setup : DemoRoute * (Wire * Uuid)) (printed : list Printed) :
    list Printed * (option (Simulator M) * res SimError bool) :=
  let '(route, (wire, session_id)) := setup in
  let self := mkSim server wire session_id (SimulatorState_new args) course.(co_now) in
  match (continue ← main_loop_out args mode route course.(co_events);
         if continue : bool then mret true else shut_down_out course.(co_end);; mret false)
        (self, printed ++ opening args mode route) with
  | ((self, out), r) => (out, (Some self, r))
  end.

(** *** From the start *)

(** [Display] of the address a server is bound to; only the text of a version 6
    address has colons. *)
Definition show_bound (addr : Server.SocketAddr) : string :=
  (if string_forall (λ c, negb (bool_decide (c = char_of_Z 58))) addr.(Server.ip) then addr.(Server.ip)
   else "[" +:+ addr.(Server.ip) +:+ "]") +:+ ":" +:+ show_Z addr.(Server.port).

Definition bootstrap_embedded_simulation_out (verbose : bool) (scene_id object_id mapping_id : Uuid)
    (dial : Dial) (ops : list server_op) (source_device : Uuid) (source_output : string) (now : Z) :
    prog (ServerState M * list Printed) SimError (DemoRoute * (Wire * Uuid)) :=
  let server {A} (m : prog (ServerState M) ServerError A) :
      prog (ServerState M * list Printed) SimError A := quietly (zoom (λ s, s) (λ s _, s) FromServer m) in
  self ← quietly get;
  let server_addr := show_bound self.(config).(quic_bind_addr) in
  loaded_scene ← server (ServerRuntime.load_scene (demo_scene scene_id object_id));
  server (ServerRuntime.set_active_scene loaded_scene);;
  quietly (modify (λ s, foldl (λ s op, exec_server op s) s ops));;
  let '(printed, client) := dial_simulated_client_out verbose server_addr dial source_device source_output in
  modify (λ c, (c.1, c.2 ++ printed));;
  client ← lift client;
  server (ServerRuntime.create_mapping mapping_id
    (mkRequest source_device source_output scene_id object_id "position" None) now);;
  mret (mkRoute source_device source_output (Some (mkDemoTarget scene_id object_id "position")), client).

Definition run_with_out (args : SimulateArgs) (target : option ResolvedConnectTarget) (course : Course)
    (world : rtc_world) (files : gmap string (list byte)) :
    list Printed * (option (Simulator M) * res SimError bool) :=
  let source_device := default course.(co_device_id) args.(arg_device_id) in
  let source_output := qualify_source_output source_device (trim args.(arg_output_attribute)) in
  match target with
  | Some target =>
      let '(printed, client) := dial_simulated_client_out args.(arg_verbose)
        (show_socket (target_endpoint target)) course.(co_dial) source_device source_output in
      match client with
      | Ok (wire, session_id) =>
          let route := mkRoute source_device source_output None in
          run_loop_out args ClientOnly course None (route, (wire, session_id))
            (printed ++ (Logged <$> client_only_banner target route session_id))
      | Err e => (printed, (None, Err e))
      | Panicked => (printed, (None, Panicked))
      end
  | None =>
      match (advertisement ← quietly (zoom (λ s, s) (λ s _, s)
               (λ e, Message ("failed to start embedded simulator server at "
                 +:+ show_socket args.(arg_bind) +:+ ": " +:+ server_error_text e +:+ String (char_of_Z 10) ""
                 +:+ backquote +:+ "simulate" +:+ backquote +:+ " starts its own server; " +:+ backquote
                 +:+ "--server-bind" +:+ backquote +:+ " is the embedded server bind address."))
               server_start);
             setup ← bootstrap_embedded_simulation_out args.(arg_verbose) course.(co_scene_id)
               course.(co_object_id) course.(co_mapping_id) course.(co_dial) course.(co_connecting)
               source_device source_output course.(co_now);
             log_all (embedded_banner advertisement.(bind_host) advertisement.(bind_port) args.(arg_bind)
               setup.1 setup.2.2);;
             mret setup)
            (ServerHandle_new (embedded_config args) world files, []) with
      | ((server, printed), Ok setup) => run_loop_out args Embedded course (Some server) setup printed
      | ((_, printed), Err e) => (printed, (None, Err e))
      | ((_, printed), Panicked) => (printed, (None, Panicked))
      end
  end.

(** [run]: validation and discovery print nothing. *)
Definition run_out `{MdnsCrate} (args : SimulateArgs) (browse_start : Z)
    (rounds : list (Z * RecvOutcome ServiceEvent)) (network : mdns_world) (course : Course)
    (world : rtc_world) (files : gmap string (list byte)) :
    list Printed * (option (Simulator M) * res SimError bool) :=
  match validate_args args with
  | Ok _ =>
      match resolve_connect_target args browse_start rounds network with
      | (_, Ok target) => run_with_out args target course world files
      | (_, Err e) => ([], (None, Err (Message e)))
      | (_, Panicked) => ([], (None, Panicked))
      end
  | Err e => ([], (None, Err (Message e)))
  | Panicked => ([], (None, Panicked))
  end.
End output.
