(* ===== verification/SimulateOutputProps.v ===== *)
(** What the simulator prints: printing changes nothing, errors are printed
    before they are kept, and the status shows what the stage does. *)

From S2P Require Import Prelude Text Float FloatText IndexMap Protocol Model Transform Runtime Media Codec.
From S2P Require Import Recording WebRtc Transport Server ServerRuntime ServerVideo ServerLoop.
From S2P Require Import ServerSpec ServerSessions ServerPeer ServerControl ServerTake.
From S2P Require Import Net Discovery Client Cli Console Simulate SimulateProps Display SimulateOutput.

Local Open Scope Z_scope.

(** Walk through a printing program and its silent counterpart. *)
Ltac prints_over_step :=
  first
    [ apply prints_over_quietly | apply prints_over_mret | apply prints_over_throw | apply prints_over_lift
    | apply prints_over_logln | apply prints_over_log_when
    | apply prints_over_log_when_then | apply prints_over_log_all_then | apply prints_over_print_then
    | apply prints_over_attempt
    | apply prints_over_get_bind; intros ?
    | apply prints_over_mret_bind
    | apply prints_over_discard; [|intros ?]
    | apply prints_over_bind; [|intros ?]
    | apply prints_over_then_print; [solve [auto with motion]|]
    | progress case_match ].
Ltac prints_over := repeat prints_over_step.

Section props.
Context {M : Type → Type} `{!IndexMap Uuid M} {fmt : UuidFormat} {crate : WebRtcCrate}
  {fs : FileSystem} {bm : Bincode RecordingManifest} {bk : Bincode (list RecordingMarker)}
  {bf : Bincode RecordedFrame} {texts : ErrorText} {chain : ErrorChain} {debug : DebugText}
  {dirs : Directories} {sine : Sine} {utext : @UuidText fmt} {ctext : ConsoleText}.
Implicit Types self : Simulator M.

(** ** Printing changes nothing *)

Lemma connect_prints verbose device output :
  prints_over (connect_simulated_client_out verbose device output) (connect_simulated_client device output).
Proof. unfold connect_simulated_client_out, connect_simulated_client. prints_over. Qed.

Lemma emit_sample_prints route hz now :
  prints_over (emit_sample_out route hz now) (emit_sample (M:=M) route hz now).
Proof. unfold emit_sample_out, emit_sample. prints_over. Qed.

Lemma request_remote_mode_prints verbose mode :
  prints_over (request_remote_mode_out verbose mode) (request_remote_mode (M:=M) mode).
Proof. unfold request_remote_mode_out, request_remote_mode. prints_over. Qed.

Lemma change_mode_prints verbose mode now here remote :
  prints_over (change_mode_out verbose mode now here remote) (change_mode (M:=M) mode now).
Proof.
  unfold change_mode_out, change_mode. apply prints_over_get_bind. intros self.
  case_match; [prints_over|]. apply prints_over_bind; [apply request_remote_mode_prints|]. intros ?. prints_over.
Qed.

Lemma record_start_prints path now id :
  prints_over (record_start_out path now id) (record_start (M:=M) path now id).
Proof.
  unfold record_start_out, record_start. prints_over.
Qed.

Lemma record_stop_prints now : prints_over (record_stop_out now) (record_stop (M:=M) now).
Proof. unfold record_stop_out, record_stop. prints_over. Qed.

Lemma handle_command_prints verbose mode route command now id :
  prints_over (handle_command_out verbose mode route command now id) (handle_command (M:=M) command now id).
Proof.
  apply prints_over_log_when_then. destruct command; cbn [handle_command];
    eauto using record_start_prints, record_stop_prints; prints_over; apply change_mode_prints.
Qed.

Lemma drain_messages_prints verbose fuel :
  prints_over (drain_messages_out verbose fuel) (drain_messages (M:=M) fuel).
Proof.
  induction fuel as [|fuel IH]; cbn [drain_messages_out drain_messages]; [done|].
  apply prints_over_bind; [prints_over|]. intros [[m|]|[]|]; auto with motion.
  destruct m; try apply prints_over_log_when_then; try apply IH. prints_over. apply IH.
Qed.

Lemma on_event_prints args mode route ev :
  prints_over (on_event_out args mode route ev) (on_event args route ev).
Proof.
  destruct ev as [now|now|[line|] now id| |ops]; cbn [on_event_out]; auto with motion.
  - cbn [on_event]. apply prints_over_get_bind. intros self.
    apply prints_over_bind; [|intros; prints_over]. case_match; [|prints_over].
    apply prints_over_bind; [apply prints_over_attempt, emit_sample_prints|]. intros r.
    unfold stream_failed_out. prints_over.
  - cbn [on_event]. apply prints_over_get_bind. intros self. apply prints_over_bind.
    { case_match; [|prints_over]. apply prints_over_bind; [prints_over|]. intros r.
      apply prints_over_bind; [|intros; prints_over]. unfold stream_failed_out. prints_over. }
    intros _. apply prints_over_bind; [apply prints_over_attempt; intros c; apply drain_messages_prints|].
    intros r. unfold stream_failed_out. prints_over.
  - cbn [on_event]. apply prints_over_bind; [apply prints_over_attempt, handle_command_prints|].
    intros [b|e|]; prints_over.
  - prints_over.
Qed.

Lemma main_loop_prints args mode route evs :
  prints_over (main_loop_out args mode route evs) (main_loop args route evs).
Proof.
  induction evs as [|ev evs IH]; cbn [main_loop_out main_loop]; [done|].
  apply prints_over_bind; [apply on_event_prints|]. intros []; [apply IH|done].
Qed.

Context {net : Network}.

Lemma shut_down_prints now : prints_over (shut_down_out now) (shut_down (M:=M) now).
Proof. unfold shut_down_out, shut_down. prints_over. Qed.

Lemma dial_prints verbose addr dial device output :
  (dial_simulated_client_out verbose addr dial device output).2 = dial_simulated_client dial device output.
Proof.
  unfold dial_simulated_client_out, dial_simulated_client. destruct dial as [e|e|e|w]; try done.
  match goal with |- context [connect_simulated_client_out _ _ _ (w, ?l)] =>
    pose proof (connect_prints verbose device output (w, l)) as Hc;
    destruct (connect_simulated_client_out verbose device output (w, l)) as [[w' out] r] end.
  cbn in Hc. by rewrite Hc.
Qed.

Lemma run_loop_prints args mode course server setup printed :
  (run_loop_out args mode course server setup printed).2 = run_loop args course server setup.
Proof.
  unfold run_loop_out, run_loop. destruct setup as [route [wire session_id]].
  match goal with |- context [(?p ≫= ?f) (?self, ?out)] =>
    assert (prints_over (p ≫= f) (main_loop args route course.(co_events) ≫= λ continue : bool,
      if continue then mret true else shut_down course.(co_end);; mret false)) as Hp;
    [|specialize (Hp (self, out)); destruct ((p ≫= f) (self, out)) as [[self' out'] r]] end.
  - apply prints_over_bind; [apply main_loop_prints|]. intros []; [done|].
    apply prints_over_bind; [apply shut_down_prints|done].
  - cbn in Hp. cbn. by rewrite Hp.
Qed.

Lemma bootstrap_prints verbose scene_id object_id mapping_id dial ops device output now :
  prints_over (bootstrap_embedded_simulation_out verbose scene_id object_id mapping_id dial ops device output now)
    (bootstrap_embedded_simulation (M:=M) scene_id object_id mapping_id dial ops device output now).
Proof.
  unfold bootstrap_embedded_simulation_out, bootstrap_embedded_simulation. apply prints_over_read. intros s.
  apply prints_over_bind; [prints_over|]. intros loaded. apply prints_over_bind; [prints_over|]. intros _.
  apply prints_over_bind; [prints_over|]. intros _.
  pose proof (dial_prints verbose (show_bound s.(config).(quic_bind_addr)) dial device output) as Hd.
  destruct (dial_simulated_client_out _ _ _ _ _) as [printed client]. cbn in Hd. subst client.
  intros c. set (c' := (c.1, c.2 ++ printed)).
  match goal with |- ?m c.1 = ((exec (modify _;; ?p) c).1, _) =>
    assert (prints_over p m) as Hp; [|exact (Hp c')] end.
  prints_over.
Qed.

(** A simulator that prints ends like one that does not. *)
Lemma run_with_prints args target course world files :
  (run_with_out args target course world files).2 = run_with (M:=M) args target course world files.
Proof.
  unfold run_with_out, run_with. destruct target as [target|].
  - unfold bootstrap_remote_client. set (d := default _ _). set (o := qualify_source_output _ _).
    pose proof (dial_prints args.(arg_verbose) (show_socket (target_endpoint target)) course.(co_dial) d o) as Hd.
    destruct (dial_simulated_client_out _ _ _ _ _) as [printed client]. cbn in Hd. subst client.
    destruct (dial_simulated_client _ _ _) as [[w id]| |]; [|done..]. apply run_loop_prints.
  - set (d := default _ _). set (o := qualify_source_output _ _).
    match goal with |- context [(quietly ?start ≫= ?f) ?c] =>
      match goal with |- context [(start ≫= ?g) ?s] =>
        assert (prints_over (quietly start ≫= f) (start ≫= g)) as Hp;
        [|specialize (Hp c); change c.1 with s in Hp; rewrite Hp;
          destruct ((quietly start ≫= f) c) as [[server printed] r]] end end.
    + apply prints_over_bind; [prints_over|]. intros adv.
      apply prints_over_bind_ret, bootstrap_prints.
    + cbn. destruct r as [setup|e|]; [apply run_loop_prints|done..].
Qed.

Lemma run_prints `{MdnsCrate} args browse_start rounds network course world files :
  (run_out args browse_start rounds network course world files).2 =
    run (M:=M) args browse_start rounds network course world files.
Proof.
  unfold run_out, run. destruct (validate_args args); [|done..].
  destruct (resolve_connect_target _ _ _ _) as [? [target| |]]; [apply run_with_prints|done..].
Qed.

(** ** What is on the console *)

(** What the output speaks of. *)
Definition told (self : Simulator M) : option string * Z * Z * list MotionDatagram :=
  (self.(sim_state).(st_last_error), self.(sim_state).(st_print_every), self.(sim_state).(st_sample_index),
   self.(sim_wire).(sent_datagrams)).

(** The error that is kept has been printed, and so has every [every]-th sample
    that was sent, with its values. *)
Definition console_ok (every : Z) (c : Simulator M * list Printed) : Prop :=
  c.1.(sim_state).(st_print_every) = every ∧
  c.1.(sim_state).(st_sample_index) = wrap64 (Z.of_nat (length c.1.(sim_wire).(sent_datagrams))) ∧
  (∀ e, c.1.(sim_state).(st_last_error) = Some e → Logged e ∈ c.2) ∧
  ∀ i d, c.1.(sim_wire).(sent_datagrams) !! i = Some d → wrap64 (Z.of_nat i) mod every = 0 →
    ∃ output v, d.(md_updates) = [mkUpdateFrame output (FVec3f v)] ∧
      Logged (sample_line (wrap64 (Z.of_nat i)) v) ∈ c.2.

Section told.
Context (every : Z).
Abbreviation console := (prog (Simulator M * list Printed) SimError).

Definition tells {A} (p : console A) : Prop := ∀ c, console_ok every c → console_ok every (exec p c).

Lemma tells_bind {A B} (p : console A) (f : A → console B) : tells p → (∀ a, tells (f a)) → tells (p ≫= f).
Proof.
  intros Hp Hf c Hc. unfold mbind, prog_bind. specialize (Hp c Hc).
  destruct (p c) as [c' [a| |]]; [by apply Hf|done..].
Qed.
Lemma tells_get {A} (f : Simulator M → console A) : (∀ self, tells (f self)) → tells (quietly get ≫= f).
Proof. intros Hf [self out] Hc. by apply Hf. Qed.
Lemma tells_attempt {A} (p : console A) : tells p → tells (attempt (F:=SimError) p).
Proof. intros Hp c Hc. specialize (Hp c Hc). unfold attempt. by destruct (p c) as [? [| |]]. Qed.
Lemma tells_mret {A} (a : A) : tells (mret a).
Proof. by intros c. Qed.
Lemma tells_throw {A} e : tells (A:=A) (throw e).
Proof. by intros c. Qed.
Lemma tells_lift {A} (r : res SimError A) : tells (lift r).
Proof. by intros c. Qed.

Lemma console_ok_more self self' out l :
  told self' = told self → console_ok every (self, out) → console_ok every (self', out ++ l).
Proof.
  intros [= He Hp Hi Hd] (H1 & H2 & H3 & H4). unfold console_ok. cbn in *. rewrite He, Hp, Hi, Hd.
  split_and!; [done..| |].
  - intros e He'. apply elem_of_app. left. by apply H3.
  - intros i d Hl Hm. destruct (H4 i d Hl Hm) as (o & v & Hu & Hin). exists o, v.
    split; [done|]. apply elem_of_app. by left.
Qed.

Lemma tells_print x : tells (print x).
Proof. intros [self out] Hc. by apply (console_ok_more self). Qed.
Lemma tells_logln text : tells (logln text).
Proof. apply tells_print. Qed.
Lemma tells_log_all l : tells (log_all l).
Proof. intros [self out] Hc. by apply (console_ok_more self). Qed.
Lemma tells_log_when b text : tells (log_when b text).
Proof. destruct b; [apply tells_print|apply tells_mret]. Qed.

(** A silent part that the output does not speak of. *)
Lemma tells_quietly {A} (m : prog (Simulator M) SimError A) : (∀ v, keeps told v m) → tells (quietly m).
Proof.
  intros Hm [self out] Hc. specialize (Hm (told self) self eq_refl). unfold quietly. cbn.
  destruct (m self) as [self' r]. cbn in *. rewrite <-(app_nil_r out). by apply (console_ok_more self).
Qed.

(** An error that is printed, then kept. *)
Lemma tells_error f e :
  (∀ st, st_last_error (f st) = Some e ∧ st_print_every (f st) = st_print_every st ∧
         st_sample_index (f st) = st_sample_index st) →
  tells (logln e;; quietly (on_state f)).
Proof.
  intros Hf [self out] Hc. apply (console_ok_more self self out [Logged e]) in Hc as (H1 & H2 & H3 & H4); [|done].
  destruct (Hf self.(sim_state)) as (He & Hp & Hi).
  change (exec _ _) with (set_sim_state (f self.(sim_state)) self, out ++ [Logged e]).
  unfold console_ok. cbn in *. rewrite He, Hp, Hi. split_and!; [done..| |done]. intros e' [= <-]. apply elem_of_app. right. by apply list_elem_of_singleton.
Qed.
Lemma tells_error_then {A} f e (p : () → console A) :
  (∀ st, st_last_error (f st) = Some e ∧ st_print_every (f st) = st_print_every st ∧
         st_sample_index (f st) = st_sample_index st) →
  (∀ u, tells (p u)) → tells (logln e;; quietly (on_state f) ≫= p).
Proof.
  intros Hf Hp c Hc. pose proof (tells_bind (logln e;; quietly (on_state f)) p (tells_error f e Hf) Hp c Hc) as H.
  by rewrite prog_bind_assoc in H.
Qed.

(** An error that is forgotten. *)
Lemma tells_forget f :
  (∀ st, st_last_error (f st) = None ∧ st_print_every (f st) = st_print_every st ∧
         st_sample_index (f st) = st_sample_index st) →
  tells (quietly (on_state f)).
Proof.
  intros Hf [self out] (H1 & H2 & H3 & H4). destruct (Hf self.(sim_state)) as (He & Hp & Hi).
  change (exec _ _) with (set_sim_state (f self.(sim_state)) self, out).
  unfold console_ok. cbn in *. rewrite He, Hp, Hi. by split_and!.
Qed.

Lemma told_on_wire {A} (m : channel A) v :
  (∀ l, keeps sent_datagrams l m) → keeps told v (on_wire (M:=M) m).
Proof.
  intros Hm self <-. unfold on_wire, zoom, told. specialize (Hm _ self.(sim_wire) eq_refl).
  destruct (m (sim_wire self)) as [w r]. cbn in *. by rewrite Hm.
Qed.
Lemma told_on_server {A} server (m : prog (ServerState M) ServerError A) v : keeps told v (on_server server m).
Proof. intros self <-. unfold on_server, zoom. by destruct (m server). Qed.

Lemma sends_no_datagram m l : keeps sent_datagrams l (send m).
Proof.
  intros w <-. unfold send, next_fate. unfold_prog. destruct w as [? ? ? ? [|[e|] fates] ?]; done.
Qed.
Lemma recv_no_datagram l : keeps sent_datagrams l recv.
Proof. intros w <-. unfold recv. by destruct (next_arrival _ _). Qed.
Lemma recv_within_no_datagram l : keeps sent_datagrams l recv_within.
Proof.
  intros w Hw. unfold recv_within. assert (keeps sent_datagrams l (m ← recv; mret (Some m) : channel _)) as Hk.
  { apply keeps_bind; [apply recv_no_datagram|intros; apply keeps_mret]. }
  destruct (inbox w) as [|[] ?]; first [done|by apply Hk].
Qed.

Lemma told_on_state f v :
  (∀ st, st_last_error (f st) = st_last_error st ∧ st_print_every (f st) = st_print_every st ∧
         st_sample_index (f st) = st_sample_index st) →
  keeps told v (on_state (M:=M) f).
Proof.
  intros Hf self <-. destruct (Hf self.(sim_state)) as (He & Hp & Hi).
  change (exec (on_state f) self) with (set_sim_state (f self.(sim_state)) self).
  unfold told, set_sim_state. cbn. by rewrite He, Hp, Hi.
Qed.
Create HintDb console discriminated.
#[local] Hint Resolve tells_mret tells_throw tells_lift tells_print tells_logln tells_log_all tells_log_when
  told_on_server sends_no_datagram recv_no_datagram recv_within_no_datagram : console.

Ltac tells_step :=
  lazymatch goal with
  | |- tells (quietly get ≫= _) => apply tells_get; intros ?
  | |- tells (logln _;; quietly (on_state _) ≫= _) =>
      first [apply tells_error_then; [done|intros ?] | apply tells_bind; [|intros ?]]
  | |- tells (_ ≫= _) => apply tells_bind; [|intros ?]
  | |- tells (attempt _) => apply tells_attempt
  | |- tells (quietly (on_state (λ st, set_last_error None _))) => apply tells_forget; done
  | |- tells (quietly _) => apply tells_quietly; intros ?
  | |- tells (match ?x with _ => _ end) => destruct x eqn:?
  | |- keeps told _ (on_wire _) => apply told_on_wire; intros ?
  | |- keeps told _ (on_state _) => apply told_on_state; done
  end.
Ltac tells_walk := repeat first [solve [auto with console nocore] | tells_step].

Lemma tells_emit_sample route hz now : every ≠ 0 → tells (emit_sample_out route hz now).
Proof.
  intros Hev [self out] Hc. pose proof Hc as (H1 & H2 & H3 & H4). cbn in *.
  unfold emit_sample_out. change ((quietly get ≫= ?f) (self, out)) with (f self (self, out)). cbv beta zeta.
  set (st := self.(sim_state)) in *. set (d := sample_datagram route st hz now).
  set (v := sine_vec3 _ _ _).
  unfold on_wire, send_datagram, next_fate. unfold mbind at 1, prog_bind at 1. unfold quietly at 1. cbn [fst snd].
  unfold zoom. unfold_prog. rewrite H1, (proj2 (Z.eqb_neq _ _)) by done.
  assert (∀ l, console_ok every (set_sim_state (set_sample_index (wrap64 (st_sample_index st + 1)) st)
    (set_sim_wire (set_datagrams (self.(sim_wire).(sent_datagrams) ++ [d]) (set_fates l self.(sim_wire))) self),
    out ++ (if st_sample_index st mod every =? 0 then [Logged (sample_line (st_sample_index st) v)] else [])))
    as Hsent.
  { intros l. unfold console_ok. cbn. rewrite length_app, H2. cbn [length].
    split_and!; [done| | |].
    - unfold wrap64. rewrite Nat2Z.inj_add, Zplus_mod_idemp_l. done.
    - intros e He. apply elem_of_app. left. by apply H3.
    - intros i d' Hl Hm. apply lookup_app_Some in Hl as [Hl|[Hlen Hl]].
      + destruct (H4 i d' Hl Hm) as (o & v' & Hu & Hin). exists o, v'. split; [done|]. apply elem_of_app. by left.
      + apply list_lookup_singleton_Some in Hl as [Hi <-].
        assert (i = length (sent_datagrams (sim_wire self))) as -> by lia.
        exists route.(route_output), v. split; [done|]. apply elem_of_app. right. rewrite Hm.
        by apply list_elem_of_singleton. }
  destruct (fates (sim_wire self)) as [|[e|] l] eqn:Hf; cbn.
  - specialize (Hsent []).
    assert (set_fates [] (sim_wire self) = sim_wire self) as Hw by (destruct (sim_wire self); cbn in *; by subst).
    rewrite Hw in Hsent. destruct (st_sample_index st mod every =? 0); cbn in *; [done|].
    rewrite app_nil_r in Hsent. done.
  - by apply (console_ok_more self (set_sim_wire (set_fates l self.(sim_wire)) self) out []) in Hc;
      [rewrite app_nil_r in Hc|].
  - specialize (Hsent l). destruct (st_sample_index st mod every =? 0); cbn in *; [done|].
    rewrite app_nil_r in Hsent. done.
Qed.

Lemma tells_request_remote_mode verbose mode : tells (request_remote_mode_out verbose mode).
Proof. unfold request_remote_mode_out. tells_walk. Qed.
#[local] Hint Resolve tells_request_remote_mode : console.

Lemma tells_change_mode verbose mode now here remote : tells (change_mode_out verbose mode now here remote).
Proof. unfold change_mode_out. tells_walk. Qed.
#[local] Hint Resolve tells_change_mode : console.

Lemma tells_handle_command verbose mode route command now id :
  tells (handle_command_out verbose mode route command now id).
Proof.
  unfold handle_command_out. apply tells_bind; [auto with console|]. intros _.
  destruct command; unfold record_start_out, record_stop_out; tells_walk.
Qed.

Lemma tells_drain verbose fuel : tells (drain_messages_out verbose fuel).
Proof. induction fuel as [|fuel IH]; cbn [drain_messages_out]; tells_walk; apply IH. Qed.

Lemma tells_stream_failed message : tells (stream_failed_out message).
Proof. by apply tells_error. Qed.
#[local] Hint Resolve tells_stream_failed tells_handle_command : console.

Lemma tells_on_event args mode route ev : every ≠ 0 → tells (on_event_out args mode route ev).
Proof.
  intros Hev. pose proof (λ r hz now, tells_emit_sample r hz now Hev) as Hs.
  destruct ev as [now|now|[line|] now id| |ops]; cbn [on_event_out].
  - tells_walk.
  - apply tells_get. intros self. apply tells_bind.
    { tells_walk. by intros self' <-. }
    intros _. apply tells_bind; [|intros; tells_walk]. apply tells_attempt. intros c. apply tells_drain.
  - tells_walk.
  - tells_walk.
  - tells_walk.
  - apply tells_quietly. intros v. apply keeps_bind; [|intros; apply keeps_mret].
    apply keeps_modify. intros self. by destruct (sim_server self).
Qed.

Lemma tells_main_loop args mode route evs : every ≠ 0 → tells (main_loop_out args mode route evs).
Proof.
  intros Hev. induction evs as [|ev evs IH]; cbn [main_loop_out]; [auto with console|].
  apply tells_bind; [by apply tells_on_event|]. intros []; [done|auto with console].
Qed.

Lemma tells_shut_down now : tells (shut_down_out now).
Proof. unfold shut_down_out. tells_walk. Qed.
End told.

(** C26. The output of a simulator is faithful. Leaving the output out gives the
    simulator of [Simulate.v]; and after any run over a connection on which no
    sample was sent before, the error that the simulator keeps has been
    printed, and every [print_every]-th sample that was sent has been printed
    with the values that were sent. *)
Theorem console_spec args mode course server route wire session_id printed self :
  args.(arg_print_every) ≠ 0 → wire.(sent_datagrams) = [] →
  let r := run_loop_out args mode course server (route, (wire, session_id)) printed in
  r.2 = run_loop args course server (route, (wire, session_id)) ∧
  (r.2.1 = Some self →
   (∀ e, self.(sim_state).(st_last_error) = Some e → Logged e ∈ r.1) ∧
   ∀ i d, self.(sim_wire).(sent_datagrams) !! i = Some d → Z.of_nat i ≤ u64_max →
     (args.(arg_print_every) | Z.of_nat i) →
     ∃ output v, d.(md_updates) = [mkUpdateFrame output (FVec3f v)] ∧ Logged (sample_line (Z.of_nat i) v) ∈ r.1).
Proof.
  intros Hev Hw r. split; [apply run_loop_prints|]. subst r. unfold run_loop_out.
  match goal with |- context [(?p ≫= ?f) (?self, ?out)] =>
    assert (console_ok args.(arg_print_every) (exec (p ≫= f) (self, out))) as Hok;
    [|destruct ((p ≫= f) (self, out)) as [[self' out'] r]] end.
  { apply tells_bind.
    - by apply tells_main_loop.
    - intros []; [apply tells_mret|]. apply tells_bind; [apply tells_shut_down|intros; apply tells_mret].
    - unfold console_ok. cbn. rewrite Hw. split_and!; [done..|]. intros i d Hl. by rewrite lookup_nil in Hl. }
  cbn in *. intros [= ->].
  destruct Hok as (_ & _ & He & Hd). split; [exact He|]. intros i d Hl Hi Hm.
  assert (wrap64 (Z.of_nat i) = Z.of_nat i) as Hwrap.
  { unfold wrap64. apply Z.mod_small. unfold u64_max in Hi. lia. }
  rewrite <-Hwrap. eapply Hd; [done|]. rewrite Hwrap. by apply Z.mod_divide.
Qed.
End props.
