(* ===== verification/Main.v ===== *)
(** [motionstage-cli/src/main.rs]: the commands of the program. *)

From S2P Require Import Prelude Text Float IndexMap Protocol Model Transform Runtime Media Codec.
From S2P Require Import Recording WebRtc Transport Server ServerRuntime ServerVideo ServerLoop.
From S2P Require Import ServerSpec ServerSessions ServerPeer ServerControl ServerTake.
From S2P Require Import Net Discovery Client Cli Simulate SimulateProps.

Local Open Scope Z_scope.

Inductive Command := Serve | Simulate (args : SimulateArgs) | Version.

Section main.
Context {M : Type → Type} `{!IndexMap Uuid M} {fmt : UuidFormat} {crate : WebRtcCrate}
  {fs : FileSystem} {bm : Bincode RecordingManifest} {bk : Bincode (list RecordingMarker)}
  {bf : Bincode RecordedFrame} {texts : ErrorText} {chain : ErrorChain} {debug : DebugText}
  {dirs : Directories} {sine : Sine} {utext : @UuidText fmt} {net : Network} `{MdnsCrate}.

(** The arm of [Serve]. Until [ctrl_c] returns, the tasks of the server run:
    [ops]. *)
Definition serve (ops : list server_op) (ctrl_c : res string ()) : prog (ServerState M) SimError () :=
  let server {A} (m : prog (ServerState M) ServerError A) : prog (ServerState M) SimError A :=
    zoom (λ s, s) (λ s _, s) FromServer m in
  server server_start;;
  modify (λ s, foldl (λ s op, exec_server op s) s ops);;
  lift (map_err Message ctrl_c);;
  server server_stop.

(** [main] after the arguments are parsed: [true] while a simulator runs. *)
Definition main (command : Command) (ops : list server_op) (ctrl_c : res string ()) (browse_start : Z)
    (rounds : list (Z * RecvOutcome ServiceEvent)) (network : mdns_world) (course : Course)
    (world : rtc_world) (files : gmap string (list byte)) : res SimError bool :=
  match command with
  | Serve => (λ _, false) <$> (serve ops ctrl_c (ServerHandle_new ServerConfig_default world files)).2
  | Simulate args => (run (M:=M) args browse_start rounds network course world files).2
  | Version => Ok false
  end.

(** A server that was served and left without an error is stopped, and no take
    runs in it: nothing a client sends starts one. *)
Theorem serve_stops ops ctrl_c world files s' :
  Forall within_take ops →
  serve ops ctrl_c (ServerHandle_new ServerConfig_default world files) = (s', Ok ()) →
  s'.(running) = false ∧ s'.(active_recording) = None.
Proof.
  unfold serve. intros Hops H1.
  apply prog_bind_inv_ok in H1 as (s1 & adv & Hst & H1).
  apply prog_bind_inv_ok in H1 as (s2 & [] & [= <-] & H1).
  apply prog_bind_inv_ok in H1 as (s3 & [] & [-> _]%lift_inv & Hstop).
  unfold zoom in Hst, Hstop.
  destruct (server_start _) as [s1' r1] eqn:E1. injection Hst as -> Hr1.
  destruct r1 as [a| |]; [|discriminate Hr1..]. apply server_start_active in E1.
  destruct (server_stop _) as [s2' r2] eqn:E2. injection Hstop as -> Hr2.
  destruct r2 as [a2| |]; [|discriminate Hr2..]. apply server_stop_leaves in E2 as [Ht Hrun].
  split; [done|]. rewrite within_take_actives, E1 in Ht by done. unfold take_active in Ht.
  by destruct (active_recording s').
Qed.
End main.
