(* ===== verification/SwiftSdk.v ===== *)
(** [motionstage-sdk-swift/src/lib.rs]: the client behind a C interface.

    A [char] pointer that comes in is [None] when null, and otherwise the bytes
    up to the terminating zero; one that goes out likewise. The pointer to the
    client is [None] when null. The mutex around the client makes each call
    one step; a connection attempt is given what its dialling led to. *)

From S2P Require Import Prelude Text Float IndexMap Protocol Model Transform Runtime Media Codec.
From S2P Require Import Recording WebRtc Transport Server ServerRuntime ServerVideo ServerLoop.
From S2P Require Import ServerSpec ServerSessions ServerPeer ServerControl.
From S2P Require Import Net Client.

Local Open Scope Z_scope.

Definition STATUS_OK : Z := 0.
Definition STATUS_INVALID_ARGUMENT : Z := 1.
Definition STATUS_NOT_CONNECTED : Z := 2.
Definition STATUS_ALREADY_CONNECTED : Z := 3.
Definition STATUS_PROTOCOL : Z := 4.
Definition STATUS_TRANSPORT : Z := 5.
Definition STATUS_INTERNAL : Z := 6.

Definition MODE_IDLE : Z := 0.
Definition MODE_LIVE : Z := 1.
Definition MODE_RECORDING : Z := 2.

(** [ConnectedSession]: the connection and the session identifier. *)
Record ConnectedSession := mkConnected { cs_wire : Wire; cs_session_id : Uuid }.

(** [MotionStageSwiftClientInner]. *)
Record SwiftClient := mkSwift {
  sw_device_id : Uuid;
  sw_device_name : string;
  sw_source_output : string;
  sw_session : option ConnectedSession;
  sw_last_error : option string;
}.

Definition set_session (session : option ConnectedSession) (c : SwiftClient) : SwiftClient :=
  mkSwift c.(sw_device_id) c.(sw_device_name) c.(sw_source_output) session c.(sw_last_error).
Definition set_error (e : option string) (c : SwiftClient) : SwiftClient :=
  mkSwift c.(sw_device_id) c.(sw_device_name) c.(sw_source_output) c.(sw_session) e.

(** [clear_error] and [fail]. *)
Definition clear_error (c : SwiftClient) : SwiftClient := set_error None c.
Definition fail (status : Z) (message : string) (c : SwiftClient) : SwiftClient * Z :=
  (set_error (Some message) c, status).

Definition parse_mode (mode : Z) : res string Mode :=
  if mode =? MODE_IDLE then Ok Idle
  else if mode =? MODE_LIVE then Ok Live
  else if mode =? MODE_RECORDING then Ok Protocol.Recording
  else Err ("invalid mode value " +:+ String (char_of_Z 96) (show_Z mode +:+ String (char_of_Z 96) "")).

Definition active_mode_to_i32 (mode : Mode) : Z :=
  match mode with Idle => MODE_IDLE | Live => MODE_LIVE | Protocol.Recording => MODE_RECORDING end.

(** [read_required_cstr] and [read_optional_cstr]. *)
Definition read_required_cstr (input : option string) (field : string) : res string string :=
  match input with
  | None => Err (field +:+ " must not be null")
  | Some value =>
      if negb (is_utf8 value) then Err (field +:+ " must be valid UTF-8")
      else if is_empty (trim value) then Err (field +:+ " must not be empty")
      else Ok value
  end.
Definition read_optional_cstr (input : option string) (field : string) : res string (option string) :=
  match input with
  | None => Ok None
  | Some value =>
      if negb (is_utf8 value) then Err (field +:+ " must be valid UTF-8")
      else if is_empty (trim value) then Ok None
      else Ok (Some value)
  end.

(** [CString::new] refuses a text with a zero byte. *)
Definition into_c_string_ptr (value : string) : option string :=
  if string_forall (λ c, negb (code c =? 0)) value then Some value else None.

Section swift.
Context {fmt : UuidFormat} {utext : @UuidText fmt} {debug : DebugText}.

Definition qualify_source_output (device_id : Uuid) (output_attribute : string) : string :=
  let normalized := trim output_attribute in
  if is_empty normalized then normalized
  else
    let expected_prefix := device_prefix device_id in
    if starts_with expected_prefix normalized then normalized
    else
      let prefix := before (char_of_Z 46) normalized in
      if bool_decide (is_Some (uuid_parse prefix)) then normalized
      else expected_prefix +:+ normalized.

(** ** The client *)

(** The session is dropped; [finish] ends the sending half of its stream. *)
Definition disconnect (c : SwiftClient) : SwiftClient := set_session None c.

Definition swift_hello (c : SwiftClient) : ClientHello :=
  mkClientHello PROTOCOL_MAJOR PROTOCOL_MINOR c.(sw_device_id) c.(sw_device_name)
    [MotionSource; Operator] [Motion; MappingFeature; RecordingFeature] [c.(sw_source_output)].

(** A step on the connection under [map_err]. *)
Definition described {A} (what : string) (m : channel A) : channel A := λ w,
  match m w with (w', r) => (w', map_err (λ e, what +:+ ": " +:+ e) r) end.

(** [timeout(limit, control.recv())] with both of its errors. *)
Definition recv_or (timed_out failed : string) : channel ControlMessage :=
  m ← described failed recv_within;
  match m with Some m => mret m | None => throw timed_out end.

(** The exchange of [connect] on an open control stream. *)
Definition shake_hands (c : SwiftClient) (pairing_token api_key : option string) : channel Uuid :=
  first_message ← recv_or "timed out waiting for ServerHello" "failed to receive ServerHello";
  match first_message with
  | CServerHello _ =>
      described "failed to send ClientHello" (send (CClientHello (swift_hello c)));;
      described "failed to send RegisterRequest"
        (send (CRegisterRequest (mkRegisterRequest pairing_token api_key)));;
      register_message ← recv_or "timed out waiting for registration response"
        "failed to receive registration response";
      match register_message with
      | CRegisterAccepted accepted => mret accepted.(ra_session_id)
      | CRegisterRejected rejected =>
          throw ("registration rejected: code=" +:+ debug_reject_code rejected.(rj_code)
                 +:+ " reason=" +:+ rejected.(rj_reason))
      | other => throw ("expected registration result, got " +:+ debug_message other)
      end
  | other => throw ("expected ServerHello as first control message, got " +:+ debug_message other)
  end.

Definition connect (c : SwiftClient) (server_addr : string) (pairing_token api_key : option string)
    (dial : Dial) : SwiftClient * res string () :=
  match c.(sw_session) with
  | Some _ => (c, Err "client is already connected")
  | None =>
      match parse_socket server_addr with
      | None => (c, Err ("invalid server address " +:+ String (char_of_Z 96) (server_addr
                   +:+ String (char_of_Z 96) ": invalid socket address syntax")))
      | Some addr =>
          match dial with
          | EndpointFailed e => (c, Err ("failed to create QUIC client endpoint: " +:+ e))
          | ConnectFailed e =>
              (c, Err ("failed to connect QUIC client to " +:+ show_socket addr +:+ ": " +:+ e))
          | AcceptFailed e => (c, Err ("failed to accept control stream: " +:+ e))
          | Dialed w =>
              match shake_hands c pairing_token api_key w with
              | (w', Ok session_id) => (set_session (Some (mkConnected w' session_id)) c, Ok ())
              | (_, Err e) => (c, Err e)
              | (_, Panicked) => (c, Panicked)
              end
          end
      end
  end.

(** A step on the connection of the session. *)
Definition in_session {A} (c : SwiftClient) (m : channel A) : SwiftClient * res string A :=
  match c.(sw_session) with
  | None => (c, Err "client is not connected")
  | Some session =>
      match m session.(cs_wire) with
      | (w, r) => (set_session (Some (mkConnected w session.(cs_session_id))) c, r)
      end
  end.

Definition send_vec3f (c : SwiftClient) (x y z : f32) (now : Z) : SwiftClient * res string () :=
  in_session c (described "failed to send motion datagram" (send_datagram
    (mkDatagram c.(sw_device_id) now [mkUpdateFrame c.(sw_source_output) (FVec3f [# x; y; z])]))).

(** The loop until the reply: every other message is skipped. The fuel is the
    number of arrivals, and each round uses one up. *)
Fixpoint await_mode (fuel : nat) : channel Z :=
  match fuel with
  | O => throw "timed out waiting for mode response"
  | S fuel =>
      message ← recv_or "timed out waiting for mode response" "failed to receive mode response";
      match message with
      | CModeState active_mode => mret (active_mode_to_i32 active_mode)
      | CError code reason =>
          throw ("mode request rejected: code=" +:+ debug_reject_code code +:+ " reason=" +:+ reason)
      | _ => await_mode fuel
      end
  end.
Definition await_reply : channel Z := λ w, await_mode (S (length w.(inbox))) w.
Definition ask_mode (mode : Mode) : channel Z :=
  described "failed to send mode request" (send (CSetMode mode));;
  await_reply.

Definition set_mode (c : SwiftClient) (requested_mode : Z) : SwiftClient * res string Z :=
  match parse_mode requested_mode with
  | Ok mode => in_session c (ask_mode mode)
  | Err e => (c, Err e)
  | Panicked => (c, Panicked)
  end.

(** ** The C interface *)

(** [id] is the identifier [Uuid::now_v7()] draws; [runtime_ok] says whether
    the runtime could be built. *)
Definition motionstage_swift_client_new (device_name output_attribute : option string) (id : Uuid)
    (runtime_ok : bool) : option SwiftClient :=
  match read_required_cstr device_name "device_name", read_required_cstr output_attribute "output_attribute" with
  | Ok device_name, Ok output_attribute =>
      if runtime_ok
      then Some (mkSwift id device_name (qualify_source_output id output_attribute) None None)
      else None
  | _, _ => None
  end.

Definition motionstage_swift_client_free (client : option SwiftClient) : option SwiftClient := None.

(** [match result { Ok => clear_error .. }], the errors sorted by [classify].
    None of the calls panics. *)
Definition report {A} (classify : string → Z) (r : SwiftClient * res string A) : SwiftClient * Z :=
  match r with
  | (c, Ok _) => (clear_error c, STATUS_OK)
  | (c, Err err) => fail (classify err) err c
  | (c, Panicked) => (c, STATUS_INTERNAL)
  end.

Definition classify_connect (err : string) : Z :=
  if contains "already connected" err then STATUS_ALREADY_CONNECTED
  else if contains "invalid server address" err then STATUS_INVALID_ARGUMENT
  else if contains "registration rejected" err then STATUS_PROTOCOL
  else STATUS_TRANSPORT.
Definition classify_send (err : string) : Z :=
  if contains "not connected" err then STATUS_NOT_CONNECTED else STATUS_TRANSPORT.
Definition classify_mode (err : string) : Z :=
  if contains "invalid mode value" err then STATUS_INVALID_ARGUMENT
  else if contains "not connected" err then STATUS_NOT_CONNECTED
  else if contains "rejected" err then STATUS_PROTOCOL
  else STATUS_TRANSPORT.

(** A call that locks the client: [None] is the null pointer. *)
Definition locked (client : option SwiftClient) (f : SwiftClient → SwiftClient * Z) : option SwiftClient * Z :=
  match client with
  | None => (None, STATUS_INVALID_ARGUMENT)
  | Some c => match f c with (c', status) => (Some c', status) end
  end.

Definition motionstage_swift_client_connect (client : option SwiftClient)
    (server_addr pairing_token api_key : option string) (dial : Dial) : option SwiftClient * Z :=
  match read_required_cstr server_addr "server_addr", read_optional_cstr pairing_token "pairing_token",
        read_optional_cstr api_key "api_key" with
  | Ok server_addr, Ok pairing_token, Ok api_key =>
      locked client (λ c, report classify_connect (connect c server_addr pairing_token api_key dial))
  | _, _, _ => (client, STATUS_INVALID_ARGUMENT)
  end.

Definition motionstage_swift_client_disconnect (client : option SwiftClient) : option SwiftClient * Z :=
  locked client (λ c, (clear_error (disconnect c), STATUS_OK)).

Definition motionstage_swift_client_send_vec3f (client : option SwiftClient) (x y z : f32) (now : Z) :
    option SwiftClient * Z :=
  locked client (λ c, report classify_send (send_vec3f c x y z now)).

(** The out parameter is [None] for a null pointer; what was written to it is
    the last component. *)
Definition motionstage_swift_client_set_mode (client : option SwiftClient) (requested_mode : Z)
    (active_mode_out : option Z) : option SwiftClient * Z * option Z :=
  match active_mode_out, client with
  | None, _ => (client, STATUS_INVALID_ARGUMENT, None)
  | _, None => (None, STATUS_INVALID_ARGUMENT, active_mode_out)
  | Some _, Some c =>
      let r := set_mode c requested_mode in
      match report classify_mode r with
      | (c', status) => (Some c', status, match r.2 with Ok m => Some m | _ => active_mode_out end)
      end
  end.

Definition motionstage_swift_client_session_id (client : option SwiftClient) :
    option SwiftClient * option string :=
  match client with
  | None => (None, None)
  | Some c =>
      match c.(sw_session) with
      | Some session => (client, into_c_string_ptr (uuid_to_string session.(cs_session_id)))
      | None => (Some (set_error (Some "client is not connected") c), None)
      end
  end.

Definition motionstage_swift_client_device_id (client : option SwiftClient) : option string :=
  match client with None => None | Some c => into_c_string_ptr (uuid_to_string c.(sw_device_id)) end.

Definition motionstage_swift_client_last_error (client : option SwiftClient) : option string :=
  match client with None => None | Some c => c.(sw_last_error) ≫= into_c_string_ptr end.
End swift.
