(* ===== verification/SwiftProps.v ===== *)
(** The Swift client against the server, and the states its interface goes
    through. *)

From S2P Require Import Prelude Text Float IndexMap Protocol Model Transform Runtime RuntimeSpec Media Codec.
From S2P Require Import Recording WebRtc Transport Server ServerRuntime ServerVideo ServerLoop.
From S2P Require Import ServerSpec ServerSessions ServerPeer ServerControl.
From S2P Require Import Net Client SwiftSdk.

Local Open Scope Z_scope.

Section props.
Context {M : Type → Type} `{!IndexMap Uuid M} {fmt : UuidFormat} {crate : WebRtcCrate}
  {fs : FileSystem} {bm : Bincode RecordingManifest} {bk : Bincode (list RecordingMarker)}
  {bf : Bincode RecordedFrame} {texts : ErrorText} {debug : DebugText}.
Implicit Types s : ServerState M.
Implicit Types c : SwiftClient.

(** ** Connecting *)

Definition rejection (rej : RegisterRejected) : string :=
  "registration rejected: code=" +:+ debug_reject_code rej.(rj_code) +:+ " reason=" +:+ rej.(rj_reason).

Lemma shake_after_hello c token key hello replies closed :
  shake_hands c token key (wire_of (CServerHello hello :: replies) closed) =
  (register_message ← recv_or "timed out waiting for registration response"
     "failed to receive registration response";
   match register_message with
   | CRegisterAccepted accepted => mret accepted.(ra_session_id)
   | CRegisterRejected rejected => throw (rejection rejected)
   | other => throw ("expected registration result, got " +:+ debug_message other)
   end) (set_outbox [CClientHello (swift_hello c); CRegisterRequest (mkRegisterRequest token key)]
           (wire_of replies closed)).
Proof. reflexivity. Qed.

Lemma connect_dialed c addr token key w :
  c.(sw_session) = None → parse_socket addr ≠ None →
  report classify_connect (connect c addr token key (Dialed w)) =
  match shake_hands c token key w with
  | (w', Ok id) => (clear_error (set_session (Some (mkConnected w' id)) c), STATUS_OK)
  | (_, Err e) => fail (classify_connect e) e c
  | (_, Panicked) => (c, STATUS_INTERNAL)
  end.
Proof.
  intros Hs Hp. unfold connect. rewrite Hs. destruct (parse_socket addr); [|done].
  by destruct (shake_hands _ _ _ w) as [w' [id|e|]].
Qed.

Lemma classify_rejection rej :
  contains "already connected" (rejection rej) = false →
  contains "invalid server address" (rejection rej) = false →
  classify_connect (rejection rej) = STATUS_PROTOCOL.
Proof.
  intros Ha Hi. unfold classify_connect. rewrite Ha, Hi. unfold rejection.
  change ("registration rejected: code=" +:+ ?x) with ("registration rejected" +:+ (": code=" +:+ x)).
  by rewrite contains_prefix.
Qed.

(** C28. The Swift client connects exactly when the server lets it in: then the
    call returns OK, the session has the identifier of the one the server made
    active, and the server received the hello and the registration with the
    secrets the caller gave. A rejection leaves the client without a session
    and with the server's reason as its last error, reported as a protocol
    error unless that reason has other words the status is chosen by; a server
    that does not answer the hello shows as a transport error text. *)
Theorem swift_client_connects now id closed c addr token key s :
  keyed s → c.(sw_session) = None → parse_socket addr ≠ None →
  let hello := swift_hello c in
  let req := mkRegisterRequest token key in
  let server := meet now id hello req s in
  let r := report classify_connect (connect c addr token key (Dialed (wire_of server.1.(sent) closed))) in
  (acceptable s hello req →
     r.2 = STATUS_OK ∧ server.1.(ServerLoop.server) = joined s hello id ∧
     ∃ w, r.1.(sw_session) = Some (mkConnected w id) ∧ w.(outbox) = [CClientHello hello; CRegisterRequest req]) ∧
  (greetable s hello → ¬ acceptable s hello req →
     r.2 ≠ STATUS_OK ∧ r.1.(sw_session) = None ∧ ∃ rej, r.1.(sw_last_error) = Some (rejection rej) ∧
     last server.1.(sent) = Some (CRegisterRejected rej) ∧
     (contains "already connected" (rejection rej) = false →
      contains "invalid server address" (rejection rej) = false → r.2 = STATUS_PROTOCOL)) ∧
  (¬ greetable s hello →
     r.2 ≠ STATUS_OK ∧ r.1.(sw_session) = None ∧
     r.1.(sw_last_error) = Some ("failed to receive registration response: " +:+ closed)).
Proof.
  intros Hk Hs Hp hello req server r. subst r. rewrite connect_dialed by done. subst server.
  assert (∀ e, classify_connect e ≠ STATUS_OK) as Hne by (intros e; unfold classify_connect; by repeat case_match).
  destruct (server_replies now id hello req s Hk)
    as [[Ha Hm]|[(Hg & Ha & rej & s' & Hm)|(Hg & e & s' & Hm)]];
    rewrite Hm; cbn [fst sent ServerLoop.server]; unfold welcome; rewrite shake_after_hello.
  - split_and!; [|by intros _ Hn|intros Hn; exfalso; apply Hn, Ha].
    intros _. split_and!; [done|done|]. eexists. by split.
  - split_and!; [done| |done]. intros _ _. cbn. split_and!; [apply Hne|done|].
    exists rej. split_and!; [done|done|]. apply classify_rejection.
  - split_and!; [by intros [? _]|done|]. intros _. cbn. split_and!; [apply Hne|done|done].
Qed.

(** ** Changing the mode *)

(** The numbers of the modes and the modes determine each other. *)
Lemma mode_numbers_iff z m : parse_mode z = Ok m ↔ z = active_mode_to_i32 m.
Proof.
  unfold parse_mode, active_mode_to_i32, MODE_IDLE, MODE_LIVE, MODE_RECORDING. split.
  - repeat case_match; intros; simplify_eq; try done; by apply Z.eqb_eq.
  - intros ->. by destruct m.
Qed.

(** Messages the client skips while it waits for the answer. *)
Definition skipped (m : ControlMessage) : bool :=
  match m with CModeState _ | CError _ _ => false | _ => true end.

Lemma recv_or_incoming a b m l w : w.(inbox) = Incoming m :: l → recv_or a b w = (set_inbox l w, Ok m).
Proof.
  intros Hw. unfold recv_or, described. unfold mbind, prog_bind. by rewrite (recv_within_incoming m l).
Qed.

Lemma await_skips noise fuel l w :
  Forall (λ m, skipped m = true) noise → w.(inbox) = (Incoming <$> noise) ++ l →
  await_mode (length noise + fuel) w = await_mode fuel (set_inbox l w).
Proof.
  intros Hn. revert w. induction Hn as [|m noise Hm _ IH]; intros w Hw.
  - cbn in *. rewrite <-Hw. by destruct w.
  - cbn [length Nat.add await_mode]. cbn in Hw.
    rewrite (prog_bind_ok _ _ _ _ _ (recv_or_incoming _ _ _ _ _ Hw)).
    destruct m; try done; by rewrite IH.
Qed.

(** The answer decides, whatever was still in the stream before it. *)
Lemma await_reply_spec noise reply l w :
  Forall (λ m, skipped m = true) noise → skipped reply = false →
  w.(inbox) = (Incoming <$> noise) ++ Incoming reply :: l →
  await_reply w = (set_inbox l w,
    match reply with
    | CModeState active_mode => Ok (active_mode_to_i32 active_mode)
    | CError code reason =>
        Err ("mode request rejected: code=" +:+ debug_reject_code code +:+ " reason=" +:+ reason)
    | _ => Err ""
    end).
Proof.
  intros Hn Hr Hw. unfold await_reply. rewrite Hw, length_app, length_fmap. cbn [length].
  replace (S (length noise + S (length l)))%nat with (length noise + S (S (length l)))%nat by lia.
  rewrite (await_skips noise _ (Incoming reply :: l)) by done. cbn [await_mode].
  rewrite (prog_bind_ok _ _ _ _ _ (recv_or_incoming _ _ reply l (set_inbox (Incoming reply :: l) w) eq_refl)).
  by destruct reply.
Qed.

(** [set_mode] of the server: it switches when the transition is valid, and
    otherwise fails and changes nothing. *)
Lemma ask_mode_outcome m now s :
  if mode_transition_valid s.(runtime).(Runtime.mode) m
  then ∃ s', ServerRuntime.set_mode m now s = (s', Ok ()) ∧ s'.(runtime).(Runtime.mode) = m
  else ∃ e, ServerRuntime.set_mode m now s = (s, Err e).
Proof.
  unfold ServerRuntime.set_mode, on_runtime, on_writer. unfold_prog. unfold zoom.
  rewrite set_mode_outcome. destruct (mode_transition_valid _ _); cbn; [by eauto|].
  eexists. by destruct s.
Qed.

Lemma mode_transition_refl m : mode_transition_valid m m = true.
Proof. by destruct m. Qed.

(** The server answers a change of mode with one message. *)
Lemma on_set_mode hello now m (conn : Conn M) :
  Operator ∈ hello.(ch_roles) → conn.(link) = [] →
  let r := on_control hello now (CSetMode m) conn in
  if mode_transition_valid conn.(server).(runtime).(Runtime.mode) m
  then ∃ s', s'.(runtime).(Runtime.mode) = m ∧
     r = (mkConn s' (conn.(sent) ++ [CModeState m]) [], Ok Continue)
  else ∃ code reason, r = (mkConn conn.(server) (conn.(sent) ++ [CError code reason]) [], Ok Continue).
Proof.
  intros Hop Hl r. subst r. cbn [on_control]. unfold operator_only. rewrite decide_False by tauto. unfold answer.
  pose proof (ask_mode_outcome m now conn.(ServerLoop.server)) as Hask.
  destruct (mode_transition_valid _ _).
  - destruct Hask as (s' & Hs & Hm). exists s'. split; [done|].
    rewrite (prog_bind_ok _ _ _ _ _ (attempt_ok _ _ _ _ (call_ok _ _ _ _ Hs))). cbv beta iota.
    unfold set_server. change ((get ≫= ?f) ?x) with (f x x). unfold get, control_send, mret, prog_ret.
    unfold mbind, prog_bind. cbn [link sent ServerLoop.server]. by rewrite Hl, Hm.
  - destruct Hask as (e & Hs). exists (map_server_error_to_reject e), (server_error_text e).
    rewrite (prog_bind_ok _ _ _ _ _ (attempt_err _ _ _ _ (call_err _ _ _ _ Hs))). cbv beta iota.
    unfold reply_failure, reply_error, send_protocol_error, set_server.
    unfold control_send, attempt, mret, prog_ret. unfold mbind, prog_bind. cbn [link sent]. by rewrite Hl.
Qed.

(** C29. A change of mode that a client with the operator role requests through
    the Swift interface ends with the server's answer, provided that the
    request and the answer are delivered, whatever unrelated messages are in
    the stream before it: either the server switched, then the call returns
    OK and writes the requested mode; or the server refused the transition,
    is left as it was, in another mode, and the call fails and leaves the out
    parameter alone. *)
Theorem swift_mode_agrees m now hello (conn : Conn M) c session noise rest :
  Operator ∈ hello.(ch_roles) → conn.(link) = [] →
  c.(sw_session) = Some session → session.(cs_wire).(fates) = [] →
  Forall (λ m, skipped m = true) noise →
  let after := on_control hello now (CSetMode m) conn in
  ∃ reply, after.1.(sent) = conn.(sent) ++ [reply] ∧
    (session.(cs_wire).(inbox) = (Incoming <$> noise) ++ Incoming reply :: rest →
     let '(_, status, out) := motionstage_swift_client_set_mode (Some c) (active_mode_to_i32 m) (Some 7) in
     (status = STATUS_OK ∧ out = Some (active_mode_to_i32 m) ∧
        after.1.(server).(runtime).(Runtime.mode) = m) ∨
     (status ≠ STATUS_OK ∧ out = Some 7 ∧ after.1.(server) = conn.(server) ∧
        conn.(server).(runtime).(Runtime.mode) ≠ m ∧ ∃ code reason, reply = CError code reason)).
Proof.
  intros Hop Hl Hs Hf Hn after. subst after.
  assert (∀ reply, skipped reply = false →
    session.(cs_wire).(inbox) = (Incoming <$> noise) ++ Incoming reply :: rest →
    set_mode c (active_mode_to_i32 m) =
    (set_session (Some (mkConnected (set_inbox rest (set_outbox (session.(cs_wire).(outbox) ++ [CSetMode m])
       session.(cs_wire))) session.(cs_session_id))) c,
     match reply with
     | CModeState active_mode => Ok (active_mode_to_i32 active_mode)
     | CError code reason =>
         Err ("mode request rejected: code=" +:+ debug_reject_code code +:+ " reason=" +:+ reason)
     | _ => Err ""
     end)) as Hset.
  { intros reply Hr Hi. unfold set_mode. rewrite (proj2 (mode_numbers_iff _ m) eq_refl).
    unfold in_session. rewrite Hs. unfold ask_mode, described, mbind, prog_bind.
    rewrite send_delivered by done. cbn [map_err]. by rewrite (await_reply_spec noise reply rest). }
  assert (∀ e, classify_mode e ≠ STATUS_OK) as Hne by (intros e; unfold classify_mode; by repeat case_match).
  pose proof (on_set_mode hello now m conn Hop Hl) as Ho. cbv zeta in Ho.
  destruct (mode_transition_valid _ _) eqn:Hvalid.
  - destruct Ho as (s' & Hm & ->). eexists. split; [reflexivity|].
    intros Hi. unfold motionstage_swift_client_set_mode. rewrite (Hset (CModeState m) eq_refl Hi). by left.
  - destruct Ho as (code & reason & ->). eexists. split; [reflexivity|].
    intros Hi. unfold motionstage_swift_client_set_mode. rewrite (Hset (CError code reason) eq_refl Hi).
    right. cbn. split_and!; [apply Hne|done|done| |by eauto].
    intros Hm. by rewrite Hm, mode_transition_refl in Hvalid.
Qed.

(** ** The interface as a state machine *)
Context {utext : @UuidText fmt}.

(** The calls that return a status, on a client that is not null. *)
Inductive SwiftCall :=
  | DoConnect (server_addr pairing_token api_key : option string) (dial : Dial)
  | DoDisconnect
  | DoSend (x y z : f32) (now : Z)
  | DoSetMode (requested_mode : Z) (active_mode_out : option Z).

Definition do_call (k : SwiftCall) (client : option SwiftClient) : option SwiftClient * Z :=
  match k with
  | DoConnect addr token key dial => motionstage_swift_client_connect client addr token key dial
  | DoDisconnect => motionstage_swift_client_disconnect client
  | DoSend x y z now => motionstage_swift_client_send_vec3f client x y z now
  | DoSetMode mode out => (motionstage_swift_client_set_mode client mode out).1
  end.

(** What an application may rely on: only whether there is a session. *)
Inductive protocol : bool → SwiftCall → Z → bool → Prop :=
  | connect_succeeds a t k d : protocol false (DoConnect a t k d) STATUS_OK true
  | connect_fails a t k d status : status ≠ STATUS_OK → status ≠ STATUS_NOT_CONNECTED →
      protocol false (DoConnect a t k d) status false
  | connect_again a t k d status : status = STATUS_ALREADY_CONNECTED ∨ status = STATUS_INVALID_ARGUMENT →
      protocol true (DoConnect a t k d) status true
  | disconnect_always b : protocol b DoDisconnect STATUS_OK false
  | send_needs_session x y z now : protocol false (DoSend x y z now) STATUS_NOT_CONNECTED false
  | send_in_session x y z now status : status ≠ STATUS_INVALID_ARGUMENT → protocol true (DoSend x y z now) status true
  | mode_needs_session m o status : status = STATUS_NOT_CONNECTED ∨ status = STATUS_INVALID_ARGUMENT →
      protocol false (DoSetMode m o) status false
  | mode_in_session m o status : protocol true (DoSetMode m o) status true.

Definition connected (c : SwiftClient) : bool := bool_decide (is_Some c.(sw_session)).

Lemma in_session_keeps {A} c (m : channel A) :
  connected (in_session c m).1 = connected c ∧
  (connected c = false → (in_session c m).2 = Err "client is not connected").
Proof.
  unfold in_session, connected. destruct (sw_session c) as [session|] eqn:Hs; cbn.
  - by destruct (m (cs_wire session)) as [w r].
  - by rewrite Hs.
Qed.

Lemma report_spec {A} classify (r : SwiftClient * res string A) :
  connected (report classify r).1 = connected r.1 ∧
  (report classify r).2 = match r.2 with Ok _ => STATUS_OK | Err e => classify e | Panicked => STATUS_INTERNAL end.
Proof. by destruct r as [c [a|e|]]. Qed.

Lemma protocol_send c x y z now :
  let r := report classify_send (send_vec3f c x y z now) in
  protocol (connected c) (DoSend x y z now) r.2 (connected r.1).
Proof.
  cbn zeta. destruct (report_spec classify_send (send_vec3f c x y z now)) as [-> ->].
  unfold send_vec3f. set (m := described _ _). destruct (in_session_keeps c m) as [-> Hd].
  destruct (connected c) eqn:Hc.
  - constructor. destruct ((in_session c m).2) as [u|e|]; try done.
    unfold classify_send. by case_match.
  - rewrite (Hd eq_refl). by constructor.
Qed.

Lemma protocol_mode c mode out :
  let r := report classify_mode (set_mode c mode) in
  protocol (connected c) (DoSetMode mode out) r.2 (connected r.1).
Proof.
  cbn zeta. destruct (report_spec classify_mode (set_mode c mode)) as [-> ->]. unfold set_mode.
  destruct (parse_mode mode) as [m|e|] eqn:Hp; cbn [fst snd].
  - destruct (in_session_keeps c (ask_mode m)) as [-> Hd]. destruct (connected c) eqn:Hc; [constructor|].
    rewrite (Hd eq_refl). constructor. by left.
  - destruct (connected c); constructor. right. revert Hp. unfold parse_mode. repeat case_match; try done.
    intros [= <-]. unfold classify_mode.
    change ("invalid mode value " +:+ ?x) with ("invalid mode value" +:+ (" " +:+ x)).
    by rewrite contains_prefix.
  - revert Hp. unfold parse_mode. by repeat case_match.
Qed.

Lemma classify_connect_range e : classify_connect e ≠ STATUS_OK ∧ classify_connect e ≠ STATUS_NOT_CONNECTED.
Proof. unfold classify_connect. by repeat case_match. Qed.

Lemma protocol_connect c addr token key dial a t k :
  let r := report classify_connect (connect c addr token key dial) in
  protocol (connected c) (DoConnect a t k dial) r.2 (connected r.1).
Proof.
  cbn zeta. destruct (report_spec classify_connect (connect c addr token key dial)) as [-> ->].
  unfold connect, connected at 1. destruct (sw_session c) as [session|] eqn:Hs.
  { cbn [fst snd]. unfold connected. rewrite Hs. constructor. by left. }
  assert (∀ e, protocol false (DoConnect a t k dial) (classify_connect e) (connected c)) as Hfail.
  { intros e. unfold connected. rewrite Hs. constructor; apply classify_connect_range. }
  rewrite (bool_decide_eq_false_2 (is_Some None)) by (intros []; done).
  destruct (parse_socket addr) as [ad|]; [|apply Hfail].
  destruct dial as [e|e|e|w]; try apply Hfail.
  destruct (shake_hands c token key w) as [w' [id|e|]]; cbn [fst snd]; [constructor|apply Hfail|].
  unfold connected. rewrite Hs. by constructor.
Qed.

Lemma protocol_step k c :
  ∃ c', (do_call k (Some c)).1 = Some c' ∧ protocol (connected c) k (do_call k (Some c)).2 (connected c').
Proof.
  destruct k as [addr token key dial| |x y z now|mode out]; cbn [do_call].
  - unfold motionstage_swift_client_connect.
    destruct (read_required_cstr addr "server_addr") as [a|e|],
      (read_optional_cstr token "pairing_token") as [t|e'|], (read_optional_cstr key "api_key") as [k|e''|]; cbn [locked];
      try (exists c; split; [done|]; destruct (connected c); by constructor; auto).
    pose proof (protocol_connect c a t k dial addr token key) as Hp. cbn zeta in Hp.
    destruct (report _ _) as [c' status]. by exists c'.
  - eexists. split; [done|]. constructor.
  - unfold motionstage_swift_client_send_vec3f, locked. pose proof (protocol_send c x y z now) as Hp. cbn zeta in Hp.
    destruct (report _ _) as [c' status]. by exists c'.
  - unfold motionstage_swift_client_set_mode. destruct out as [o|].
    + pose proof (protocol_mode c mode (Some o)) as Hp. cbn zeta in Hp. destruct (report _ _) as [c' status].
      by exists c'.
    + exists c. split; [done|]. destruct (connected c); constructor. by right.
Qed.

(** A run of calls: their statuses. *)
Fixpoint do_calls (ks : list SwiftCall) (client : option SwiftClient) : list Z :=
  match ks with
  | [] => []
  | k :: ks => let '(client, status) := do_call k client in status :: do_calls ks client
  end.

(** Runs of the state machine. *)
Inductive protocol_run : bool → list SwiftCall → list Z → Prop :=
  | run_nil b : protocol_run b [] []
  | run_cons b k status b' ks statuses :
      protocol b k status b' → protocol_run b' ks statuses → protocol_run b (k :: ks) (status :: statuses).

(** C21. The C interface refines a state machine with two states: from the
    creation of a client on, whatever the application calls and the network
    does, the statuses are those of a run of [protocol] that starts without a
    session. Only a successful connect opens a session and only disconnect
    ends it; without one, sending and changing the mode fail as not connected
    or as an invalid argument; with one, connecting again is refused. *)
Theorem swift_refines_protocol device_name output id c ks :
  motionstage_swift_client_new device_name output id true = Some c →
  protocol_run false ks (do_calls ks (Some c)).
Proof.
  intros Hnew. assert (connected c = false) as <-.
  { revert Hnew. unfold motionstage_swift_client_new. repeat case_match; try done. by intros [= <-]. }
  clear Hnew. revert c. induction ks as [|k ks IH]; intros c; [constructor|]. cbn [do_calls].
  destruct (protocol_step k c) as (c' & Hc & Hp). destruct (do_call k (Some c)) as [client status].
  cbn in Hc, Hp. subst client. by econstructor.
Qed.
End props.
