(* ===== verification/ClientFixtures.v ===== *)
(** The clients at concrete inputs: a simulator with its own server from start
    to end, the Swift client and the server it talks to, and the runs that
    show where the clients leave gaps. *)

From S2P Require Import Prelude Text Float IndexMap Protocol Model Transform Runtime RuntimeSpec.
From S2P Require Import Fixtures Media Codec Recording RecordingProps WebRtc Transport Server.
From S2P Require Import ServerRuntime ServerVideo ServerLoop ServerSpec ServerSessions ServerPeer.
From S2P Require Import ServerControl ServerTake ServerFixtures.
From S2P Require Import Net Discovery Client Cli Simulate SimulateProps SwiftSdk SwiftProps.

Local Open Scope Z_scope.

#[export] Existing Instance decimal_text.
#[export] Instance plain_debug : DebugText :=
  {| debug_message _ := "message"; debug_reject_code _ := "RoleDenied" |}.
#[export] Instance plain_chain : ErrorChain := λ _, "server error: cause".
#[export] Instance all_parents : Directories := λ _, None.
(** Any function in the place of the sine. *)
#[export] Instance flat_sine : Sine := λ _, F32.one.
#[export] Instance local_network : Network :=
  {| net_bind a := Ok a; net_advertise _ := Ok (); net_join := Ok (); net_withdraw := Ok () |}.

Lemma empty_keyed cfg w files : keyed (ServerHandle_new (M:=Fixtures.imap) cfg w files).
Proof. intros d x Hx. change (sessions _) with (∅ : gmap Uuid SessionInfo) in Hx. by rewrite lookup_empty in Hx. Qed.

(** ** A simulator with its own server *)

Definition demo_args : SimulateArgs :=
  mkArgs "motionstage-sim" (SocketAddr_new (V4 127 0 0 1) 0) None 5 "demo.position" (Some 7%N) 120
    F32.one (F32.of_Z 2) "recordings/demo.cmtrk" 30 false false.
Definition demo_output : string := "7.demo.position".
Definition demo_hello : ClientHello := simulated_hello 7%N demo_output.
Definition demo_server : srv := ServerHandle_new (embedded_config demo_args) () ∅.

(** The session calls of the handshake, in the tasks of the server. *)
Definition demo_connecting : list server_op :=
  [SDiscovered 7%N "simulated-motion-device"; STransport 7%N; SHello demo_hello; SAuthenticate 7%N;
   SRegister 107%N 7%N no_secret; SSceneSynced 7%N; SActivate 7%N].

(** Stream, take one sample that the server receives, record, quit. The format
    in the place of [bincode] stores no mappings, so the mapping is removed
    before the take. *)
Definition demo_datagram : MotionDatagram :=
  mkDatagram 7%N 20 [mkUpdateFrame demo_output (FVec3f [# F32.one; F32.one; F32.one])].
Definition demo_events : list SimEvent :=
  [LineRead (Some "start") 10 0%N; SampleTick 20; Elsewhere [SDatagram demo_datagram; SRemove 3%N 25];
   LineRead (Some "record start takes/one.cmtrk") 30 9%N; LineRead (Some "stop") 35 0%N;
   LineRead (Some "record stop") 40 0%N; LineRead (Some "quit") 50 0%N].
Definition demo_course (evs : list SimEvent) : Course :=
  mkCourse 0%N 1%N 2%N 3%N (Dialed (wire_of (welcome demo_server demo_hello 107%N) "closed"))
    demo_connecting 5 evs 60.
Abbreviation demo_run evs := (run_with (M:=Fixtures.imap) (crate:=no_webrtc) demo_args None (demo_course evs) () ∅).

(** The sample went out once, it reached the attribute of the stage, and the
    take is on the disk. *)
Example demo_moves_stage :
  match demo_run demo_events with
  | (Some self, Ok false) =>
      self.(sim_wire).(sent_datagrams) = [demo_datagram] ∧
      (λ s, target_attribute_value s.(runtime) 1%N 2%N "position") <$> self.(sim_server)
        = Some (Ok (Vec3f [# F32.one; F32.one; F32.one])) ∧
      (λ s, bool_decide (is_Some (s.(disk) !! "takes/one.cmtrk"))) <$> self.(sim_server) = Some true
  | _ => False
  end.
Proof. vm_compute. by repeat split. Qed.

Lemma demo_valid : validate_args demo_args = Ok () ∧ 0 ≤ demo_args.(arg_print_every).
Proof. by split. Qed.

Lemma simulator_invariant_witness :
  let self := exec (main_loop demo_args (mkRoute 7%N demo_output None) demo_events)
    (started demo_args (Some demo_server) (wire_of [] "closed") 107%N 5) in
  acceptable_value self.(sim_state).(st_amplitude) = true.
Proof.
  refine (proj1 (simulator_invariant demo_args (mkRoute 7%N demo_output None) (Some demo_server)
    (wire_of [] "closed") 107%N 5 demo_events _ _ _ _)).
  - reflexivity.
  - done.
  - reflexivity.
  - repeat constructor.
Defined.

Lemma simulator_shuts_down_witness : ∃ self s,
  demo_run demo_events = (Some self, Ok false) ∧
  self.(sim_server) = Some s ∧ s.(active_recording) = None ∧ s.(running) = false.
Proof.
  assert (match demo_run demo_events with (Some _, Ok false) => true | _ => false end = true) as Hb
    by (vm_compute; reflexivity).
  destruct (demo_run demo_events) as [[self|] [[]| |]] eqn:Hr; try discriminate Hb.
  assert (Forall within_take (co_connecting (demo_course demo_events))) as Hc by (cbn; repeat constructor).
  assert (Forall event_ok (co_events (demo_course demo_events))) as He by (cbn; repeat constructor).
  destruct (simulator_shuts_down _ _ _ _ _ (eq_refl : validate_args demo_args = Ok ()) (proj2 demo_valid)
    Hc He Hr) as (s & Hs & Ha & Hrun).
  exists self, s. exact (conj eq_refl (conj Hs (conj Ha Hrun))).
Defined.

Lemma simulated_client_connects_witness :
  (connect_simulated_client 7%N demo_output
     (wire_of (meet 5 107%N demo_hello no_secret demo_server).1.(sent) "closed")).1.(outbox)
  = [CClientHello demo_hello; CRegisterRequest no_secret].
Proof.
  refine (proj1 (simulated_client_connects 5 107%N 7%N demo_output "closed" demo_server _)).
  apply empty_keyed.
Defined.

(** The three ends of a connection attempt: let in, rejected because the name
    is taken, and left without an answer by a server without room. *)
Example simulated_client_ends :
  let try (s : srv) := (connect_simulated_client 7%N demo_output
    (wire_of (meet 5 107%N demo_hello no_secret s).1.(sent) "closed")).2 in
  try demo_server = Ok 107%N ∧
  try (run_server (join 8%N "simulated-motion-device") (open_server 2))
    = Err ("simulated client registration rejected: code=RoleDenied reason="
           +:+ "device name 'simulated-motion-device' is already active") ∧
  try (open_server 0) = Err "closed".
Proof. vm_compute. done. Qed.

(** ** A take that cannot be written *)

Definition unwritable : Simulator Fixtures.imap :=
  exec (main_loop demo_args (mkRoute 7%N demo_output None)
    [LineRead (Some "start") 10 0%N; LineRead (Some "record start") 30 9%N])
    (started demo_args (Some staged) (wire_of [] "closed") 107%N 5).

Lemma failed_record_stop_sticks_witness :
  ∃ self' e, record_stop (fs:=read_only_disk) 40 unwritable = (self', Err e) ∧
    (handle_command (fs:=read_only_disk) Stop 50 0%N self').2 = Ok true.
Proof.
  assert (is_ok (record_stop (fs:=read_only_disk) 40 unwritable).2 = false
    ∧ (record_stop (fs:=read_only_disk) 40 unwritable).2 ≠ Panicked) as [Hok Hp].
  { split; [vm_compute; reflexivity|]. intros He. vm_compute in He. discriminate He. }
  destruct (record_stop (fs:=read_only_disk) 40 unwritable) as [self' [b|e|]] eqn:Hr;
    [discriminate Hok| |by destruct Hp].
  exists self', e. split; [exact eq_refl|].
  destruct (failed_record_stop_sticks (fs:=read_only_disk) unwritable self' 40 e Hr 50 0%N None)
    as (_ & Hstop & _).
  rewrite Hstop. reflexivity.
Defined.

(** ** A client without a server of its own *)

Definition remote : Simulator Fixtures.imap :=
  mkSim None (wire_of [CPong; CModeState Live] "closed") 107%N (SimulatorState_new demo_args) 5.

Lemma pending_pong_spoils_mode_witness :
  (request_remote_mode Live remote).2
    = Err (Message "unexpected control reply to mode request: message") ∧
  (request_remote_mode Live remote).1.(sim_wire).(inbox) = [Incoming (CModeState Live)].
Proof.
  destruct (pending_pong_spoils_mode Live remote [Incoming (CModeState Live)] eq_refl eq_refl) as (He & _ & Hi).
  split; [exact He|exact Hi].
Defined.

(** ** The Swift client *)

Definition swift_ipad : SwiftClient := mkSwift 7%N "ipad" "7.pose" None None.
Definition swift_addr : string := "127.0.0.1:7788".

Lemma swift_client_connects_witness : ∃ w,
  (report classify_connect (connect swift_ipad swift_addr None None
     (Dialed (wire_of (meet 5 107%N (swift_hello swift_ipad) no_secret (open_server 2)).1.(sent) "closed")))).1
  .(sw_session) = Some (mkConnected w 107%N).
Proof.
  destruct (swift_client_connects 5 107%N "closed" swift_ipad swift_addr None None (open_server 2))
    as (Hin & _ & _); [apply empty_keyed|reflexivity|discriminate| ].
  destruct Hin as (_ & _ & w & Hw & _); [|exists w; exact Hw].
  destruct (handshake_sound (M:=Fixtures.imap) 5 107%N (Ok (CClientHello (swift_hello swift_ipad)))
    (Ok (CRegisterRequest no_secret)) (connected_to (open_server 2))
    (meet 5 107%N (swift_hello swift_ipad) no_secret (open_server 2)).1 (swift_hello swift_ipad))
    as (req & _ & Hreq & Ha & _); [apply empty_keyed| |by injection Hreq as <-].
  apply run_result. vm_compute. reflexivity.
Defined.

(** The server with the client in as an operator, and the pong of a ping that
    was not read yet. *)
Definition swift_conn : conn := connected_to (run_server (demo_connecting) (open_server 2)).
Definition swift_waiting : ConnectedSession := mkConnected (wire_of [CPong; CModeState Live] "closed") 107%N.

Lemma swift_mode_agrees_witness :
  let '(_, status, out) :=
    motionstage_swift_client_set_mode (Some (set_session (Some swift_waiting) swift_ipad)) MODE_LIVE (Some 7) in
  status = STATUS_OK ∧ out = Some MODE_LIVE.
Proof.
  destruct (swift_mode_agrees Live 50 demo_hello swift_conn (set_session (Some swift_waiting) swift_ipad)
    swift_waiting [CPong] []) as (reply & Hr & Hset).
  - by apply (bool_decide_unpack _).
  - reflexivity.
  - reflexivity.
  - reflexivity.
  - by repeat constructor.
  - vm_compute in Hr. injection Hr as <-. specialize (Hset eq_refl). vm_compute in Hset |- *.
    destruct Hset as [(Hs & Ho & _)|(Hs & _)]; [by split|by destruct Hs].
Defined.

Lemma swift_refines_protocol_witness : ∃ c,
  motionstage_swift_client_new (Some "ipad") (Some "pose") 7%N true = Some c ∧
  let ks := [DoSend F32.one F32.one F32.one 5; DoSetMode 1 (Some 0); DoConnect None None None (ConnectFailed "down")] in
  protocol_run false ks [STATUS_NOT_CONNECTED; STATUS_NOT_CONNECTED; STATUS_INVALID_ARGUMENT].
Proof.
  destruct (motionstage_swift_client_new (Some "ipad") (Some "pose") 7%N true) as [c|] eqn:Hc;
    [|vm_compute in Hc; discriminate Hc].
  exists c. split; [reflexivity|]. cbv zeta.
  pose proof (swift_refines_protocol (Some "ipad") (Some "pose") 7%N c
    [DoSend F32.one F32.one F32.one 5; DoSetMode 1 (Some 0); DoConnect None None None (ConnectFailed "down")] Hc) as Hp.
  vm_compute in Hc. injection Hc as <-. exact Hp.
Defined.

(** The status of a failed connect is chosen by words in the error text,
    and that text quotes the server: a client whose device is named "already
    connected" and whose name is taken is told that it is already connected
    while it has no session. *)
Theorem swift_status_gap :
  let c := mkSwift 7%N "already connected" "7.pose" None None in
  let s := run_server (join 8%N "already connected") (open_server 2) in
  let r := report classify_connect (connect c swift_addr None None
    (Dialed (wire_of (meet 5 107%N (swift_hello c) no_secret s).1.(sent) "closed"))) in
  r.2 = STATUS_ALREADY_CONNECTED ∧ r.1.(sw_session) = None ∧
  r.1.(sw_last_error) = Some ("registration rejected: code=RoleDenied reason="
    +:+ "device name 'already connected' is already active").
Proof. vm_compute. done. Qed.
