(* ===== verification/OutputFixtures.v ===== *)
(** A simulator at its prompt: what it prints from the start to the end. *)

From S2P Require Import Prelude Text Float FloatText IndexMap Protocol Model Transform Runtime RuntimeSpec.
From S2P Require Import Fixtures Media Codec Recording RecordingProps WebRtc Transport Server.
From S2P Require Import ServerRuntime ServerVideo ServerLoop ServerSpec ServerSessions ServerPeer.
From S2P Require Import ServerControl ServerTake ServerFixtures.
From S2P Require Import Net Discovery Client Cli Console Simulate SimulateProps SimulateOutput.
From S2P Require Import SimulateOutputProps ClientFixtures.

Local Open Scope Z_scope.

#[export] Instance plain_console : ConsoleText := λ _, "command".

(** Stream a sample that the server publishes, mistype, record, look, leave. *)
Definition shown_events : list SimEvent :=
  [LineRead (Some "start") 10 0%N; SampleTick 20; Elsewhere [SDatagram demo_datagram; SPublish];
   LineRead (Some "amp -1") 30 0%N; LineRead (Some "mode bogus") 31 0%N;
   LineRead (Some "record start takes/one.cmtrk") 32 9%N; LineRead (Some "stop") 33 0%N;
   LineRead (Some "status") 35 0%N; Interrupt].

Abbreviation shown_run := (run_with_out (M:=Fixtures.imap) (crate:=no_webrtc) demo_args None
  (demo_course shown_events) () ∅).

Example demo_console :
  take 8 shown_run.1 = Logged <$>
    ["motionstage simulator ready"; "mode: embedded server + simulated QUIC client";
     "requested bind: 127.0.0.1:0"; "server endpoint: 127.0.0.1:0";
     "note: --server-bind configures embedded server bind address (not remote connect)";
     "source device: 7"; "session id: 107";
     "mapping: 7.demo.position -> scene:1 object:2 attr:position"] ∧
  drop 19 shown_run.1 =
    [Prompt; Logged "streaming started (mode=Live)"; Prompt;
     Logged "sample        0 -> [  1.000,   1.000,   1.000]";
     Logged "amplitude must be a finite number >= 0"; Prompt;
     Logged ("unknown command " +:+ quoted "mode bogus" +:+ " (run " +:+ quoted "help" +:+ ")"); Prompt;
     Logged "recording started (id=9, path=takes/one.cmtrk)"; Prompt;
     Logged ("recording is active, run " +:+ quoted "record stop" +:+ " first"); Prompt] ++
    (Logged <$>
      ["status:"; "  streaming: true"; "  recording: true"; "  sample_index: 1"; "  amplitude: 1";
       "  frequency_hz: 2"; "  source_device: 7"; "  source_output: 7.demo.position";
       "  last_error: <none>"; "  mode: Live";
       "  metrics: datagrams=1, updates=1, ticks=0, publishes=1";
       "  mapped value: [1.000, 1.000, 1.000]"]) ++
    [Prompt; Logged "received ctrl+c, shutting down simulator"].
Proof. vm_compute. done. Qed.

(** Over a connection that breaks while it streams. *)
Definition broken_wire : Wire :=
  mkWire [] "closed" [] [] [None; Some "datagram: connection lost"] false.
Definition broken_run := run_loop_out (M:=Fixtures.imap) (crate:=no_webrtc) demo_args Embedded
  (demo_course [LineRead (Some "start") 10 0%N; SampleTick 20; SampleTick 30])
  (Some (exec (server_start (crate:=no_webrtc)) demo_server)) (mkRoute 7%N demo_output None, (broken_wire, 107%N)) [].

Lemma console_spec_witness : ∃ self,
  broken_run.2.1 = Some self ∧
  self.(sim_state).(st_last_error) = Some "stream error: datagram: connection lost" ∧
  Logged "stream error: datagram: connection lost" ∈ broken_run.1.
Proof.
  pose proof (console_spec (crate:=no_webrtc) demo_args Embedded
    (demo_course [LineRead (Some "start") 10 0%N; SampleTick 20; SampleTick 30])
    (Some (exec (server_start (crate:=no_webrtc)) demo_server)) (mkRoute 7%N demo_output None) broken_wire 107%N [])
    as Hc.
  destruct (broken_run.2.1) as [self|] eqn:Hs; [|vm_compute in Hs; discriminate Hs].
  exists self. split; [reflexivity|].
  assert (self.(sim_state).(st_last_error) = Some "stream error: datagram: connection lost") as He.
  { vm_compute in Hs. injection Hs as <-. reflexivity. }
  split; [exact He|].
  exact (proj1 (proj2 (Hc self ltac:(discriminate) eq_refl) Hs) _ He).
Defined.
