(* ===== verification/Testkit.v ===== *)
(** [motionstage-testkit/src/lib.rs]: the harness of the integration tests, a
    server with default configuration, a client brought straight into service,
    and a stream of samples for a while. *)

From S2P Require Import Prelude Float IndexMap Protocol Model Transform Runtime Media Codec.
From S2P Require Import Recording WebRtc Transport Server ServerRuntime ServerVideo ServerLoop.
From S2P Require Import ServerSpec ServerSessions ServerPeer Fixtures ServerFixtures ClientFixtures.

Local Open Scope Z_scope.

Record SoakReport := mkReport { sent_samples : Z; report_tick_count : Z; report_metrics : ServerMetrics }.

Section testkit.
Context {M : Type → Type} `{!IndexMap Uuid M} {fmt : UuidFormat} {crate : WebRtcCrate}
  {fs : FileSystem} {bm : Bincode RecordingManifest} {bk : Bincode (list RecordingMarker)}
  {bf : Bincode RecordedFrame} {texts : ErrorText}.
Abbreviation method := (prog (ServerState M) ServerError).
Implicit Types s : ServerState M.

(** [TestHarness::new]. *)
Definition TestHarness_new (w : rtc_world) (d : gmap string (list byte)) : ServerState M :=
  ServerHandle_new ServerConfig_default w d.

Definition motion_hello (device_id : Uuid) (name : string) : ClientHello :=
  mkClientHello PROTOCOL_MAJOR PROTOCOL_MINOR device_id name [MotionSource] [Motion] ["pose_pos"].

(** [device_id] and [session_id] are drawn on the way. *)
Definition bootstrap_motion_client (device_id session_id : Uuid) (name : string) : method Uuid :=
  discovered device_id name;;
  transport_connected device_id;;
  hello_exchanged (motion_hello device_id name);;
  authenticate device_id;;
  register session_id device_id (mkRegisterRequest None None);;
  scene_synced device_id;;
  activate device_id;;
  mret device_id.

(** The sample of a round: its number three times. *)
Definition soak_update (output_attribute : string) (sent : Z) : AttributeUpdate :=
  mkUpdate output_attribute (Vec3f (vreplicate 3 (F32.of_Z sent))).

Definition soak_interval (input_hz : Z) : Z := Z.max 1 (1000000000 / Z.max input_hz 1).

(** The loop, given what the clock has read at the start of its rounds: the
    number of samples sent. It ends when the duration is over, or when the
    readings end. *)
Fixpoint soak_loop (device_id : Uuid) (duration interval_ns : Z) (output_attribute : string)
    (sent t_ns : Z) (elapsed : list Z) : method Z :=
  match elapsed with
  | [] => mret sent
  | e :: elapsed =>
      if e <? duration then
        ingest_motion_samples device_id [soak_update output_attribute sent] t_ns;;
        soak_loop device_id duration interval_ns output_attribute (wrap64 (sent + 1))
          (Z.min u64_max (t_ns + interval_ns)) elapsed
      else mret sent
  end.

Definition run_motion_soak (device_id : Uuid) (duration input_hz : Z) (output_attribute : string)
    (elapsed : list Z) : method SoakReport :=
  sent ← soak_loop device_id duration (soak_interval input_hz) output_attribute 0 0 elapsed;
  self ← get;
  mret (mkReport sent self.(runtime).(world).(Runtime.tick_count) self.(Server.metrics)).

(** ** What the harness does *)

Lemma bootstrap_as_handshake d id name s :
  bootstrap_motion_client d id name s =
  (greet (motion_hello d name);; register id d (mkRegisterRequest None None);;
   (scene_synced d;; activate d);; mret d) s.
Proof.
  unfold bootstrap_motion_client, greet. cbn [ch_device_id ch_device_name motion_hello].
  repeat rewrite prog_bind_assoc. apply prog_bind_ext. intros _ s1.
  repeat rewrite prog_bind_assoc. apply prog_bind_ext. intros _ s2.
  repeat rewrite prog_bind_assoc. apply prog_bind_ext. intros _ s3. apply prog_bind_ext. intros _ s4.
  apply prog_bind_ext. intros _ s5. by rewrite prog_bind_assoc.
Qed.

(** The harness brings a client into service exactly when the server would
    accept it over the network, and leaves the server as the handshake would. *)
Theorem bootstrap_activates d id name s :
  keyed s →
  let r := bootstrap_motion_client d id name s in
  let hello := motion_hello d name in
  (acceptable s hello (mkRegisterRequest None None) → r = (joined s hello id, Ok d)) ∧
  (¬ acceptable s hello (mkRegisterRequest None None) → ∃ e, r.2 = Err e).
Proof.
  intros Hk r hello. subst r. rewrite bootstrap_as_handshake. fold hello.
  destruct (greet_outcome hello s) as [[Hg Hgr]|[Hg (s' & e & He)]].
  2: { rewrite (prog_bind_err _ _ _ _ _ He). split; [by intros [? _]|eauto]. }
  rewrite (prog_bind_ok _ _ _ _ _ Hgr).
  destruct (admit_outcome hello id (mkRegisterRequest None None) s Hk Hg) as [[Ha Hr]|[Ha (e & Hr)]].
  - split; [|done]. intros _. change d with (ch_device_id hello) at 1.
    rewrite (prog_bind_ok _ _ _ _ _ Hr).
    change (scene_synced d;; activate d) with (scene_synced (ch_device_id hello);; activate (ch_device_id hello)
      : prog (ServerState M) ServerError ()).
    rewrite (prog_bind_ok _ _ _ _ _ (finish_handshake hello id _ (lookup_insert_eq _ _ _))).
    unfold mret, prog_ret. f_equal. unfold joined. cbn. by rewrite insert_insert_eq.
  - split; [done|]. intros _. change d with (ch_device_id hello) at 1.
    rewrite (prog_bind_err _ _ _ _ _ Hr). by eexists.
Qed.

(** *** Soaking *)

Lemma ingest_counts d us t s s' :
  ingest_motion_samples d us t s = (s', Ok ()) →
  s'.(Server.metrics).(motion_updates) = wrap64 (s.(Server.metrics).(motion_updates) + Z.of_nat (length us)).
Proof.
  unfold ingest_motion_samples, on_runtime, on_writer. unfold_prog. intros Hi.
  repeat (case_match; simplify_eq/=); done.
Qed.

(** The rounds the clock leaves room for. *)
Fixpoint rounds_within (duration : Z) (elapsed : list Z) : nat :=
  match elapsed with
  | e :: elapsed => if e <? duration then S (rounds_within duration elapsed) else O
  | [] => O
  end.

Lemma soak_loop_counts d duration interval_ns o sent t elapsed s s' n :
  soak_loop d duration interval_ns o sent t elapsed s = (s', Ok n) →
  let rounds := Z.of_nat (rounds_within duration elapsed) in
  0 ≤ sent < 2 ^ 64 → n = wrap64 (sent + rounds) ∧
  (0 ≤ s.(Server.metrics).(motion_updates) < 2 ^ 64 →
   s'.(Server.metrics).(motion_updates) = wrap64 (s.(Server.metrics).(motion_updates) + rounds)).
Proof.
  unfold wrap64. revert sent t s. induction elapsed as [|e elapsed IH]; intros sent t s; cbn [soak_loop rounds_within].
  - intros [= <- <-] Hs. cbn. rewrite !Z.add_0_r. split; [by rewrite Z.mod_small|].
    intros Hm. by rewrite Z.mod_small.
  - destruct (e <? duration); cbn.
    + intros (s1 & [] & Hi%ingest_counts & Hl)%prog_bind_inv_ok Hs. cbn [length] in Hi.
      apply IH in Hl as [-> Hm]; [|unfold wrap64; by apply Z.mod_pos_bound].
      unfold wrap64 in *. rewrite Hi in Hm. split.
      * rewrite Z.add_mod_idemp_l by done. f_equal. lia.
      * intros _. rewrite Hm by by apply Z.mod_pos_bound. rewrite Z.add_mod_idemp_l by done. f_equal. lia.
    + intros [= <- <-] Hs. rewrite !Z.add_0_r. split; [by rewrite Z.mod_small|].
      intros Hm. by rewrite Z.mod_small.
Qed.

(** A soak that comes back reports as many samples as rounds fitted into
    its duration, and the server has counted each of them. *)
Theorem soak_counts d duration hz o elapsed s s' report :
  run_motion_soak d duration hz o elapsed s = (s', Ok report) →
  0 ≤ s.(Server.metrics).(motion_updates) < 2 ^ 64 →
  let rounds := Z.of_nat (rounds_within duration elapsed) in
  rounds < 2 ^ 64 →
  report.(sent_samples) = rounds ∧
  report.(report_metrics).(motion_updates) = wrap64 (s.(Server.metrics).(motion_updates) + rounds).
Proof.
  unfold run_motion_soak. intros Hrun Hm. cbv zeta. intros Hr.
  apply prog_bind_inv_ok in Hrun as (s1 & n & Hl & [= <- <-]).
  apply soak_loop_counts in Hl as [-> Hc]; [|lia]. cbn. split; [|by apply Hc].
  unfold wrap64. apply Z.mod_small. lia.
Qed.
End testkit.

(** ** Instances *)

Lemma bootstrap_activates_witness :
  let r := bootstrap_motion_client 7%N 107%N "ipad" (open_server 2) in
  let hello := motion_hello 7%N "ipad" in
  (acceptable (open_server 2) hello (mkRegisterRequest None None) →
     r = (joined (open_server 2) hello 107%N, Ok 7%N)) ∧
  (¬ acceptable (open_server 2) hello (mkRegisterRequest None None) → ∃ e, r.2 = Err e).
Proof. apply (bootstrap_activates 7%N 107%N "ipad" (open_server 2)). apply empty_keyed. Defined.

(** Two rounds of a soak of 20 ms at 100 Hz on a server that is live and has
    the device in. *)
Definition soaked := run_motion_soak 7%N 20000000 100 "pose" [0; 10000000; 20000000] driven.
Lemma soak_counts_witness : ∃ report, soaked.2 = Ok report ∧ report.(sent_samples) = 2.
Proof.
  destruct soaked.2 as [report| |] eqn:Hr; [|vm_compute in Hr; discriminate Hr..].
  exists report. split; [reflexivity|].
  destruct (soak_counts 7%N 20000000 100 "pose" [0; 10000000; 20000000] driven soaked.1 report) as [Hs _].
  - apply run_result. exact Hr.
  - vm_compute. by split.
  - vm_compute. reflexivity.
  - rewrite Hs. vm_compute. reflexivity.
Defined.
