(* ===== verification/Legacy.v ===== *)
(** [legacy/motionstage_old/src]: the earlier server, which is not a member of
    the workspace any more. The runtime actor with its registry of remote
    clients ([runtime.rs], [client.rs]), the WebSocket session ([server.rs],
    [rt.rs], [session.rs]), and its command line ([cli/]).

    Actor addresses, mailboxes and WebSocket frames are those of [actix]: an
    actor handles one message at a time, so a handler is a function of its
    state; what it sends is a list. *)

From S2P Require Import Prelude Codec.
From stdpp Require Import relations.

Local Open Scope Z_scope.

(** ** The registry of clients *)

(** [actix_telepathy::RemoteAddr]: an actor on the node of a socket. *)
Class RemoteAddresses := {
  RemoteAddr : Type;
  remote_addr_eq_dec :: EqDecision RemoteAddr;
  remote_addr_countable :: Countable RemoteAddr;
  SocketAddress : Type;
  socket_address_eq_dec :: EqDecision SocketAddress;
  node_socket_addr : RemoteAddr → SocketAddress;
}.

Section runtime.
Context {addrs : RemoteAddresses}.

Record RemoteClientHandle := mkClientHandle { client_id : Z; client_addr : RemoteAddr }.

Inductive ClientMessage :=
  | MRegistered
  | MRegister (source : RemoteAddr)
  | MPing
  | MPong
  | MClose (reason : string).

Record ClientRegistry := mkRegistry {
  client_addrs : gmap RemoteAddr RemoteClientHandle;
  next_client_id : Z;
}.

(** The engine of the actor has no operations. [outgoing] is what was sent. *)
Record RuntimeActor := mkRuntimeActor {
  clients : ClientRegistry;
  cancelled : bool;
  outgoing : list (RemoteAddr * ClientMessage);
}.

Implicit Types self : RuntimeActor.
Abbreviation method := (prog RuntimeActor Empty_set).

Definition ClientRegistry_new : ClientRegistry := mkRegistry ∅ 0.
Definition RuntimeActor_new : RuntimeActor := mkRuntimeActor ClientRegistry_new false [].

Definition do_send (addr : RemoteAddr) (m : ClientMessage) : method () :=
  modify (λ self, mkRuntimeActor self.(clients) self.(cancelled) (self.(outgoing) ++ [(addr, m)])).

(** [RemoteClientHandle::registered] and [RemoteClientHandle::close]. *)
Definition registered (client : RemoteClientHandle) : method () := do_send client.(client_addr) MRegistered.
Definition close (client : RemoteClientHandle) (reason : string) : method () :=
  do_send client.(client_addr) (MClose reason).

(** [ClientRegistry::register]; the counter is a [usize] of 64 bits. *)
Definition register (addr : RemoteAddr) : method RemoteClientHandle :=
  self ← get;
  let handle := mkClientHandle self.(clients).(next_client_id) addr in
  put (mkRuntimeActor (mkRegistry (<[addr := handle]> self.(clients).(client_addrs))
    (wrap64 (self.(clients).(next_client_id) + 1))) self.(cancelled) self.(outgoing));;
  mret handle.

Definition deregister_node_by_addr (socket_addr : SocketAddress) : method () :=
  modify (λ self, mkRuntimeActor (mkRegistry
    (filter (λ '(addr, _), node_socket_addr addr ≠ socket_addr) self.(clients).(client_addrs))
    self.(clients).(next_client_id)) self.(cancelled) self.(outgoing)).

(** The values of a [HashMap], in any order. *)
Definition shutdown (reason : string) : method () :=
  self ← get;
  prog_foldl (λ _ client, close client reason) () (snd <$> map_to_list self.(clients).(client_addrs)).

Definition handle_register_message (source : RemoteAddr) : method () :=
  client ← register source;
  registered client.

Inductive ClusterLog := NewMember (node : SocketAddress) | MemberLeft (addr : SocketAddress).

Definition handle_cluster_log (msg : ClusterLog) : method () :=
  match msg with
  | NewMember _ => mret ()
  | MemberLeft addr => deregister_node_by_addr addr
  end.

(** [Actor::stopping], then [Actor::stopped]. *)
Definition stopping : method () := shutdown "runtime was stopped".
Definition stopped : method () :=
  modify (λ self, mkRuntimeActor self.(clients) true self.(outgoing)).

(** ** What the registry keeps *)

Inductive runtime_step : relation RuntimeActor :=
  | step_register self source : runtime_step self (exec (handle_register_message source) self)
  | step_cluster self msg : runtime_step self (exec (handle_cluster_log msg) self).

(** Entries are under their own address, with different numbers, below the next
    one. *)
Definition registry_wf (r : ClientRegistry) : Prop :=
  0 ≤ r.(next_client_id) ∧
  (∀ addr h, r.(client_addrs) !! addr = Some h →
     h.(client_addr) = addr ∧ 0 ≤ h.(client_id) < r.(next_client_id)) ∧
  ∀ addr addr' h h', r.(client_addrs) !! addr = Some h → r.(client_addrs) !! addr' = Some h' →
    h.(client_id) = h'.(client_id) → addr = addr'.

Lemma legacy_register_outcome source self :
  handle_register_message source self =
    (mkRuntimeActor (mkRegistry
       (<[source := mkClientHandle self.(clients).(next_client_id) source]> self.(clients).(client_addrs))
       (wrap64 (self.(clients).(next_client_id) + 1))) self.(cancelled)
       (self.(outgoing) ++ [(source, MRegistered)]), Ok ()).
Proof. done. Qed.

(** As long as the counter does not overflow. *)
Lemma runtime_step_wf self self' :
  runtime_step self self' → self.(clients).(next_client_id) < u64_max → registry_wf self.(clients) →
  registry_wf self'.(clients) ∧ self'.(clients).(next_client_id) ≤ self.(clients).(next_client_id) + 1.
Proof.
  intros [self0 source|self0 [node|sock]] Hmax (H0 & Hk & Hd).
  - rewrite legacy_register_outcome. cbn [fst clients next_client_id].
    assert (wrap64 (next_client_id (clients self0) + 1) = next_client_id (clients self0) + 1) as ->.
    { unfold wrap64, u64_max in *. rewrite Z.mod_small; lia. }
    split; [|lia]. split; cbn; [lia|]. split.
    + intros addr h [[<- <-]|[Hne Hl]]%lookup_insert_Some; [cbn; split; [done|lia]|].
      apply Hk in Hl as [? ?]. split; [done|lia].
    + intros addr addr' h h' [[<- <-]|[Hne Hl]]%lookup_insert_Some [[<- <-]|[Hne' Hl']]%lookup_insert_Some;
        cbn; [done|..|by eauto].
      * apply Hk in Hl'. lia.
      * apply Hk in Hl. lia.
  - cbn. split; [exact (conj H0 (conj Hk Hd))|lia].
  - split; [|cbn; lia]. split; cbn; [done|]. split.
    + intros addr h [Hl _]%map_lookup_filter_Some. by apply Hk.
    + intros addr addr' h h' [Hl _]%map_lookup_filter_Some [Hl' _]%map_lookup_filter_Some. by eapply Hd.
Qed.

Lemma close_all reason l self :
  exec (prog_foldl (λ _ client, close client reason) () l) self =
    mkRuntimeActor self.(clients) self.(cancelled)
      (self.(outgoing) ++ ((λ client, (client.(client_addr), MClose reason)) <$> l)).
Proof.
  revert self. induction l as [|c l IH]; intros self; cbn; [rewrite app_nil_r; by destruct self|].
  etrans; [apply IH|]. cbn. by rewrite <-app_assoc.
Qed.

(** The registry of a running actor: every registration is answered, each
    client has an entry of its own with a number of its own, the nodes that
    left have none, and when the actor stops each client in it is told so
    exactly once. *)
Theorem registry_spec n self :
  nsteps runtime_step n RuntimeActor_new self → Z.of_nat n < u64_max →
  registry_wf self.(clients) ∧
  (∀ source, (exec (handle_register_message source) self).(outgoing) = self.(outgoing) ++ [(source, MRegistered)]) ∧
  (∀ sock addr h, (exec (handle_cluster_log (MemberLeft sock)) self).(clients).(client_addrs) !! addr = Some h ↔
     self.(clients).(client_addrs) !! addr = Some h ∧ node_socket_addr addr ≠ sock) ∧
  ∃ told, (exec stopping self).(outgoing) = self.(outgoing) ++ told ∧
    told ≡ₚ (λ addr, (addr, MClose "runtime was stopped")) <$> (map_to_list self.(clients).(client_addrs)).*1.
Proof.
  intros Hn Hmax.
  assert (registry_wf self.(clients) ∧ self.(clients).(next_client_id) ≤ Z.of_nat n) as [Hwf _].
  { assert (∀ m self0 k, nsteps runtime_step m self0 self → registry_wf self0.(clients) →
      self0.(clients).(next_client_id) ≤ k → k + Z.of_nat m < u64_max →
      registry_wf self.(clients) ∧ self.(clients).(next_client_id) ≤ k + Z.of_nat m) as Hgen.
    { clear. induction m as [|m IH]; intros self0 k Hs Hwf Hk Hb; inversion Hs as [|? ? self1 ? Hst Hs']; subst.
      - split; [done|lia].
      - destruct (runtime_step_wf _ _ Hst) as [Hwf' Hk']; [lia|done|].
        destruct (IH self1 (k + 1) Hs' Hwf') as [? ?]; [lia|lia|]. split; [done|lia]. }
    apply (Hgen n RuntimeActor_new 0 Hn); [|done|lia].
    split; [done|]. split; intros addr; intros *; cbn; by rewrite lookup_empty. }
  split; [done|]. split; [|split].
  - done.
  - intros sock addr h. cbn. by rewrite map_lookup_filter_Some.
  - eexists. split.
    + unfold stopping, shutdown. change (exec (get ≫= ?f) self) with (exec (f self) self). cbv beta.
      by rewrite close_all.
    + rewrite <-!list_fmap_compose. apply Permutation_refl'. apply list_fmap_ext.
      intros i [addr h] Hi. cbn. destruct Hwf as (_ & Hk & _).
      by destruct (Hk addr h) as [-> _]; [apply elem_of_map_to_list, list_elem_of_lookup_2 with i|].
Qed.
End runtime.

(** ** The other end: [ClientActor] *)

Inductive ObserverCall := ObsRegistered | ObsClose (reason : string).

(** The calls of the observer; [unimplemented!()] panics. *)
Definition handle_client_message {addrs : RemoteAddresses} (msg : ClientMessage) :
    prog (list ObserverCall) Empty_set () :=
  match msg with
  | MRegistered => modify (λ calls, calls ++ [ObsRegistered])
  | MClose reason => modify (λ calls, calls ++ [ObsClose reason])
  | _ => lift Panicked
  end.

(** What the runtime sends never makes a client panic. *)
Lemma client_understands {addrs : RemoteAddresses} (self self' : RuntimeActor) calls msg addr :
  runtime_step self self' ∨ self' = exec stopping self →
  (addr, msg) ∈ self'.(outgoing) → (∀ a m, (a, m) ∈ self.(outgoing) → m = MRegistered ∨ ∃ r, m = MClose r) →
  result (handle_client_message msg) calls = Ok ().
Proof.
  intros Hs Hin Hold. enough (msg = MRegistered ∨ ∃ r, msg = MClose r) as [->|[r ->]] by done.
  destruct Hs as [Hs| ->]; [destruct Hs as [self0 source|self0 [node|sock]]|]; cbn in Hin; [|by eauto..|].
  - apply elem_of_app in Hin as [?|Hin%list_elem_of_singleton]; [by eauto|]. left. by injection Hin.
  - unfold stopping, shutdown in Hin. change (exec (get ≫= ?f) self) with (exec (f self) self) in Hin.
    cbv beta in Hin. rewrite close_all in Hin. cbn in Hin. apply elem_of_app in Hin as [?|Hin]; [by eauto|].
    apply list_elem_of_fmap in Hin as (h & [= _ ->] & _). right. by eexists.
Qed.

(** ** The WebSocket session *)

Definition CLIENT_TIMEOUT : Z := 10 * 10 ^ 9.

(** [actix_ws::AggregatedMessage], and the frames the server sends; a reason
    for closing is kept as a text. *)
Inductive AggregatedMessage :=
  | Text (text : string)
  | Binary (bin : list byte)
  | WsPing (bytes : list byte)
  | WsPong (bytes : list byte)
  | WsClose (reason : option string).

Inductive WsFrame :=
  | FrameText (text : string)
  | FrameBinary (bin : list byte)
  | FramePing (bytes : list byte)
  | FramePong (bytes : list byte)
  | FrameClose (reason : option string).

(** What [tokio::select!] hands to the loop, with the clock at that time;
    [None] for a stream that has ended, [Some None] for a read error. *)
Inductive WsEvent :=
  | HeartbeatTick (now : Z)
  | SessionMessage (msg : option string)
  | WsMessage (now : Z) (msg : option (option AggregatedMessage)).

(** The connection: when the client was last heard of, what was sent, and what
    becomes of the next sends, [true] for delivered. *)
Record WsSession := mkWs { last_heartbeat : Z; ws_sent : list WsFrame; ws_link : list bool }.

(** The reason the loop breaks with is the error. *)
Abbreviation ws := (prog WsSession (option string)).

(** [ws_session.send(..).await.map_err(|_| None)?]. *)
Definition ws_send (f : WsFrame) : ws () := λ c,
  match c.(ws_link) with
  | false :: l => (mkWs c.(last_heartbeat) c.(ws_sent) l, Err None)
  | true :: l => (mkWs c.(last_heartbeat) (c.(ws_sent) ++ [f]) l, Ok ())
  | [] => (mkWs c.(last_heartbeat) (c.(ws_sent) ++ [f]) [], Ok ())
  end.

Definition heard (now : Z) : ws () := modify (λ c, mkWs now c.(ws_sent) c.(ws_link)).

(** [process_message]; [SessionHandle::ping] and [pong] do nothing. *)
Definition process_message (now : Z) (msg : AggregatedMessage) : ws () :=
  match msg with
  | Text text => ws_send (FrameText text)
  | Binary bin => ws_send (FrameBinary bin)
  | WsPing bytes => heard now;; ws_send (FramePong bytes)
  | WsPong _ => heard now
  | WsClose reason => throw reason
  end.

Definition ws_round (ev : WsEvent) : ws () :=
  match ev with
  | HeartbeatTick now =>
      c ← get;
      if decide (CLIENT_TIMEOUT < now - c.(last_heartbeat)) then throw None
      else ws_send (FramePing [])
  | SessionMessage (Some msg) => ws_send (FrameText msg)
  | WsMessage now (Some (Some msg)) => process_message now msg
  | SessionMessage None | WsMessage _ (Some None) | WsMessage _ None => throw None
  end.

Fixpoint ws_loop (evs : list WsEvent) : ws () :=
  match evs with
  | [] => mret ()
  | ev :: evs => ws_round ev;; ws_loop evs
  end.

(** [handler_websocket_session]: when the loop breaks, the session is closed,
    which does nothing, and the connection with the reason of the loop. *)
Definition handler_websocket_session (evs : list WsEvent) (start : Z) : ws () :=
  put (mkWs start [] []);;
  r ← attempt (ws_loop evs);
  match (r : res (option string) ()) with
  | Err reason => attempt (ws_send (FrameClose reason)) ≫= λ _ : res (option string) (), mret ()
  | _ => mret ()
  end.

(** The answer to an event that does not end the session. *)
Definition ws_reply (ev : WsEvent) : list WsFrame :=
  match ev with
  | HeartbeatTick _ => [FramePing []]
  | SessionMessage (Some msg) => [FrameText msg]
  | WsMessage _ (Some (Some (Text text))) => [FrameText text]
  | WsMessage _ (Some (Some (Binary bin))) => [FrameBinary bin]
  | WsMessage _ (Some (Some (WsPing bytes))) => [FramePong bytes]
  | _ => []
  end.

(** When the client was last heard of after an event. *)
Definition ws_heard (last : Z) (ev : WsEvent) : Z :=
  match ev with
  | WsMessage now (Some (Some (WsPing _))) | WsMessage now (Some (Some (WsPong _))) => now
  | _ => last
  end.

(** Why an event ends the session, if it does. *)
Definition ws_ends (last : Z) (ev : WsEvent) : option (option string) :=
  match ev with
  | HeartbeatTick now => if decide (CLIENT_TIMEOUT < now - last) then Some None else None
  | SessionMessage None | WsMessage _ None | WsMessage _ (Some None) => Some None
  | WsMessage _ (Some (Some (WsClose reason))) => Some reason
  | _ => None
  end.

Lemma ws_round_outcome ev c :
  c.(ws_link) = [] →
  ws_round ev c = match ws_ends c.(last_heartbeat) ev with
    | Some reason => (c, Err reason)
    | None => (mkWs (ws_heard c.(last_heartbeat) ev) (c.(ws_sent) ++ ws_reply ev) [], Ok ())
    end.
Proof.
  destruct c as [last sent link]. cbn. intros ->.
  destruct ev as [now|[msg|]|now [[[]|]|]]; cbn; try done; [|by rewrite app_nil_r].
  change ((get ≫= ?f) ?c) with (f c c). cbv beta. cbn. by case_decide.
Qed.

Lemma handler_outcome evs start c :
  exec (handler_websocket_session evs start) c =
    match ws_loop evs (mkWs start [] []) with
    | (c', Err reason) => exec (ws_send (FrameClose reason)) c'
    | (c', _) => c'
    end.
Proof.
  unfold handler_websocket_session, attempt. unfold_prog.
  destruct (ws_loop evs (mkWs start [] [])) as [c' [[]|reason|]]; [done| |done].
  by destruct (ws_send (FrameClose reason) c') as [c'' [[]|e|]].
Qed.

Fixpoint ws_alive (last : Z) (evs : list WsEvent) : Prop :=
  match evs with
  | [] => True
  | ev :: evs => ws_ends last ev = None ∧ ws_alive (ws_heard last ev) evs
  end.

(** A session over a link that delivers answers each event of a living
    connection in order: it echoes texts and binaries, forwards the messages of
    the runtime, pings at each heartbeat and answers pings. The first event that
    ends it, a close by the client, the end of a stream, or a heartbeat more
    than ten seconds after the client was last heard of, closes the connection
    once, with the client's reason if it gave one, and nothing after it is
    answered. *)
Theorem websocket_session start evs ev rest c :
  ws_alive start evs →
  (exec (handler_websocket_session evs start) c).(ws_sent) = evs ≫= ws_reply ∧
  ∀ reason, ws_ends (foldl ws_heard start evs) ev = Some reason →
  (exec (handler_websocket_session (evs ++ ev :: rest) start) c).(ws_sent) =
    (evs ≫= ws_reply) ++ [FrameClose reason].
Proof.
  intros Ha.
  assert (∀ sent tail, ws_loop (evs ++ tail) (mkWs start sent []) =
    ws_loop tail (mkWs (foldl ws_heard start evs) (sent ++ (evs ≫= ws_reply)) [])) as Hloop.
  { clear c. revert start Ha. induction evs as [|e evs IH]; intros start Ha sent tail.
    { by rewrite app_nil_r. }
    destruct Ha as [He Ha]. cbn [app ws_loop].
    rewrite (prog_bind_ok _ _ _ (mkWs (ws_heard start e) (sent ++ ws_reply e) []) ());
      [|by rewrite ws_round_outcome; [cbn; by rewrite He|]].
    rewrite IH by done. cbn [foldl mbind list_bind]. by rewrite app_assoc. }
  rewrite !handler_outcome. split; [|intros reason Hend].
  - specialize (Hloop [] []). rewrite app_nil_r in Hloop. by rewrite Hloop.
  - rewrite Hloop. cbn [ws_loop app].
    by rewrite (prog_bind_err _ _ _ (mkWs (foldl ws_heard start evs) (evs ≫= ws_reply) []) reason)
      by (rewrite ws_round_outcome; [cbn; by rewrite Hend|done]).
Qed.

(** ** Sessions of the runtime and the command line *)

(** The session actors that run, by their numbers. *)
Record SessionActors := mkActors { running_sessions : list Z }.

(** [Handler<NewSessionMsg>] with [Session::new]: every session has number 0. *)
Definition new_session : prog SessionActors Empty_set Z :=
  actors ← get;
  put (mkActors (actors.(running_sessions) ++ [0]));;
  mret 0.

(** [SessionHandle::close] and [Handler<RemoveSessionMsg>] do nothing, and
    nobody sends [CloseSession]. *)
Definition session_close : prog SessionActors Empty_set () := mret ().
Definition remove_session (id : Z) : prog SessionActors Empty_set () := mret ().

(** [handler_websocket_session] as the runtime sees it. *)
Definition serve_session : prog SessionActors Empty_set () := new_session;; session_close.

(** Every client that comes and goes leaves an actor behind, and all of them
    have the number that [session.rs] calls unique. *)
Theorem sessions_leak n actors :
  (Nat.iter n (λ a, exec serve_session a) actors).(running_sessions) = actors.(running_sessions) ++ replicate n 0.
Proof.
  induction n as [|n IH]; [by rewrite app_nil_r|].
  cbn [Nat.iter nat_rect]. change (running_sessions (exec serve_session ?a)) with (running_sessions a ++ [0]).
  rewrite replicate_S_end, app_assoc. f_equal. exact IH.
Qed.

(** [configure_logging]: the filter for a verbosity, given the two variables of
    the environment. *)
Definition base_config (verbosity : Z) (motionstage_log : option string) : string :=
  if decide (verbosity ≤ -3) then ""
  else if decide (verbosity = -2) then "motionstage=error"
  else if decide (verbosity = -1) then "motionstage=warn"
  else if decide (verbosity = 0) then default "motionstage=info" motionstage_log
  else if decide (verbosity = 1) then "motionstage=debug"
  else if decide (verbosity = 2) then "motionstage=trace"
  else "trace".

Definition logging_config (verbosity : Z) (motionstage_log rust_log : option string) : string :=
  let base := base_config verbosity motionstage_log in
  match rust_log with
  | Some tail => base +:+ "," +:+ tail
  | None => base
  end.

(** [ServerCmd::run]: the address the runtime listens to, every interface by
    default. *)
Definition server_bind_address (given : option (string * Z)) : string * Z := default ("0.0.0.0", 7788) given.
