(* ===== verification/PyValues.v ===== *)
(** [motionstage-sdk-python/src/lib.rs], the conversions between Python objects
    and the values of the program: names of modes, roles and features, scene
    specifications given as dictionaries, and attribute values.

    What [pyo3] offers of a Python object is the class [PyObjects]. *)

From S2P Require Import Prelude Text Float Protocol Model.

Local Open Scope Z_scope.

(** The exceptions the binding raises, with their texts. *)
Inductive PyErr := PyValueError (text : string) | PyRuntimeError (text : string).

(** A number of an attribute on its way through a Python [float]. *)
Definition through_f64 (x : f32) : f32 := f64_as_f32 (f32_as_f64 x).

(** ** Python objects

    [extract] fails with the text of the exception it raises; the items of an
    iterator may fail one by one. [into_py] makes the objects; the laws are
    those of the documentation of [pyo3]: booleans and numbers come back as they
    were, a Python [float] is an [f64], so that an [f32] goes [through_f64], and
    [extract::<i32>] gives an [i32]. *)
Class PyObjects := {
  PyAny : Type;
  PyDict : Type;
  get_item : PyDict → string → res string (option PyAny);
  downcast : PyAny → option PyDict;
  is_none : PyAny → bool;
  py_iter : PyAny → res string (list (res string PyAny));
  py_str : PyAny → res string string;
  extract_string : PyAny → res string string;
  extract_bool : PyAny → res string bool;
  extract_i32 : PyAny → res string Z;
  extract_f32 : PyAny → res string f32;
  extract_f64 : PyAny → res string f64;
  extract_indices : PyAny → res string (list nat);
  extract_floats : PyAny → res string (list f32);
  extract_rows : PyAny → res string (list (list f32));
  of_bool : bool → PyAny;
  of_i32 : Z → PyAny;
  of_f64 : f64 → PyAny;
  of_floats : list f32 → PyAny;
  of_rows : list (list f32) → PyAny;
  extract_of_bool b : extract_bool (of_bool b) = Ok b;
  extract_of_i32 z : in_i32 z → extract_i32 (of_i32 z) = Ok z;
  extract_i32_range o z : extract_i32 o = Ok z → in_i32 z;
  extract_of_f64 x : extract_f64 (of_f64 x) = Ok x;
  extract_f32_of_f64 x : extract_f32 (of_f64 x) = Ok (f64_as_f32 x);
  extract_of_floats l : extract_floats (of_floats l) = Ok (map through_f64 l);
  extract_of_rows l : extract_rows (of_rows l) = Ok (map (map through_f64) l);
}.

(** The text of the error of [Uuid::parse_str]. *)
Class UuidErrorText := uuid_error : string → string.

Section values.
Context {fmt : UuidFormat} {utext : @UuidText fmt} {uerr : UuidErrorText} {py : PyObjects}.

(** [map_err(|err| PyValueError::new_err(err.to_string()))]. *)
Definition value_err {A} (r : res string A) : res PyErr A := map_err PyValueError r.

(** [Uuid::parse_str] under that. *)
Definition parse_uuid (text : string) : res PyErr Uuid :=
  value_err (ok_or (uuid_parse text) (uuid_error text)).

Definition parse_mode (value : string) : res PyErr Mode :=
  let other := to_ascii_lowercase (trim value) in
  if decide (other ∈ ["idle"; "stopped"; "stop"]) then Ok Idle
  else if decide (other = "live") then Ok Live
  else if decide (other ∈ ["recording"; "record"]) then Ok Protocol.Recording
  else Err (PyValueError ("unsupported mode " +:+ backquote +:+ other +:+ backquote
                          +:+ " (expected idle/live/recording)")).

Definition parse_optional_uuid (value : option string) : res PyErr (option Uuid) :=
  match value with
  | Some raw =>
      let normalized := trim raw in
      if is_empty normalized then Ok None else Some <$> parse_uuid normalized
  | None => Ok None
  end.

Definition mode_to_str (mode : Mode) : string :=
  match mode with Idle => "idle" | Live => "live" | Protocol.Recording => "recording" end.

Definition role_to_str (role : ClientRole) : string :=
  match role with
  | MotionSource => "motion_source"
  | CameraController => "camera_controller"
  | VideoSink => "video_sink"
  | Operator => "operator"
  end.

Definition feature_to_str (feature : Feature) : string :=
  match feature with
  | Motion => "motion"
  | MappingFeature => "mapping"
  | RecordingFeature => "recording"
  | Video => "video"
  | Hdr10Feature => "hdr10"
  | SdrFallback => "sdr_fallback"
  end.

(** ** Attribute values *)

(** [extract::<Vec<f32>>()] and [try_into] an array. *)
Definition extract_vec_f32 (n : nat) (value : PyAny) : res PyErr (vec f32 n) :=
  l ← value_err (extract_floats value);
  match decide (length l = n) with
  | left e => Ok (eq_rect _ (vec f32) (list_to_vec l) _ e)
  | right _ => Err (PyValueError ("expected vector length " +:+ show_Z (Z.of_nat n) +:+ ", got "
                                  +:+ show_Z (Z.of_nat (length l))))
  end.

(** The loop of [extract_mat4f]: row [row_idx] of the array is assigned. *)
Definition set_row (out : vec (vec f32 4) 4) (row_idx : nat) (row : vec f32 4) : vec (vec f32 4) 4 :=
  match decide (row_idx < 4)%nat with
  | left h => vinsert (nat_to_fin h) row out
  | right _ => out
  end.
Definition extract_mat4f (value : PyAny) : res PyErr (vec (vec f32 4) 4) :=
  rows ← value_err (extract_rows value);
  if negb (bool_decide (length rows = 4%nat)) then
    Err (PyValueError ("expected matrix row count 4, got " +:+ show_Z (Z.of_nat (length rows))))
  else
    res_foldl (λ out (p : nat * list f32), let '(row_idx, row) := p in
      match row with
      | [a; b; c; d] => Ok (set_row out row_idx [# a; b; c; d])
      | _ => Err (PyValueError ("expected matrix column count 4 for row "
                    +:+ show_Z (Z.of_nat row_idx) +:+ ", got " +:+ show_Z (Z.of_nat (length row))))
      end)
      (vreplicate 4 (vreplicate 4 F32.zero)) (imap pair rows).

Definition parse_attribute_value_typed (type_name : string) (value : PyAny) : res PyErr AttributeValue :=
  let other := to_ascii_lowercase (trim type_name) in
  if decide (other = "bool") then VBool <$> value_err (extract_bool value)
  else if decide (other = "trigger") then Trigger <$> value_err (extract_bool value)
  else if decide (other = "int32") then Int32 <$> value_err (extract_i32 value)
  else if decide (other = "float32") then Float32 <$> value_err (extract_f32 value)
  else if decide (other = "float64") then Float64 <$> value_err (extract_f64 value)
  else if decide (other = "vec2f") then Vec2f <$> extract_vec_f32 2 value
  else if decide (other = "vec3f") then Vec3f <$> extract_vec_f32 3 value
  else if decide (other = "vec4f") then Vec4f <$> extract_vec_f32 4 value
  else if decide (other = "quatf") then Quatf <$> extract_vec_f32 4 value
  else if decide (other = "mat4f") then Mat4f <$> extract_mat4f value
  else Err (PyValueError ("unsupported attribute type " +:+ backquote +:+ other +:+ backquote)).

Definition parse_attribute_value_inferred (value : PyAny) : res PyErr AttributeValue :=
  match extract_bool value, extract_i32 value, extract_f64 value, extract_floats value with
  | Ok v, _, _, _ => Ok (VBool v)
  | _, Ok v, _, _ => Ok (Int32 v)
  | _, _, Ok v, _ => Ok (Float64 v)
  | _, _, _, Ok l =>
      match l with
      | [a; b] => Ok (Vec2f [# a; b])
      | [a; b; c] => Ok (Vec3f [# a; b; c])
      | [a; b; c; d] => Ok (Vec4f [# a; b; c; d])
      | _ => Err (PyValueError ("cannot infer vector attribute type from length "
                                +:+ show_Z (Z.of_nat (length l))))
      end
  | _, _, _, _ => Err (PyValueError "cannot infer attribute type from value")
  end.

(** The [type] entry, unless it is [None] or not a string. *)
Definition explicit_type (spec : PyDict) : res PyErr (option string) :=
  raw ← value_err (get_item spec "type");
  Ok (raw ≫= λ raw, if is_none raw then None
                    else match extract_string raw with Ok t => Some t | _ => None end).

Definition parse_attribute_value (spec : PyDict) (value : PyAny) : res PyErr AttributeValue :=
  t ← explicit_type spec;
  match t with
  | Some type_name => parse_attribute_value_typed type_name value
  | None => parse_attribute_value_inferred value
  end.

Definition attribute_value_to_py (value : AttributeValue) : PyAny :=
  match value with
  | VBool v | Trigger v => of_bool v
  | Int32 v => of_i32 v
  | Float32 v => of_f64 (f32_as_f64 v)
  | Float64 v => of_f64 v
  | Vec2f v => of_floats (vec_to_list v)
  | Vec3f v => of_floats (vec_to_list v)
  | Vec4f v | Quatf v => of_floats (vec_to_list v)
  | Mat4f v => of_rows (vec_to_list <$> vec_to_list v)
  end.

(** ** Entries of dictionaries *)

(** An entry that has to be there. *)
Definition required (spec : PyDict) (key : string) : res PyErr PyAny :=
  raw ← value_err (get_item spec key);
  ok_or raw (PyValueError ("missing required field " +:+ backquote +:+ key +:+ backquote)).

(** The text of an object: the string it is, or what [str] makes of it. *)
Definition text_of (raw : PyAny) : res PyErr string :=
  match extract_string raw with
  | Ok value => Ok value
  | _ => value_err (py_str raw)
  end.

(** [extract_spec_string]; [extract_request_string] has the same body. *)
Definition extract_spec_string (spec : PyDict) (key : string) : res PyErr string :=
  raw ← required spec key; text_of raw.
Definition extract_request_string : PyDict → string → res PyErr string := extract_spec_string.

Definition extract_spec_attribute_value (spec : PyDict) (key : string) : res PyErr AttributeValue :=
  raw ← required spec key; parse_attribute_value spec raw.

Definition parse_uuid_from_any (value : PyAny) : res PyErr Uuid :=
  as_text ← text_of value; parse_uuid (trim as_text).

Definition parse_uuid_from_request_item (request : PyDict) (key : string) : res PyErr Uuid :=
  raw ← required request key; parse_uuid_from_any raw.

(** ** Scenes *)

(** An optional switch of an attribute. *)
Definition switch (spec : PyDict) (key : string) (default : bool) : res PyErr bool :=
  raw ← value_err (get_item spec key);
  match raw with
  | Some raw => if is_none raw then Ok default else value_err (extract_bool raw)
  | None => Ok default
  end.

(** The identifier of a scene or an object: given, or the one drawn. *)
Definition spec_id (spec : PyDict) (fresh : Uuid) : res PyErr Uuid :=
  raw ← value_err (get_item spec "id");
  match raw with
  | Some raw => if is_none raw then Ok fresh else parse_uuid_from_any raw
  | None => Ok fresh
  end.

(** [r.or_else(|_| other)] and [r.unwrap_or(v)]; a panic goes on. *)
Definition or_else {E A} (r other : res E A) : res E A :=
  match r with Err _ => other | _ => r end.

Definition parse_scene_attribute_spec (spec : PyDict) : res PyErr SceneAttribute :=
  name ← extract_spec_string spec "name";
  default_value ← or_else (extract_spec_attribute_value spec "default_value")
    (extract_spec_attribute_value spec "value");
  current_value ← or_else (extract_spec_attribute_value spec "value") (Ok default_value);
  let attr := set_current_value current_value (SceneAttribute_new name default_value) in
  live ← switch spec "live_enabled" attr.(live_enabled);
  record ← switch spec "record_enabled" attr.(record_enabled);
  Ok (mkAttribute attr.(attr_name) attr.(Model.default_value) attr.(Model.current_value)
        live record attr.(filter_chain)).

(** The items of the iterable under [key]. *)
Definition spec_items (spec : PyDict) (key : string) : res PyErr (list (res string PyAny)) :=
  raw ← required spec key; value_err (py_iter raw).

(** An item as a dictionary. *)
Definition item_dict (what : string) (raw : res string PyAny) : res PyErr PyDict :=
  raw ← value_err raw;
  ok_or (downcast raw) (PyValueError (what +:+ " spec must be a dict")).

Definition parse_scene_object_spec (fresh : Uuid) (spec : PyDict) : res PyErr SceneObject :=
  name ← extract_spec_string spec "name";
  id ← spec_id spec fresh;
  attributes ← spec_items spec "attributes";
  res_foldl (λ object raw_attribute,
    attr_spec ← item_dict "scene attribute" raw_attribute;
    attr ← parse_scene_attribute_spec attr_spec;
    Ok (with_attribute attr object)) (mkObject id name ∅) attributes.

(** The object at position [i] draws [fresh_object i]. *)
Definition parse_scene_spec (fresh : Uuid) (fresh_object : nat → Uuid) (spec : PyDict) : res PyErr Scene :=
  name ← extract_spec_string spec "name";
  id ← spec_id spec fresh;
  objects ← spec_items spec "objects";
  res_foldl (λ scene (p : nat * res string PyAny), let '(i, raw_object) := p in
    object_spec ← item_dict "scene object" raw_object;
    object ← parse_scene_object_spec (fresh_object i) object_spec;
    Ok (with_object object scene)) (mkScene id name ∅) (imap pair objects).

(** ** Modes *)

Lemma parse_mode_to_str mode : parse_mode (mode_to_str mode) = Ok mode.
Proof. by destruct mode. Qed.

(** ** Types of attribute values *)

Lemma value_err_ok {A} (r : res string A) a : value_err r = Ok a ↔ r = Ok a.
Proof. unfold value_err, map_err. destruct r; naive_solver. Qed.

(** A value given with its type has that type, read without regard to case and
    surrounding space. *)
Lemma typed_value type_name value v :
  parse_attribute_value_typed type_name value = Ok v →
  Model.type_name v = to_ascii_lowercase (trim type_name) ∧ value_in_range v.
Proof.
  unfold parse_attribute_value_typed. intros H.
  repeat (case_decide as Ht; [rewrite Ht; apply res_fmap_ok in H as (x & H & <-);
    split; [done|]; try done; by apply value_err_ok, extract_i32_range in H|clear Ht]).
  done.
Qed.

Lemma inferred_in_range value v : parse_attribute_value_inferred value = Ok v → value_in_range v.
Proof.
  unfold parse_attribute_value_inferred. intros H. pose proof (extract_i32_range value).
  repeat case_match; naive_solver.
Qed.

(** The type of a value parsed from a specification with a [type] entry. *)
Lemma typed_entry spec t key v :
  explicit_type spec = Ok (Some t) → extract_spec_attribute_value spec key = Ok v →
  Model.type_name v = to_ascii_lowercase (trim t) ∧ value_in_range v.
Proof.
  unfold extract_spec_attribute_value, parse_attribute_value. intros Ht (raw & _ & H)%res_bind_ok.
  rewrite Ht in H. simpl in H. by apply (typed_value _ raw).
Qed.

Lemma entry_in_range spec key v : extract_spec_attribute_value spec key = Ok v → value_in_range v.
Proof.
  unfold extract_spec_attribute_value, parse_attribute_value.
  intros (raw & _ & (t & _ & H)%res_bind_ok)%res_bind_ok.
  destruct t as [t|]; [by apply typed_value in H as [_ ?]|by apply inferred_in_range in H].
Qed.

(** ** Well-formed scenes *)

(** The two values of an attribute cannot disagree about its type: it is given
    by a [type] entry, or one of them is taken for both. *)
Definition one_type (spec : PyDict) : Prop :=
  (∃ t, explicit_type spec = Ok (Some t)) ∨
  is_ok (extract_spec_attribute_value spec "default_value") = false ∨
  is_ok (extract_spec_attribute_value spec "value") = false.

Lemma or_else_ok {A} (r other : res PyErr A) a :
  or_else r other = Ok a → r = Ok a ∨ is_ok r = false ∧ other = Ok a.
Proof. destruct r; naive_solver. Qed.

Lemma attribute_spec_wf spec a :
  parse_scene_attribute_spec spec = Ok a → one_type spec → attribute_wf a.(attr_name) a.
Proof.
  unfold parse_scene_attribute_spec. intros H Hone. inv_res. subst a. cbn in *.
  rename select (or_else (extract_spec_attribute_value spec "default_value") _ = _) into Hd.
  rename select (or_else (extract_spec_attribute_value spec "value") _ = _) into Hc.
  unfold attribute_wf. cbn. split; [done|].
  apply or_else_ok in Hd as [Hd|[Hd Hd']], Hc as [Hc|[Hc Hc']]; simplify_eq;
    repeat split; eauto using entry_in_range; try congruence.
  destruct Hone as [[t Ht]|[Hn|Hn]]; [|by rewrite Hd in Hn|by rewrite Hc in Hn].
  pose proof (typed_entry _ _ _ _ Ht Hd) as [-> _]. by pose proof (typed_entry _ _ _ _ Ht Hc) as [-> _].
Qed.

(** The dictionaries among the items under [key], and the specifications of
    attributes of a scene. *)
Definition dicts (spec : PyDict) (key : string) : list PyDict :=
  match spec_items spec key with
  | Ok items => omap (λ raw, match raw with Ok raw => downcast raw | _ => None end) items
  | _ => []
  end.
Definition attribute_specs (spec : PyDict) : list PyDict :=
  object_spec ← dicts spec "objects"; dicts object_spec "attributes".

Lemma item_dict_ok what raw spec : item_dict what raw = Ok spec →
  (match raw with Ok raw => downcast raw | _ => None end) = Some spec.
Proof.
  unfold item_dict. intros (raw' & ->%value_err_ok & H)%res_bind_ok. by apply ok_or_ok in H.
Qed.

Lemma object_spec_wf fresh spec o :
  parse_scene_object_spec fresh spec = Ok o →
  (∀ d, d ∈ dicts spec "attributes" → one_type d) → object_wf o.(obj_id) o.
Proof.
  unfold parse_scene_object_spec, dicts. intros H Hone. inv_res.
  rename select (spec_items _ _ = _) into Hi. rewrite Hi in Hone.
  rename select (res_foldl _ _ _ = _) into Hl. revert Hl.
  apply (res_foldl_inv (λ o, object_wf o.(obj_id) o)); [done|].
  intros o1 raw o2 Hraw Ho1 Hstep. inv_res. subst o2.
  rename select (item_dict _ _ = _) into Hd. apply item_dict_ok in Hd.
  apply with_attribute_wf; [done|]. eapply attribute_spec_wf; [done|]. apply Hone, list_elem_of_omap. eauto.
Qed.

(** C24. A scene built from a Python dictionary is well formed, so every theorem
    about scenes applies to it, when no attribute is given two values whose
    types are left to be inferred: objects are found under their identifiers,
    attributes under their names, and every current value has the type of its
    default. *)
Theorem python_scene_well_typed fresh fresh_object spec s :
  parse_scene_spec fresh fresh_object spec = Ok s →
  Forall one_type (attribute_specs spec) → scene_wf s.
Proof.
  unfold parse_scene_spec, attribute_specs, dicts at 2. rewrite Forall_forall. intros H Hone. inv_res.
  rename select (spec_items _ _ = _) into Hi. rewrite Hi in Hone.
  rename select (res_foldl _ _ _ = _) into Hl. revert Hl.
  apply (res_foldl_inv scene_wf); [apply map_Forall_empty|].
  intros s1 [i raw] s2 Hraw Hs1 Hstep. inv_res. subst s2.
  rename select (item_dict _ _ = _) into Hd. apply item_dict_ok in Hd.
  apply with_object_wf; [done|]. eapply object_spec_wf; [done|].
  intros d Hdd. apply Hone, list_elem_of_bind. eexists. split; [exact Hdd|].
  apply list_elem_of_omap. exists raw. split; [|exact Hd].
  apply elem_of_lookup_imap in Hraw as (? & ? & [= <- <-] & Hx). by eapply list_elem_of_lookup_2.
Qed.

(** ** Values to Python and back *)

(** The single-precision numbers of a value. *)
Definition value_floats (v : AttributeValue) : list f32 :=
  match v with
  | Float32 x => [x]
  | Vec2f v => vec_to_list v
  | Vec3f v => vec_to_list v
  | Vec4f v | Quatf v => vec_to_list v
  | Mat4f v => concat (vec_to_list <$> vec_to_list v)
  | _ => []
  end.

(** They are [f32] values: the [f64] that has them rounds to them. *)
Definition single_precision (v : AttributeValue) : Prop :=
  Forall (λ x, through_f64 x = x) (value_floats v).

Lemma map_through l : Forall (λ x, through_f64 x = x) l → map through_f64 l = l.
Proof. induction 1 as [|x l Hx Hl IH]; [done|]. simpl. by rewrite Hx, IH. Qed.

Lemma map_rows_through l : Forall (λ x, through_f64 x = x) (concat l) → map (map through_f64) l = l.
Proof.
  induction l as [|r l IH]; [done|]. simpl. rewrite Forall_app. intros [Hr Hl].
  by rewrite map_through, IH.
Qed.

Lemma extract_vec_of_floats n (v : vec f32 n) :
  Forall (λ x, through_f64 x = x) (vec_to_list v) →
  extract_vec_f32 n (of_floats (vec_to_list v)) = Ok v.
Proof.
  intros Hv. unfold extract_vec_f32. rewrite extract_of_floats, map_through by done. simpl.
  destruct (decide _) as [e|n']; [|by destruct n'; rewrite length_vec_to_list].
  f_equal. apply vec_to_list_inj2. destruct e. simpl. by rewrite vec_to_list_to_vec.
Qed.

Lemma extract_mat4f_of_rows (v : vec (vec f32 4) 4) :
  Forall (λ x, through_f64 x = x) (concat (vec_to_list <$> vec_to_list v)) →
  extract_mat4f (of_rows (vec_to_list <$> vec_to_list v)) = Ok v.
Proof.
  intros Hv. unfold extract_mat4f. rewrite extract_of_rows, map_rows_through by done. clear Hv.
  assert (∀ r : vec f32 4, ∃ a b c d, r = [# a; b; c; d]) as Hrow.
  { intros r. inv_all_vec_fin. by eexists _, _, _, _. }
  inv_all_vec_fin.
  repeat match goal with
  | r : vec f32 4 |- _ => destruct (Hrow r) as (? & ? & ? & ? & ->)
  end.
  reflexivity.
Qed.

Lemma lower_type_name v : to_ascii_lowercase (trim (type_name v)) = type_name v.
Proof. by destruct v; vm_compute. Qed.

(** The value of an attribute shown to a Python script and given back with
    the name of its type is the value it was. *)
Theorem python_value_roundtrip v :
  value_in_range v → single_precision v →
  parse_attribute_value_typed (type_name v) (attribute_value_to_py v) = Ok v.
Proof.
  intros Hr Hs. unfold parse_attribute_value_typed, single_precision in *. rewrite lower_type_name.
  destruct v as [b|z|x|x|v|v|v|v|v|b]; cbn [type_name attribute_value_to_py value_in_range value_floats] in *;
    repeat (rewrite decide_False by done); rewrite decide_True by done.
  1, 10: by rewrite extract_of_bool.
  - by rewrite extract_of_i32.
  - rewrite extract_f32_of_f64. apply (Forall_singleton (λ x, through_f64 x = x)) in Hs.
    cbn. do 2 f_equal. exact Hs.
  - by rewrite extract_of_f64.
  - by rewrite extract_vec_of_floats.
  - by rewrite extract_vec_of_floats.
  - by rewrite extract_vec_of_floats.
  - by rewrite extract_vec_of_floats.
  - by rewrite extract_mat4f_of_rows.
Qed.
End values.
