(* ===== verification/PythonSdk.v ===== *)
(** [motionstage-sdk-python/src/lib.rs], the class [MotionStageServer]: a server
    that runs inside a Python process, driven by method calls.

    A method runs the server's method to its end and turns its error into a
    Python exception; the state is the server's. *)

From S2P Require Import Prelude Text Float Net IndexMap Protocol Model Transform Runtime Media Codec.
From S2P Require Import Recording WebRtc Transport Server ServerRuntime Display PyValues.

Local Open Scope Z_scope.

Section python.
Context {M : Type → Type} `{!IndexMap Uuid M} {fmt : UuidFormat} {crate : WebRtcCrate}
  {fs : FileSystem} {bm : Bincode RecordingManifest} {bk : Bincode (list RecordingMarker)}
  {bf : Bincode RecordedFrame} {texts : ErrorText} {net : Network}
  {utext : @UuidText fmt} {uerr : UuidErrorText} {py : PyObjects}.
Abbreviation Server := (ServerState M).
Abbreviation method := (prog Server PyErr).
Implicit Types s : Server.

(** [self.rt.block_on(..).map_err(|err| PyRuntimeError::new_err(err.to_string()))]. *)
Definition block_on {A} (m : prog Server ServerError A) : method A :=
  zoom id (λ s _, s) (λ e, PyRuntimeError (server_error_text e)) m.

(** [PyMotionStageServer::new], given what building the executor gives. *)
Definition PyMotionStageServer_new (server_name : option string) (rt : res string ())
    (w : rtc_world) (d : gmap string (list byte)) : res PyErr Server :=
  let def := ServerConfig_default in
  let config := mkConfig (default def.(name) server_name) (mkAddr "127.0.0.1" false 0) def.(security_mode)
    false def.(max_sessions) def.(tick_hz) def.(publish_hz) def.(supported_features) def.(cfg_lease)
    def.(pairing_token) def.(api_key) in
  map_err PyRuntimeError rt ≫= λ _, Ok (ServerHandle_new config w d).

Definition py_start : method string :=
  adv ← block_on server_start;
  mret (adv.(bind_host) +:+ ":" +:+ show_Z adv.(bind_port)).

Definition py_stop : method () := block_on server_stop.

Definition py_upsert_scene (fresh : Uuid) (fresh_object : nat → Uuid) (spec : PyDict) : method string :=
  scene ← lift (parse_scene_spec fresh fresh_object spec);
  scene_id ← block_on (load_scene scene);
  mret (uuid_to_string scene_id).

Definition py_set_active_scene (scene_id : string) : method () :=
  scene_id ← lift (parse_uuid (trim scene_id));
  block_on (set_active_scene scene_id).

Definition py_set_live_mode (now : Z) : method () := block_on (ServerRuntime.set_mode Live now).
Definition py_set_stopped_mode (now : Z) : method () := block_on (ServerRuntime.set_mode Idle now).

Definition py_set_mode (mode : string) (now : Z) : method string :=
  requested ← lift (parse_mode mode);
  block_on (ServerRuntime.set_mode requested now);;
  mret (mode_to_str requested).

Definition py_mode : method string :=
  self ← get; mret (mode_to_str (server_mode self)).

Definition py_set_mode_control_allowlist (device_ids : list string) : method () :=
  parsed ← lift (res_foldl (λ parsed raw,
    id ← map_err (λ err, PyValueError ("invalid device id " +:+ backquote +:+ raw +:+ backquote
                                       +:+ ": " +:+ err))
      (ok_or (uuid_parse (trim raw)) (uuid_error (trim raw)));
    Ok (parsed ++ [id])) [] device_ids);
  block_on (set_mode_control_allowlist parsed).

Definition py_mode_control_allowlist : method (list string) :=
  self ← get; mret (uuid_to_string <$> mode_control_allowlist self).

Definition py_metrics : method (Z * Z * Z * Z * Z * Z * Z) :=
  self ← get;
  let m := server_metrics self in
  mret (m.(accepted_sessions), m.(rejected_sessions), m.(motion_datagrams), m.(motion_updates),
        m.(signaling_messages), m.(scheduler_ticks), m.(publish_ticks)).

Definition py_start_recording (id : Uuid) (path : string) (now : Z) : method string :=
  recording_id ← block_on (start_recording id path now);
  mret (uuid_to_string recording_id).

Definition py_stop_recording (now : Z) : method () :=
  block_on (stop_recording now);; mret ().

Definition py_session (session : SessionInfo) :=
  (uuid_to_string session.(s_device_id), session.(s_device_name),
   uuid_to_string <$> session.(s_session_id), role_to_str <$> session.(s_roles),
   feature_to_str <$> session.(s_features), session.(s_advertised_attributes),
   debug_session_state session.(s_state)).
Definition py_sessions : method _ := self ← get; mret (py_session <$> server_sessions self).

(** An entry of a request that is there and not [None]; errors of the lookup
    count as absence. *)
Definition given (request : PyDict) (key : string) : option PyAny :=
  match get_item request key with
  | Ok (Some raw) => if is_none raw then None else Some raw
  | _ => None
  end.

Definition request_mask (request : PyDict) : res PyErr (option (list nat)) :=
  match given request "component_mask" with
  | Some raw => Some <$> value_err (extract_indices raw)
  | None => Ok None
  end.

(** The scene a request names, or else the active one. *)
Definition request_scene (request : PyDict) (active : option SceneId) : res PyErr SceneId :=
  match given request "target_scene" with
  | Some raw => parse_uuid_from_any raw
  | None => ok_or active (PyRuntimeError "no active scene")
  end.

Definition py_create_mapping (id : MappingId) (request : PyDict) (now : Z) : method string :=
  source_device ← lift (parse_uuid_from_request_item request "source_device");
  source_output ← lift (extract_request_string request "source_output");
  target_attribute ← lift (extract_request_string request "target_attribute");
  component_mask ← lift (request_mask request);
  self ← get;
  let snap := runtime_snapshot self in
  target_scene ← lift (request_scene request snap.(snap_active_scene));
  scene ← lift (ok_or (im_get target_scene snap.(snap_scenes))
    (PyRuntimeError ("scene not found: " +:+ uuid_to_string target_scene)));
  target_object ← lift (parse_uuid_from_request_item request "target_object_id");
  fail_if (negb (bool_decide (is_Some (scene.(objects) !! target_object))))
    (PyRuntimeError ("target object id not found in scene: " +:+ uuid_to_string target_object));;
  mapping_id ← block_on (create_mapping id (mkRequest source_device source_output target_scene
    target_object target_attribute component_mask) now);
  mret (uuid_to_string mapping_id).

Definition py_remove_mapping (mapping_id : string) (now : Z) : method () :=
  mapping_id ← lift (parse_uuid (trim mapping_id));
  block_on (remove_mapping mapping_id now).

Definition py_reset_scene_to_baseline (scene_id : option string) : method Z :=
  parsed_scene ← lift (parse_optional_uuid scene_id);
  block_on (reset_scene_to_baseline parsed_scene).

Definition py_commit_scene_baseline (scene_id : option string) : method Z :=
  parsed_scene ← lift (parse_optional_uuid scene_id);
  block_on (commit_scene_baseline parsed_scene).

Definition py_commit_object_baseline (object_id : string) (scene_id : option string) : method Z :=
  object_id ← lift (parse_uuid (trim object_id));
  parsed_scene ← lift (parse_optional_uuid scene_id);
  block_on (commit_object_baseline parsed_scene object_id).

Definition py_runtime_attribute_values : method (list (string * string * string * PyAny)) :=
  self ← get;
  let snap := snapshot self.(runtime) in
  mret (match snap.(snap_active_scene) ≫= λ id, im_get id snap.(snap_scenes) with
    | None => []
    | Some scene =>
        object ← by_id scene.(objects);
        attr ← snd <$> sort_by_key string_le fst (map_to_list object.(attributes));
        [(uuid_to_string object.(obj_id), object.(obj_name), attr.(attr_name),
          attribute_value_to_py attr.(current_value))]
    end).

(** ** Modes *)

(** A script that sets a mode, in any spelling, is told the canonical name
    of the mode it asked for, and asking for the mode then gives that name. *)
Theorem python_mode_agrees raw now s s' t :
  py_set_mode raw now s = (s', Ok t) →
  py_mode s' = (s', Ok t) ∧ parse_mode t = parse_mode raw.
Proof.
  unfold py_set_mode. intros H.
  apply prog_bind_inv_ok in H as (s1 & m & [-> Hm]%lift_inv & H).
  apply prog_bind_inv_ok in H as (s2 & [] & Hset & [= <- <-]).
  rewrite parse_mode_to_str, Hm. split; [|done].
  unfold py_mode, get, mbind, prog_bind, mret, prog_ret. do 3 f_equal.
  unfold block_on, ServerRuntime.set_mode, on_runtime, on_writer, Runtime.set_mode in Hset. revert Hset.
  unfold_prog. repeat case_match; intros; simplify_eq/=; done.
Qed.

(** ** Mappings *)

(** The request a dictionary stands for: the scene is the active one unless
    the dictionary names another. *)
Definition asked_request (request : PyDict) s : res PyErr MappingRequest :=
  source_device ← parse_uuid_from_request_item request "source_device";
  source_output ← extract_request_string request "source_output";
  target_attribute ← extract_request_string request "target_attribute";
  component_mask ← request_mask request;
  target_scene ← request_scene request s.(runtime).(active_scene);
  target_object ← parse_uuid_from_request_item request "target_object_id";
  Ok (mkRequest source_device source_output target_scene target_object target_attribute component_mask).

Lemma set_runtime_same s : set_runtime s.(runtime) s = s.
Proof. by destruct s. Qed.

(** The server refuses a request whose target does not exist, and stays as it was. *)
Lemma create_mapping_no_target id req now s :
  (∀ scene, im_get req.(rq_target_scene) s.(runtime).(scenes) = Some scene →
            scene.(objects) !! req.(rq_target_object) = None) →
  ∃ e, create_mapping id req now s = (s, Err e).
Proof.
  intros Hnone. set (c := s.(runtime)) in *.
  assert (∃ e, Runtime.create_mapping id req now c = (c, Err e)) as [e He].
  { unfold Runtime.create_mapping. change ((get ≫= ?f) c) with (f c c); cbv beta.
    destruct (bool_decide _); [by eexists|].
    assert (∃ e, ensure_target_exists c req.(rq_target_scene) req.(rq_target_object)
                   req.(rq_target_attribute) = Err e) as [e He].
    { unfold ensure_target_exists. destruct (im_get _ _) as [scene|]; [|by eexists].
      simpl. rewrite (Hnone scene) by done. by eexists. }
    exists e. rewrite (prog_bind_ok _ _ _ _ _ (eq_refl : fail_if false _ c = (c, Ok ()))).
    apply prog_bind_err. unfold lift. by rewrite He. }
  exists (ECore e). unfold create_mapping. apply prog_bind_err. unfold on_runtime, zoom. fold c.
  rewrite He. f_equal. apply set_runtime_same.
Qed.

(** C23. Creating a mapping from a script is creating it on the server: the
    checks the binding makes before the call refuse nothing the server would
    accept. The state afterwards is the server's, the result is the text of the
    identifier the server gives, and a malformed request leaves all as it was. *)
Theorem python_create_mapping_agrees id request now s :
  let '(s1, r) := py_create_mapping id request now s in
  match asked_request request s with
  | Ok req =>
      let '(s2, r') := create_mapping id req now s in
      s1 = s2 ∧ ∀ text, r = Ok text ↔ ∃ mapping_id, r' = Ok mapping_id ∧ text = uuid_to_string mapping_id
  | _ => s1 = s ∧ is_ok r = false
  end.
Proof.
  unfold py_create_mapping, asked_request, mbind, prog_bind, res_bind, get, lift.
  destruct (parse_uuid_from_request_item request "source_device") as [dev| |]; [|done..].
  destruct (extract_request_string request "source_output") as [out| |]; [|done..].
  destruct (extract_request_string request "target_attribute") as [att| |]; [|done..].
  destruct (request_mask request) as [mask| |]; [|done..].
  cbn [runtime_snapshot snapshot snap_active_scene snap_scenes].
  destruct (request_scene request s.(runtime).(active_scene)) as [scene_id| |]; [|done..].
  destruct (parse_uuid_from_request_item request "target_object_id") as [ob| |].
  2, 3: by destruct (ok_or _ _).
  set (req := mkRequest _ _ _ _ _ _).
  destruct (im_get scene_id s.(runtime).(scenes)) as [scene|] eqn:Hscene; cbn [ok_or].
  2: { destruct (create_mapping_no_target id req now s) as [e ->]; [cbn; congruence|]. naive_solver. }
  destruct (scene.(objects) !! ob) as [o|] eqn:Ho.
  - rewrite bool_decide_true by by eexists. cbn [negb fail_if mret prog_ret].
    unfold block_on, zoom, Datatypes.id. destruct (create_mapping id req now s) as [s2 [m| |]]; cbn; naive_solver.
  - rewrite (bool_decide_eq_false_2 (is_Some None)) by (intros [x Hx]; congruence). cbn [negb fail_if throw].
    destruct (create_mapping_no_target id req now s) as [e ->]; [cbn; congruence|]. naive_solver.
Qed.
End python.
