(* ===== verification/PythonFixtures.v ===== *)
(** Python objects as a concrete type, scripts run against it, and the
    instances of the theorems on the Python binding. *)

From S2P Require Import Prelude Text Float Net IndexMap Protocol Model Transform Runtime Media Codec.
From S2P Require Import Recording WebRtc Transport Server ServerRuntime Fixtures ServerFixtures.
From S2P Require Import PyValues PythonSdk.

Local Open Scope Z_scope.

Inductive pyv :=
  | PNone
  | PBool (b : bool)
  | PInt (z : Z)
  | PFloat (x : f64)
  | PStr (s : string)
  | PList (l : list pyv)
  | PDict (d : list (string * pyv)).

(** A Python [bool] is an integer, and an integer is a real number. *)
Definition pyv_i32 (o : pyv) : res string Z :=
  match o with
  | PInt z => if decide (in_i32 z) then Ok z else Err "out of range integral type conversion attempted"
  | PBool b => Ok (if b then 1 else 0)
  | _ => Err "object cannot be interpreted as an integer"
  end.
Definition pyv_f64 (o : pyv) : res string f64 :=
  match o with
  | PFloat x => Ok x
  | PInt z => Ok (F64.of_Z z)
  | PBool b => Ok (F64.of_Z (if b then 1 else 0))
  | _ => Err "must be real number"
  end.
Definition pyv_f32 (o : pyv) : res string f32 := f64_as_f32 <$> pyv_f64 o.
Definition pyv_list {A} (f : pyv → res string A) (o : pyv) : res string (list A) :=
  match o with PList l => mapM f l | _ => Err "object cannot be converted to a sequence" end.
Definition pyv_index (o : pyv) : res string nat :=
  match o with
  | PInt z => if decide (0 ≤ z) then Ok (Z.to_nat z) else Err "can't convert negative int to unsigned"
  | _ => Err "object cannot be interpreted as an integer"
  end.
Definition pyv_str (o : pyv) : string :=
  match o with
  | PNone => "None"
  | PBool b => if b then "True" else "False"
  | PInt z => show_Z z
  | PStr s => s
  | _ => "<object>"
  end.

#[export] Instance plain_python : PyObjects.
Proof.
  refine {|
    PyAny := pyv;
    PyDict := list (string * pyv);
    get_item d key := Ok ((λ p, p.2.2) <$> list_find (λ p : string * pyv, p.1 = key) d);
    downcast o := match o with PDict d => Some d | _ => None end;
    is_none o := match o with PNone => true | _ => false end;
    py_iter o := match o with
      | PList l => Ok (Ok <$> l)
      | PDict d => Ok ((λ p, Ok (PStr p.1)) <$> d)
      | _ => Err "object is not iterable"
      end;
    py_str o := Ok (pyv_str o);
    extract_string o := match o with PStr s => Ok s | _ => Err "object cannot be converted to a string" end;
    extract_bool o := match o with PBool b => Ok b | _ => Err "object cannot be converted to a bool" end;
    extract_i32 := pyv_i32;
    extract_f32 := pyv_f32;
    extract_f64 := pyv_f64;
    extract_indices := pyv_list pyv_index;
    extract_floats := pyv_list pyv_f32;
    extract_rows := pyv_list (pyv_list pyv_f32);
    of_bool := PBool;
    of_i32 := PInt;
    of_f64 := PFloat;
    of_floats l := PList (map (λ x, PFloat (f32_as_f64 x)) l);
    of_rows l := PList (map (λ r, PList (map (λ x, PFloat (f32_as_f64 x)) r)) l);
  |}; try done.
  - intros z Hz. simpl. by rewrite decide_True.
  - intros [|[]|z| | | |] z'; simpl; try done; try (intros [= <-]; done).
    case_decide; [|done]. by intros [= <-].
  - intros l. induction l as [|x l IH]; [done|]. simpl in *. by rewrite IH.
  - intros l. induction l as [|r l IH]; [done|]. simpl in *. rewrite IH.
    assert (mapM pyv_f32 (map (λ x, PFloat (f32_as_f64 x)) r) = Ok (map through_f64 r)) as ->; [|done].
    clear. induction r as [|x r IH]; [done|]. simpl in *. by rewrite IH.
Defined.

#[local] Existing Instances decimal_uuid decimal_text.
#[export] Instance plain_uuid_error : UuidErrorText := λ _, "invalid uuid".

(** ** A scene from a script *)

Definition spec_attribute (entries : list (string * pyv)) : pyv :=
  PDict (("name", PStr "pos") :: entries).
Definition spec_scene (attribute : pyv) : list (string * pyv) :=
  [("name", PStr "set"); ("id", PStr "1");
   ("objects", PList [PDict [("name", PStr "camera"); ("id", PStr "2"); ("attributes", PList [attribute])]])].
Definition typed_attribute : pyv :=
  spec_attribute [("type", PStr " Vec3F "); ("default_value", PList [PInt 0; PInt 0; PInt 0]);
                  ("value", PList [PInt 1; PInt 2; PInt 3]); ("record_enabled", PBool false)].
Definition parse_example (attribute : pyv) : res PyErr Scene :=
  parse_scene_spec 10%N (λ i, N.of_nat i) (spec_scene attribute).

(** The scene [typed_attribute] stands for. *)
Definition typed_scene : Scene :=
  mkScene 1%N "set" {[ 2%N := mkObject 2%N "camera" {[ "pos" :=
    mkAttribute "pos" (f32_vec3 0 0 0) (f32_vec3 1 2 3) true false [Passthrough] ]} ]}.

Lemma python_scene_well_typed_witness :
  parse_example typed_attribute = Ok typed_scene ∧ scene_wf typed_scene.
Proof.
  assert (parse_example typed_attribute = Ok typed_scene) as H by (vm_compute; reflexivity).
  split; [exact H|].
  apply (python_scene_well_typed _ _ _ _ H).
  constructor; [left; exists " Vec3F "; reflexivity|constructor].
Defined.

Lemma python_value_roundtrip_witness :
  parse_attribute_value_typed "vec3f" (attribute_value_to_py (f32_vec3 1 2 3)) = Ok (f32_vec3 1 2 3).
Proof.
  apply (python_value_roundtrip (f32_vec3 1 2 3)); [exact I|].
  repeat (constructor; [vm_compute; reflexivity|]). constructor.
Defined.

Definition going_live := py_set_mode " LIVE" 5 (open_server 2).
Lemma python_mode_agrees_witness :
  py_mode going_live.1 = (going_live.1, Ok "live") ∧ parse_mode "live" = parse_mode " LIVE".
Proof.
  apply (python_mode_agrees " LIVE" 5 (open_server 2) going_live.1 "live").
  apply run_result. vm_compute. reflexivity.
Defined.

(** What scripts may trip over. The allowlist they set is not kept. Two
    values without a [type] entry may give an attribute whose current value has
    not the type of its default. A value that cannot be read is ignored when the
    other one can. *)
Theorem python_gaps :
  (let s := (py_set_mode_control_allowlist ["7"] (open_server 2)).1 in
   (py_set_mode_control_allowlist ["7"] (open_server 2)).2 = Ok () ∧ (py_mode_control_allowlist s).2 = Ok []) ∧
  (∃ a, parse_scene_attribute_spec [("name", PStr "pos"); ("default_value", PInt 1);
          ("value", PFloat (F64.of_Z 1))] = Ok a ∧
        a.(default_value) = Int32 1 ∧ a.(current_value) = Float64 F64.one ∧ ¬ attribute_wf "pos" a) ∧
  (∃ a, parse_scene_attribute_spec [("name", PStr "pos"); ("type", PStr "vec3f");
          ("default_value", PList [PInt 1; PInt 2; PInt 3]); ("value", PList [PInt 1; PInt 2])] = Ok a ∧
        a.(current_value) = f32_vec3 1 2 3).
Proof.
  split; [vm_compute; done|]. split; eexists; (split; [vm_compute; reflexivity|]).
  - split; [done|]. split; [done|]. intros (_ & Ht & _). by vm_compute in Ht.
  - done.
Qed.
