(* ===== verification/UnitTest.v ===== *)
(** The vocabulary of the unit tests of the repository: a test is a program
    that panics when it fails ([unwrap], [unwrap_err], [assert!]), and passes
    when it returns. The tests themselves are in [CoreTests.v], [MediaTests.v],
    [RecordingTests.v], [ServerTests.v] and [ClientTests.v]; running them on the models of what they test checks
    the models against what the authors expect of the code. *)

From S2P Require Import Prelude Text Float FloatText Codec.

Local Open Scope Z_scope.

(** Nothing but a panic ends a test early. *)
Abbreviation test S := (prog S Empty_set).

Section test.
Context {S : Type}.

Definition unwrap {E A} (m : prog S E A) : test S A := λ s,
  match m s with (s', Ok a) => (s', Ok a) | (s', _) => (s', Panicked) end.
Definition unwrap_err {E A} (m : prog S E A) : test S E := λ s,
  match m s with (s', Err e) => (s', Ok e) | (s', _) => (s', Panicked) end.

(** [Option::unwrap], [Result::unwrap] of a value, [assert!]. *)
Definition some {A} (o : option A) : test S A := lift (match o with Some a => Ok a | None => Panicked end).
Definition okay {E A} (r : res E A) : test S A := lift (match r with Ok a => Ok a | _ => Panicked end).
Definition failure {E A} (r : res E A) : test S E := lift (match r with Err e => Ok e | _ => Panicked end).
Definition assert_that (b : bool) : test S () := if b then mret () else lift Panicked.
Definition panic {A} : test S A := lift Panicked.

(** The state of a test is what the test has set up. *)
Definition passes (t : test S ()) (s : S) : Prop := result t s = Ok ().
End test.

(** [assert_eq!] on a type whose equality is the derived one. *)
Abbreviation assert_eq x y := (assert_that (bool_decide (x = y))) (only parsing).

(** A test that has no state. *)
Abbreviation pure_test := (test ()).

(** A literal of type [f32]. *)
Definition lit (s : string) : f32 := default S754_nan (parse_f32 s).

(** A format for the finitely many values that a test stores: the position in
    the list, as one byte. *)
Definition dictionary {A} `{EqDecision A} (l : list A) : Bincode A.
Proof.
  refine {|
    serialize a := match list_find (eq a) (take 256 l) with
      | Some (i, _) => inr [byte_of_Z (Z.of_nat i)]
      | None => inl "not in the dictionary"
      end;
    deserialize bs := match bs with
      | [b] => match l !! Z.to_nat (Z_of_byte b) with Some a => inr a | None => inl "no such entry" end
      | _ => inl "length"
      end |}.
  intros a bs. destruct (list_find (eq a) (take 256 l)) as [[i x]|] eqn:Hf; [|done].
  apply list_find_Some in Hf as (Hl & <- & _). intros [= <-].
  apply lookup_take_Some in Hl as [Hl Hi].
  rewrite small_byte by (apply bool_decide_eq_true; lia). by rewrite Nat2Z.id, Hl.
Defined.
