(* ===== verification/CoreTests.v ===== *)
(** The unit tests of [crates/motionstage-core/src/runtime.rs], in its order,
    run on [Runtime.v].

    [Uuid::now_v7()] draws scene 1, objects 2 and 3, devices 7 and 8, and
    mappings from 100 on. *)

From S2P Require Import Prelude Text Float FloatText IndexMap Protocol Model Transform Runtime.
From S2P Require Import RuntimeSpec Fixtures Display UnitTest.

Local Open Scope Z_scope.

#[local] Existing Instance decimal_uuid.
#[local] Instance plain_str : StrDebug := λ s, s.

Abbreviation core_test := (test core).

Definition scene_1 : SceneId := 1%N.
Definition object_2 : ObjectId := 2%N.
Definition device_7 : Uuid := 7%N.
Definition device_8 : Uuid := 8%N.

(** [RuntimeCore::default()], where every test starts. *)
Definition default_core : core := RuntimeCore_new LeaseConfig_default.

Definition vec3 (x y z : string) : AttributeValue := Vec3f [# lit x; lit y; lit z].

(** A runtime with one object "camera" with one attribute, in a scene "shot",
    and a device that is connected. *)
Definition with_camera (name : string) (value : AttributeValue) : core_test () :=
  let object := with_attribute (SceneAttribute_new name value) (SceneObject_new object_2 "camera") in
  let scene := with_object object (Scene_new scene_1 "shot") in
  unwrap (load_scene scene);;
  unwrap (register_device_connected device_7).

Definition build_core : core_test () := with_camera "position" (vec3 "0.0" "0.0" "0.0").

(** The requests of the tests. *)
Definition request (device : Uuid) (output attribute : string) (mask : option (list nat)) : MappingRequest :=
  mkRequest device output scene_1 object_2 attribute mask.
Definition create (id : Uuid) (req : MappingRequest) (now : Z) : core_test MappingId :=
  unwrap (create_mapping id req now).
Definition update (output : string) (value : AttributeValue) : list AttributeUpdate := [mkUpdate output value].
Definition apply (updates : list AttributeUpdate) (now : Z) : core_test (gmap string AttributeValue) :=
  unwrap (apply_updates device_7 updates now).

(** [core.scenes.get(..).unwrap().objects.get(..).unwrap().attributes.get(..).unwrap()]. *)
Definition attribute_of (object_id : ObjectId) (name : string) : core_test SceneAttribute :=
  self ← get;
  scene ← some (im_get scene_1 self.(scenes));
  object ← some (scene.(objects) !! object_id);
  some (object.(attributes) !! name).

(** The [match] on the current value, then [assert_eq!] on the array. *)
Definition assert_vec3 (name : string) (expected : AttributeValue) : core_test () :=
  attribute ← attribute_of object_2 name;
  match attribute.(current_value), expected with
  | Vec3f v, Vec3f w => assert_that (arr_eqb v w)
  | _, _ => panic
  end.

(** [assert!(format!("{err}").contains(text))]. *)
Definition assert_says (e : CoreError) (text : string) : core_test () :=
  assert_that (contains text (core_error_text e)).

Definition live_mode_applies_mapped_updates : core_test () :=
  build_core;;
  create 100%N (request device_7 "pose_pos" "position" None) 100;;
  unwrap (set_mode Live);;
  applied ← apply (update "pose_pos" (vec3 "1.0" "2.0" "3.0")) 200;
  assert_eq (size applied) 1%nat;;
  self ← get;
  assert_eq self.(world).(tick_count) 1.

Definition qualified_mapping_matches_unqualified_update_for_same_device : core_test () :=
  build_core;;
  create 100%N (request device_7 (uuid_to_string device_7 +:+ ".pose_pos") "position" None) 100;;
  unwrap (set_mode Live);;
  applied ← apply (update "pose_pos" (vec3 "1.0" "2.0" "3.0")) 200;
  assert_eq (size applied) 1%nat.

Definition unqualified_mapping_matches_qualified_update_for_same_device : core_test () :=
  build_core;;
  create 100%N (request device_7 "pose_pos" "position" None) 100;;
  unwrap (set_mode Live);;
  applied ← apply (update (uuid_to_string device_7 +:+ ".pose_pos") (vec3 "1.0" "2.0" "3.0")) 200;
  assert_eq (size applied) 1%nat.

Definition unmapped_updates_are_rejected : core_test () :=
  build_core;;
  unwrap (set_mode Live);;
  err ← unwrap_err (apply_updates device_7 (update "missing" (vec3 "1.0" "2.0" "3.0")) 300);
  assert_says err "no active mapping".

Definition recording_blocks_mapping_changes : core_test () :=
  build_core;;
  unwrap (set_mode Live);;
  unwrap (set_mode Recording);;
  err ← unwrap_err (create_mapping 100%N (request device_7 "pose_pos" "position" None) 100);
  assert_says err "blocked in recording".

Definition connected_owner_blocks_mapping_conflict : core_test () :=
  build_core;;
  unwrap (register_device_connected device_8);;
  create 100%N (request device_7 "pose_pos" "position" None) 100;;
  err ← unwrap_err (create_mapping 101%N (request device_8 "pose_pos" "position" None) 200);
  assert_says err "already owned".

Definition disconnected_mapping_can_be_reclaimed_after_grace_period : core_test () :=
  build_core;;
  unwrap (register_device_connected device_8);;
  create 100%N (request device_7 "pose_pos" "position" None) 100;;
  unwrap (register_device_disconnected device_7 200);;
  early_err ← unwrap_err (create_mapping 101%N (request device_8 "pose_pos" "position" None) 5000000100);
  assert_says early_err "already owned";;
  mapping_id ← create 102%N (request device_8 "pose_pos" "position" None) 5000000201;
  self ← get;
  assert_that (bool_decide (is_Some (im_get mapping_id (snapshot self).(snap_mappings)))).

(** The test reaches into the private field. *)
Definition set_filter_chain (l : list AttributeFilter) (a : SceneAttribute) : SceneAttribute :=
  mkAttribute a.(attr_name) a.(default_value) a.(current_value) a.(live_enabled) a.(record_enabled) l.

Definition filter_chain_applies_deadband_and_clamp : core_test () :=
  build_core;;
  modify (update_attribute
    (set_filter_chain [Deadband (lit "0.2"); Clamp (lit "-1.0") (lit "1.0")]) scene_1 object_2 "position");;
  create 100%N (request device_7 "pose_pos" "position" None) 1;;
  unwrap (set_mode Live);;
  apply (update "pose_pos" (vec3 "0.1" "0.1" "0.1")) 2;;
  assert_vec3 "position" (vec3 "0.0" "0.0" "0.0");;
  apply (update "pose_pos" (vec3 "2.0" "-2.0" "0.5")) 3;;
  assert_vec3 "position" (vec3 "1.0" "-1.0" "0.5").

Definition scalar_updates_single_vector_component_with_mask : core_test () :=
  with_camera "focus_vec" (vec3 "0.0" "0.0" "0.0");;
  create 100%N (request device_7 "focus_scalar" "focus_vec" (Some [0%nat])) 10;;
  unwrap (set_mode Live);;
  apply (update "focus_scalar" (Float32 (lit "2.5"))) 11;;
  assert_vec3 "focus_vec" (vec3 "2.5" "0.0" "0.0").

Definition vector_component_can_drive_scalar_target : core_test () :=
  with_camera "focus" (Float32 (lit "0.0"));;
  create 100%N (request device_7 "pose_pos" "focus" (Some [1%nat])) 20;;
  unwrap (set_mode Live);;
  apply (update "pose_pos" (vec3 "1.0" "4.0" "9.0")) 21;;
  attribute ← attribute_of object_2 "focus";
  match attribute.(current_value) with
  | Float32 v => assert_that (feq v (lit "4.0"))
  | _ => panic
  end.

Definition invalid_component_mask_is_rejected_at_mapping_creation : core_test () :=
  with_camera "position" (vec3 "0.0" "0.0" "0.0");;
  err ← unwrap_err (create_mapping 100%N (request device_7 "pose_pos" "position" (Some [3%nat])) 30);
  assert_says err "out of bounds".

Definition vector_subset_copy_preserves_unmasked_components : core_test () :=
  with_camera "position" (vec3 "10.0" "20.0" "30.0");;
  create 100%N (request device_7 "pose_pos" "position" (Some [0%nat; 2%nat])) 40;;
  unwrap (set_mode Live);;
  apply (update "pose_pos" (vec3 "1.0" "2.0" "3.0")) 41;;
  assert_vec3 "position" (vec3 "11.0" "20.0" "33.0").

Definition relative_updates_are_composed_from_baseline : core_test () :=
  with_camera "position" (vec3 "10.0" "20.0" "30.0");;
  create 100%N (request device_7 "pose_pos" "position" None) 1;;
  unwrap (set_mode Live);;
  apply (update "pose_pos" (vec3 "1.0" "2.0" "3.0")) 2;;
  assert_vec3 "position" (vec3 "11.0" "22.0" "33.0").

Definition explicit_scene_reset_restores_defaults : core_test () :=
  with_camera "position" (vec3 "10.0" "20.0" "30.0");;
  create 100%N (request device_7 "pose_pos" "position" None) 1;;
  unwrap (set_mode Live);;
  apply (update "pose_pos" (vec3 "1.0" "2.0" "3.0")) 2;;
  unwrap (set_mode Idle);;
  assert_vec3 "position" (vec3 "11.0" "22.0" "33.0");;
  changed ← unwrap (reset_scene_to_baseline scene_1);
  assert_eq changed 1;;
  assert_vec3 "position" (vec3 "10.0" "20.0" "30.0").

Definition light_3 : ObjectId := 3%N.

Definition commit_scene_and_object_baselines_update_defaults_explicitly : core_test () :=
  let camera := with_attribute (SceneAttribute_new "position" (vec3 "10.0" "20.0" "30.0"))
    (SceneObject_new object_2 "camera") in
  let light := with_attribute (SceneAttribute_new "position" (vec3 "1.0" "2.0" "3.0"))
    (SceneObject_new light_3 "light") in
  unwrap (load_scene (with_object light (with_object camera (Scene_new scene_1 "shot"))));;
  unwrap (register_device_connected device_7);;
  create 100%N (request device_7 "pose_pos" "position" None) 1;;
  unwrap (set_mode Live);;
  apply (update "pose_pos" (vec3 "1.0" "2.0" "3.0")) 2;;
  object_changed ← unwrap (commit_object_baseline scene_1 object_2);
  assert_eq object_changed 1;;
  attribute ← attribute_of light_3 "position";
  assert_that (value_eqb attribute.(default_value) (vec3 "1.0" "2.0" "3.0"));;
  scene_changed ← unwrap (commit_scene_baseline scene_1);
  assert_eq scene_changed 0.

(** [f32::sin] and [f32::cos] are of the platform; [s] and [c] are their values
    at [FRAC_PI_4]. *)
Definition quat_relative_composition_multiplies_and_normalizes (s c : f32) : core_test () :=
  with_camera "rotation" (Quatf [# lit "0.0"; lit "0.0"; lit "0.0"; lit "1.0"]);;
  create 100%N (request device_7 "pose_rot" "rotation" None) 1;;
  unwrap (set_mode Live);;
  apply (update "pose_rot" (Quatf [# lit "0.0"; lit "0.0"; s; c])) 2;;
  attribute ← attribute_of object_2 "rotation";
  match attribute.(current_value) with
  | Quatf v =>
      assert_that (flt (fabs (F32.sub (v !!! 2%fin) s)) (lit "1e-4"));;
      assert_that (flt (fabs (F32.sub (v !!! 3%fin) c)) (lit "1e-4"))
  | _ => panic
  end.

Definition mat4 (rows : vec (vec string 4) 4) : AttributeValue := Mat4f (vmap (vmap lit) rows).

Definition mat4_relative_composition_multiplies_base_by_delta : core_test () :=
  with_camera "transform" (mat4
    [# [# "1.0"; "0.0"; "0.0"; "10.0"]; [# "0.0"; "1.0"; "0.0"; "0.0"];
       [# "0.0"; "0.0"; "1.0"; "0.0"]; [# "0.0"; "0.0"; "0.0"; "1.0"]]);;
  create 100%N (request device_7 "pose_xform" "transform" None) 1;;
  unwrap (set_mode Live);;
  apply (update "pose_xform" (mat4
    [# [# "1.0"; "0.0"; "0.0"; "1.0"]; [# "0.0"; "1.0"; "0.0"; "2.0"];
       [# "0.0"; "0.0"; "1.0"; "3.0"]; [# "0.0"; "0.0"; "0.0"; "1.0"]])) 2;;
  attribute ← attribute_of object_2 "transform";
  match attribute.(current_value) with
  | Mat4f m =>
      assert_that (feq (m !!! 0%fin !!! 3%fin) (lit "11.0"));;
      assert_that (feq (m !!! 1%fin !!! 3%fin) (lit "2.0"));;
      assert_that (feq (m !!! 2%fin !!! 3%fin) (lit "3.0"))
  | _ => panic
  end.

Definition component_mask_is_rejected_for_mat4_targets : core_test () :=
  with_camera "transform" (mat4
    [# [# "1.0"; "0.0"; "0.0"; "0.0"]; [# "0.0"; "1.0"; "0.0"; "0.0"];
       [# "0.0"; "0.0"; "1.0"; "0.0"]; [# "0.0"; "0.0"; "0.0"; "1.0"]]);;
  err ← unwrap_err (create_mapping 100%N (request device_7 "pose_xform" "transform" (Some [0%nat])) 1);
  assert_says err "unsupported for mat4f".

Definition non_composable_types_fall_back_to_absolute_transform : core_test () :=
  with_camera "enabled" (VBool false);;
  create 100%N (request device_7 "enabled" "enabled" None) 1;;
  unwrap (set_mode Live);;
  apply (update "enabled" (VBool true)) 2;;
  attribute ← attribute_of object_2 "enabled";
  assert_that (value_eqb attribute.(current_value) (VBool true)).

Definition invalid_transform_pair_is_rejected_deterministically : core_test () :=
  with_camera "focus" (Float32 (lit "0.0"));;
  create 100%N (request device_7 "focus_scalar" "focus" (Some [0%nat])) 50;;
  unwrap (set_mode Live);;
  err ← unwrap_err (apply_updates device_7 (update "focus_scalar" (Float32 (lit "1.0"))) 51);
  assert_says err "unsupported mapping transform".

Definition core_tests : list (core_test ()) :=
  [live_mode_applies_mapped_updates;
   qualified_mapping_matches_unqualified_update_for_same_device;
   unqualified_mapping_matches_qualified_update_for_same_device;
   unmapped_updates_are_rejected;
   recording_blocks_mapping_changes;
   connected_owner_blocks_mapping_conflict;
   disconnected_mapping_can_be_reclaimed_after_grace_period;
   filter_chain_applies_deadband_and_clamp;
   scalar_updates_single_vector_component_with_mask;
   vector_component_can_drive_scalar_target;
   invalid_component_mask_is_rejected_at_mapping_creation;
   vector_subset_copy_preserves_unmasked_components;
   relative_updates_are_composed_from_baseline;
   explicit_scene_reset_restores_defaults;
   commit_scene_and_object_baselines_update_defaults_explicitly;
   quat_relative_composition_multiplies_and_normalizes (lit "0.70710677") (lit "0.70710677");
   mat4_relative_composition_multiplies_base_by_delta;
   component_mask_is_rejected_for_mat4_targets;
   non_composable_types_fall_back_to_absolute_transform;
   invalid_transform_pair_is_rejected_deterministically].

(** The model of the runtime passes the tests of the runtime. *)
Theorem core_tests_pass : Forall (λ t, passes t default_core) core_tests.
Proof. repeat (apply Forall_cons; split; [vm_compute; reflexivity|]). by apply Forall_nil. Qed.
