(* ===== verification/MediaTests.v ===== *)
(** The unit tests of [motionstage-protocol] and [motionstage-media], run on
    [Protocol.v] and [Media.v]. *)

From S2P Require Import Prelude Text Float FloatText Codec Protocol Media Display UnitTest.

Local Open Scope Z_scope.

(** ** [motionstage-protocol] *)

Definition session_state_transitions_follow_spec : pure_test () :=
  assert_that (can_transition_to Discovered TransportConnected);;
  assert_that (can_transition_to TransportConnected HelloExchanged);;
  assert_that (can_transition_to HelloExchanged Authenticated);;
  assert_that (can_transition_to Authenticated Registered);;
  assert_that (can_transition_to Registered SceneSynced);;
  assert_that (can_transition_to SceneSynced Active);;
  assert_that (can_transition_to Active Closed);;
  assert_that (negb (can_transition_to Discovered Active)).

Definition version_negotiation_accepts_backward_minor : pure_test () :=
  negotiated ← okay (negotiate_version (mkVersion 1 4) (mkVersion 1 1));
  assert_eq negotiated.(vn_selected) (mkVersion 1 1).

Definition version_negotiation_rejects_major_mismatch : pure_test () :=
  err ← failure (negotiate_version (mkVersion 1 1) (mkVersion 2 0));
  assert_that (contains "unsupported major" (protocol_error_text err)).

Definition version_negotiation_rejects_client_newer_minor : pure_test () :=
  err ← failure (negotiate_version (mkVersion 1 1) (mkVersion 1 2));
  assert_that (contains "client minor version is newer" (protocol_error_text err)).

#[export] Instance ServerHello_eq_dec : EqDecision ServerHello.
Proof. solve_decision. Defined.
#[export] Instance ClientHello_eq_dec : EqDecision ClientHello.
Proof. solve_decision. Defined.
#[export] Instance RegisterRequest_eq_dec : EqDecision RegisterRequest.
Proof. solve_decision. Defined.
#[export] Instance RegisterAccepted_eq_dec : EqDecision RegisterAccepted.
Proof. solve_decision. Defined.
#[export] Instance ControlMessage_eq_dec : EqDecision ControlMessage.
Proof. solve_decision. Defined.

(** Both calls of [bincode] under [expect]. *)
Definition survives `{Bincode ControlMessage} (message : ControlMessage) : pure_test () :=
  encoded ← okay (bincode_result id (serialize message));
  decoded ← okay (bincode_result id (deserialize encoded));
  assert_eq decoded message.

Definition control_message_supports_video_signaling_variants `{Bincode ControlMessage} (from to : Uuid) :
    pure_test () :=
  survives (CVideoSignal (mkSignal from to (Sdp (mkSdp Offer "v=0")))).

Definition control_message_supports_baseline_action_variants `{Bincode ControlMessage} (object_id : Uuid) :
    pure_test () :=
  survives (CCommitObjectBaseline None object_id).

(** Whatever the format, as long as it can express the message. *)
Lemma encoded_survives `{Bincode ControlMessage} message encoded :
  serialize message = inr encoded → passes (survives message) ().
Proof.
  intros He. unfold passes, survives, okay. rewrite He. unfold_prog.
  cbn [bincode_result]. rewrite (deserialize_serialize message encoded) by done.
  cbn. unfold assert_that. by rewrite bool_decide_eq_true_2.
Qed.

(** ** [motionstage-media] *)

Definition hdr10_requires_correct_metadata : pure_test () :=
  let descriptor := mkDescriptor 1920 1080 24 Hdr10 Bt709 Pq 10 in
  err ← failure (validate descriptor);
  assert_that (contains "BT.2020" (media_error_display err)).

Definition sdr_fallback_preserves_dcc_resolution : pure_test () :=
  let authored := mkDescriptor 3840 2160 60 Hdr10 Bt2020 Pq 10 in
  let client := mkCapability false 3840 2160 60 in
  negotiated ← okay (negotiate_stream authored client);
  assert_eq negotiated.(descriptor).(width) 3840;;
  assert_eq negotiated.(descriptor).(height) 2160;;
  assert_eq negotiated.(descriptor).(fps) 60;;
  match negotiated.(tone_map) with Hdr10ToSdr => mret () | _ => panic end.

Definition descriptor_is_rejected_when_client_cannot_meet_dcc_resolution : pure_test () :=
  let authored := mkDescriptor 3840 2160 60 Sdr Bt709 Srgb 8 in
  let client := mkCapability true 1920 1080 60 in
  err ← failure (negotiate_stream authored client);
  assert_that (contains "DCC-authored descriptor" (media_error_display err)).

(** The state of the test is its hub. *)
Definition signaling_hub_routes_and_drains_messages (a b : Uuid) : test SignalingHub () :=
  modify (enqueue (mkSignal a b (Sdp (mkSdp Offer "v=0"))));;
  hub ← get;
  let '(hub, msgs) := drain_for b hub in
  assert_eq (length msgs) 1%nat;;
  first ← some (head msgs);
  assert_eq first.(from_device) a;;
  let '(hub, msgs) := drain_for b hub in
  put hub;;
  assert_eq (length msgs) 0%nat.

(** The sink of the test, and the executor that runs a job at once. *)
Record TestPushSink := mkSink { frames : list VideoFrame; states : list StreamState }.
Definition TestPushSink_new : TestPushSink := mkSink [] [].
Definition on_frame (frame : VideoFrame) (sink : TestPushSink) : TestPushSink :=
  mkSink (sink.(frames) ++ [frame]) sink.(states).
Definition on_stream_state (state : StreamState) (sink : TestPushSink) : TestPushSink :=
  mkSink sink.(frames) (sink.(states) ++ [state]).
Definition dispatch_inline (job : option SinkCall) : test TestPushSink () :=
  modify (match job with
          | Some (OnFrame frame) => on_frame frame
          | Some (OnStreamState state) => on_stream_state state
          | None => id
          end).

Definition push_endpoint_delivers_frames_via_executor : test TestPushSink () :=
  let descriptor := mkDescriptor 1280 720 30 Sdr Bt709 Srgb 8 in
  endpoint ← okay (from_push descriptor);
  dispatch_inline (update_state endpoint Started);;
  dispatch_inline (push_frame endpoint (mkFrame 1 descriptor [Byte.x01; Byte.x02; Byte.x03]));;
  sink ← get;
  match sink.(states) with [Started] => mret () | _ => panic end;;
  assert_eq (length sink.(frames)) 1%nat.

(** The models pass the tests. *)
Theorem media_tests_pass :
  (∀ `{Bincode ControlMessage} from to object_id bs bs',
    serialize (CVideoSignal (mkSignal from to (Sdp (mkSdp Offer "v=0")))) = inr bs →
    serialize (CCommitObjectBaseline None object_id) = inr bs' →
    passes (control_message_supports_video_signaling_variants from to) () ∧
    passes (control_message_supports_baseline_action_variants object_id) ()) ∧
  Forall (λ t, passes t ())
    [session_state_transitions_follow_spec; version_negotiation_accepts_backward_minor;
     version_negotiation_rejects_major_mismatch; version_negotiation_rejects_client_newer_minor;
     hdr10_requires_correct_metadata; sdr_fallback_preserves_dcc_resolution;
     descriptor_is_rejected_when_client_cannot_meet_dcc_resolution] ∧
  passes (signaling_hub_routes_and_drains_messages 7%N 8%N) SignalingHub_default ∧
  passes push_endpoint_delivers_frames_via_executor TestPushSink_new.
Proof.
  split; [intros ????????; split; by eapply encoded_survives|].
  split; [repeat (apply Forall_cons; split; [vm_compute; reflexivity|]); by apply Forall_nil|].
  split; vm_compute; reflexivity.
Qed.
