(* ===== verification/RecordingTests.v ===== *)
(** The unit tests of [motionstage-recording], [motionstage-export-chan] and
    [motionstage-export-usd], run on [Recording.v] and [Export.v]. The formats
    in the place of [bincode] are dictionaries of what the tests store. *)

From S2P Require Import Prelude Text Float FloatText IndexMap Protocol Model Fixtures Codec Recording.
From S2P Require Import RecordingProps Export UnitTest.

Local Open Scope Z_scope.

#[local] Existing Instance decimal_uuid.
#[local] Existing Instance good_disk.

#[export] Instance RecordingManifest_eq_dec : EqDecision RecordingManifest.
Proof. solve_decision. Defined.
#[export] Instance MappingFields_eq_dec : EqDecision MappingFields.
Proof. solve_decision. Defined.
#[export] Instance RecordingMarker_eq_dec : EqDecision RecordingMarker.
Proof. solve_decision. Defined.
#[export] Instance RecordedAttribute_eq_dec : EqDecision RecordedAttribute.
Proof. solve_decision. Defined.
#[export] Instance RecordedFrame_eq_dec : EqDecision RecordedFrame.
Proof. solve_decision. Defined.

(** [RecordedFrame] of the tests: the position of one object. *)
Definition position_frame (t : Z) (object_id : ObjectId) : RecordedFrame :=
  mkRecordedFrame t Protocol.Recording
    [mkRecordedAttribute object_id "position" (Vec3f [# lit "1.0"; lit "2.0"; lit "3.0"])].

(** ** [motionstage-recording] *)

Section recording.
Context {bm : Bincode RecordingManifest} {bk : Bincode (list RecordingMarker)} {bf : Bincode RecordedFrame}.

(** The state is the content of the temporary file. *)
Definition recording_roundtrip_preserves_frames_and_markers_in_v2 (id scene_id object_id : Uuid) :
    test (list byte) () :=
  let writer := push_frame (position_frame 100 object_id)
    (push_marker (ModeTransition 100 Live Protocol.Recording) (start id scene_id 100)) in
  manifest ← unwrap (finish writer);
  assert_eq manifest.(frame_count) 1;;
  file ← get;
  loaded ← okay (read_recording file);
  assert_eq loaded.(file_version) V2;;
  assert_eq loaded.(file_manifest).(frame_count) 1;;
  assert_eq (length loaded.(file_frames)) 1%nat;;
  assert_eq (length loaded.(file_markers)) 1%nat;;
  index ← okay (build_index file);
  assert_eq (length index.(frame_offsets)) 1%nat;;
  assert_that (bool_decide (is_Some index.(marker_offset))).

Definition recording_reader_supports_legacy_v1_files (id scene_id object_id : Uuid) : test (list byte) () :=
  let writer := push_frame (position_frame 100 object_id) (start_with_format id scene_id 100 V1) in
  unwrap (finish writer);;
  file ← get;
  loaded ← okay (read_recording file);
  assert_eq loaded.(file_version) V1;;
  assert_eq (length loaded.(file_markers)) 0%nat;;
  assert_eq (length loaded.(file_frames)) 1%nat.
End recording.

(** What the tests store: the manifest when the file is written, the markers,
    the frame. *)
#[local] Instance stored_manifests : Bincode RecordingManifest := dictionary [mkManifest 9%N 1%N 100 100 1].
#[local] Instance stored_markers : Bincode (list RecordingMarker) :=
  dictionary [[]; [ModeTransition 100 Live Protocol.Recording]].
#[local] Instance stored_frames : Bincode RecordedFrame := dictionary [position_frame 100 2%N].

(** ** The exporters *)

Definition nil_recording (t : Z) (attributes : list RecordedAttribute) : RecordingFile :=
  mkFile (mkManifest 0%N 0%N t (t + 1) 1) [] [mkRecordedFrame t Protocol.Recording attributes] V2.

Definition chan_output_is_deterministic : pure_test () :=
  let recording := nil_recording 0 [mkRecordedAttribute 0%N "focal" (Float32 (lit "35.0"))] in
  assert_eq (chan_export recording) (chan_export recording).

Definition vec3_is_emitted_as_channel_triplet : pure_test () :=
  let chan := chan_export (nil_recording 0
    [mkRecordedAttribute 0%N "position" (Vec3f [# lit "1.0"; lit "2.0"; lit "3.0"])]) in
  assert_that (contains "position.tx" chan);;
  assert_that (contains "position.ty" chan);;
  assert_that (contains "position.tz" chan).

Definition exporter_is_deterministic : pure_test () :=
  let recording := nil_recording 1
    [mkRecordedAttribute 0%N "position" (Vec3f [# lit "1.0"; lit "2.0"; lit "3.0"])] in
  assert_eq (usd_export recording) (usd_export recording).

Theorem recording_tests_pass :
  passes (recording_roundtrip_preserves_frames_and_markers_in_v2 9%N 1%N 2%N) [] ∧
  passes (recording_reader_supports_legacy_v1_files 9%N 1%N 2%N) [] ∧
  Forall (λ t, passes t ())
    [chan_output_is_deterministic; vec3_is_emitted_as_channel_triplet; exporter_is_deterministic].
Proof.
  split; [vm_compute; reflexivity|]. split; [vm_compute; reflexivity|].
  repeat (apply Forall_cons; split; [vm_compute; reflexivity|]). by apply Forall_nil.
Qed.
