(* ===== verification/ServerTests.v ===== *)
(** The unit tests of [crates/motionstage-server/src/lib.rs], in its order, run
    on the models of the server, its connections and its recordings.

    A test that calls methods calls those of the model. A test that starts the
    QUIC runtime talks to the handler of its connection: the accept loop of the
    runtime hands every connection over to one ([Quic.v]), so what the tests
    send goes through the handshake and the control loop. [Uuid::now_v7()] and
    [now_ns()] are the numbers in the tests. The [webrtc] crate gives out peers
    by number and texts for descriptions; the formats in the place of
    [bincode] are dictionaries of what the tests store. *)

From S2P Require Import Prelude Text Float FloatText IndexMap Protocol Model Transform Runtime RuntimeSpec.
From S2P Require Import Fixtures Media Codec Recording RecordingProps WebRtc Transport Server.
From S2P Require Import ServerRuntime ServerVideo ServerLoop ServerSpec ServerSessions.
From S2P Require Import Display UnitTest RecordingTests.

Local Open Scope Z_scope.

#[local] Existing Instance decimal_uuid.
#[local] Existing Instance good_disk.
#[local] Existing Instance display_texts.
#[local] Instance quoted_str : StrDebug := λ s, s.

#[local] Instance numbered_peers : WebRtcCrate.
Proof.
  refine {|
    rtc_world := nat;
    RTCPeerConnection := nat;
    RTCSessionDescription := string;
    rd_text d := d;
    rtc_register_default_codecs w := (w, Ok ());
    rtc_register_default_interceptors w := (w, Ok ());
    rtc_new_peer_connection w := (S w, Ok w);
    rtc_create_offer _ w := (w, Ok "v=0 offer");
    rtc_create_answer _ w := (w, Ok "v=0 answer");
    rtc_set_local_description _ _ w := (w, Ok ());
    rtc_set_remote_description _ _ w := (w, Ok ());
    rtc_parse_offer s := Ok s;
    rtc_parse_answer s := Ok s;
    rtc_add_ice_candidate _ _ w := (w, Ok ());
    rtc_add_track _ _ _ w := (w, Ok ()) |}.
Defined.

Abbreviation test_server := (ServerState (H:=numbered_peers) Fixtures.imap).
Abbreviation server_test := (test test_server).

Definition with_config (cfg : ServerConfig) : test_server := ServerHandle_new cfg 0%nat ∅.
Definition default_server : test_server := with_config ServerConfig_default.
(** The configuration of the tests over QUIC; those that leave discovery on
    start the QUIC runtime without it. *)
Definition local_config : ServerConfig :=
  let def := ServerConfig_default in
  mkConfig def.(name) (mkAddr "127.0.0.1" false 0) def.(security_mode) false def.(max_sessions)
    def.(tick_hz) def.(publish_hz) def.(supported_features) def.(cfg_lease) def.(pairing_token)
    def.(Server.api_key).
Definition local_server : test_server := with_config local_config.

Section server_tests.
Context {bm : Bincode RecordingManifest} {bk : Bincode (list RecordingMarker)} {bf : Bincode RecordedFrame}.

(** ** Steps that the tests repeat *)

Definition hello (device : Uuid) (device_name : string) (role : ClientRole) (feature : Feature)
    (attributes : list string) : ClientHello :=
  mkClientHello PROTOCOL_MAJOR PROTOCOL_MINOR device device_name [role] [feature] attributes.

Definition no_secrets : RegisterRequest := mkRegisterRequest None None.

(** From [discovered] to [authenticate]. *)
Definition introduce (h : ClientHello) : server_test () :=
  let device := h.(ch_device_id) in
  unwrap (discovered device h.(ch_device_name));;
  unwrap (transport_connected device);;
  unwrap (hello_exchanged h);;
  unwrap (authenticate device).

Definition registered (session : Uuid) (h : ClientHello) : server_test RegisterAccepted :=
  unwrap (register session h.(ch_device_id) no_secrets).

(** The whole progression. *)
Definition enter (session : Uuid) (h : ClientHello) : server_test RegisterAccepted :=
  introduce h;;
  accepted ← registered session h;
  unwrap (scene_synced h.(ch_device_id));;
  unwrap (activate h.(ch_device_id));;
  mret accepted.

Definition says (text : string) (err : ServerError) : server_test () :=
  assert_that (contains text (server_error_text err)).

Definition hdr_descriptor : VideoStreamDescriptor := mkDescriptor 1920 1080 24 Hdr10 Bt2020 Pq 10.

(** Scene 1 with object 2 ("camera") and its position. *)
Definition camera_scene (scene_name : string) (position : AttributeValue) : Scene :=
  with_object (with_attribute (SceneAttribute_new "position" position) (SceneObject_new 2%N "camera"))
    (Scene_new 1%N scene_name).
Definition position_request (device : Uuid) (output : string) : MappingRequest :=
  mkRequest device output 1%N 2%N "position" None.
Definition vec3f (x y z : string) : AttributeValue := Vec3f [# lit x; lit y; lit z].

(** Both ends of the handshake of a client; what it receives is what the tests
    expect. *)
Definition connect_quic_client (session : Uuid) (h : ClientHello) : server_test ClientHello :=
  self ← get;
  match handshake 0 session (Ok (CClientHello h)) (Ok (CRegisterRequest no_secrets)) (mkConn self [] []) with
  | (c, Ok (Some h)) =>
      put c.(server);;
      match c.(sent) with
      | [CServerHello _; CRegisterAccepted _] => mret h
      | _ => panic
      end
  | (c, _) => put c.(server);; panic
  end.
Definition connect_active_quic_client (session device : Uuid) (role : ClientRole) (feature : Feature) :
    server_test ClientHello :=
  connect_quic_client session (hello device ("peer-" +:+ uuid_to_string device) role feature
    (match role with MotionSource => ["pose_pos"] | _ => [] end)).

(** [control.send(message)], and what the server sends in return. *)
Definition exchange (h : ClientHello) (message : ControlMessage) : server_test (list ControlMessage) :=
  self ← get;
  match loop_round h (CtrlReceived 0 (Some message)) (mkConn self [] []) with
  | (c, Ok _) => put c.(server);; mret c.(sent)
  | (c, _) => put c.(server);; panic
  end.
(** [control.recv()] after it. *)
Definition ask (h : ClientHello) (message : ControlMessage) : server_test ControlMessage :=
  replies ← exchange h message;
  some (head replies).

(** ** The tests *)

Definition session_progression_and_reconnect_issue_new_session_id : server_test () :=
  let ipad := hello 7%N "ipad" MotionSource Motion ["pose_pos"] in
  accepted_a ← enter 107%N ipad;
  unwrap (close_session 7%N 10);;
  introduce ipad;;
  accepted_b ← registered 108%N ipad;
  assert_that (bool_decide (accepted_a.(ra_session_id) ≠ accepted_b.(ra_session_id))).

Definition duplicate_active_device_name_is_rejected_on_register : server_test () :=
  let ipad device := hello device "ipad" MotionSource Motion ["pose_pos"] in
  introduce (ipad 7%N);;
  introduce (ipad 8%N);;
  registered 107%N (ipad 7%N);;
  err ← unwrap_err (register 108%N 8%N no_secrets);
  match err with
  | ERegisterRejected rejected =>
      assert_eq rejected.(rj_code) RoleDenied;;
      assert_that (contains "device name 'ipad'" rejected.(rj_reason))
  | _ => panic
  end.

Definition recording_blocks_remap_and_writes_cmtrk : server_test () :=
  unwrap (ServerRuntime.load_scene (camera_scene "shot" (vec3f "0.0" "0.0" "0.0")));;
  unwrap (ServerRuntime.create_mapping 100%N (position_request 7%N "pose_pos") 100);;
  unwrap (start_recording 9%N "tmp" 101);;
  err ← unwrap_err (ServerRuntime.create_mapping 101%N (position_request 7%N "pose_pos_alt") 102);
  says "blocked in recording" err;;
  manifest ← unwrap (stop_recording 110);
  assert_eq manifest.(mf_scene_id) 1%N;;
  self ← get;
  file ← some (self.(disk) !! "tmp");
  recording ← okay (read_recording file);
  assert_eq recording.(file_version) V2;;
  assert_that (existsb (λ marker, match marker with
    | ModeTransition _ _ Protocol.Recording => true | _ => false end) recording.(file_markers));;
  assert_that (existsb (λ marker, match marker with
    | MappingCreated _ _ => true | _ => false end) recording.(file_markers)).

Definition pairing_config : ServerConfig :=
  let def := ServerConfig_default in
  mkConfig def.(name) def.(quic_bind_addr) PairingRequired def.(enable_discovery) def.(max_sessions)
    def.(tick_hz) def.(publish_hz) def.(supported_features) def.(cfg_lease) (Some "abc123")
    def.(Server.api_key).
Definition pair_mode_requires_pairing_token : server_test () :=
  introduce (hello 7%N "controller" MotionSource Motion ["pose_pos"]);;
  err ← unwrap_err (register 107%N 7%N (mkRegisterRequest (Some "bad") None));
  says "registration rejected" err.

Definition hdr_descriptor_negotiates_sdr_fallback : server_test () :=
  unwrap (set_master_video_descriptor hdr_descriptor);;
  self ← get;
  stream ← okay (negotiate_video_for_client self (mkCapability false 1920 1080 24));
  assert_eq stream.(descriptor).(width) 1920;;
  match stream.(tone_map) with Hdr10ToSdr => mret () | _ => panic end.

Definition create_video_offer_creates_server_peer : server_test () :=
  unwrap (set_master_video_descriptor hdr_descriptor);;
  enter 107%N (hello 7%N "ipad" VideoSink Video []);;
  offer ← unwrap (create_video_offer 7%N "motionstage" "camera0");
  assert_eq offer.(sdp_ty) Offer;;
  assert_that (negb (is_empty offer.(sdp_text)));;
  self ← get;
  assert_that (has_video_session 7%N self).

(** The client of the test is a peer of the same crate. *)
Definition server_applies_remote_answer_for_video_peer : server_test () :=
  unwrap (set_master_video_descriptor hdr_descriptor);;
  enter 107%N (hello 7%N "ipad" VideoSink Video []);;
  offer ← unwrap (create_video_offer 7%N "motionstage" "camera0");
  client ← unwrap (on_peer WebRtcSession_new);
  unwrap (on_peer (apply_remote_sdp client offer));;
  client_answer ← unwrap (on_peer (create_answer client));
  response ← unwrap (handle_video_signal 7%N (Sdp client_answer));
  match response with None => mret () | Some _ => panic end.

Definition session_state_reaches_active : server_test () :=
  enter 107%N (hello 7%N "ipad" VideoSink Video []);;
  self ← get;
  session ← some (session_info 7%N self);
  assert_eq session.(s_state) Active.

Definition signaling_routes_between_active_sessions : server_test () :=
  enter 107%N (hello 7%N "peer-a" VideoSink Video []);;
  enter 108%N (hello 8%N "peer-b" CameraController Video []);;
  unwrap (push_signaling_message (mkSignal 7%N 8%N (Sdp (mkSdp Offer "v=0"))));;
  unwrap (push_signaling_message (mkSignal 8%N 7%N (Ice (mkIce "candidate:0" (Some "0") (Some 0)))));;
  to_b ← unwrap (drain_signaling_messages 8%N);
  assert_eq (length to_b) 1%nat;;
  to_a ← unwrap (drain_signaling_messages 7%N);
  assert_eq (length to_a) 1%nat.

Definition single_config : ServerConfig :=
  let def := ServerConfig_default in
  mkConfig def.(name) def.(quic_bind_addr) def.(security_mode) def.(enable_discovery) 1%nat
    def.(tick_hz) def.(publish_hz) def.(supported_features) def.(cfg_lease) def.(pairing_token)
    def.(Server.api_key).
Definition capacity_limit_rejects_new_discovery : server_test () :=
  unwrap (discovered 7%N "a");;
  err ← unwrap_err (discovered 8%N "b");
  says "capacity" err;;
  self ← get;
  assert_eq (session_count self) 1%nat.

Definition protocol_version_mismatch_is_rejected : server_test () :=
  unwrap (discovered 7%N "peer");;
  unwrap (transport_connected 7%N);;
  err ← unwrap_err (hello_exchanged
    (mkClientHello (PROTOCOL_MAJOR + 1) 0 7%N "peer" [MotionSource] [Motion] ["pose_pos"]));
  says "unsupported major" err.

Definition motion_source_must_advertise_attributes : server_test () :=
  unwrap (discovered 7%N "peer");;
  unwrap (transport_connected 7%N);;
  err ← unwrap_err (hello_exchanged (hello 7%N "peer" MotionSource Motion []));
  says "must advertise at least one attribute" err.

Definition quic_control_can_request_video_offer : server_test () :=
  unwrap (set_master_video_descriptor hdr_descriptor);;
  control ← connect_active_quic_client 107%N 7%N VideoSink Video;
  response ← ask control (CCreateVideoOffer "motionstage" "camera");
  match response with
  | CVideoOffer sdp =>
      assert_eq sdp.(sdp_ty) Offer;;
      assert_that (negb (is_empty sdp.(sdp_text)))
  | _ => panic
  end.

(** The tests with and without an allowlist are the same: nothing sets one. *)
Definition operator_sets_mode : server_test () :=
  control ← connect_active_quic_client 107%N 7%N Operator MappingFeature;
  response ← ask control (CSetMode Live);
  match response with
  | CModeState mode => assert_eq mode Live
  | _ => panic
  end.
Definition operator_role_can_set_mode_over_control : server_test () := operator_sets_mode.
Definition operator_role_can_set_mode_without_allowlist : server_test () := operator_sets_mode.

Definition operator_role_can_reset_scene_baseline_over_control : server_test () :=
  let attr := set_current_value (vec3f "11.0" "22.0" "33.0")
    (SceneAttribute_new "position" (vec3f "10.0" "20.0" "30.0")) in
  unwrap (ServerRuntime.load_scene
    (with_object (with_attribute attr (SceneObject_new 2%N "camera")) (Scene_new 1%N "shot")));;
  control ← connect_active_quic_client 107%N 7%N Operator MappingFeature;
  response ← ask control (CResetSceneToBaseline (Some 1%N));
  match response with
  | CBaselineActionApplied action changed_attributes =>
      assert_eq action ResetScene;;
      assert_eq changed_attributes 1
  | _ => panic
  end.

Definition non_operator_cannot_issue_baseline_control_actions : server_test () :=
  unwrap (ServerRuntime.load_scene (camera_scene "shot" (vec3f "0.0" "0.0" "0.0")));;
  control ← connect_active_quic_client 107%N 7%N VideoSink Video;
  response ← ask control (CCommitSceneBaseline None);
  match response with
  | CError code _ => assert_eq code RoleDenied
  | _ => panic
  end.

Definition quic_control_routes_and_drains_video_signals : server_test () :=
  control_a ← connect_active_quic_client 107%N 7%N VideoSink Video;
  control_b ← connect_active_quic_client 108%N 8%N VideoSink Video;
  exchange control_a (CVideoSignal (mkSignal 7%N 8%N (Sdp (mkSdp Offer "v=0"))));;
  response ← ask control_b CDrainSignals;
  match response with
  | CSignalsBatch batch =>
      assert_eq (length batch) 1%nat;;
      first ← some (head batch);
      assert_eq first.(from_device) 7%N;;
      assert_eq first.(to_device) 8%N
  | _ => panic
  end.

(** [net] binds to a port of its own choice. *)
Definition start_starts_runtime_and_stop_shuts_it_down `{Network} : server_test () :=
  adv ← unwrap server_start;
  assert_that (bool_decide (0 < adv.(bind_port)));;
  connect_active_quic_client 107%N 7%N MotionSource Motion;;
  unwrap server_stop.

Definition quic_runtime_accepts_session_and_ingests_motion : server_test () :=
  unwrap (ServerRuntime.load_scene (camera_scene "runtime" (vec3f "0.0" "0.0" "0.0")));;
  unwrap (ServerRuntime.create_mapping 100%N (position_request 7%N "pose_pos") 1);;
  unwrap (ServerRuntime.set_mode Live 2);;
  control ← connect_quic_client 107%N (hello 7%N "peer" MotionSource Motion ["pose_pos"]);
  self ← get;
  let datagram := mkDatagram 7%N 10 [mkUpdateFrame "pose_pos" (frame_of_value (vec3f "1.0" "2.0" "3.0"))] in
  match loop_round control (DatagramReceived 11 (Some datagram)) (mkConn self [] []) with
  | (c, _) => put c.(server)
  end;;
  self ← get;
  assert_that (bool_decide (0 < server_tick_count self));;
  assert_that (bool_decide (1 ≤ (server_metrics self).(motion_datagrams)));;
  assert_that (bool_decide (1 ≤ (server_metrics self).(motion_updates))).

Definition ingest_motion_datagram_matches_qualified_and_unqualified_source_outputs : server_test () :=
  unwrap (ServerRuntime.load_scene (camera_scene "runtime" (vec3f "0.0" "0.0" "0.0")));;
  qualified_mapping_id ← unwrap (ServerRuntime.create_mapping 100%N
    (position_request 7%N (uuid_to_string 7%N +:+ ".pose_pos")) 1);
  unwrap (ServerRuntime.set_mode Live 2);;
  unwrap (ingest_motion_datagram (mkDatagram 7%N 10
    [mkUpdateFrame "pose_pos" (frame_of_value (vec3f "1.0" "2.0" "3.0"))]));;
  self ← get;
  assert_that (bool_decide (0 < server_tick_count self));;
  unwrap (ServerRuntime.remove_mapping qualified_mapping_id 3);;
  unwrap (ServerRuntime.create_mapping 101%N (position_request 7%N "pose_pos") 2);;
  unwrap (ingest_motion_datagram (mkDatagram 7%N 11
    [mkUpdateFrame (uuid_to_string 7%N +:+ ".pose_pos") (frame_of_value (vec3f "2.0" "3.0" "4.0"))]));;
  self ← get;
  assert_that (bool_decide (0 < server_tick_count self)).

Definition recording_persists_resolved_runtime_values_after_relative_composition : server_test () :=
  unwrap (ServerRuntime.load_scene (camera_scene "shot" (vec3f "10.0" "20.0" "30.0")));;
  unwrap (ServerRuntime.create_mapping 100%N (position_request 7%N "pose_pos") 100);;
  unwrap (start_recording 9%N "tmp" 101);;
  unwrap (ingest_motion_samples 7%N [mkUpdate "pose_pos" (vec3f "1.0" "2.0" "3.0")] 102);;
  unwrap (stop_recording 110);;
  self ← get;
  file ← some (self.(disk) !! "tmp");
  recording ← okay (read_recording file);
  assert_eq (length recording.(file_frames)) 1%nat;;
  frame ← some (head recording.(file_frames));
  assert_eq (length frame.(rf_attributes)) 1%nat;;
  attribute ← some (head frame.(rf_attributes));
  assert_that (value_eqb attribute.(ra_value) (vec3f "11.0" "22.0" "33.0")).
End server_tests.

(** ** What the two takes store *)

Definition pose_fields : MappingFields := mkMappingFields 100%N 7%N "pose_pos" 1%N 2%N "position" None.
#[local] Instance stored_manifests : Bincode RecordingManifest :=
  dictionary [mkManifest 9%N 1%N 101 101 0; mkManifest 9%N 1%N 101 102 1].
#[local] Instance stored_markers : Bincode (list RecordingMarker) :=
  dictionary [[ModeTransition 101 Live Protocol.Recording; MappingCreated 101 pose_fields;
               ModeTransition 110 Protocol.Recording Live]].
#[local] Instance stored_frames : Bincode RecordedFrame :=
  dictionary [mkRecordedFrame 102 Protocol.Recording
    [mkRecordedAttribute 2%N "position" (vec3f "11.0" "22.0" "33.0")]].

(** A port of the platform's choice. *)
#[local] Instance some_port : Network :=
  {| net_bind a := Ok (mkAddr a.(Server.ip) a.(ip_is_unspecified) (if a.(Server.port) =? 0 then 49152 else a.(Server.port)));
     net_advertise _ := Ok (); net_join := Ok (); net_withdraw := Ok () |}.

(** The tests with the server that each of them sets up. *)
Definition server_tests : list (server_test () * test_server) :=
  [(session_progression_and_reconnect_issue_new_session_id, default_server);
   (duplicate_active_device_name_is_rejected_on_register, default_server);
   (recording_blocks_remap_and_writes_cmtrk, default_server);
   (pair_mode_requires_pairing_token, with_config pairing_config);
   (hdr_descriptor_negotiates_sdr_fallback, default_server);
   (create_video_offer_creates_server_peer, default_server);
   (server_applies_remote_answer_for_video_peer, default_server);
   (session_state_reaches_active, default_server);
   (signaling_routes_between_active_sessions, default_server);
   (capacity_limit_rejects_new_discovery, with_config single_config);
   (protocol_version_mismatch_is_rejected, default_server);
   (motion_source_must_advertise_attributes, default_server);
   (quic_control_can_request_video_offer, local_server);
   (operator_role_can_set_mode_over_control, local_server);
   (operator_role_can_set_mode_without_allowlist, local_server);
   (operator_role_can_reset_scene_baseline_over_control, local_server);
   (non_operator_cannot_issue_baseline_control_actions, local_server);
   (quic_control_routes_and_drains_video_signals, local_server);
   (start_starts_runtime_and_stop_shuts_it_down, local_server);
   (quic_runtime_accepts_session_and_ingests_motion, local_server);
   (ingest_motion_datagram_matches_qualified_and_unqualified_source_outputs, default_server);
   (recording_persists_resolved_runtime_values_after_relative_composition, default_server)].

(** The model of the server passes the tests of the server. *)
Theorem server_tests_pass : Forall (λ t, passes t.1 t.2) server_tests.
Proof. repeat (apply Forall_cons; split; [vm_compute; reflexivity|]). by apply Forall_nil. Qed.
