(* ===== verification/Hyphenated.v ===== *)
(** The text the [uuid] crate documents for an identifier: 32 hexadecimal digits
    in groups of 8, 4, 4, 4 and 12. It shows that the laws of [UuidText] hold
    of the format the program meets, and the tests that spell identifiers out
    run with it.

    The identifiers of the models have no largest one; one of more than 128 bits
    gets a longer first group. *)

From S2P Require Import Prelude Text.

Local Open Scope Z_scope.

Definition hex_digit (d : Z) : char := char_of_Z (if d <? 10 then 48 + d else 87 + d).
Definition hex_value (c : char) : option Z :=
  if is_digit c then Some (code c - 48) else if between 97 102 c then Some (code c - 87) else None.

Definition hyphen : string := String (char_of_Z 45) "".
(** A group ends with [pos] digits to follow. *)
Definition group_end (pos : nat) : string := if bool_decide (pos ∈ [12; 16; 20; 24]%nat) then hyphen else "".

(** The lowest [k] digits of [u], which [pos] more digits follow. *)
Fixpoint hex_text (k pos : nat) (u : Z) : string :=
  match k with
  | O => ""
  | S k => hex_text k (S pos) (u / 16) +:+ String (hex_digit (u mod 16)) (group_end pos)
  end.
Definition digits_of (u : Z) : nat := Nat.max 32 (S (Z.to_nat (Z.log2 u / 4))).
Definition hyphenated (u : Z) : string := hex_text (digits_of u) 0 u.

(** Digits after [acc], the hyphens passed over. *)
Fixpoint hex_number (acc : Z) (s : string) : option Z :=
  match s with
  | "" => Some acc
  | String c s =>
      if code c =? 45 then hex_number acc s
      else d ← hex_value c; hex_number (16 * acc + d) s
  end.

#[global] Instance hyphenated_uuid : UuidFormat := λ u, hyphenated (Z.of_N u).
(** The text of an identifier, and nothing else. *)
Definition hyphenated_parse (s : string) : option Uuid :=
  u ← hex_number 0 s;
  if bool_decide (hyphenated u = s) then Some (Z.to_N u) else None.

(** ** Laws *)

Lemma hex_digit_cases (P : Z → Prop) d :
  0 ≤ d < 16 → Forall P [0; 1; 2; 3; 4; 5; 6; 7; 8; 9; 10; 11; 12; 13; 14; 15] → P d.
Proof.
  intros Hd Hall. rewrite Forall_forall in Hall. apply Hall.
  assert (d = 0 ∨ d = 1 ∨ d = 2 ∨ d = 3 ∨ d = 4 ∨ d = 5 ∨ d = 6 ∨ d = 7 ∨ d = 8 ∨ d = 9 ∨ d = 10
    ∨ d = 11 ∨ d = 12 ∨ d = 13 ∨ d = 14 ∨ d = 15) as H by lia.
  rewrite !elem_of_cons. tauto.
Qed.

Lemma hex_digit_value d :
  0 ≤ d < 16 → hex_value (hex_digit d) = Some d ∧ code (hex_digit d) ≠ 45 ∧ is_uuid_char (hex_digit d) = true.
Proof.
  intros Hd. apply (hex_digit_cases (λ d, hex_value (hex_digit d) = Some d ∧ code (hex_digit d) ≠ 45
    ∧ is_uuid_char (hex_digit d) = true) d Hd). by repeat constructor.
Qed.

Lemma group_end_skipped acc pos s : hex_number acc (group_end pos +:+ s) = hex_number acc s.
Proof. unfold group_end. by case_bool_decide. Qed.

Lemma hex_number_text k : ∀ pos u acc s,
  hex_number acc (hex_text k pos u +:+ s) = hex_number (acc * 16 ^ Z.of_nat k + u mod 16 ^ Z.of_nat k) s.
Proof.
  induction k as [|k IH]; intros pos u acc s; cbn [hex_text].
  - rewrite Z.mod_1_r. change (16 ^ Z.of_nat 0) with 1. by rewrite Z.mul_1_r, Z.add_0_r.
  - rewrite <- string_app_assoc, IH, string_app_cons. cbn [hex_number].
    destruct (hex_digit_value (u mod 16)) as (Hv & Hh & _); [by apply Z.mod_pos_bound|].
    apply Z.eqb_neq in Hh. rewrite Hh, Hv. cbn [mbind option_bind]. rewrite group_end_skipped. f_equal.
    rewrite Nat2Z.inj_succ, Z.pow_succ_r by lia.
    rewrite (Z.rem_mul_r u 16 (16 ^ Z.of_nat k)) by lia. lia.
Qed.

Lemma hyphenated_number u : 0 ≤ u → hex_number 0 (hyphenated u) = Some u.
Proof.
  intros Hu. unfold hyphenated. rewrite <- (string_app_nil_r (hex_text _ _ _)), hex_number_text. cbn [hex_number].
  f_equal. rewrite Z.mul_0_l, Z.add_0_l. apply Z.mod_small. split; [done|].
  destruct (decide (u = 0)) as [->|]; [by apply Z.pow_pos_nonneg; lia|].
  apply Z.lt_le_trans with (2 ^ Z.succ (Z.log2 u)); [apply Z.log2_spec; lia|].
  pose proof (Z.log2_nonneg u). unfold digits_of.
  assert (0 ≤ Z.log2 u / 4) by (apply Z.div_pos; lia).
  pose proof (Z.div_mod (Z.log2 u) 4 ltac:(lia)). pose proof (Z.mod_pos_bound (Z.log2 u) 4 ltac:(lia)).
  change 16 with (2 ^ 4). rewrite <- Z.pow_mul_r by lia. apply Z.pow_le_mono_r; lia.
Qed.

Lemma hex_text_chars k : ∀ pos u, string_forall is_uuid_char (hex_text k pos u) = true.
Proof.
  induction k as [|k IH]; intros pos u; cbn [hex_text]; [done|].
  rewrite string_forall_app, IH. cbn [string_forall andb].
  destruct (hex_digit_value (u mod 16)) as (_ & _ & ->); [by apply Z.mod_pos_bound|].
  unfold group_end. by case_bool_decide.
Qed.

#[global] Program Instance hyphenated_text : @UuidText hyphenated_uuid := {| uuid_parse := hyphenated_parse |}.
Next Obligation.
  intros u. unfold hyphenated_parse, uuid_to_string, hyphenated_uuid.
  rewrite hyphenated_number by lia. cbn [mbind option_bind].
  rewrite bool_decide_eq_true_2 by done. by rewrite N2Z.id.
Qed.
Next Obligation. intros u. apply hex_text_chars. Qed.
Next Obligation.
  intros u He. change (hyphenated (Z.of_N u) = "") in He. unfold hyphenated in He.
  assert (1 ≤ digits_of (Z.of_N u))%nat as Hk by (unfold digits_of; lia).
  destruct (digits_of _) as [|k]; [lia|]. cbn [hex_text] in He. by destruct (hex_text k _ _).
Qed.

Example hyphenated_uuid_text :
  uuid_to_string 0x018f5ca9e8f47fd3a9234b7a25a6f4df%N = "018f5ca9-e8f4-7fd3-a923-4b7a25a6f4df".
Proof. by vm_compute. Qed.
