(* ===== verification/ClientTests.v ===== *)
(** The unit tests of [motionstage-discovery], [motionstage-transport-quic],
    [motionstage-webrtc], [motionstage-cli] ([simulate.rs]), the Swift and the
    Python bindings and [motionstage-testkit], run on their models.

    What a client and a server of one test say to each other is what each of
    the two models sends. Identifiers are the numbers in the tests, or what
    their text stands for; the clock readings of the soaks are arguments. *)

From S2P Require Import Prelude Text Float FloatText Net IndexMap Protocol Model Transform Runtime.
From S2P Require Import RuntimeSpec Fixtures Media Codec Recording RecordingProps WebRtc Transport.
From S2P Require Import Server ServerRuntime ServerVideo ServerLoop ServerSpec ServerSessions ServerPeer.
From S2P Require Import Discovery Client Cli Display Simulate SwiftSdk PyValues PythonSdk Testkit.
From S2P Require Import UnitTest MediaTests RecordingTests ServerTests Hyphenated.

Local Open Scope Z_scope.

(** ** [motionstage-discovery] *)

#[local] Existing Instance local_mdns.

Definition txt_records_include_version_and_security : pure_test () :=
  let txt := to_txt_records (default_for "cine" 7788) in
  assert_that (existsb (contains "proto_major=1") txt);;
  assert_that (existsb (contains "security=trusted_lan") txt).

Definition service_name_is_derived_from_fullname_when_txt_name_missing : pure_test () :=
  assert_eq (service_name_from_fullname "motionstage-blender._motionstage._udp.local.") "motionstage-blender".

Definition discovered_service_reads_txt_metadata : pure_test () :=
  let txt := <["name" := "motionstage-blender"]> (<["proto_major" := "1"]> {["proto_minor" := "2"]}) in
  match service_info_new SERVICE_TYPE "motionstage-blender" "motionstage-blender.local." "127.0.0.1" 7788 txt with
  | inr info =>
      let discovered := from_info info in
      assert_eq discovered.(ds_service_name) "motionstage-blender";;
      assert_eq discovered.(ds_port) 7788;;
      assert_eq discovered.(ds_protocol_major) (Some 1);;
      assert_eq discovered.(ds_protocol_minor) (Some 2)
  | inl _ => panic
  end.

(** ** [motionstage-transport-quic]

    The state is what is on its way: the bytes of the two halves of the control
    stream, or a datagram. *)

#[local] Instance ControlEnvelope_eq_dec : EqDecision ControlEnvelope.
Proof. solve_decision. Defined.
#[local] Instance AttributeValueFrame_eq_dec : EqDecision AttributeValueFrame.
Proof. solve_decision. Defined.
#[local] Instance AttributeUpdateFrame_eq_dec : EqDecision AttributeUpdateFrame.
Proof. solve_decision. Defined.
#[local] Instance MotionDatagram_eq_dec : EqDecision MotionDatagram.
Proof. solve_decision. Defined.
#[local] Instance MotionDatagramEnvelope_eq_dec : EqDecision MotionDatagramEnvelope.
Proof. solve_decision. Defined.

Definition pose_datagram (expected_device : Uuid) : MotionDatagram :=
  mkDatagram expected_device 42 [mkUpdateFrame "pose_pos" (frame_of_value (vec3f "1.0" "2.0" "3.0"))].

Section transport.
Context {be : Bincode ControlEnvelope} {bd : Bincode MotionDatagramEnvelope}.

(** What one side writes the other one reads. *)
Definition carry (message : ControlMessage) : pure_test ControlMessage :=
  bytes ← okay (Transport.send message);
  okay (result read_control_message (mkCursor bytes 0)).

Definition control_stream_roundtrip : pure_test () :=
  message ← carry CPing;
  assert_eq message CPing;;
  response ← carry CPong;
  assert_eq response CPong.

Definition motion_datagram_roundtrip (expected_device : Uuid) : pure_test () :=
  bytes ← okay (send_motion_datagram (pose_datagram expected_device));
  datagram ← okay (recv_motion_datagram bytes);
  assert_eq datagram.(md_device_id) expected_device;;
  assert_eq datagram.(md_timestamp_ns) 42;;
  assert_eq (length datagram.(md_updates)) 1%nat.
End transport.

Definition version_gate_rejects_major_or_newer_minor : pure_test () :=
  let unsupported err := match err with UnsupportedProtocolVersion _ _ _ _ => mret () | _ => panic end in
  err ← failure (validate_wire_version 2 0);
  unsupported err;;
  err ← failure (validate_wire_version 1 99);
  unsupported err.

#[local] Instance stored_envelopes : Bincode ControlEnvelope :=
  dictionary (mkControlEnvelope PROTOCOL_MAJOR PROTOCOL_MINOR <$> [CPing; CPong]).
#[local] Instance stored_datagrams : Bincode MotionDatagramEnvelope :=
  dictionary [mkDatagramEnvelope PROTOCOL_MAJOR PROTOCOL_MINOR (pose_datagram 7%N)].

(** ** [motionstage-webrtc] *)

#[local] Existing Instance numbered_peers.

Definition create_offer_returns_offer_sdp : test rtc_world () :=
  session ← unwrap WebRtcSession_new;
  offer ← unwrap (create_offer session);
  assert_eq offer.(sdp_ty) Offer;;
  assert_that (negb (is_empty offer.(sdp_text))).

(** The model of each of the three crates passes its tests. *)
Theorem crate_tests_pass :
  Forall (λ t, passes t ())
    [txt_records_include_version_and_security; service_name_is_derived_from_fullname_when_txt_name_missing;
     discovered_service_reads_txt_metadata; control_stream_roundtrip; motion_datagram_roundtrip 7%N;
     version_gate_rejects_major_or_newer_minor] ∧
  passes create_offer_returns_offer_sdp 0%nat.
Proof.
  split; [|vm_compute; reflexivity].
  repeat (apply Forall_cons; split; [vm_compute; reflexivity|]). by apply Forall_nil.
Qed.

(** ** [motionstage-cli], the simulator *)

#[local] Existing Instance hyphenated_uuid.
#[local] Existing Instance hyphenated_text.
#[local] Existing Instance good_disk.
#[local] Existing Instance display_texts.
#[local] Existing Instance quoted_str.
#[local] Instance no_manifests : Bincode RecordingManifest := dictionary [].
#[local] Instance no_markers : Bincode (list RecordingMarker) := dictionary [].
#[local] Instance no_frames : Bincode RecordedFrame := dictionary [].
(** For the messages of errors the tests do not meet. *)
#[local] Instance elided_debug : DebugText := {| debug_message _ := ".."; debug_reject_code := debug_code |}.
(** The sine where the test looks at it: at 0 and about π/2 and π. *)
#[local] Instance table_sine : Sine := λ x,
  if feq x F32.zero then F32.zero else if feq x FRAC_PI_2 then F32.one
  else if feq x PI then lit "-0.00000008742278" else S754_nan.

Definition SimulationCommand_eq_dec : EqDecision SimulationCommand.
Proof. solve_decision. Defined.
#[local] Existing Instance SimulationCommand_eq_dec.

Definition parse_record_start_with_path : pure_test () :=
  assert_eq (parse_command "record start /tmp/demo.cmtrk") (RecordStart (Some "/tmp/demo.cmtrk")).

Definition parse_tunable_commands : pure_test () :=
  assert_eq (parse_command "amp 2.5") (Amp (lit "2.5"));;
  assert_eq (parse_command "freq 1.25") (Freq (lit "1.25")).

Definition sine_vec3_uses_expected_phase_offsets : pure_test () :=
  let v := sine_vec3 (lit "2.0") (lit "0.0") (lit "10.0") in
  let close (i : fin 3) x := assert_that (flt (fabs (F32.sub (v !!! i) (lit x))) (lit "0.0001")) in
  close 0%fin "0.0";;
  close 1%fin "2.0";;
  close 2%fin "0.0".

Definition parse_connect_target_accepts_socket_addr : pure_test () :=
  parsed ← okay (parse_connect_target "127.0.0.1:7788");
  match parsed with
  | Address addr =>
      expected ← some (parse_socket "127.0.0.1:7788");
      assert_eq addr expected
  | Discover _ => panic
  end.

Definition parse_connect_target_accepts_discover_keyword : pure_test () :=
  parsed ← okay (parse_connect_target "discover");
  match parsed with
  | Discover name => assert_eq name None
  | Address _ => panic
  end.

Definition parse_connect_target_accepts_named_discover_target : pure_test () :=
  parsed ← okay (parse_connect_target "discover:motionstage-blender");
  match parsed with
  | Discover name => assert_eq name (Some "motionstage-blender")
  | Address _ => panic
  end.

Definition qualify_source_output_prefixes_device_id_when_needed : pure_test () :=
  device_id ← some (uuid_parse "00000000-0000-0000-0000-000000000111");
  assert_eq (Cli.qualify_source_output device_id "demo.position")
    "00000000-0000-0000-0000-000000000111.demo.position";;
  assert_eq (Cli.qualify_source_output device_id "00000000-0000-0000-0000-000000000111.demo.position")
    "00000000-0000-0000-0000-000000000111.demo.position";;
  assert_eq (Cli.qualify_source_output device_id "00000000-0000-0000-0000-000000000999.demo.position")
    "00000000-0000-0000-0000-000000000999.demo.position".

Definition select_preferred_endpoint_prefers_ipv4_non_loopback : pure_test () :=
  let service := mkDiscovered "demo" "demo._motionstage._udp.local." "demo.local."
    [V4 127 0 0 1; V6 [# 0; 0; 0; 0; 0; 0; 0; 1]; V4 192 168 1 20] 7788 (Some 1) (Some 2) in
  endpoint ← some (select_preferred_endpoint service);
  expected ← some (parse_socket "192.168.1.20:7788");
  assert_eq endpoint expected.

(** A client that has the handshake with the server of the state: the server's
    half, and what the client makes of what it is sent. *)
Definition shake (session_id : Uuid) (h : ClientHello) : server_test Wire :=
  self ← get;
  match meet 0 session_id h no_secrets self with
  | (c, Ok _) => put c.(server);; mret (wire_of c.(sent) "closed")
  | (c, _) => put c.(server);; panic
  end.

Definition simulated_client_connects_via_quic_handshake `{Network} (source_device session_id : Uuid) :
    server_test () :=
  unwrap server_start;;
  w ← shake session_id (simulated_hello source_device "demo.position");
  okay (dial_simulated_client (Dialed w) source_device "demo.position");;
  self ← get;
  session ← some (session_info source_device self);
  assert_eq session.(s_state) Active;;
  unwrap server_stop.

(** ** The Swift bindings *)

Definition swift_qualify_source_output_applies_device_prefix_once : pure_test () :=
  device ← some (uuid_parse "018f5ca9-e8f4-7fd3-a923-4b7a25a6f4df");
  let output := SwiftSdk.qualify_source_output device "camera.position" in
  assert_eq output (uuid_to_string device +:+ ".camera.position");;
  let already_qualified := SwiftSdk.qualify_source_output device output in
  assert_eq already_qualified output.

(** The client asks for the mode: the server's replies arrive at its end. *)
Definition arriving (replies : list ControlMessage) (client : option SwiftClient) : option SwiftClient :=
  c ← client;
  session ← c.(sw_session);
  let w := session.(cs_wire) in
  Some (set_session (Some (mkConnected (set_inbox (w.(inbox) ++ (Incoming <$> replies)) w)
    session.(cs_session_id))) c).

Definition ffi_client_connects_and_sends_motion_to_server `{Network} (device session_id : Uuid) :
    server_test () :=
  unwrap server_start;;
  self ← get;
  let bound := self.(config).(quic_bind_addr) in
  let server_addr := bound.(Server.ip) +:+ ":" +:+ show_Z bound.(Server.port) in
  let client := motionstage_swift_client_new (Some "ios-client") (Some "camera.position") device true in
  c ← some client;
  let h := swift_hello c in
  w ← shake session_id h;
  let '(client, connect_status) :=
    motionstage_swift_client_connect client (Some server_addr) None None (Dialed w) in
  assert_eq connect_status STATUS_OK;;
  let '(client, session_id) := motionstage_swift_client_session_id client in
  assert_that (bool_decide (is_Some session_id));;
  replies ← exchange h (CSetMode Live);
  let '(client, mode_status, active_mode) :=
    motionstage_swift_client_set_mode (arriving replies client) MODE_LIVE (Some MODE_IDLE) in
  assert_eq mode_status STATUS_OK;;
  assert_eq active_mode (Some MODE_LIVE);;
  let '(client, send_status) :=
    motionstage_swift_client_send_vec3f client (lit "1.0") (lit "2.0") (lit "3.0") 5 in
  assert_eq send_status STATUS_OK;;
  let '(client, disconnect_status) := motionstage_swift_client_disconnect client in
  assert_eq disconnect_status STATUS_OK;;
  unwrap server_stop.

(** ** The Python bindings *)

Definition rust_binding_constructs_server `{Network} (w : rtc_world) : pure_test () :=
  server ← okay (PyMotionStageServer_new (Some "py-test") (Ok ()) w ∅);
  okay (result (py_start;; py_stop) (server : test_server)).

(** ** [motionstage-testkit] *)

Definition bootstrap_client_reaches_active_state (device_id session_id : Uuid) : server_test () :=
  device_id ← unwrap (bootstrap_motion_client device_id session_id "ipad");
  self ← get;
  session ← some (session_info device_id self);
  assert_eq session.(s_state) Active.

(** The position of an object of scene 1 under the output of a device. *)
Definition follow (mapping_id device_id object_id : Uuid) (output : string) : server_test () :=
  unwrap (ServerRuntime.create_mapping mapping_id (mkRequest device_id output 1%N object_id "position" None) 0);;
  mret ().
Definition at_origin (object_id : Uuid) (name : string) : SceneObject :=
  with_attribute (SceneAttribute_new "position" (vec3f "0.0" "0.0" "0.0")) (SceneObject_new object_id name).

(** A client, the camera of a scene that follows it, live. *)
Definition soak_setup (scene_name : string) : server_test Uuid :=
  device_id ← unwrap (bootstrap_motion_client 7%N 107%N "ipad");
  unwrap (ServerRuntime.load_scene (with_object (at_origin 2%N "camera") (Scene_new 1%N scene_name)));;
  follow 100%N device_id 2%N "pose_pos";;
  unwrap (ServerRuntime.set_mode Live 0);;
  mret device_id.

Definition soak_test_hits_motion_pipeline (elapsed : list Z) : server_test () :=
  device_id ← soak_setup "soak";
  report ← unwrap (run_motion_soak device_id 120000000 60 "pose_pos" elapsed);
  assert_that (bool_decide (0 < report.(sent_samples)));;
  assert_that (bool_decide (0 < report.(report_tick_count)));;
  assert_that (bool_decide (report.(sent_samples) ≤ report.(report_metrics).(motion_updates))).

Definition soak_test_reaches_120hz_ingest_target_window (elapsed : list Z) : server_test () :=
  device_id ← soak_setup "soak120";
  report ← unwrap (run_motion_soak device_id 250000000 120 "pose_pos" elapsed);
  assert_that (bool_decide (20 ≤ report.(sent_samples)));;
  assert_that (bool_decide (report.(sent_samples) ≤ report.(report_metrics).(motion_updates)));;
  assert_that (bool_decide (report.(sent_samples) ≤ report.(report_tick_count))).

(** Of the two soaks that run together, the second goes on when the first is
    over: one of the orders the executor may take. *)
Definition multi_client_soak_accumulates_motion_updates (elapsed_a elapsed_b : list Z) : server_test () :=
  device_a ← unwrap (bootstrap_motion_client 7%N 107%N "ipad-a");
  device_b ← unwrap (bootstrap_motion_client 8%N 108%N "ipad-b");
  unwrap (ServerRuntime.load_scene (with_object (at_origin 3%N "camera_b")
    (with_object (at_origin 2%N "camera_a") (Scene_new 1%N "multi"))));;
  follow 100%N device_a 2%N "pose_a";;
  follow 101%N device_b 3%N "pose_b";;
  unwrap (ServerRuntime.set_mode Live 0);;
  a_report ← unwrap (run_motion_soak device_a 120000000 60 "pose_a" elapsed_a);
  b_report ← unwrap (run_motion_soak device_b 120000000 60 "pose_b" elapsed_b);
  self ← get;
  assert_that (bool_decide
    (a_report.(sent_samples) + b_report.(sent_samples) ≤ (server_metrics self).(motion_updates))).

(** [ticks] and [publishes] rounds of the two loops run while the test sleeps. *)
Definition scheduler_counters_progress_at_runtime_start `{Network} (ticks : list Z) (publishes : nat) :
    server_test () :=
  unwrap server_start;;
  mapM (λ now, unwrap (tick_round now)) ticks;;
  mapM (λ _, unwrap publish_round) (seq 0 publishes);;
  self ← get;
  let metrics := server_metrics self in
  assert_that (bool_decide (0 < metrics.(scheduler_ticks)));;
  assert_that (bool_decide (0 < metrics.(publish_ticks)));;
  unwrap server_stop.

(** ** All of them *)

Definition client_tests : list (pure_test ()) :=
  [parse_record_start_with_path; parse_tunable_commands; sine_vec3_uses_expected_phase_offsets;
   parse_connect_target_accepts_socket_addr; parse_connect_target_accepts_discover_keyword;
   parse_connect_target_accepts_named_discover_target; qualify_source_output_prefixes_device_id_when_needed;
   select_preferred_endpoint_prefers_ipv4_non_loopback; swift_qualify_source_output_applies_device_prefix_once;
   rust_binding_constructs_server (H:=some_port) 0%nat].

(** What the clock reads while a soak waits for its next round: every
    sixtieth, every 120th of a second. *)
Definition every (interval : Z) (rounds : nat) : list Z := (λ i, Z.of_nat i * interval) <$> seq 0 rounds.

Definition client_server_tests : list (server_test () * test_server) :=
  [(simulated_client_connects_via_quic_handshake (H:=some_port) 7%N 107%N, local_server);
   (ffi_client_connects_and_sends_motion_to_server (H:=some_port) 7%N 107%N, local_server);
   (bootstrap_client_reaches_active_state 7%N 107%N, default_server);
   (soak_test_hits_motion_pipeline (every 16666666 9), default_server);
   (soak_test_reaches_120hz_ingest_target_window (every 8333333 32), default_server);
   (multi_client_soak_accumulates_motion_updates (every 16666666 9) (every 16666666 9), default_server);
   (scheduler_counters_progress_at_runtime_start (H:=some_port) [8; 16; 24] 2, local_server)].

(** The models of the clients, and of the servers they talk to, pass the tests
    of the command line, the bindings and the harness. *)
Theorem client_tests_pass :
  Forall (λ t, passes t ()) client_tests ∧ Forall (λ t, passes t.1 t.2) client_server_tests.
Proof.
  split; repeat (apply Forall_cons; split; [vm_compute; reflexivity|]); by apply Forall_nil.
Qed.
